(** * Replay of the remote layer tree in [LayerTreeHostProxy] (Qt port)

    A shallow embedding of
    [Source/WebKit2/UIProcess/qt/LayerTreeHostProxyQt.cpp]: the queue of
    messages to the renderer, the loop that drains it during paint, and the
    effect of every message on the mirrored layer tree, on the tiled backing
    stores and on the registry of directly composited images.

    Objects that C++ reaches through pointers live in explicit stores:
    [m_heap] maps the address of a [GraphicsLayer] to its members and
    [m_stores] the address of a [LayerBackingStore] to its tiles, so that
    two references to one layer (from [m_layers], from a parent's child
    list, from the root container) see the same object.  A
    [GraphicsLayerTextureMapper] and the [TextureMapperLayer] it owns are
    one record here.  A function returns [None] where the C++ code fails an
    [ASSERT] or dereferences a null or end pointer. *)

From Stdlib Require Import ZArith QArith.
From stdpp Require Import gmap strings list fin_maps.

(** ** Values carried by the messages *)

(** A C++ [float] or [double] attribute is carried as a rational; the only
    arithmetic done on one is the pause offset of an animation.  Two values
    are compared by their representation (no NaN). *)
Abbreviation float := Q (only parsing).
Abbreviation FloatPoint := (Q * Q)%type (only parsing).
Abbreviation FloatSize := (Q * Q)%type (only parsing).
Abbreviation IntSize := (Z * Z)%type (only parsing).
Abbreviation FloatPoint3D := (Q * Q * Q)%type (only parsing).
Abbreviation TransformationMatrix := (list Q) (only parsing).
(** The pixels of a [ShareableBitmap], named by its handle. *)
Abbreviation ShareableBitmap := N (only parsing).

#[global] Instance Q_eq_dec : EqDecision Q.
Proof. solve_decision. Defined.

Record IntRect := mkIntRect { ir_x : Z; ir_y : Z; ir_width : Z; ir_height : Z }.
Record FloatRect := mkFloatRect { fr_x : Q; fr_y : Q; fr_width : Q; fr_height : Q }.

#[global] Instance IntRect_eq_dec : EqDecision IntRect.
Proof. solve_decision. Defined.
#[global] Instance FloatRect_eq_dec : EqDecision FloatRect.
Proof. solve_decision. Defined.

Definition InvalidWebLayerID : N := 0%N.

(** Modelled from the spec: [WebLayerAnimation] (declared in
    [WebLayerTreeInfo.h], not among the sources): one of the operations
    {Add, Remove, Pause} with the members that [syncLayerParameters] hands
    to the layer. *)
Inductive AnimationOperation := AddAnimation | RemoveAnimation | PauseAnimation.

Record WebLayerAnimation := mkWebLayerAnimation {
  wa_name : string;
  wa_operation : AnimationOperation;
  wa_boxSize : IntSize;
  wa_animation : N;
  wa_keyframeList : N;
  wa_startTime : Q
}.

(** Modelled from the spec: [WebLayerInfo], the descriptor of a layer
    (declared in [WebLayerTreeInfo.h], not among the sources), with the
    members that [syncLayerParameters] reads. *)
Record WebLayerInfo := mkWebLayerInfo {
  li_name : string;
  li_id : N;
  li_replica : N;
  li_mask : N;
  li_imageBackingStoreID : Z;
  li_pos : FloatPoint;
  li_anchorPoint : FloatPoint3D;
  li_size : FloatSize;
  li_transform : TransformationMatrix;
  li_opacity : Q;
  li_childrenTransform : TransformationMatrix;
  li_contentsRect : FloatRect;
  li_animations : list WebLayerAnimation;
  li_children : list N;
  li_contentsOpaque : bool;
  li_drawsContent : bool;
  li_backfaceVisible : bool;
  li_masksToBounds : bool;
  li_preserves3D : bool;
  li_isRootLayer : bool;
  li_imageIsUpdated : bool
}.

(** The closed set of messages, one constructor per [Type] of
    [LayerTreeMessageToRenderer], with the members of its data struct. *)
Inductive LayerTreeMessageToRenderer :=
  | DeleteLayer (layerID : N)
  | CreateTile (layerID : N) (remoteTileID : Z) (scale : Q)
  | RemoveTile (layerID : N) (remoteTileID : Z)
  | UpdateTile (layerID : N) (remoteTileID : Z) (sourceRect targetRect : IntRect)
               (bitmap : ShareableBitmap)
  | CreateImage (imageID : Z) (bitmap : ShareableBitmap)
  | DestroyImage (imageID : Z)
  | SyncLayerParameters (layerInfo : WebLayerInfo)
  | FlushLayerChanges
  | SetRootLayer (layerID : N).

(** Modelled from the spec: [UpdateInfo] (declared in [UpdateInfo.h], not
    among the sources), with the members that the tile messages are built
    from. *)
Record UpdateInfo := mkUpdateInfo {
  ui_updateScaleFactor : Q;
  ui_bitmapHandle : ShareableBitmap;
  ui_updateRects : list IntRect;
  ui_updateRectBounds : IntRect
}.

(** Messages the proxy sends back to the web process
    ([Messages::LayerTreeHost]). *)
Inductive OutgoingMessage := RenderNextFrame | PurgeBackingStores.

#[global] Instance OutgoingMessage_eq_dec : EqDecision OutgoingMessage.
Proof. solve_decision. Defined.

(** [TextureMapper::AccelerationMode]. *)
Inductive AccelerationMode := SoftwareMode | OpenGLMode.

(** ** Objects *)

(** Modelled from the spec: [TextureMapperTiledBackingStore] (not among the
    sources), the backing of a directly composited image: "a texture
    backing built from a shared pixel buffer". *)
Record TextureMapperBackingStore := mkImageBacking { tb_image : ShareableBitmap }.

(** Modelled from the spec: an element of "the node's animation set" (the
    animation classes are not among the sources): what [addAnimation]
    received, and the offset at which the animation was paused. *)
Record AnimationState := mkAnimationState {
  as_keyframes : N;
  as_boxSize : IntSize;
  as_animation : N;
  as_startTime : Q;
  as_pausedAt : option Q
}.

(** Modelled from the spec: the content of one tile update, "a source/target
    rect and bitmap". *)
Record TileBuffer := mkTileBuffer {
  tu_sourceRect : IntRect;
  tu_targetRect : IntRect;
  tu_bitmap : ShareableBitmap
}.

(** Modelled from the spec: [LayerBackingStoreTile] (not among the
    sources): the scale bound at creation, the update waiting for the next
    swap and the content on screen. *)
Record LayerBackingStoreTile := mkTile {
  tile_scale : Q;
  tile_backBuffer : option TileBuffer;
  tile_texture : option TileBuffer
}.

(** Modelled from the spec: [LayerBackingStore] (not among the sources), "a
    mapping from tile-ID to Tile". *)
Abbreviation LayerBackingStore := (gmap Z LayerBackingStoreTile) (only parsing).

(** Modelled from the spec: [GraphicsLayer] with its [TextureMapperLayer]
    (not among the sources): the members that the setters called in
    [LayerTreeHostProxyQt.cpp] assign, the links of the tree, the content
    and the animation set.  A pointer to a layer is an address of
    [m_heap], a pointer to a backing store an address of [m_stores]. *)

Record GraphicsLayer := mkGraphicsLayer {
  m_name : string;
  m_replicaLayer : option nat;
  m_maskLayer : option nat;
  m_position : FloatPoint;
  m_size : FloatSize;
  m_transform : TransformationMatrix;
  m_anchorPoint : FloatPoint3D;
  m_childrenTransform : TransformationMatrix;
  m_backfaceVisibility : bool;
  m_contentsOpaque : bool;
  m_contentsRect : FloatRect;
  m_drawsContent : bool;
  m_masksToBounds : bool;
  m_opacity : float;
  m_preserves3D : bool;
  m_children : list nat;
  m_parent : option nat;
  m_contentsLayer : option TextureMapperBackingStore;
  m_backingStore : option nat;
  m_animations : gmap string AnimationState;
  m_shouldUpdateBackingStoreFromLayer : bool
}.

(** One functional setter per member; each returns the layer with that
    member replaced and every other member unchanged. *)
Definition setName (v : string) (x : GraphicsLayer) : GraphicsLayer :=
  {| m_name := v; m_replicaLayer := m_replicaLayer x; m_maskLayer := m_maskLayer x;
     m_position := m_position x; m_size := m_size x; m_transform := m_transform x;
     m_anchorPoint := m_anchorPoint x; m_childrenTransform := m_childrenTransform x;
     m_backfaceVisibility := m_backfaceVisibility x;
     m_contentsOpaque := m_contentsOpaque x; m_contentsRect := m_contentsRect x;
     m_drawsContent := m_drawsContent x; m_masksToBounds := m_masksToBounds x;
     m_opacity := m_opacity x; m_preserves3D := m_preserves3D x;
     m_children := m_children x; m_parent := m_parent x;
     m_contentsLayer := m_contentsLayer x; m_backingStore := m_backingStore x;
     m_animations := m_animations x;
     m_shouldUpdateBackingStoreFromLayer := m_shouldUpdateBackingStoreFromLayer x |}.
Definition setReplicatedByLayer (v : option nat) (x : GraphicsLayer) : GraphicsLayer :=
  {| m_name := m_name x; m_replicaLayer := v; m_maskLayer := m_maskLayer x;
     m_position := m_position x; m_size := m_size x; m_transform := m_transform x;
     m_anchorPoint := m_anchorPoint x; m_childrenTransform := m_childrenTransform x;
     m_backfaceVisibility := m_backfaceVisibility x;
     m_contentsOpaque := m_contentsOpaque x; m_contentsRect := m_contentsRect x;
     m_drawsContent := m_drawsContent x; m_masksToBounds := m_masksToBounds x;
     m_opacity := m_opacity x; m_preserves3D := m_preserves3D x;
     m_children := m_children x; m_parent := m_parent x;
     m_contentsLayer := m_contentsLayer x; m_backingStore := m_backingStore x;
     m_animations := m_animations x;
     m_shouldUpdateBackingStoreFromLayer := m_shouldUpdateBackingStoreFromLayer x |}.
Definition setMaskLayer (v : option nat) (x : GraphicsLayer) : GraphicsLayer :=
  {| m_name := m_name x; m_replicaLayer := m_replicaLayer x; m_maskLayer := v;
     m_position := m_position x; m_size := m_size x; m_transform := m_transform x;
     m_anchorPoint := m_anchorPoint x; m_childrenTransform := m_childrenTransform x;
     m_backfaceVisibility := m_backfaceVisibility x;
     m_contentsOpaque := m_contentsOpaque x; m_contentsRect := m_contentsRect x;
     m_drawsContent := m_drawsContent x; m_masksToBounds := m_masksToBounds x;
     m_opacity := m_opacity x; m_preserves3D := m_preserves3D x;
     m_children := m_children x; m_parent := m_parent x;
     m_contentsLayer := m_contentsLayer x; m_backingStore := m_backingStore x;
     m_animations := m_animations x;
     m_shouldUpdateBackingStoreFromLayer := m_shouldUpdateBackingStoreFromLayer x |}.
Definition setPosition (v : FloatPoint) (x : GraphicsLayer) : GraphicsLayer :=
  {| m_name := m_name x; m_replicaLayer := m_replicaLayer x; m_maskLayer := m_maskLayer x;
     m_position := v; m_size := m_size x; m_transform := m_transform x;
     m_anchorPoint := m_anchorPoint x; m_childrenTransform := m_childrenTransform x;
     m_backfaceVisibility := m_backfaceVisibility x;
     m_contentsOpaque := m_contentsOpaque x; m_contentsRect := m_contentsRect x;
     m_drawsContent := m_drawsContent x; m_masksToBounds := m_masksToBounds x;
     m_opacity := m_opacity x; m_preserves3D := m_preserves3D x;
     m_children := m_children x; m_parent := m_parent x;
     m_contentsLayer := m_contentsLayer x; m_backingStore := m_backingStore x;
     m_animations := m_animations x;
     m_shouldUpdateBackingStoreFromLayer := m_shouldUpdateBackingStoreFromLayer x |}.
Definition setSize (v : FloatSize) (x : GraphicsLayer) : GraphicsLayer :=
  {| m_name := m_name x; m_replicaLayer := m_replicaLayer x; m_maskLayer := m_maskLayer x;
     m_position := m_position x; m_size := v; m_transform := m_transform x;
     m_anchorPoint := m_anchorPoint x; m_childrenTransform := m_childrenTransform x;
     m_backfaceVisibility := m_backfaceVisibility x;
     m_contentsOpaque := m_contentsOpaque x; m_contentsRect := m_contentsRect x;
     m_drawsContent := m_drawsContent x; m_masksToBounds := m_masksToBounds x;
     m_opacity := m_opacity x; m_preserves3D := m_preserves3D x;
     m_children := m_children x; m_parent := m_parent x;
     m_contentsLayer := m_contentsLayer x; m_backingStore := m_backingStore x;
     m_animations := m_animations x;
     m_shouldUpdateBackingStoreFromLayer := m_shouldUpdateBackingStoreFromLayer x |}.
Definition setTransform (v : TransformationMatrix) (x : GraphicsLayer) : GraphicsLayer :=
  {| m_name := m_name x; m_replicaLayer := m_replicaLayer x; m_maskLayer := m_maskLayer x;
     m_position := m_position x; m_size := m_size x; m_transform := v;
     m_anchorPoint := m_anchorPoint x; m_childrenTransform := m_childrenTransform x;
     m_backfaceVisibility := m_backfaceVisibility x;
     m_contentsOpaque := m_contentsOpaque x; m_contentsRect := m_contentsRect x;
     m_drawsContent := m_drawsContent x; m_masksToBounds := m_masksToBounds x;
     m_opacity := m_opacity x; m_preserves3D := m_preserves3D x;
     m_children := m_children x; m_parent := m_parent x;
     m_contentsLayer := m_contentsLayer x; m_backingStore := m_backingStore x;
     m_animations := m_animations x;
     m_shouldUpdateBackingStoreFromLayer := m_shouldUpdateBackingStoreFromLayer x |}.
Definition setAnchorPoint (v : FloatPoint3D) (x : GraphicsLayer) : GraphicsLayer :=
  {| m_name := m_name x; m_replicaLayer := m_replicaLayer x; m_maskLayer := m_maskLayer x;
     m_position := m_position x; m_size := m_size x; m_transform := m_transform x;
     m_anchorPoint := v; m_childrenTransform := m_childrenTransform x;
     m_backfaceVisibility := m_backfaceVisibility x;
     m_contentsOpaque := m_contentsOpaque x; m_contentsRect := m_contentsRect x;
     m_drawsContent := m_drawsContent x; m_masksToBounds := m_masksToBounds x;
     m_opacity := m_opacity x; m_preserves3D := m_preserves3D x;
     m_children := m_children x; m_parent := m_parent x;
     m_contentsLayer := m_contentsLayer x; m_backingStore := m_backingStore x;
     m_animations := m_animations x;
     m_shouldUpdateBackingStoreFromLayer := m_shouldUpdateBackingStoreFromLayer x |}.
Definition setChildrenTransform (v : TransformationMatrix) (x : GraphicsLayer) : GraphicsLayer :=
  {| m_name := m_name x; m_replicaLayer := m_replicaLayer x; m_maskLayer := m_maskLayer x;
     m_position := m_position x; m_size := m_size x; m_transform := m_transform x;
     m_anchorPoint := m_anchorPoint x; m_childrenTransform := v;
     m_backfaceVisibility := m_backfaceVisibility x;
     m_contentsOpaque := m_contentsOpaque x; m_contentsRect := m_contentsRect x;
     m_drawsContent := m_drawsContent x; m_masksToBounds := m_masksToBounds x;
     m_opacity := m_opacity x; m_preserves3D := m_preserves3D x;
     m_children := m_children x; m_parent := m_parent x;
     m_contentsLayer := m_contentsLayer x; m_backingStore := m_backingStore x;
     m_animations := m_animations x;
     m_shouldUpdateBackingStoreFromLayer := m_shouldUpdateBackingStoreFromLayer x |}.
Definition setBackfaceVisibility (v : bool) (x : GraphicsLayer) : GraphicsLayer :=
  {| m_name := m_name x; m_replicaLayer := m_replicaLayer x; m_maskLayer := m_maskLayer x;
     m_position := m_position x; m_size := m_size x; m_transform := m_transform x;
     m_anchorPoint := m_anchorPoint x; m_childrenTransform := m_childrenTransform x;
     m_backfaceVisibility := v; m_contentsOpaque := m_contentsOpaque x;
     m_contentsRect := m_contentsRect x; m_drawsContent := m_drawsContent x;
     m_masksToBounds := m_masksToBounds x; m_opacity := m_opacity x;
     m_preserves3D := m_preserves3D x; m_children := m_children x; m_parent := m_parent x;
     m_contentsLayer := m_contentsLayer x; m_backingStore := m_backingStore x;
     m_animations := m_animations x;
     m_shouldUpdateBackingStoreFromLayer := m_shouldUpdateBackingStoreFromLayer x |}.
Definition setContentsOpaque (v : bool) (x : GraphicsLayer) : GraphicsLayer :=
  {| m_name := m_name x; m_replicaLayer := m_replicaLayer x; m_maskLayer := m_maskLayer x;
     m_position := m_position x; m_size := m_size x; m_transform := m_transform x;
     m_anchorPoint := m_anchorPoint x; m_childrenTransform := m_childrenTransform x;
     m_backfaceVisibility := m_backfaceVisibility x; m_contentsOpaque := v;
     m_contentsRect := m_contentsRect x; m_drawsContent := m_drawsContent x;
     m_masksToBounds := m_masksToBounds x; m_opacity := m_opacity x;
     m_preserves3D := m_preserves3D x; m_children := m_children x; m_parent := m_parent x;
     m_contentsLayer := m_contentsLayer x; m_backingStore := m_backingStore x;
     m_animations := m_animations x;
     m_shouldUpdateBackingStoreFromLayer := m_shouldUpdateBackingStoreFromLayer x |}.
Definition setContentsRect (v : FloatRect) (x : GraphicsLayer) : GraphicsLayer :=
  {| m_name := m_name x; m_replicaLayer := m_replicaLayer x; m_maskLayer := m_maskLayer x;
     m_position := m_position x; m_size := m_size x; m_transform := m_transform x;
     m_anchorPoint := m_anchorPoint x; m_childrenTransform := m_childrenTransform x;
     m_backfaceVisibility := m_backfaceVisibility x;
     m_contentsOpaque := m_contentsOpaque x; m_contentsRect := v;
     m_drawsContent := m_drawsContent x; m_masksToBounds := m_masksToBounds x;
     m_opacity := m_opacity x; m_preserves3D := m_preserves3D x;
     m_children := m_children x; m_parent := m_parent x;
     m_contentsLayer := m_contentsLayer x; m_backingStore := m_backingStore x;
     m_animations := m_animations x;
     m_shouldUpdateBackingStoreFromLayer := m_shouldUpdateBackingStoreFromLayer x |}.
Definition setDrawsContent (v : bool) (x : GraphicsLayer) : GraphicsLayer :=
  {| m_name := m_name x; m_replicaLayer := m_replicaLayer x; m_maskLayer := m_maskLayer x;
     m_position := m_position x; m_size := m_size x; m_transform := m_transform x;
     m_anchorPoint := m_anchorPoint x; m_childrenTransform := m_childrenTransform x;
     m_backfaceVisibility := m_backfaceVisibility x;
     m_contentsOpaque := m_contentsOpaque x; m_contentsRect := m_contentsRect x;
     m_drawsContent := v; m_masksToBounds := m_masksToBounds x; m_opacity := m_opacity x;
     m_preserves3D := m_preserves3D x; m_children := m_children x; m_parent := m_parent x;
     m_contentsLayer := m_contentsLayer x; m_backingStore := m_backingStore x;
     m_animations := m_animations x;
     m_shouldUpdateBackingStoreFromLayer := m_shouldUpdateBackingStoreFromLayer x |}.
Definition setMasksToBounds (v : bool) (x : GraphicsLayer) : GraphicsLayer :=
  {| m_name := m_name x; m_replicaLayer := m_replicaLayer x; m_maskLayer := m_maskLayer x;
     m_position := m_position x; m_size := m_size x; m_transform := m_transform x;
     m_anchorPoint := m_anchorPoint x; m_childrenTransform := m_childrenTransform x;
     m_backfaceVisibility := m_backfaceVisibility x;
     m_contentsOpaque := m_contentsOpaque x; m_contentsRect := m_contentsRect x;
     m_drawsContent := m_drawsContent x; m_masksToBounds := v; m_opacity := m_opacity x;
     m_preserves3D := m_preserves3D x; m_children := m_children x; m_parent := m_parent x;
     m_contentsLayer := m_contentsLayer x; m_backingStore := m_backingStore x;
     m_animations := m_animations x;
     m_shouldUpdateBackingStoreFromLayer := m_shouldUpdateBackingStoreFromLayer x |}.
Definition setOpacity (v : float) (x : GraphicsLayer) : GraphicsLayer :=
  {| m_name := m_name x; m_replicaLayer := m_replicaLayer x; m_maskLayer := m_maskLayer x;
     m_position := m_position x; m_size := m_size x; m_transform := m_transform x;
     m_anchorPoint := m_anchorPoint x; m_childrenTransform := m_childrenTransform x;
     m_backfaceVisibility := m_backfaceVisibility x;
     m_contentsOpaque := m_contentsOpaque x; m_contentsRect := m_contentsRect x;
     m_drawsContent := m_drawsContent x; m_masksToBounds := m_masksToBounds x;
     m_opacity := v; m_preserves3D := m_preserves3D x; m_children := m_children x;
     m_parent := m_parent x; m_contentsLayer := m_contentsLayer x;
     m_backingStore := m_backingStore x; m_animations := m_animations x;
     m_shouldUpdateBackingStoreFromLayer := m_shouldUpdateBackingStoreFromLayer x |}.
Definition setPreserves3D (v : bool) (x : GraphicsLayer) : GraphicsLayer :=
  {| m_name := m_name x; m_replicaLayer := m_replicaLayer x; m_maskLayer := m_maskLayer x;
     m_position := m_position x; m_size := m_size x; m_transform := m_transform x;
     m_anchorPoint := m_anchorPoint x; m_childrenTransform := m_childrenTransform x;
     m_backfaceVisibility := m_backfaceVisibility x;
     m_contentsOpaque := m_contentsOpaque x; m_contentsRect := m_contentsRect x;
     m_drawsContent := m_drawsContent x; m_masksToBounds := m_masksToBounds x;
     m_opacity := m_opacity x; m_preserves3D := v; m_children := m_children x;
     m_parent := m_parent x; m_contentsLayer := m_contentsLayer x;
     m_backingStore := m_backingStore x; m_animations := m_animations x;
     m_shouldUpdateBackingStoreFromLayer := m_shouldUpdateBackingStoreFromLayer x |}.
Definition setChildList (v : list nat) (x : GraphicsLayer) : GraphicsLayer :=
  {| m_name := m_name x; m_replicaLayer := m_replicaLayer x; m_maskLayer := m_maskLayer x;
     m_position := m_position x; m_size := m_size x; m_transform := m_transform x;
     m_anchorPoint := m_anchorPoint x; m_childrenTransform := m_childrenTransform x;
     m_backfaceVisibility := m_backfaceVisibility x;
     m_contentsOpaque := m_contentsOpaque x; m_contentsRect := m_contentsRect x;
     m_drawsContent := m_drawsContent x; m_masksToBounds := m_masksToBounds x;
     m_opacity := m_opacity x; m_preserves3D := m_preserves3D x; m_children := v;
     m_parent := m_parent x; m_contentsLayer := m_contentsLayer x;
     m_backingStore := m_backingStore x; m_animations := m_animations x;
     m_shouldUpdateBackingStoreFromLayer := m_shouldUpdateBackingStoreFromLayer x |}.
Definition setParent (v : option nat) (x : GraphicsLayer) : GraphicsLayer :=
  {| m_name := m_name x; m_replicaLayer := m_replicaLayer x; m_maskLayer := m_maskLayer x;
     m_position := m_position x; m_size := m_size x; m_transform := m_transform x;
     m_anchorPoint := m_anchorPoint x; m_childrenTransform := m_childrenTransform x;
     m_backfaceVisibility := m_backfaceVisibility x;
     m_contentsOpaque := m_contentsOpaque x; m_contentsRect := m_contentsRect x;
     m_drawsContent := m_drawsContent x; m_masksToBounds := m_masksToBounds x;
     m_opacity := m_opacity x; m_preserves3D := m_preserves3D x;
     m_children := m_children x; m_parent := v; m_contentsLayer := m_contentsLayer x;
     m_backingStore := m_backingStore x; m_animations := m_animations x;
     m_shouldUpdateBackingStoreFromLayer := m_shouldUpdateBackingStoreFromLayer x |}.
Definition setContentsToMedia (v : option TextureMapperBackingStore) (x : GraphicsLayer) : GraphicsLayer :=
  {| m_name := m_name x; m_replicaLayer := m_replicaLayer x; m_maskLayer := m_maskLayer x;
     m_position := m_position x; m_size := m_size x; m_transform := m_transform x;
     m_anchorPoint := m_anchorPoint x; m_childrenTransform := m_childrenTransform x;
     m_backfaceVisibility := m_backfaceVisibility x;
     m_contentsOpaque := m_contentsOpaque x; m_contentsRect := m_contentsRect x;
     m_drawsContent := m_drawsContent x; m_masksToBounds := m_masksToBounds x;
     m_opacity := m_opacity x; m_preserves3D := m_preserves3D x;
     m_children := m_children x; m_parent := m_parent x; m_contentsLayer := v;
     m_backingStore := m_backingStore x; m_animations := m_animations x;
     m_shouldUpdateBackingStoreFromLayer := m_shouldUpdateBackingStoreFromLayer x |}.
Definition setBackingStore (v : option nat) (x : GraphicsLayer) : GraphicsLayer :=
  {| m_name := m_name x; m_replicaLayer := m_replicaLayer x; m_maskLayer := m_maskLayer x;
     m_position := m_position x; m_size := m_size x; m_transform := m_transform x;
     m_anchorPoint := m_anchorPoint x; m_childrenTransform := m_childrenTransform x;
     m_backfaceVisibility := m_backfaceVisibility x;
     m_contentsOpaque := m_contentsOpaque x; m_contentsRect := m_contentsRect x;
     m_drawsContent := m_drawsContent x; m_masksToBounds := m_masksToBounds x;
     m_opacity := m_opacity x; m_preserves3D := m_preserves3D x;
     m_children := m_children x; m_parent := m_parent x;
     m_contentsLayer := m_contentsLayer x; m_backingStore := v;
     m_animations := m_animations x;
     m_shouldUpdateBackingStoreFromLayer := m_shouldUpdateBackingStoreFromLayer x |}.
Definition setAnimations (v : gmap string AnimationState) (x : GraphicsLayer) : GraphicsLayer :=
  {| m_name := m_name x; m_replicaLayer := m_replicaLayer x; m_maskLayer := m_maskLayer x;
     m_position := m_position x; m_size := m_size x; m_transform := m_transform x;
     m_anchorPoint := m_anchorPoint x; m_childrenTransform := m_childrenTransform x;
     m_backfaceVisibility := m_backfaceVisibility x;
     m_contentsOpaque := m_contentsOpaque x; m_contentsRect := m_contentsRect x;
     m_drawsContent := m_drawsContent x; m_masksToBounds := m_masksToBounds x;
     m_opacity := m_opacity x; m_preserves3D := m_preserves3D x;
     m_children := m_children x; m_parent := m_parent x;
     m_contentsLayer := m_contentsLayer x; m_backingStore := m_backingStore x;
     m_animations := v;
     m_shouldUpdateBackingStoreFromLayer := m_shouldUpdateBackingStoreFromLayer x |}.
Definition setShouldUpdateBackingStoreFromLayer (v : bool) (x : GraphicsLayer) : GraphicsLayer :=
  {| m_name := m_name x; m_replicaLayer := m_replicaLayer x; m_maskLayer := m_maskLayer x;
     m_position := m_position x; m_size := m_size x; m_transform := m_transform x;
     m_anchorPoint := m_anchorPoint x; m_childrenTransform := m_childrenTransform x;
     m_backfaceVisibility := m_backfaceVisibility x;
     m_contentsOpaque := m_contentsOpaque x; m_contentsRect := m_contentsRect x;
     m_drawsContent := m_drawsContent x; m_masksToBounds := m_masksToBounds x;
     m_opacity := m_opacity x; m_preserves3D := m_preserves3D x;
     m_children := m_children x; m_parent := m_parent x;
     m_contentsLayer := m_contentsLayer x; m_backingStore := m_backingStore x;
     m_animations := m_animations x; m_shouldUpdateBackingStoreFromLayer := v |}.

(** ** The layer tree

    [GraphicsLayer.cpp] and [GraphicsLayerTextureMapper.cpp] are not among
    the sources; the tree operations below follow the data model of the
    specification: a layer has an ordered sequence of children, a child has
    exactly one parent, and attaching a child to a new parent detaches it
    from the old one.  An operation on an address that is not live leaves
    the heap as it is. *)

(** Modelled from the spec: the state of a layer that no command has
    touched yet (the constructor of [GraphicsLayer] is not among the
    sources).  No parent, no children, no content, not clipping. *)
Definition newGraphicsLayer : GraphicsLayer :=
  {| m_name := ""; m_replicaLayer := None; m_maskLayer := None;
     m_position := (0, 0)%Q; m_size := (0, 0)%Q; m_transform := [];
     m_anchorPoint := (1 # 2, 1 # 2, 0)%Q; m_childrenTransform := [];
     m_backfaceVisibility := true; m_contentsOpaque := false;
     m_contentsRect := mkFloatRect 0 0 0 0; m_drawsContent := false;
     m_masksToBounds := false; m_opacity := 1%Q; m_preserves3D := false;
     m_children := []; m_parent := None; m_contentsLayer := None;
     m_backingStore := None; m_animations := ∅;
     m_shouldUpdateBackingStoreFromLayer := true |}.

(** The layer as [createLayer] returns it: new, with
    [setShouldUpdateBackingStoreFromLayer(false)]. *)
Definition createdLayer : GraphicsLayer :=
  setShouldUpdateBackingStoreFromLayer false newGraphicsLayer.

(** Removes the first occurrence of [p] from a child list. *)
Fixpoint removeFirst (p : nat) (l : list nat) : list nat :=
  match l with
  | [] => []
  | q :: l' => if decide (p = q) then l' else q :: removeFirst p l'
  end.

(** Modelled from the spec: [GraphicsLayer::removeFromParent] (not among
    the sources).  A layer with a parent is taken out of the parent's child
    list and its parent link is cleared; a layer without parent is left
    alone. *)
Definition removeFromParent (p : nat) (h : gmap nat GraphicsLayer) : gmap nat GraphicsLayer :=
  match h !! p ≫= m_parent with
  | Some q =>
      alter (setParent None) p
        (alter (λ lq, setChildList (removeFirst p (m_children lq)) lq) q h)
  | None => h
  end.

(** Modelled from the spec: [GraphicsLayer::removeAllChildren] (not among
    the sources): every child loses its parent link and the child list
    becomes empty. *)
Definition removeAllChildren (p : nat) (h : gmap nat GraphicsLayer) : gmap nat GraphicsLayer :=
  match h !! p with
  | Some l =>
      alter (setChildList []) p
        (foldr (λ c, alter (setParent None) c) h (m_children l))
  | None => h
  end.

(** Modelled from the spec: [GraphicsLayer::addChild] (not among the
    sources): the child leaves its former parent, then is appended to the
    child list of [p] with [p] as parent. *)
Definition addChild (p child : nat) (h : gmap nat GraphicsLayer) : gmap nat GraphicsLayer :=
  alter (λ l, setChildList (m_children l ++ [child]) l) p
    (alter (setParent (Some p)) child (removeFromParent child h)).

(** Modelled from the spec: [GraphicsLayer::setChildren] (not among the
    sources): "child list is fully replaced each sync (not diffed)". *)
Definition setChildren (p : nat) (cs : list nat) (h : gmap nat GraphicsLayer)
  : gmap nat GraphicsLayer :=
  foldl (λ h' c, addChild p c h') (removeAllChildren p h) cs.

(** Modelled from the spec: the destructor of [GraphicsLayer] (not among
    the sources), run by [delete layer]: the children are let go and the
    object leaves the heap. *)
Definition destroyLayer (p : nat) (h : gmap nat GraphicsLayer) : gmap nat GraphicsLayer :=
  delete p (removeAllChildren p h).

(** Modelled from the spec: [TextureMapperLayer::clearBackingStoresRecursive]
    (not among the sources): drops the backing store of the layer, then of
    each child in turn.  [fuel] bounds the depth of the recursion; [None]
    when it runs out or when a child pointer is dangling. *)
Fixpoint clearBackingStoresRecursive (fuel : nat) (p : nat) (h : gmap nat GraphicsLayer)
  : option (gmap nat GraphicsLayer) :=
  match fuel with
  | O => None
  | S fuel' =>
      l ← h !! p;
      foldl (λ oh c, oh ≫= clearBackingStoresRecursive fuel' c)
            (Some (<[p := setBackingStore None l]> h)) (m_children l)
  end.

(** ** Tiles

    [LayerBackingStore.cpp] is not among the sources; the four operations
    follow the tile lifecycle of the specification. *)

(** Modelled from the spec: [LayerBackingStore::createTile] (not among the
    sources): "createTile is idempotent if already created". *)
Definition LayerBackingStore_createTile (id : Z) (scale : Q) (bs : gmap Z LayerBackingStoreTile)
  : gmap Z LayerBackingStoreTile :=
  match bs !! id with
  | Some _ => bs
  | None => <[id := mkTile scale None None]> bs
  end.

(** Modelled from the spec: [LayerBackingStore::removeTile] (not among the
    sources): "removeTile discards both visible and pending state". *)
Definition LayerBackingStore_removeTile (id : Z) (bs : gmap Z LayerBackingStoreTile)
  : gmap Z LayerBackingStoreTile :=
  delete id bs.

(** Modelled from the spec: [LayerBackingStore::updateTile] (not among the
    sources): a created tile records the newest pending content, the last
    write wins; the lifecycle has no edge from an absent tile, which is
    left absent. *)
Definition LayerBackingStore_updateTile (id : Z) (sourceRect targetRect : IntRect)
    (bitmap : ShareableBitmap) (bs : gmap Z LayerBackingStoreTile)
  : gmap Z LayerBackingStoreTile :=
  alter (λ t, mkTile (tile_scale t) (Some (mkTileBuffer sourceRect targetRect bitmap))
                     (tile_texture t)) id bs.

Definition swapTile (t : LayerBackingStoreTile) : LayerBackingStoreTile :=
  match tile_backBuffer t with
  | Some u => mkTile (tile_scale t) None (Some u)
  | None => t
  end.

(** Modelled from the spec: [LayerBackingStore::swapBuffers] (not among the
    sources): the pending content of every tile becomes the visible one. *)
Definition LayerBackingStore_swapBuffers (bs : gmap Z LayerBackingStoreTile)
  : gmap Z LayerBackingStoreTile :=
  swapTile <$> bs.

(** ** The message queue *)

(** Modelled from the spec: [WTF::MessageQueue] (not among the sources), "a
    strictly ordered sequence": [append] adds at the tail, [tryGetMessage]
    takes the oldest element or returns null on an empty queue. *)
Definition MessageQueue_append {A} (q : list A) (m : A) : list A := q ++ [m].

Definition tryGetMessage {A} (q : list A) : option (A * list A) :=
  match q with
  | [] => None
  | m :: q' => Some (m, q')
  end.

(** Modelled from the spec: [WTF::HashMap::add] (not among the sources): a
    node is "created lazily the first time any command references an unseen
    ID"; the entry of an ID already in the map is kept. *)
Definition HashMap_add `{Countable K} {V} (k : K) (v : V) (m : gmap K V) : gmap K V :=
  match m !! k with
  | Some _ => m
  | None => <[k := v]> m
  end.

(** ** The proxy *)

(** The members of [LayerTreeHostProxy] that [LayerTreeHostProxyQt.cpp]
    uses (the class is declared in [LayerTreeHostProxy.h], not among the
    sources).  Besides them the record holds the two stores with their
    allocation counters, the messages sent to the web process ([m_sent],
    oldest first), the number of viewport updates requested from the
    drawing area and the number of readings of the clock so far. *)
Record LayerTreeHostProxy := mkLayerTreeHostProxy {
  m_layers : gmap N nat;
  m_heap : gmap nat GraphicsLayer;
  m_nextLayer : nat;
  m_stores : gmap nat LayerBackingStore;
  m_nextStore : nat;
  m_rootLayer : option nat;
  m_rootLayerID : N;
  m_directlyCompositedImages : gmap Z TextureMapperBackingStore;
  m_backingStoresWithPendingBuffers : gset nat;
  m_textureMapper : option AccelerationMode;
  m_messagesToRenderer : list LayerTreeMessageToRenderer;
  m_sent : list OutgoingMessage;
  m_viewportUpdates : nat;
  m_clockReads : nat
}.

(** Assignment to one member of the proxy. *)
Definition with_layers (v : gmap N nat) (x : LayerTreeHostProxy) : LayerTreeHostProxy :=
  {| m_layers := v; m_heap := m_heap x; m_nextLayer := m_nextLayer x;
     m_stores := m_stores x; m_nextStore := m_nextStore x; m_rootLayer := m_rootLayer x;
     m_rootLayerID := m_rootLayerID x;
     m_directlyCompositedImages := m_directlyCompositedImages x;
     m_backingStoresWithPendingBuffers := m_backingStoresWithPendingBuffers x;
     m_textureMapper := m_textureMapper x; m_messagesToRenderer := m_messagesToRenderer x;
     m_sent := m_sent x; m_viewportUpdates := m_viewportUpdates x;
     m_clockReads := m_clockReads x |}.
Definition with_heap (v : gmap nat GraphicsLayer) (x : LayerTreeHostProxy) : LayerTreeHostProxy :=
  {| m_layers := m_layers x; m_heap := v; m_nextLayer := m_nextLayer x;
     m_stores := m_stores x; m_nextStore := m_nextStore x; m_rootLayer := m_rootLayer x;
     m_rootLayerID := m_rootLayerID x;
     m_directlyCompositedImages := m_directlyCompositedImages x;
     m_backingStoresWithPendingBuffers := m_backingStoresWithPendingBuffers x;
     m_textureMapper := m_textureMapper x; m_messagesToRenderer := m_messagesToRenderer x;
     m_sent := m_sent x; m_viewportUpdates := m_viewportUpdates x;
     m_clockReads := m_clockReads x |}.
Definition with_nextLayer (v : nat) (x : LayerTreeHostProxy) : LayerTreeHostProxy :=
  {| m_layers := m_layers x; m_heap := m_heap x; m_nextLayer := v; m_stores := m_stores x;
     m_nextStore := m_nextStore x; m_rootLayer := m_rootLayer x;
     m_rootLayerID := m_rootLayerID x;
     m_directlyCompositedImages := m_directlyCompositedImages x;
     m_backingStoresWithPendingBuffers := m_backingStoresWithPendingBuffers x;
     m_textureMapper := m_textureMapper x; m_messagesToRenderer := m_messagesToRenderer x;
     m_sent := m_sent x; m_viewportUpdates := m_viewportUpdates x;
     m_clockReads := m_clockReads x |}.
Definition with_stores (v : gmap nat LayerBackingStore) (x : LayerTreeHostProxy) : LayerTreeHostProxy :=
  {| m_layers := m_layers x; m_heap := m_heap x; m_nextLayer := m_nextLayer x;
     m_stores := v; m_nextStore := m_nextStore x; m_rootLayer := m_rootLayer x;
     m_rootLayerID := m_rootLayerID x;
     m_directlyCompositedImages := m_directlyCompositedImages x;
     m_backingStoresWithPendingBuffers := m_backingStoresWithPendingBuffers x;
     m_textureMapper := m_textureMapper x; m_messagesToRenderer := m_messagesToRenderer x;
     m_sent := m_sent x; m_viewportUpdates := m_viewportUpdates x;
     m_clockReads := m_clockReads x |}.
Definition with_nextStore (v : nat) (x : LayerTreeHostProxy) : LayerTreeHostProxy :=
  {| m_layers := m_layers x; m_heap := m_heap x; m_nextLayer := m_nextLayer x;
     m_stores := m_stores x; m_nextStore := v; m_rootLayer := m_rootLayer x;
     m_rootLayerID := m_rootLayerID x;
     m_directlyCompositedImages := m_directlyCompositedImages x;
     m_backingStoresWithPendingBuffers := m_backingStoresWithPendingBuffers x;
     m_textureMapper := m_textureMapper x; m_messagesToRenderer := m_messagesToRenderer x;
     m_sent := m_sent x; m_viewportUpdates := m_viewportUpdates x;
     m_clockReads := m_clockReads x |}.
Definition with_rootLayer (v : option nat) (x : LayerTreeHostProxy) : LayerTreeHostProxy :=
  {| m_layers := m_layers x; m_heap := m_heap x; m_nextLayer := m_nextLayer x;
     m_stores := m_stores x; m_nextStore := m_nextStore x; m_rootLayer := v;
     m_rootLayerID := m_rootLayerID x;
     m_directlyCompositedImages := m_directlyCompositedImages x;
     m_backingStoresWithPendingBuffers := m_backingStoresWithPendingBuffers x;
     m_textureMapper := m_textureMapper x; m_messagesToRenderer := m_messagesToRenderer x;
     m_sent := m_sent x; m_viewportUpdates := m_viewportUpdates x;
     m_clockReads := m_clockReads x |}.
Definition with_rootLayerID (v : N) (x : LayerTreeHostProxy) : LayerTreeHostProxy :=
  {| m_layers := m_layers x; m_heap := m_heap x; m_nextLayer := m_nextLayer x;
     m_stores := m_stores x; m_nextStore := m_nextStore x; m_rootLayer := m_rootLayer x;
     m_rootLayerID := v; m_directlyCompositedImages := m_directlyCompositedImages x;
     m_backingStoresWithPendingBuffers := m_backingStoresWithPendingBuffers x;
     m_textureMapper := m_textureMapper x; m_messagesToRenderer := m_messagesToRenderer x;
     m_sent := m_sent x; m_viewportUpdates := m_viewportUpdates x;
     m_clockReads := m_clockReads x |}.
Definition with_directlyCompositedImages (v : gmap Z TextureMapperBackingStore) (x : LayerTreeHostProxy) : LayerTreeHostProxy :=
  {| m_layers := m_layers x; m_heap := m_heap x; m_nextLayer := m_nextLayer x;
     m_stores := m_stores x; m_nextStore := m_nextStore x; m_rootLayer := m_rootLayer x;
     m_rootLayerID := m_rootLayerID x; m_directlyCompositedImages := v;
     m_backingStoresWithPendingBuffers := m_backingStoresWithPendingBuffers x;
     m_textureMapper := m_textureMapper x; m_messagesToRenderer := m_messagesToRenderer x;
     m_sent := m_sent x; m_viewportUpdates := m_viewportUpdates x;
     m_clockReads := m_clockReads x |}.
Definition with_backingStoresWithPendingBuffers (v : gset nat) (x : LayerTreeHostProxy) : LayerTreeHostProxy :=
  {| m_layers := m_layers x; m_heap := m_heap x; m_nextLayer := m_nextLayer x;
     m_stores := m_stores x; m_nextStore := m_nextStore x; m_rootLayer := m_rootLayer x;
     m_rootLayerID := m_rootLayerID x;
     m_directlyCompositedImages := m_directlyCompositedImages x;
     m_backingStoresWithPendingBuffers := v; m_textureMapper := m_textureMapper x;
     m_messagesToRenderer := m_messagesToRenderer x; m_sent := m_sent x;
     m_viewportUpdates := m_viewportUpdates x; m_clockReads := m_clockReads x |}.
Definition with_textureMapper (v : option AccelerationMode) (x : LayerTreeHostProxy) : LayerTreeHostProxy :=
  {| m_layers := m_layers x; m_heap := m_heap x; m_nextLayer := m_nextLayer x;
     m_stores := m_stores x; m_nextStore := m_nextStore x; m_rootLayer := m_rootLayer x;
     m_rootLayerID := m_rootLayerID x;
     m_directlyCompositedImages := m_directlyCompositedImages x;
     m_backingStoresWithPendingBuffers := m_backingStoresWithPendingBuffers x;
     m_textureMapper := v; m_messagesToRenderer := m_messagesToRenderer x;
     m_sent := m_sent x; m_viewportUpdates := m_viewportUpdates x;
     m_clockReads := m_clockReads x |}.
Definition with_messagesToRenderer (v : list LayerTreeMessageToRenderer) (x : LayerTreeHostProxy) : LayerTreeHostProxy :=
  {| m_layers := m_layers x; m_heap := m_heap x; m_nextLayer := m_nextLayer x;
     m_stores := m_stores x; m_nextStore := m_nextStore x; m_rootLayer := m_rootLayer x;
     m_rootLayerID := m_rootLayerID x;
     m_directlyCompositedImages := m_directlyCompositedImages x;
     m_backingStoresWithPendingBuffers := m_backingStoresWithPendingBuffers x;
     m_textureMapper := m_textureMapper x; m_messagesToRenderer := v; m_sent := m_sent x;
     m_viewportUpdates := m_viewportUpdates x; m_clockReads := m_clockReads x |}.
Definition with_sent (v : list OutgoingMessage) (x : LayerTreeHostProxy) : LayerTreeHostProxy :=
  {| m_layers := m_layers x; m_heap := m_heap x; m_nextLayer := m_nextLayer x;
     m_stores := m_stores x; m_nextStore := m_nextStore x; m_rootLayer := m_rootLayer x;
     m_rootLayerID := m_rootLayerID x;
     m_directlyCompositedImages := m_directlyCompositedImages x;
     m_backingStoresWithPendingBuffers := m_backingStoresWithPendingBuffers x;
     m_textureMapper := m_textureMapper x; m_messagesToRenderer := m_messagesToRenderer x;
     m_sent := v; m_viewportUpdates := m_viewportUpdates x;
     m_clockReads := m_clockReads x |}.
Definition with_viewportUpdates (v : nat) (x : LayerTreeHostProxy) : LayerTreeHostProxy :=
  {| m_layers := m_layers x; m_heap := m_heap x; m_nextLayer := m_nextLayer x;
     m_stores := m_stores x; m_nextStore := m_nextStore x; m_rootLayer := m_rootLayer x;
     m_rootLayerID := m_rootLayerID x;
     m_directlyCompositedImages := m_directlyCompositedImages x;
     m_backingStoresWithPendingBuffers := m_backingStoresWithPendingBuffers x;
     m_textureMapper := m_textureMapper x; m_messagesToRenderer := m_messagesToRenderer x;
     m_sent := m_sent x; m_viewportUpdates := v; m_clockReads := m_clockReads x |}.
Definition with_clockReads (v : nat) (x : LayerTreeHostProxy) : LayerTreeHostProxy :=
  {| m_layers := m_layers x; m_heap := m_heap x; m_nextLayer := m_nextLayer x;
     m_stores := m_stores x; m_nextStore := m_nextStore x; m_rootLayer := m_rootLayer x;
     m_rootLayerID := m_rootLayerID x;
     m_directlyCompositedImages := m_directlyCompositedImages x;
     m_backingStoresWithPendingBuffers := m_backingStoresWithPendingBuffers x;
     m_textureMapper := m_textureMapper x; m_messagesToRenderer := m_messagesToRenderer x;
     m_sent := m_sent x; m_viewportUpdates := m_viewportUpdates x; m_clockReads := v |}.

Section Replay.

(** [WTF::currentTime()]: the value of the n-th reading of the clock. *)
Variable currentTime : nat → Q.

Definition updateLayer (p : nat) (f : GraphicsLayer → GraphicsLayer) (st : LayerTreeHostProxy)
  : LayerTreeHostProxy :=
  with_heap (alter f p (m_heap st)) st.

(** Modelled from the spec: [LayerTreeHostProxy::layerByID] (declared in
    [LayerTreeHostProxy.h], not among the sources): ID 0 is "reserved for
    none" and resolves to no node; any other ID is looked up in the map. *)
Definition layerByID (id : N) (st : LayerTreeHostProxy) : option nat :=
  if decide (id = InvalidWebLayerID) then None else m_layers st !! id.

Definition rootLayer (st : LayerTreeHostProxy) : option nat := m_rootLayer st.

(** Returns the address of the new layer with the proxy that holds it. *)
Definition createLayer (layerID : N) (st : LayerTreeHostProxy) : nat * LayerTreeHostProxy :=
  let newLayer := m_nextLayer st in
  (newLayer,
   with_nextLayer (S newLayer) (with_heap (<[newLayer := createdLayer]> (m_heap st)) st)).

Definition updateViewport (st : LayerTreeHostProxy) : LayerTreeHostProxy :=
  with_viewportUpdates (S (m_viewportUpdates st)) st.

Definition ensureLayer (id : N) (st : LayerTreeHostProxy) : LayerTreeHostProxy :=
  match m_layers st !! id with
  | None =>
      let '(layer, st1) := createLayer id st in
      with_layers (HashMap_add id layer (m_layers st1)) st1
  | Some _ => st
  end.

Definition setRootLayerID (layerID : N) (st : LayerTreeHostProxy) : option LayerTreeHostProxy :=
  if decide (layerID = m_rootLayerID st) then Some st
  else
    let st := with_rootLayerID layerID st in
    root ← m_rootLayer st;
    let st := with_heap (removeAllChildren root (m_heap st)) st in
    if decide (layerID = 0%N) then Some st
    else
      match layerByID layerID st with
      | None => Some st
      | Some layer => Some (with_heap (addChild root layer (m_heap st)) st)
      end.

Definition assignImageToLayer (layer : nat) (imageID : Z) (st : LayerTreeHostProxy)
  : option LayerTreeHostProxy :=
  image ← m_directlyCompositedImages st !! imageID;
  Some (updateLayer layer (setContentsToMedia (Some image)) st).

(** The loop over [layerInfo.children]: each ID resolves to its node or to
    a node created and registered on the spot. *)
Fixpoint resolveChildren (ids : list N) (st : LayerTreeHostProxy)
  : list nat * LayerTreeHostProxy :=
  match ids with
  | [] => ([], st)
  | childID :: ids' =>
      let '(child, st1) :=
        match layerByID childID st with
        | Some child => (child, st)
        | None =>
            let '(child, st1) := createLayer childID st in
            (child, with_layers (HashMap_add childID child (m_layers st1)) st1)
        end in
      let '(children, st2) := resolveChildren ids' st1 in
      (child :: children, st2)
  end.

(** Modelled from the spec: [addAnimation], [removeAnimation] and
    [pauseAnimation] of the layer (not among the sources) act on "the
    node's animation set", keyed by the animation's name. *)
Definition applyAnimation (layer : nat) (anim : WebLayerAnimation) (st : LayerTreeHostProxy)
  : LayerTreeHostProxy :=
  match wa_operation anim with
  | AddAnimation =>
      updateLayer layer
        (λ l, setAnimations
                (<[wa_name anim := mkAnimationState (wa_keyframeList anim) (wa_boxSize anim)
                                     (wa_animation anim) (wa_startTime anim) None]>
                   (m_animations l)) l) st
  | RemoveAnimation =>
      updateLayer layer (λ l, setAnimations (delete (wa_name anim) (m_animations l)) l) st
  | PauseAnimation =>
      let offset := (currentTime (m_clockReads st) - wa_startTime anim)%Q in
      with_clockReads (S (m_clockReads st))
        (updateLayer layer
           (λ l, setAnimations
                   (alter (λ a, mkAnimationState (as_keyframes a) (as_boxSize a)
                                  (as_animation a) (as_startTime a) (Some offset))
                          (wa_name anim) (m_animations l)) l) st)
  end.

(** The local [needsToUpdateImageTiles] of [syncLayerParameters], computed
    from the descriptor and the layer before any member is assigned. *)
Definition needsToUpdateImageTiles (layerInfo : WebLayerInfo) (layer : GraphicsLayer) : bool :=
  li_imageIsUpdated layerInfo
  || (bool_decide (li_contentsRect layerInfo ≠ m_contentsRect layer)
      && bool_decide (li_imageBackingStoreID layerInfo ≠ 0%Z)).

Definition syncLayerParameters (layerInfo : WebLayerInfo) (st : LayerTreeHostProxy)
  : option LayerTreeHostProxy :=
  let id := li_id layerInfo in
  let st := ensureLayer id st in
  layer ← m_layers st !! id;
  l ← m_heap st !! layer;
  let st := updateLayer layer (setName (li_name layerInfo)) st in
  let st := updateLayer layer (setReplicatedByLayer (layerByID (li_replica layerInfo) st)) st in
  let st := updateLayer layer (setMaskLayer (layerByID (li_mask layerInfo) st)) st in
  let st := updateLayer layer (setPosition (li_pos layerInfo)) st in
  let st := updateLayer layer (setSize (li_size layerInfo)) st in
  let st := updateLayer layer (setTransform (li_transform layerInfo)) st in
  let st := updateLayer layer (setAnchorPoint (li_anchorPoint layerInfo)) st in
  let st := updateLayer layer (setChildrenTransform (li_childrenTransform layerInfo)) st in
  let st := updateLayer layer (setBackfaceVisibility (li_backfaceVisible layerInfo)) st in
  let st := updateLayer layer (setContentsOpaque (li_contentsOpaque layerInfo)) st in
  let st := updateLayer layer (setContentsRect (li_contentsRect layerInfo)) st in
  let st := updateLayer layer (setDrawsContent (li_drawsContent layerInfo)) st in
  st ← (if needsToUpdateImageTiles layerInfo l
        then assignImageToLayer layer (li_imageBackingStoreID layerInfo) st
        else Some st);
  let st := updateLayer layer
              (setMasksToBounds (if li_isRootLayer layerInfo then false
                                 else li_masksToBounds layerInfo)) st in
  let st := updateLayer layer (setOpacity (li_opacity layerInfo)) st in
  let st := updateLayer layer (setPreserves3D (li_preserves3D layerInfo)) st in
  let '(children, st) := resolveChildren (li_children layerInfo) st in
  let st := with_heap (setChildren layer children (m_heap st)) st in
  let st := foldl (λ st' anim, applyAnimation layer anim st') st (li_animations layerInfo) in
  if li_isRootLayer layerInfo && bool_decide (m_rootLayerID st ≠ id)
  then setRootLayerID id st
  else Some st.

Definition deleteLayer (layerID : N) (st : LayerTreeHostProxy) : LayerTreeHostProxy :=
  match layerByID layerID st with
  | None => st
  | Some layer =>
      let st := with_heap (removeFromParent layer (m_heap st)) st in
      let st := with_layers (delete layerID (m_layers st)) st in
      with_heap (destroyLayer layer (m_heap st)) st
  end.

(** Returns the address of the layer's backing store, created on first
    use.  [layerByID] yields null for ID 0, which the C++ code then
    dereferences. *)
Definition getBackingStore (id : N) (st : LayerTreeHostProxy)
  : option (nat * LayerTreeHostProxy) :=
  let st := ensureLayer id st in
  layer ← layerByID id st;
  l ← m_heap st !! layer;
  match m_backingStore l with
  | Some backingStore => Some (backingStore, st)
  | None =>
      let backingStore := m_nextStore st in
      Some (backingStore,
            updateLayer layer (setBackingStore (Some backingStore))
              (with_nextStore (S backingStore)
                 (with_stores (<[backingStore := ∅]> (m_stores st)) st)))
  end.

Definition createTile (layerID : N) (tileID : Z) (scale : Q) (st : LayerTreeHostProxy)
  : option LayerTreeHostProxy :=
  '(backingStore, st) ← getBackingStore layerID st;
  Some (with_stores (alter (LayerBackingStore_createTile tileID scale) backingStore
                       (m_stores st)) st).

Definition removeTile (layerID : N) (tileID : Z) (st : LayerTreeHostProxy)
  : option LayerTreeHostProxy :=
  '(backingStore, st) ← getBackingStore layerID st;
  Some (with_stores (alter (LayerBackingStore_removeTile tileID) backingStore
                       (m_stores st)) st).

Definition updateTile (layerID : N) (tileID : Z) (sourceRect targetRect : IntRect)
    (bitmap : ShareableBitmap) (st : LayerTreeHostProxy) : option LayerTreeHostProxy :=
  '(backingStore, st) ← getBackingStore layerID st;
  let st := with_stores
              (alter (LayerBackingStore_updateTile tileID sourceRect targetRect bitmap)
                     backingStore (m_stores st)) st in
  Some (with_backingStoresWithPendingBuffers
          ({[backingStore]} ∪ m_backingStoresWithPendingBuffers st) st).

Definition createImage (imageID : Z) (bitmap : ShareableBitmap) (st : LayerTreeHostProxy)
  : LayerTreeHostProxy :=
  with_directlyCompositedImages
    (<[imageID := mkImageBacking bitmap]> (m_directlyCompositedImages st)) st.

Definition destroyImage (imageID : Z) (st : LayerTreeHostProxy) : LayerTreeHostProxy :=
  with_directlyCompositedImages (delete imageID (m_directlyCompositedImages st)) st.

Definition swapBuffers (st : LayerTreeHostProxy) : LayerTreeHostProxy :=
  let stores :=
    set_fold (λ backingStore stores, alter LayerBackingStore_swapBuffers backingStore stores)
             (m_stores st) (m_backingStoresWithPendingBuffers st) in
  with_backingStoresWithPendingBuffers ∅ (with_stores stores st).

(** [syncCompositingState] copies the members of each [GraphicsLayer] to
    its [TextureMapperLayer]; the two are one record here, so only the
    dereference of [m_rootLayer] remains of it. *)
Definition flushLayerChanges (st : LayerTreeHostProxy) : option LayerTreeHostProxy :=
  _ ← m_rootLayer st;
  let st := swapBuffers st in
  Some (with_sent (m_sent st ++ [RenderNextFrame]) st).

Definition ensureRootLayer (st : LayerTreeHostProxy) : LayerTreeHostProxy :=
  match m_rootLayer st with
  | Some _ => st
  | None =>
      let '(root, st) := createLayer InvalidWebLayerID st in
      let st := with_rootLayer (Some root) st in
      let st := updateLayer root (setMasksToBounds false) st in
      let st := updateLayer root (setDrawsContent false) st in
      let st := updateLayer root (setAnchorPoint (0, 0, 0)%Q) st in
      let st := updateLayer root (setSize (1, 1)%Q) st in
      match m_textureMapper st with
      | Some _ => st
      | None => with_textureMapper (Some OpenGLMode) st
      end
  end.

(** The [switch] of [syncRemoteContent]. *)
Definition applyMessage (nextMessage : LayerTreeMessageToRenderer) (st : LayerTreeHostProxy)
  : option LayerTreeHostProxy :=
  match nextMessage with
  | SetRootLayer layerID => setRootLayerID layerID st
  | DeleteLayer layerID => Some (deleteLayer layerID st)
  | SyncLayerParameters layerInfo => syncLayerParameters layerInfo st
  | CreateTile layerID remoteTileID scale => createTile layerID remoteTileID scale st
  | RemoveTile layerID remoteTileID => removeTile layerID remoteTileID st
  | UpdateTile layerID remoteTileID sourceRect targetRect bitmap =>
      updateTile layerID remoteTileID sourceRect targetRect bitmap st
  | CreateImage imageID bitmap => Some (createImage imageID bitmap st)
  | DestroyImage imageID => Some (destroyImage imageID st)
  | FlushLayerChanges => flushLayerChanges st
  end.

(** The [while] loop of [syncRemoteContent]; [fuel] bounds the number of
    iterations and [None] is returned when it runs out or a message
    fails. *)
Fixpoint drainMessages (fuel : nat) (st : LayerTreeHostProxy) : option LayerTreeHostProxy :=
  match fuel with
  | O => None
  | S fuel' =>
      match tryGetMessage (m_messagesToRenderer st) with
      | None => Some st
      | Some (nextMessage, rest) =>
          applyMessage nextMessage (with_messagesToRenderer rest st)
            ≫= drainMessages fuel'
      end
  end.

Definition syncRemoteContent (fuel : nat) (st : LayerTreeHostProxy)
  : option LayerTreeHostProxy :=
  drainMessages fuel (ensureRootLayer st).

Definition pushUpdateToQueue (message : LayerTreeMessageToRenderer) (st : LayerTreeHostProxy)
  : LayerTreeHostProxy :=
  updateViewport
    (with_messagesToRenderer (MessageQueue_append (m_messagesToRenderer st) message) st).

(** [updateRects.first()] behind [ASSERT(updateInfo.updateRects.size() == 1)]. *)
Definition updateTileForLayer (layerID : N) (tileID : Z) (updateInfo : UpdateInfo)
    (st : LayerTreeHostProxy) : option LayerTreeHostProxy :=
  match ui_updateRects updateInfo with
  | [sourceRect] =>
      Some (pushUpdateToQueue
              (UpdateTile layerID tileID sourceRect (ui_updateRectBounds updateInfo)
                          (ui_bitmapHandle updateInfo)) st)
  | _ => None
  end.

Definition createTileForLayer (layerID : N) (tileID : Z) (updateInfo : UpdateInfo)
    (st : LayerTreeHostProxy) : option LayerTreeHostProxy :=
  updateTileForLayer layerID tileID updateInfo
    (pushUpdateToQueue (CreateTile layerID tileID (ui_updateScaleFactor updateInfo)) st).

Definition removeTileForLayer (layerID : N) (tileID : Z) :=
  pushUpdateToQueue (RemoveTile layerID tileID).
Definition deleteCompositingLayer (id : N) := pushUpdateToQueue (DeleteLayer id).
Definition setRootCompositingLayer (id : N) := pushUpdateToQueue (SetRootLayer id).
Definition syncCompositingLayerState (info : WebLayerInfo) :=
  pushUpdateToQueue (SyncLayerParameters info).
Definition didRenderFrame (st : LayerTreeHostProxy) : LayerTreeHostProxy :=
  updateViewport (pushUpdateToQueue FlushLayerChanges st).
Definition createDirectlyCompositedImage (key : Z) (handle : ShareableBitmap) :=
  pushUpdateToQueue (CreateImage key handle).
Definition destroyDirectlyCompositedImage (key : Z) := pushUpdateToQueue (DestroyImage key).

Definition purgeGLResources (fuel : nat) (st : LayerTreeHostProxy) : option LayerTreeHostProxy :=
  heap ← match rootLayer st with
         | Some layer => clearBackingStoresRecursive fuel layer (m_heap st)
         | None => Some (m_heap st)
         end;
  let st := with_heap heap st in
  let st := with_directlyCompositedImages ∅ st in
  let st := with_textureMapper None st in
  let st := with_backingStoresWithPendingBuffers ∅ st in
  Some (with_sent (m_sent st ++ [PurgeBackingStores]) st).

(** The proxy as its constructor leaves it. *)
Definition newProxy : LayerTreeHostProxy :=
  {| m_layers := ∅; m_heap := ∅; m_nextLayer := 0; m_stores := ∅; m_nextStore := 0;
     m_rootLayer := None; m_rootLayerID := 0%N; m_directlyCompositedImages := ∅;
     m_backingStoresWithPendingBuffers := ∅; m_textureMapper := None;
     m_messagesToRenderer := []; m_sent := []; m_viewportUpdates := 0; m_clockReads := 0 |}.

End Replay.

(** ** Batches *)

Section Batches.

Variable currentTime : nat → Q.

(** The producer enqueues a sequence of messages, oldest first. *)
Definition enqueueAll (cmds : list LayerTreeMessageToRenderer) (st : LayerTreeHostProxy)
  : LayerTreeHostProxy :=
  foldl (λ st' m, pushUpdateToQueue m st') st cmds.

(** The messages of a list applied in list order. *)
Fixpoint replay (msgs : list LayerTreeMessageToRenderer) (st : LayerTreeHostProxy)
  : option LayerTreeHostProxy :=
  match msgs with
  | [] => Some st
  | m :: msgs' => applyMessage currentTime m st ≫= replay msgs'
  end.

(** One iteration of the loop of [syncRemoteContent] takes the oldest
    message off the queue and applies it; [drains st msgs st'] holds when
    the loop started in [st] runs to an empty queue, applying exactly
    [msgs], one iteration each, and ends in [st']. *)
Inductive drains : LayerTreeHostProxy → list LayerTreeMessageToRenderer → LayerTreeHostProxy → Prop :=
  | drains_empty st :
      tryGetMessage (m_messagesToRenderer st) = None →
      drains st [] st
  | drains_next st m rest st1 msgs st2 :
      tryGetMessage (m_messagesToRenderer st) = Some (m, rest) →
      applyMessage currentTime m (with_messagesToRenderer rest st) = Some st1 →
      drains st1 msgs st2 →
      drains st (m :: msgs) st2.

(** The states the proxy goes through: the producer enqueues, the paint
    cycle drains, the page purges. *)
Inductive reachable : LayerTreeHostProxy → Prop :=
  | reachable_new : reachable newProxy
  | reachable_enqueue st m : reachable st → reachable (pushUpdateToQueue m st)
  | reachable_sync st fuel st' :
      reachable st → syncRemoteContent currentTime fuel st = Some st' → reachable st'
  | reachable_purge st fuel st' :
      reachable st → purgeGLResources fuel st = Some st' → reachable st'.

End Batches.

(** The members that no operation on the layer tree touches. *)
Definition treeFrame (st st' : LayerTreeHostProxy) : Prop :=
  m_stores st' = m_stores st ∧ m_nextStore st' = m_nextStore st ∧
  m_rootLayer st' = m_rootLayer st ∧
  m_directlyCompositedImages st' = m_directlyCompositedImages st ∧
  m_backingStoresWithPendingBuffers st' = m_backingStoresWithPendingBuffers st ∧
  m_textureMapper st' = m_textureMapper st ∧
  m_messagesToRenderer st' = m_messagesToRenderer st ∧
  m_sent st' = m_sent st ∧ m_viewportUpdates st' = m_viewportUpdates st.

(** The members that no message touches. *)
Definition messageFrame (st st' : LayerTreeHostProxy) : Prop :=
  m_messagesToRenderer st' = m_messagesToRenderer st ∧
  m_rootLayer st' = m_rootLayer st ∧
  m_textureMapper st' = m_textureMapper st ∧
  m_viewportUpdates st' = m_viewportUpdates st.

(** ** Views of the state used in the statements *)

(** The scalar and geometry members of a layer, those that
    [syncLayerParameters] copies from the descriptor. *)
Record LayerAttributes := mkLayerAttributes {
  la_name : string;
  la_position : FloatPoint;
  la_size : FloatSize;
  la_transform : TransformationMatrix;
  la_anchorPoint : FloatPoint3D;
  la_childrenTransform : TransformationMatrix;
  la_backfaceVisibility : bool;
  la_contentsOpaque : bool;
  la_contentsRect : FloatRect;
  la_drawsContent : bool;
  la_masksToBounds : bool;
  la_opacity : Q;
  la_preserves3D : bool
}.

Definition attributesOf (l : GraphicsLayer) : LayerAttributes :=
  {| la_name := m_name l; la_position := m_position l; la_size := m_size l;
     la_transform := m_transform l; la_anchorPoint := m_anchorPoint l;
     la_childrenTransform := m_childrenTransform l;
     la_backfaceVisibility := m_backfaceVisibility l;
     la_contentsOpaque := m_contentsOpaque l; la_contentsRect := m_contentsRect l;
     la_drawsContent := m_drawsContent l; la_masksToBounds := m_masksToBounds l;
     la_opacity := m_opacity l; la_preserves3D := m_preserves3D l |}.

(** The attributes a descriptor asks for: each member as sent, except that
    a descriptor flagged as root never clips. *)
Definition attributesOfInfo (info : WebLayerInfo) : LayerAttributes :=
  {| la_name := li_name info; la_position := li_pos info; la_size := li_size info;
     la_transform := li_transform info; la_anchorPoint := li_anchorPoint info;
     la_childrenTransform := li_childrenTransform info;
     la_backfaceVisibility := li_backfaceVisible info;
     la_contentsOpaque := li_contentsOpaque info; la_contentsRect := li_contentsRect info;
     la_drawsContent := li_drawsContent info;
     la_masksToBounds := if li_isRootLayer info then false else li_masksToBounds info;
     la_opacity := li_opacity info; la_preserves3D := li_preserves3D info |}.

(** The layer map and the heap agree: every ID of the map names a live
    layer, two IDs never share a layer, the allocator hands out addresses
    above every live one, and the root container is live and is not the
    node of any ID. *)
Record wellFormed (st : LayerTreeHostProxy) : Prop := mkWellFormed {
  wf_live : ∀ id p, m_layers st !! id = Some p → is_Some (m_heap st !! p);
  wf_inj : ∀ id1 id2 p, m_layers st !! id1 = Some p → m_layers st !! id2 = Some p → id1 = id2;
  wf_fresh : ∀ p, is_Some (m_heap st !! p) → p < m_nextLayer st;
  wf_root : ∀ r, m_rootLayer st = Some r →
                 is_Some (m_heap st !! r) ∧ ∀ id, m_layers st !! id ≠ Some r
}.

(** Same IDs, same live addresses, same allocator, same root container. *)
Definition sameShape (st st' : LayerTreeHostProxy) : Prop :=
  m_layers st' = m_layers st ∧
  (∀ q, m_heap st' !! q = None ↔ m_heap st !! q = None) ∧
  m_nextLayer st' = m_nextLayer st ∧
  m_rootLayer st' = m_rootLayer st.

(** The state after a layer was created for [id] and offered to the layer
    map, as [ensureLayer] and the loop over the children do. *)
Definition materialized (id : N) (st : LayerTreeHostProxy) : LayerTreeHostProxy :=
  with_layers (HashMap_add id (createLayer id st).1 (m_layers (createLayer id st).2))
              (createLayer id st).2.

(** [st'] has the layers and IDs of [st] and possibly more: every ID keeps
    its node, a new ID has a node just created, and the layers of [st] are
    as they were. *)
Definition grows (st st' : LayerTreeHostProxy) : Prop :=
  (∀ id p, m_layers st !! id = Some p → m_layers st' !! id = Some p) ∧
  (∀ id p, m_layers st' !! id = Some p →
     m_layers st !! id = Some p ∨
     (m_layers st !! id = None ∧ m_nextLayer st ≤ p < m_nextLayer st' ∧
      m_heap st' !! p = Some createdLayer)) ∧
  (∀ q, q < m_nextLayer st → m_heap st' !! q = m_heap st !! q) ∧
  m_nextLayer st ≤ m_nextLayer st' ∧
  m_rootLayer st' = m_rootLayer st ∧
  m_rootLayerID st' = m_rootLayerID st ∧
  m_clockReads st' = m_clockReads st.

(** Same shape and, at every address, the same attributes. *)
Definition attributeFrame (st st' : LayerTreeHostProxy) : Prop :=
  sameShape st st' ∧
  ∀ q, attributesOf <$> m_heap st' !! q = attributesOf <$> m_heap st !! q.

(** The layer that [syncLayerParameters] finds behind the descriptor's ID
    once [ensureLayer] has run: the node the ID names, or a layer just
    created. *)
Definition layerBeforeSync (info : WebLayerInfo) (st : LayerTreeHostProxy) : GraphicsLayer :=
  default createdLayer (m_layers st !! li_id info ≫= λ p, m_heap st !! p).

(** What a message asks of the state for its references to resolve: a tile
    message names a layer ID other than the reserved 0, and a descriptor
    whose image assignment is due names a registered image. *)
Definition referencesResolve (m : LayerTreeMessageToRenderer) (st : LayerTreeHostProxy) : Prop :=
  match m with
  | CreateTile layerID _ _ | RemoveTile layerID _ | UpdateTile layerID _ _ _ _ =>
      layerID ≠ InvalidWebLayerID
  | SyncLayerParameters info =>
      needsToUpdateImageTiles info (layerBeforeSync info st) = true →
      is_Some (m_directlyCompositedImages st !! li_imageBackingStoreID info)
  | _ => True
  end.

(** [reaches h p q]: the live layer [q] is [p] or a descendant of [p]
    through child lists. *)
Inductive reaches (h : gmap nat GraphicsLayer) : nat → nat → Prop :=
  | reaches_self p l : h !! p = Some l → reaches h p p
  | reaches_child p l c q :
      h !! p = Some l → c ∈ m_children l → reaches h c q → reaches h p q.

(** [depthWithin h p n]: below [p] every child pointer is live and no
    chain of children is longer than [n]. *)
Inductive depthWithin (h : gmap nat GraphicsLayer) : nat → nat → Prop :=
  | depthWithin_node p l n :
      h !! p = Some l → (∀ c, c ∈ m_children l → depthWithin h c n) →
      depthWithin h p (S n).

Definition hasNoBackingStore (h : gmap nat GraphicsLayer) (q : nat) : Prop :=
  ∃ l, h !! q = Some l ∧ m_backingStore l = None.

(** The scene graph as the compositor walks it: the attributes of the root
    container and, in order, the scene graphs of its children.  No address
    occurs in it. *)
#[warnings="-register-all"] Inductive SceneTree := SceneNode (attributes : LayerAttributes) (subtrees : list SceneTree).

Fixpoint sceneTree (fuel : nat) (h : gmap nat GraphicsLayer) (p : nat) : option SceneTree :=
  match fuel with
  | O => None
  | S fuel' =>
      l ← h !! p;
      subtrees ← mapM (sceneTree fuel' h) (m_children l);
      Some (SceneNode (attributesOf l) subtrees)
  end.

Definition sceneGraph (fuel : nat) (st : LayerTreeHostProxy) : option SceneTree :=
  m_rootLayer st ≫= sceneTree fuel (m_heap st).

(** The attributes of the node an ID names, if it names one. *)
Definition layerView (st : LayerTreeHostProxy) (i : N) : option LayerAttributes :=
  m_layers st !! i ≫= λ p, attributesOf <$> m_heap st !! p.

(** What a message does to the view of one ID: nothing, create the node
    unless there is one, or settle the view whatever it was. *)
Inductive ViewAction :=
  | Keep
  | Ensure
  | Assign (v : option LayerAttributes).

Definition runAction (a : ViewAction) (v : option LayerAttributes) : option LayerAttributes :=
  match a with
  | Keep => v
  | Ensure => Some (default (attributesOf createdLayer) v)
  | Assign w => w
  end.

Definition actionOf (m : LayerTreeMessageToRenderer) (i : N) : ViewAction :=
  match m with
  | DeleteLayer layerID =>
      if decide (layerID = i ∧ layerID ≠ InvalidWebLayerID) then Assign None else Keep
  | CreateTile layerID _ _ | RemoveTile layerID _ | UpdateTile layerID _ _ _ _ =>
      if decide (layerID = i) then Ensure else Keep
  | SyncLayerParameters info =>
      if decide (i = li_id info) then Assign (Some (attributesOfInfo info))
      else if decide (i ∈ li_children info) then Ensure
      else Keep
  | _ => Keep
  end.

(** [andThen a b]: the action of [a] followed by [b]. *)
Definition andThen (a b : ViewAction) : ViewAction :=
  match b with
  | Keep => a
  | Assign w => Assign w
  | Ensure =>
      match a with
      | Assign w => Assign (runAction Ensure w)
      | _ => Ensure
      end
  end.

Definition actionOfBatch (msgs : list LayerTreeMessageToRenderer) (i : N) : ViewAction :=
  foldl (λ a m, andThen a (actionOf m i)) Keep msgs.

(** The root ID a message settles, if it settles one. *)
Definition rootActionOf (m : LayerTreeMessageToRenderer) : option N :=
  match m with
  | SetRootLayer layerID => Some layerID
  | SyncLayerParameters info => if li_isRootLayer info then Some (li_id info) else None
  | _ => None
  end.

Definition rootActionOfBatch (msgs : list LayerTreeMessageToRenderer) : option N :=
  foldl (λ a m, match rootActionOf m with Some r => Some r | None => a end) None msgs.

(** ** The scrolling tree

    [ScrollingTree.h] declares the class; [ScrollingTree.cpp] and the node
    classes are not among the sources. *)

Module ScrollingTree.

Inductive EventResult :=
  | DidNotHandleEvent
  | DidHandleEvent
  | SendToMainThread.

Record IntPoint := mkIntPoint { pt_x : Z; pt_y : Z }.

(** Modelled from the spec: [PlatformWheelEvent] (not among the sources):
    the origin point of the event and its scroll delta. *)
Record PlatformWheelEvent := mkWheelEvent {
  we_position : IntPoint;
  we_deltaX : Z;
  we_deltaY : Z
}.

(** Modelled from the spec: [ScrollingTreeNode] (not among the sources), a
    node of the "tree mirroring scrollable frame/element hierarchy": a
    scrollable area, its scroll position and the nodes inside it. *)
#[warnings="-register-all"] Inductive ScrollingTreeNode :=
  ScrollingNode (bounds : IntRect) (scrollPosition : IntPoint)
                (children : list ScrollingTreeNode).

(** The members of the class; a [Region] is the "set of rectangles that
    must be handled on the main thread". *)
Record ScrollingTree := mkScrollingTree {
  m_rootNode : option ScrollingTreeNode;
  m_nonFastScrollableRegion : list IntRect;
  m_mainFrameScrollPosition : IntPoint;
  m_hasWheelEventHandlers : bool;
  m_canGoBack : bool;
  m_canGoForward : bool;
  m_mainFramePinnedToTheLeft : bool;
  m_mainFramePinnedToTheRight : bool
}.

Definition rectContains (r : IntRect) (p : IntPoint) : bool :=
  bool_decide (ir_x r ≤ pt_x p ∧ pt_x p < ir_x r + ir_width r ∧
               ir_y r ≤ pt_y p ∧ pt_y p < ir_y r + ir_height r)%Z.

(** Modelled from the spec: [Region::contains] (not among the sources). *)
Definition regionContains (region : list IntRect) (p : IntPoint) : bool :=
  existsb (λ r, rectContains r p) region.

(** Modelled from the spec: "respecting pin state (refuse to scroll further
    left/right than architecturally possible)": no further left when pinned
    to the left, no further right when pinned to the right. *)
Definition allowedDeltaX (tree : ScrollingTree) (dx : Z) : Z :=
  if m_mainFramePinnedToTheLeft tree && bool_decide (dx < 0)%Z then 0%Z
  else if m_mainFramePinnedToTheRight tree && bool_decide (0 < dx)%Z then 0%Z
  else dx.

Definition scrollBy (dx dy : Z) (position : IntPoint) : IntPoint :=
  mkIntPoint (pt_x position + dx) (pt_y position + dy).

(** Modelled from the spec: "resolve a scrollable node at that point and
    apply the scroll delta directly to its position": the innermost node at
    the point scrolls; [None] when the point is outside the node. *)
Fixpoint scrollNodeAt (p : IntPoint) (dx dy : Z) (n : ScrollingTreeNode)
  : option ScrollingTreeNode :=
  let '(ScrollingNode bounds position children) := n in
  if rectContains bounds p then
    match (fix firstAt (cs : list ScrollingTreeNode) : option (list ScrollingTreeNode) :=
             match cs with
             | [] => None
             | c :: cs' =>
                 match scrollNodeAt p dx dy c with
                 | Some c' => Some (c' :: cs')
                 | None => cons c <$> firstAt cs'
                 end
             end) children with
    | Some children' => Some (ScrollingNode bounds position children')
    | None => Some (ScrollingNode bounds (scrollBy dx dy position) children)
    end
  else None.

(** Modelled from the spec: [ScrollingTree::tryToHandleWheelEvent]
    (declared in [ScrollingTree.h], defined in a file that is not among the
    sources), the three steps of the event routing: an origin inside the
    non-fast-scrollable region goes to the main thread; otherwise the
    scrollable node at that point takes the delta that the pin state
    allows; otherwise the event is not handled.  Returns the result and the
    tree after the event. *)
Definition tryToHandleWheelEvent (tree : ScrollingTree) (wheelEvent : PlatformWheelEvent)
  : EventResult * ScrollingTree :=
  if regionContains (m_nonFastScrollableRegion tree) (we_position wheelEvent)
  then (SendToMainThread, tree)
  else
    match m_rootNode tree ≫=
          scrollNodeAt (we_position wheelEvent)
                       (allowedDeltaX tree (we_deltaX wheelEvent)) (we_deltaY wheelEvent) with
    | Some root =>
        (DidHandleEvent,
         mkScrollingTree (Some root) (m_nonFastScrollableRegion tree)
           (m_mainFrameScrollPosition tree) (m_hasWheelEventHandlers tree)
           (m_canGoBack tree) (m_canGoForward tree)
           (m_mainFramePinnedToTheLeft tree) (m_mainFramePinnedToTheRight tree))
    | None => (DidNotHandleEvent, tree)
    end.

End ScrollingTree.

(** ** Concrete proxies, descriptors and batches *)

(** A clock that reads 0, 1, 2, ... seconds. *)
Definition exampleClock : nat → Q := λ n, inject_Z (Z.of_nat n).

(** A descriptor with the given ID, root flag, [masksToBounds], children,
    image ID and image-updated flag; the other members are those of a layer
    just created. *)
Definition exampleInfo (id : N) (isRoot masks : bool) (kids : list N)
    (imageID : Z) (imageIsUpdated : bool) : WebLayerInfo :=
  {| li_name := "layer"; li_id := id; li_replica := 0; li_mask := 0;
     li_imageBackingStoreID := imageID; li_pos := (0, 0)%Q;
     li_anchorPoint := (1 # 2, 1 # 2, 0)%Q; li_size := (100, 100)%Q;
     li_transform := []; li_opacity := 1%Q; li_childrenTransform := [];
     li_contentsRect := mkFloatRect 0 0 0 0; li_animations := [];
     li_children := kids; li_contentsOpaque := false; li_drawsContent := true;
     li_backfaceVisible := true; li_masksToBounds := masks; li_preserves3D := false;
     li_isRootLayer := isRoot; li_imageIsUpdated := imageIsUpdated |}.

(** The proxy at its first paint: the constructor's state with the root
    container created. *)
Definition startProxy : LayerTreeHostProxy := ensureRootLayer newProxy.

(** Three messages of one frame. *)
Definition exampleFrame : list LayerTreeMessageToRenderer :=
  [SyncLayerParameters (exampleInfo 1 true false [2%N] 0 false);
   CreateTile 1 0 1;
   FlushLayerChanges].


(** A batch that deletes layer 1 and then syncs it as root. *)
Definition deleteThenSyncRoot : list LayerTreeMessageToRenderer :=
  [DeleteLayer 1;
   SyncLayerParameters (exampleInfo 1 true false [] 0 false);
   FlushLayerChanges].

(** A descriptor for layer 1 that is not flagged as root and asks for
    clipping. *)
Definition clippingInfo : WebLayerInfo := exampleInfo 1 false true [] 0 false.

(** A descriptor whose image was updated and that names image 7. *)
Definition imageInfo : WebLayerInfo := exampleInfo 1 false false [] 7 true.

(** A scrolling tree with one scrollable node under a non-fast-scrollable
    rectangle. *)
Definition exampleScrollingTree : ScrollingTree.ScrollingTree :=
  ScrollingTree.mkScrollingTree
    (Some (ScrollingTree.ScrollingNode (mkIntRect 0 0 100 100)
                                       (ScrollingTree.mkIntPoint 0 0) []))
    [mkIntRect 0 0 10 10] (ScrollingTree.mkIntPoint 0 0) false false false false false.

Definition exampleWheelEvent : ScrollingTree.PlatformWheelEvent :=
  ScrollingTree.mkWheelEvent (ScrollingTree.mkIntPoint 5 5) 0 (-3).

(** The proxy after layer 1 was synced as root with child 2 and layer 3
    was synced on its own: root ID 1, layer 1 under the root container. *)
Definition rootedProxy : LayerTreeHostProxy :=
  default startProxy
    (replay exampleClock
       [SyncLayerParameters (exampleInfo 1 true false [2%N] 0 false);
        SyncLayerParameters (exampleInfo 3 false false [] 0 false)]
       startProxy).

(** The proxy after the frame [exampleFrame]: layer 1 under the root
    container, with a backing store and with child 2. *)
Definition framedProxy : LayerTreeHostProxy :=
  default startProxy (replay exampleClock exampleFrame startProxy).

(** The proxy after a tile was created for layer 5, which no descriptor
    has attached to the tree. *)
Definition tiledProxy : LayerTreeHostProxy :=
  default startProxy (replay exampleClock [CreateTile 5 0 1] startProxy).

(** The proxy with image 7 registered. *)
Definition imageProxy : LayerTreeHostProxy := createImage 7 99 startProxy.

(** ** Histories *)

(** What happens to the proxy, one step at a time: the producer enqueues a
    message ([pushUpdateToQueue]); a run of [syncRemoteContent] starts
    ([ensureRootLayer]); the loop of the run takes the oldest message off
    the queue and applies it; the page purges ([purgeGLResources]). *)
Inductive ProxyEvent : Type :=
  | Enqueued (m : LayerTreeMessageToRenderer)
  | SyncStarted
  | Applied (m : LayerTreeMessageToRenderer)
  | Purged (fuel : nat).


Section Histories.

Variable currentTime : nat → Q.

(** [performs st events st'] holds when the proxy goes from [st] to [st']
    through [events], in this order, each of them returning. *)
Inductive performs : LayerTreeHostProxy → list ProxyEvent → LayerTreeHostProxy → Prop :=
  | performs_nil st : performs st [] st
  | performs_enqueue st m events st' :
      performs (pushUpdateToQueue m st) events st' →
      performs st (Enqueued m :: events) st'
  | performs_start st events st' :
      performs (ensureRootLayer st) events st' →
      performs st (SyncStarted :: events) st'
  | performs_apply st m rest st1 events st' :
      tryGetMessage (m_messagesToRenderer st) = Some (m, rest) →
      applyMessage currentTime m (with_messagesToRenderer rest st) = Some st1 →
      performs st1 events st' →
      performs st (Applied m :: events) st'
  | performs_purge st fuel st1 events st' :
      purgeGLResources fuel st = Some st1 →
      performs st1 events st' →
      performs st (Purged fuel :: events) st'.

End Histories.



(** ** Views of whole runs *)

Definition isFlushLayerChanges (m : LayerTreeMessageToRenderer) : bool :=
  match m with
  | FlushLayerChanges => true
  | _ => false
  end.

(** The members that [syncLayerParameters] assigns to the layer before it
    turns to the children, as one function of the layer: [replica] and
    [mask] are what [layerByID] returned, [image] the backing that
    [assignImageToLayer] found when the assignment was due. *)
Definition syncedLayer (layerInfo : WebLayerInfo) (replica mask : option nat)
    (image : option TextureMapperBackingStore) (l : GraphicsLayer) : GraphicsLayer :=
  let l := setName (li_name layerInfo) l in
  let l := setReplicatedByLayer replica l in
  let l := setMaskLayer mask l in
  let l := setPosition (li_pos layerInfo) l in
  let l := setSize (li_size layerInfo) l in
  let l := setTransform (li_transform layerInfo) l in
  let l := setAnchorPoint (li_anchorPoint layerInfo) l in
  let l := setChildrenTransform (li_childrenTransform layerInfo) l in
  let l := setBackfaceVisibility (li_backfaceVisible layerInfo) l in
  let l := setContentsOpaque (li_contentsOpaque layerInfo) l in
  let l := setContentsRect (li_contentsRect layerInfo) l in
  let l := setDrawsContent (li_drawsContent layerInfo) l in
  let l := match image with
           | Some backing => setContentsToMedia (Some backing) l
           | None => l
           end in
  let l := setMasksToBounds (if li_isRootLayer layerInfo then false
                             else li_masksToBounds layerInfo) l in
  let l := setOpacity (li_opacity layerInfo) l in
  setPreserves3D (li_preserves3D layerInfo) l.

(** ** Invariants of the states the proxy reaches *)

(** The parent links mirror the child lists: no child list names a layer
    twice, each child named is a live layer whose parent link points back,
    and each parent link points to a live layer that lists the layer among
    its children.  In particular no child pointer and no parent pointer
    dangles. *)
Definition linked (h : gmap nat GraphicsLayer) : Prop :=
  (∀ p l, h !! p = Some l → NoDup (m_children l)) ∧
  (∀ p l c, h !! p = Some l → c ∈ m_children l →
     ∃ lc, h !! c = Some lc ∧ m_parent lc = Some p) ∧
  (∀ c lc p, h !! c = Some lc → m_parent lc = Some p →
     ∃ l, h !! p = Some l ∧ c ∈ m_children l).

(** The two links of a layer. *)
Definition linksOf (l : GraphicsLayer) : option nat * list nat := (m_parent l, m_children l).

(** The layer at [r] has no parent and at most one child, which is then
    the node [b]. *)
Definition rootShape (r : nat) (b : option nat) (h : gmap nat GraphicsLayer) : Prop :=
  ∃ lr, h !! r = Some lr ∧ m_parent lr = None ∧
        (m_children lr = [] ∨ ∃ c, b = Some c ∧ m_children lr = [c]).

(** The root container holds at most the root layer: it has no parent, and
    its child list is empty or consists of the node that the current root
    ID names. *)
Definition rootHoldsRootLayer (st : LayerTreeHostProxy) : Prop :=
  ∀ r, m_rootLayer st = Some r →
       rootShape r (layerByID (m_rootLayerID st) st) (m_heap st).

(** [h'] is [h] with layers just created at addresses that were free. *)
Definition allocates (h h' : gmap nat GraphicsLayer) : Prop :=
  ∀ q, h' !! q = h !! q ∨ (h !! q = None ∧ h' !! q = Some createdLayer).

(** Every backing store that a layer points to, or that waits in the
    pending set, is allocated; the allocator hands out addresses above the
    allocated ones; and no two layers point to the same store. *)
Record storesWellFormed (st : LayerTreeHostProxy) : Prop := mkStoresWellFormed {
  sw_live : ∀ p l sp, m_heap st !! p = Some l → m_backingStore l = Some sp →
                      is_Some (m_stores st !! sp);
  sw_unshared : ∀ p q l l' sp, m_heap st !! p = Some l → m_heap st !! q = Some l' →
                               m_backingStore l = Some sp → m_backingStore l' = Some sp →
                               p = q;
  sw_fresh : ∀ sp, is_Some (m_stores st !! sp) → sp < m_nextStore st;
  sw_pending : ∀ sp, sp ∈ m_backingStoresWithPendingBuffers st →
                     is_Some (m_stores st !! sp)
}.

(** Every layer of [h'] has no backing store or is the layer of [h] at the
    same address, with the same backing store. *)
Definition keepsStores (h h' : gmap nat GraphicsLayer) : Prop :=
  ∀ p l', h' !! p = Some l' →
          m_backingStore l' = None ∨
          ∃ l, h !! p = Some l ∧ m_backingStore l = m_backingStore l'.

(** ** The paint cycle

    The two paint entry points create the texture mapper on first use,
    assert its mode, drain the queue and paint the tree under the root
    container.  The calls into the texture mapper and
    [TextureMapperLayer::paint] draw and leave the proxy as it is; a paint
    function returns, besides the proxy on return, the proxy as it was when
    [paint] ran, if it ran.  [None] stands for a failed [ASSERT]. *)

Section PaintCycle.

Variable currentTime : nat → Q.

(** [TextureMapperLayer::syncAnimationsRecursively] and
    [TextureMapperLayer::descendantsOrSelfHaveRunningAnimations] are not
    among the sources: the paint cycle is embedded for whatever the first
    does to the layers and whatever the second answers. *)
Variable syncAnimationsRecursively : nat → gmap nat GraphicsLayer → gmap nat GraphicsLayer.
Variable descendantsOrSelfHaveRunningAnimations : nat → gmap nat GraphicsLayer → bool.

Definition syncAnimations (st : LayerTreeHostProxy) : option LayerTreeHostProxy :=
  layer ← rootLayer st;
  let st := with_heap (syncAnimationsRecursively layer (m_heap st)) st in
  Some (if descendantsOrSelfHaveRunningAnimations layer (m_heap st)
        then updateViewport st
        else st).

Definition paintToCurrentGLContext (fuel : nat) (matrix : TransformationMatrix)
    (opacity : Q) (clipRect : FloatRect) (st : LayerTreeHostProxy)
  : option (option LayerTreeHostProxy * LayerTreeHostProxy) :=
  let st := match m_textureMapper st with
            | None => with_textureMapper (Some OpenGLMode) st
            | Some _ => st
            end in
  match m_textureMapper st with
  | Some OpenGLMode =>
      st ← syncRemoteContent currentTime fuel st;
      match rootLayer st with
      | None => Some (None, st)
      | Some currentRootLayer =>
          l ← m_heap st !! currentRootLayer;
          let st :=
            if bool_decide (m_opacity l ≠ opacity ∨ m_transform l ≠ matrix)
            then updateLayer currentRootLayer (setTransform matrix)
                   (updateLayer currentRootLayer (setOpacity opacity) st)
            else st in
          st' ← syncAnimations st;
          Some (Some st, st')
      end
  | _ => None
  end.

(** [TextureMapper::create()] without argument gives the mapper that the
    assertion below it expects, a software one. *)
Definition paintToGraphicsContext (fuel : nat) (st : LayerTreeHostProxy)
  : option (option LayerTreeHostProxy * LayerTreeHostProxy) :=
  let st := match m_textureMapper st with
            | None => with_textureMapper (Some SoftwareMode) st
            | Some _ => st
            end in
  match m_textureMapper st with
  | Some SoftwareMode =>
      st ← syncRemoteContent currentTime fuel st;
      match rootLayer st with
      | None => Some (None, st)
      | Some _ => Some (Some st, st)
      end
  | _ => None
  end.

End PaintCycle.

(** The root container as [ensureRootLayer] sets it up. *)
Definition rootContainer : GraphicsLayer :=
  setSize (1, 1)%Q
    (setAnchorPoint (0, 0, 0)%Q
       (setDrawsContent false (setMasksToBounds false createdLayer))).

(** The members of a layer that only a descriptor, an image assignment or
    a tile message for the layer can change. *)
Definition ownMembers (l : GraphicsLayer)
  : LayerAttributes * option nat * option TextureMapperBackingStore :=
  (attributesOf l, m_backingStore l, m_contentsLayer l).

(** ** More concrete inputs *)

(** A paint cycle without animations: nothing to advance, none running. *)
Definition noAnimations : nat → gmap nat GraphicsLayer → gmap nat GraphicsLayer := λ _ h, h.
Definition noneRunning : nat → gmap nat GraphicsLayer → bool := λ _ _, false.

(** A descriptor for layer 1 with child 2, masked by layer 2 (which the
    call is about to create) and replicated by layer 3 (which nothing
    creates). *)
Definition maskedInfo : WebLayerInfo :=
  {| li_name := "masked"; li_id := 1; li_replica := 3; li_mask := 2;
     li_imageBackingStoreID := 0; li_pos := (0, 0)%Q;
     li_anchorPoint := (1 # 2, 1 # 2, 0)%Q; li_size := (100, 100)%Q;
     li_transform := []; li_opacity := 1%Q; li_childrenTransform := [];
     li_contentsRect := mkFloatRect 0 0 0 0; li_animations := [];
     li_children := [2%N]; li_contentsOpaque := false; li_drawsContent := true;
     li_backfaceVisible := true; li_masksToBounds := false; li_preserves3D := false;
     li_isRootLayer := false; li_imageIsUpdated := false |}.

(** An update of one rectangle, 8 by 8, with bitmap 42. *)
Definition exampleUpdate : UpdateInfo :=
  {| ui_updateScaleFactor := 1; ui_bitmapHandle := 42;
     ui_updateRects := [mkIntRect 0 0 8 8]; ui_updateRectBounds := mkIntRect 0 0 8 8 |}.

(** The proxy in which layer 1 shows image 7. *)
Definition shownProxy : LayerTreeHostProxy :=
  default imageProxy (syncLayerParameters exampleClock imageInfo imageProxy).

(** Messages that leave layer 1 in place: its image is unregistered, it
    gets a descriptor without image and a tile. *)
Definition afterImage : list LayerTreeMessageToRenderer :=
  [DestroyImage 7;
   SyncLayerParameters (exampleInfo 1 false false [] 0 false);
   CreateTile 1 0 1].

(** The proxy after the frame [exampleFrame] was enqueued on a new proxy
    and drained by one paint. *)
Definition syncedProxy : LayerTreeHostProxy :=
  default newProxy (syncRemoteContent exampleClock 4 (enqueueAll exampleFrame newProxy)).

(** * Properties *)

(** ** Members left alone by the operations on the tree *)

Lemma treeFrame_refl st : treeFrame st st.
Proof. by repeat split. Qed.

Lemma treeFrame_trans st1 st2 st3 : treeFrame st1 st2 → treeFrame st2 st3 → treeFrame st1 st3.
Proof. unfold treeFrame. intros H1 H2. destruct_and!. repeat split; congruence. Qed.

Lemma updateLayer_frame p f st : treeFrame st (updateLayer p f st).
Proof. by repeat split. Qed.

Lemma createLayer_frame id st : treeFrame st (createLayer id st).2.
Proof. by repeat split. Qed.

Lemma ensureLayer_frame id st : treeFrame st (ensureLayer id st).
Proof. unfold ensureLayer. destruct (m_layers st !! id); by repeat split. Qed.

Lemma resolveChildren_frame ids st : treeFrame st (resolveChildren ids st).2.
Proof.
  revert st. induction ids as [|c ids IH]; intros st; simpl; [apply treeFrame_refl|].
  destruct (layerByID c st) as [child|].
  - specialize (IH st). destruct (resolveChildren ids st). exact IH.
  - match goal with |- context [resolveChildren ids ?s] =>
      specialize (IH s); destruct (resolveChildren ids s) end.
    simpl in *. eapply treeFrame_trans; [|exact IH]. by repeat split.
Qed.

Lemma setRootLayerID_frame id st st' : setRootLayerID id st = Some st' → treeFrame st st'.
Proof.
  unfold setRootLayerID. intros H.
  destruct (decide (id = m_rootLayerID st)); simplify_eq; [apply treeFrame_refl|].
  simpl in H. destruct (m_rootLayer st) eqn:Hr; simpl in H; [|done].
  destruct (decide (id = 0%N)); simplify_eq; [by repeat split|].
  destruct (layerByID _ _); simplify_eq; by repeat split.
Qed.

Lemma assignImageToLayer_frame p i st st' : assignImageToLayer p i st = Some st' → treeFrame st st'.
Proof.
  unfold assignImageToLayer. intros H.
  destruct (m_directlyCompositedImages st !! i); simplify_eq/=. by repeat split.
Qed.

Lemma deleteLayer_frame id st : treeFrame st (deleteLayer id st).
Proof. unfold deleteLayer. destruct (layerByID id st); by repeat split. Qed.

Section ReplayFrame.

Variable currentTime : nat → Q.

Lemma applyAnimation_frame p a st : treeFrame st (applyAnimation currentTime p a st).
Proof. unfold applyAnimation. destruct (wa_operation a); by repeat split. Qed.

Lemma applyAnimations_frame p anims st :
  treeFrame st (foldl (λ st' a, applyAnimation currentTime p a st') st anims).
Proof.
  revert st. induction anims as [|a anims IH]; intros st; simpl; [apply treeFrame_refl|].
  eapply treeFrame_trans; [apply applyAnimation_frame | apply IH].
Qed.

Lemma syncLayerParameters_frame info st st' :
  syncLayerParameters currentTime info st = Some st' → treeFrame st st'.
Proof.
  unfold syncLayerParameters. intros H.
  eapply treeFrame_trans; [apply (ensureLayer_frame (li_id info))|].
  set (st0 := ensureLayer (li_id info) st) in *. clearbody st0.
  destruct (m_layers st0 !! li_id info) as [p|]; simpl in H; [|done].
  destruct (m_heap st0 !! p) as [l|]; simpl in H; [|done].
  match type of H with (?o ≫= _) = _ => destruct o as [sa|] eqn:Ha end; simpl in H; [|done].
  assert (treeFrame st0 sa) as Hsa.
  { destruct (needsToUpdateImageTiles info l); simplify_eq.
    - apply assignImageToLayer_frame in Ha. eapply treeFrame_trans; [|apply Ha]. by repeat split.
    - by repeat split. }
  eapply treeFrame_trans; [apply Hsa|]. clear Ha Hsa.
  match type of H with context [resolveChildren ?ids ?s] =>
    pose proof (resolveChildren_frame ids s) as Hrc;
    destruct (resolveChildren ids s) as [cs sc] end.
  simpl in Hrc.
  match type of H with context [foldl ?f ?s ?l] =>
    pose proof (applyAnimations_frame p l s) as Han; set (sf := foldl f s l) in * end.
  assert (treeFrame sa sf) as Hsf.
  { eapply treeFrame_trans; [|apply Han]. eapply treeFrame_trans; [|apply Hrc]. by repeat split. }
  eapply treeFrame_trans; [apply Hsf|].
  destruct (_ && _); simplify_eq; [by eapply setRootLayerID_frame | apply treeFrame_refl].
Qed.

End ReplayFrame.

(** ** The queue and the loop that drains it *)

Lemma treeFrame_messageFrame st st' : treeFrame st st' → messageFrame st st'.
Proof. unfold treeFrame, messageFrame. intros H. destruct_and!. by repeat split. Qed.

Lemma getBackingStore_frame id st sp st' :
  getBackingStore id st = Some (sp, st') →
  messageFrame st st' ∧ m_sent st' = m_sent st ∧
  m_directlyCompositedImages st' = m_directlyCompositedImages st ∧
  m_rootLayerID st' = m_rootLayerID st ∧ m_clockReads st' = m_clockReads st ∧
  m_backingStoresWithPendingBuffers st' = m_backingStoresWithPendingBuffers st.
Proof.
  unfold getBackingStore. intros H.
  pose proof (ensureLayer_frame id st) as He.
  assert (m_rootLayerID (ensureLayer id st) = m_rootLayerID st ∧
          m_clockReads (ensureLayer id st) = m_clockReads st) as [Hr Hc].
  { unfold ensureLayer. by destruct (m_layers st !! id). }
  set (st0 := ensureLayer id st) in *. clearbody st0.
  destruct (layerByID id st0) as [p|]; simpl in H; [|done].
  destruct (m_heap st0 !! p) as [l|]; simpl in H; [|done].
  unfold treeFrame in He. destruct_and!.
  destruct (m_backingStore l); simplify_eq; unfold messageFrame; simpl; by repeat split.
Qed.

Section QueueFacts.

Variable currentTime : nat → Q.

Lemma applyMessage_frame m st st' :
  applyMessage currentTime m st = Some st' → messageFrame st st'.
Proof.
  destruct m; simpl; intros H.
  - simplify_eq. apply treeFrame_messageFrame, deleteLayer_frame.
  - unfold createTile in H.
    destruct (getBackingStore layerID st) as [[sp s1]|] eqn:Hg; simplify_eq/=.
    by apply getBackingStore_frame in Hg as [Hg _].
  - unfold removeTile in H.
    destruct (getBackingStore layerID st) as [[sp s1]|] eqn:Hg; simplify_eq/=.
    by apply getBackingStore_frame in Hg as [Hg _].
  - unfold updateTile in H.
    destruct (getBackingStore layerID st) as [[sp s1]|] eqn:Hg; simplify_eq/=.
    by apply getBackingStore_frame in Hg as [Hg _].
  - by simplify_eq.
  - by simplify_eq.
  - by eapply treeFrame_messageFrame, syncLayerParameters_frame.
  - unfold flushLayerChanges in H. destruct (m_rootLayer st); by simplify_eq/=.
  - by eapply treeFrame_messageFrame, setRootLayerID_frame.
Qed.

Lemma applyMessage_queue m st st' :
  applyMessage currentTime m st = Some st' →
  m_messagesToRenderer st' = m_messagesToRenderer st.
Proof. intros H. by apply applyMessage_frame in H as [? _]. Qed.

Lemma enqueueAll_queue cmds st :
  m_messagesToRenderer (enqueueAll cmds st) = m_messagesToRenderer st ++ cmds.
Proof.
  revert st. induction cmds as [|m cmds IH]; intros st; simpl.
  - by rewrite app_nil_r.
  - fold (enqueueAll cmds (pushUpdateToQueue m st)). rewrite IH. simpl.
    unfold MessageQueue_append. by rewrite <- app_assoc.
Qed.

Lemma ensureRootLayer_queue st :
  m_messagesToRenderer (ensureRootLayer st) = m_messagesToRenderer st.
Proof.
  unfold ensureRootLayer. destruct (m_rootLayer st); [done|]. simpl.
  by destruct (m_textureMapper st).
Qed.

(** Every exit of the loop is through an empty queue, after one iteration
    per message that was in the queue, oldest first. *)
Lemma drainMessages_drains fuel st st' :
  drainMessages currentTime fuel st = Some st' →
  drains currentTime st (m_messagesToRenderer st) st' ∧ m_messagesToRenderer st' = [].
Proof.
  revert st. induction fuel as [|fuel IH]; intros st H; simpl in H; [done|].
  destruct (m_messagesToRenderer st) as [|m rest] eqn:Hq; simpl in H.
  - simplify_eq. split; [|done]. constructor. by rewrite Hq.
  - destruct (applyMessage currentTime m (with_messagesToRenderer rest st)) as [st1|] eqn:Ha;
      simpl in H; [|done].
    pose proof (applyMessage_queue _ _ _ Ha) as Hq1. simpl in Hq1.
    destruct (IH _ H) as [Hd He]. split; [|done].
    econstructor; [by rewrite Hq | exact Ha |]. by rewrite Hq1 in Hd.
Qed.

(** The loop is deterministic: it applies one sequence and ends in one state. *)
Lemma drains_functional st msgs1 st1 msgs2 st2 :
  drains currentTime st msgs1 st1 → drains currentTime st msgs2 st2 →
  msgs1 = msgs2 ∧ st1 = st2.
Proof.
  intros H1. revert msgs2 st2.
  induction H1 as [st Hq|st m rest s1 msgs s2 Hq Ha _ IH]; intros msgs2 st2 H2.
  - inversion H2 as [s Hq2|s m2 rest2 s1' msgs' s2' Hq2 Ha2 Hd2]; subst; [done|].
    rewrite Hq in Hq2. discriminate.
  - inversion H2 as [s Hq2|s m2 rest2 s1' msgs' s2' Hq2 Ha2 Hd2]; subst.
    + rewrite Hq in Hq2. discriminate.
    + rewrite Hq in Hq2. injection Hq2 as <- <-.
      rewrite Ha in Ha2. injection Ha2 as <-.
      by destruct (IH _ _ Hd2) as [-> ->].
Qed.

(** With more fuel than messages the loop runs to its end. *)
Lemma drains_drainMessages st msgs st' fuel :
  drains currentTime st msgs st' → length msgs < fuel →
  drainMessages currentTime fuel st = Some st'.
Proof.
  intros H. revert fuel.
  induction H as [st Hq|st m rest s1 msgs s2 Hq Ha _ IH]; intros fuel Hf.
  - destruct fuel; [lia|]. simpl. by rewrite Hq.
  - destruct fuel; [simpl in Hf; lia|]. simpl. rewrite Hq, Ha. simpl.
    apply IH. simpl in Hf. lia.
Qed.

(** The messages applied by the loop are those that were in the queue. *)
Lemma drains_trace st msgs st' :
  drains currentTime st msgs st' → msgs = m_messagesToRenderer st.
Proof.
  induction 1 as [s Hs|s m rest s1 msgs s2 Hs Ha _ IH].
  - by destruct (m_messagesToRenderer s).
  - destruct (m_messagesToRenderer s) as [|m' rest'] eqn:Hs'; simplify_eq/=.
    f_equal. by rewrite (applyMessage_queue _ _ _ Ha).
Qed.

End QueueFacts.

(** ** The messages do not look at the queue *)

Lemma ensureLayer_queue id q st :
  ensureLayer id (with_messagesToRenderer q st) = with_messagesToRenderer q (ensureLayer id st).
Proof.
  unfold ensureLayer.
  change (m_layers (with_messagesToRenderer q st)) with (m_layers st).
  by destruct (m_layers st !! id).
Qed.

Lemma updateLayer_queue p f q st :
  updateLayer p f (with_messagesToRenderer q st) = with_messagesToRenderer q (updateLayer p f st).
Proof. reflexivity. Qed.

Lemma layerByID_queue id q st : layerByID id (with_messagesToRenderer q st) = layerByID id st.
Proof. reflexivity. Qed.

Lemma resolveChildren_cons c ids st :
  resolveChildren (c :: ids) st
  = match layerByID c st with
    | Some child =>
        (child :: (resolveChildren ids st).1, (resolveChildren ids st).2)
    | None =>
        (m_nextLayer st :: (resolveChildren ids (materialized c st)).1,
         (resolveChildren ids (materialized c st)).2)
    end.
Proof.
  simpl. destruct (layerByID c st).
  - by destruct (resolveChildren ids st).
  - change (with_layers (HashMap_add c (m_nextLayer st) (m_layers st))
              (with_nextLayer (S (m_nextLayer st)) (with_heap _ st)))
      with (materialized c st).
    by destruct (resolveChildren ids (materialized c st)).
Qed.

Lemma materialized_queue c q st :
  materialized c (with_messagesToRenderer q st) = with_messagesToRenderer q (materialized c st).
Proof. reflexivity. Qed.

Lemma resolveChildren_queue ids q st :
  resolveChildren ids (with_messagesToRenderer q st)
  = ((resolveChildren ids st).1, with_messagesToRenderer q (resolveChildren ids st).2).
Proof.
  revert st. induction ids as [|c ids IH]; intros st; [done|].
  rewrite !resolveChildren_cons, layerByID_queue.
  destruct (layerByID c st) as [child|].
  - by rewrite IH.
  - change (m_nextLayer (with_messagesToRenderer q st)) with (m_nextLayer st).
    by rewrite materialized_queue, IH.
Qed.

Lemma setRootLayerID_queue id q st :
  setRootLayerID id (with_messagesToRenderer q st)
  = with_messagesToRenderer q <$> setRootLayerID id st.
Proof.
  unfold setRootLayerID.
  change (m_rootLayerID (with_messagesToRenderer q st)) with (m_rootLayerID st).
  case_decide; [done|]. simpl. destruct (m_rootLayer st); simpl; [|done].
  case_decide; [done|].
  change (layerByID id (with_heap (removeAllChildren n (m_heap st))
                          (with_rootLayerID id (with_messagesToRenderer q st))))
    with (layerByID id (with_heap (removeAllChildren n (m_heap st)) (with_rootLayerID id st))).
  by destruct (layerByID _ _).
Qed.

Lemma assignImageToLayer_queue p i q st :
  assignImageToLayer p i (with_messagesToRenderer q st)
  = with_messagesToRenderer q <$> assignImageToLayer p i st.
Proof.
  unfold assignImageToLayer.
  change (m_directlyCompositedImages (with_messagesToRenderer q st))
    with (m_directlyCompositedImages st).
  by destruct (m_directlyCompositedImages st !! i).
Qed.

Lemma deleteLayer_queue id q st :
  deleteLayer id (with_messagesToRenderer q st) = with_messagesToRenderer q (deleteLayer id st).
Proof. unfold deleteLayer. rewrite layerByID_queue. by destruct (layerByID id st). Qed.

Lemma getBackingStore_queue id q st :
  getBackingStore id (with_messagesToRenderer q st)
  = (λ r, (r.1, with_messagesToRenderer q r.2)) <$> getBackingStore id st.
Proof.
  unfold getBackingStore. rewrite ensureLayer_queue, layerByID_queue.
  destruct (layerByID id (ensureLayer id st)) as [p|]; simpl; [|done].
  destruct (m_heap (ensureLayer id st) !! p) as [l|]; simpl; [|done].
  by destruct (m_backingStore l).
Qed.

Section QueueIndependence.

Variable currentTime : nat → Q.

Lemma applyAnimation_queue p a q st :
  applyAnimation currentTime p a (with_messagesToRenderer q st)
  = with_messagesToRenderer q (applyAnimation currentTime p a st).
Proof. unfold applyAnimation. by destruct (wa_operation a). Qed.

Lemma applyAnimations_queue p anims q st :
  foldl (λ st' a, applyAnimation currentTime p a st') (with_messagesToRenderer q st) anims
  = with_messagesToRenderer q (foldl (λ st' a, applyAnimation currentTime p a st') st anims).
Proof.
  revert st. induction anims as [|a anims IH]; intros st; simpl; [done|].
  by rewrite applyAnimation_queue, IH.
Qed.

Lemma syncLayerParameters_queue info q st :
  syncLayerParameters currentTime info (with_messagesToRenderer q st)
  = with_messagesToRenderer q <$> syncLayerParameters currentTime info st.
Proof.
  unfold syncLayerParameters. rewrite ensureLayer_queue.
  generalize (ensureLayer (li_id info) st). intros s0.
  change (m_layers (with_messagesToRenderer q s0)) with (m_layers s0).
  destruct (m_layers s0 !! li_id info) as [p|]; [|done].
  cbn -[updateLayer layerByID resolveChildren assignImageToLayer setRootLayerID
        applyAnimation setChildren with_messagesToRenderer with_heap
        needsToUpdateImageTiles m_heap m_rootLayerID].
  change (m_heap (with_messagesToRenderer q s0)) with (m_heap s0).
  destruct (m_heap s0 !! p) as [l|]; [|done].
  cbn -[updateLayer layerByID resolveChildren assignImageToLayer setRootLayerID
        applyAnimation setChildren with_messagesToRenderer with_heap
        needsToUpdateImageTiles m_heap m_rootLayerID].
  rewrite !updateLayer_queue, !layerByID_queue.
  match goal with
  | |- context [assignImageToLayer _ _ (with_messagesToRenderer q ?s)] =>
      generalize s; intros sA0
  end.
  rewrite assignImageToLayer_queue.
  destruct (needsToUpdateImageTiles info l).
  - destruct (assignImageToLayer p (li_imageBackingStoreID info) sA0) as [sA|]; [|done].
    cbn -[updateLayer layerByID resolveChildren assignImageToLayer setRootLayerID
          applyAnimation setChildren with_messagesToRenderer with_heap m_heap m_rootLayerID].
    rewrite !updateLayer_queue, resolveChildren_queue.
    destruct (resolveChildren (li_children info) _) as [cs sB].
    cbn -[updateLayer layerByID resolveChildren assignImageToLayer setRootLayerID
          applyAnimation setChildren with_messagesToRenderer with_heap m_heap m_rootLayerID].
    change (with_heap (setChildren p cs (m_heap (with_messagesToRenderer q sB)))
              (with_messagesToRenderer q sB))
      with (with_messagesToRenderer q (with_heap (setChildren p cs (m_heap sB)) sB)).
    rewrite applyAnimations_queue.
    generalize (foldl (λ st' a, applyAnimation currentTime p a st')
                      (with_heap (setChildren p cs (m_heap sB)) sB) (li_animations info)).
    intros sD.
    change (m_rootLayerID (with_messagesToRenderer q sD)) with (m_rootLayerID sD).
    destruct (_ && _); [apply setRootLayerID_queue|done].
  - cbn -[updateLayer layerByID resolveChildren assignImageToLayer setRootLayerID
          applyAnimation setChildren with_messagesToRenderer with_heap m_heap m_rootLayerID].
    rewrite !updateLayer_queue, resolveChildren_queue.
    destruct (resolveChildren (li_children info) _) as [cs sB].
    cbn -[updateLayer layerByID resolveChildren assignImageToLayer setRootLayerID
          applyAnimation setChildren with_messagesToRenderer with_heap m_heap m_rootLayerID].
    change (with_heap (setChildren p cs (m_heap (with_messagesToRenderer q sB)))
              (with_messagesToRenderer q sB))
      with (with_messagesToRenderer q (with_heap (setChildren p cs (m_heap sB)) sB)).
    rewrite applyAnimations_queue.
    generalize (foldl (λ st' a, applyAnimation currentTime p a st')
                      (with_heap (setChildren p cs (m_heap sB)) sB) (li_animations info)).
    intros sD.
    change (m_rootLayerID (with_messagesToRenderer q sD)) with (m_rootLayerID sD).
    destruct (_ && _); [apply setRootLayerID_queue|done].
Qed.

Lemma applyMessage_queue_independent m q st :
  applyMessage currentTime m (with_messagesToRenderer q st)
  = with_messagesToRenderer q <$> applyMessage currentTime m st.
Proof.
  destruct m; simpl.
  - by rewrite deleteLayer_queue.
  - unfold createTile. rewrite getBackingStore_queue.
    by destruct (getBackingStore layerID st) as [[sp s1]|].
  - unfold removeTile. rewrite getBackingStore_queue.
    by destruct (getBackingStore layerID st) as [[sp s1]|].
  - unfold updateTile. rewrite getBackingStore_queue.
    by destruct (getBackingStore layerID st) as [[sp s1]|].
  - done.
  - done.
  - apply syncLayerParameters_queue.
  - unfold flushLayerChanges.
    change (m_rootLayer (with_messagesToRenderer q st)) with (m_rootLayer st).
    by destruct (m_rootLayer st).
  - apply setRootLayerID_queue.
Qed.

Lemma replay_queue_independent msgs q st :
  replay currentTime msgs (with_messagesToRenderer q st)
  = with_messagesToRenderer q <$> replay currentTime msgs st.
Proof.
  revert st. induction msgs as [|m msgs IH]; intros st; simpl; [done|].
  rewrite applyMessage_queue_independent.
  destruct (applyMessage currentTime m st); simpl; [apply IH|done].
Qed.

(** With enough fuel the loop computes the fold of [applyMessage] over the
    queue, and leaves the queue empty. *)
Lemma drainMessages_replay fuel st :
  length (m_messagesToRenderer st) < fuel →
  drainMessages currentTime fuel st
  = with_messagesToRenderer [] <$> replay currentTime (m_messagesToRenderer st) st.
Proof.
  revert st. induction fuel as [|fuel IH]; intros st Hf; [lia|]. simpl.
  destruct (m_messagesToRenderer st) as [|m rest] eqn:Hq; simpl.
  - f_equal. destruct st. simpl in Hq. by subst.
  - rewrite applyMessage_queue_independent.
    destruct (applyMessage currentTime m st) as [s1|] eqn:Ha; simpl; [|done].
    rewrite IH by (simpl in *; lia). simpl.
    rewrite replay_queue_independent.
    destruct (replay currentTime rest s1); simpl; done.
Qed.

End QueueIndependence.

(** ** The drain loop is first in, first out *)

Section FifoFacts.

Variable currentTime : nat → Q.

(** C1.  Whatever the producer enqueued, [syncRemoteContent] applies the
    messages waiting in the queue followed by the enqueued ones, each in
    one iteration and in the order of enqueueing, none skipped, merged or
    moved; when it returns the queue is empty; given one unit of fuel more
    than there are messages it does return, in the state reached by those
    iterations; and its result is the fold of [applyMessage] over that
    sequence, with the queue emptied. *)
Theorem syncRemoteContent_fifo st cmds :
  let st1 := enqueueAll cmds st in
  let all := m_messagesToRenderer st ++ cmds in
  (∀ fuel st', syncRemoteContent currentTime fuel st1 = Some st' →
     drains currentTime (ensureRootLayer st1) all st' ∧ m_messagesToRenderer st' = []) ∧
  (∀ fuel st', drains currentTime (ensureRootLayer st1) all st' → length all < fuel →
     syncRemoteContent currentTime fuel st1 = Some st') ∧
  (∀ msgs st', drains currentTime (ensureRootLayer st1) msgs st' → msgs = all) ∧
  (∀ fuel, length all < fuel →
     syncRemoteContent currentTime fuel st1
     = with_messagesToRenderer [] <$> replay currentTime all (ensureRootLayer st1)).
Proof.
  intros st1 all.
  assert (m_messagesToRenderer (ensureRootLayer st1) = all) as Hq.
  { rewrite ensureRootLayer_queue. apply enqueueAll_queue. }
  split_and!.
  - intros fuel st' H. unfold syncRemoteContent in H.
    apply drainMessages_drains in H. by rewrite Hq in H.
  - intros fuel st' Hd Hf. unfold syncRemoteContent. by eapply drains_drainMessages.
  - intros msgs st' Hd. apply drains_trace in Hd. by rewrite Hq in Hd.
  - intros fuel Hf. unfold syncRemoteContent.
    rewrite drainMessages_replay by (by rewrite Hq). by rewrite Hq.
Qed.

End FifoFacts.

(** ** The tree operations on the heap *)

Lemma foldr_alter_lookup (f : GraphicsLayer → GraphicsLayer) (cs : list nat)
    (h : gmap nat GraphicsLayer) (q : nat) :
  foldr (λ c, alter f c) h cs !! q = None ↔ h !! q = None.
Proof.
  induction cs as [|c cs IH]; simpl; [done|].
  rewrite lookup_alter. case_decide; subst; [|done].
  rewrite fmap_None. done.
Qed.

Lemma removeFromParent_None p h q : removeFromParent p h !! q = None ↔ h !! q = None.
Proof.
  unfold removeFromParent. destruct (h !! p ≫= m_parent); [|done].
  rewrite !lookup_alter. repeat case_decide; subst; rewrite ?fmap_None, ?lookup_alter;
    repeat case_decide; rewrite ?fmap_None; done.
Qed.

Lemma removeAllChildren_None p h q : removeAllChildren p h !! q = None ↔ h !! q = None.
Proof.
  unfold removeAllChildren. destruct (h !! p) eqn:Hp; [|done].
  rewrite lookup_alter. case_decide; subst; rewrite ?fmap_None; apply foldr_alter_lookup.
Qed.

Lemma addChild_None p c h q : addChild p c h !! q = None ↔ h !! q = None.
Proof.
  unfold addChild. rewrite !lookup_alter.
  repeat case_decide; subst; rewrite ?fmap_None, ?lookup_alter; repeat case_decide;
    rewrite ?fmap_None; apply removeFromParent_None.
Qed.

Lemma setChildren_None p cs h q : setChildren p cs h !! q = None ↔ h !! q = None.
Proof.
  unfold setChildren. rewrite <- (removeAllChildren_None p h q).
  generalize (removeAllChildren p h). induction cs as [|c cs IH]; intros h'; simpl; [done|].
  rewrite IH. apply addChild_None.
Qed.

(** A projection of a layer that ignores its parent link and child list is
    unchanged, at every address, by the operations that rearrange the tree. *)
Section LinkFrame.

Context {A : Type} (π : GraphicsLayer → A).
Hypothesis π_parent : ∀ x l, π (setParent x l) = π l.
Hypothesis π_children : ∀ x l, π (setChildList x l) = π l.

Lemma alter_π f p (h : gmap nat GraphicsLayer) q :
  (∀ l, π (f l) = π l) → π <$> alter f p h !! q = π <$> h !! q.
Proof.
  intros Hf. rewrite lookup_alter. case_decide; subst; [|done].
  destruct (h !! q); simpl; [by rewrite Hf|done].
Qed.

Lemma removeFromParent_π p h q : π <$> removeFromParent p h !! q = π <$> h !! q.
Proof.
  unfold removeFromParent. destruct (h !! p ≫= m_parent); [|done].
  rewrite !alter_π; auto.
Qed.

Lemma removeAllChildren_π p h q : π <$> removeAllChildren p h !! q = π <$> h !! q.
Proof.
  unfold removeAllChildren. destruct (h !! p) as [l|]; [|done].
  rewrite alter_π by auto.
  induction (m_children l) as [|c cs IH]; simpl; [done|]. by rewrite alter_π.
Qed.

Lemma addChild_π p c h q : π <$> addChild p c h !! q = π <$> h !! q.
Proof. unfold addChild. rewrite !alter_π by auto. apply removeFromParent_π. Qed.

Lemma setChildren_π p cs h q : π <$> setChildren p cs h !! q = π <$> h !! q.
Proof.
  unfold setChildren. rewrite <- (removeAllChildren_π p h q).
  generalize (removeAllChildren p h). induction cs as [|c cs IH]; intros h'; simpl; [done|].
  rewrite IH. apply addChild_π.
Qed.

End LinkFrame.

(** After [removeAllChildren] the layer has no child and none of its
    former children has a parent. *)
Lemma removeAllChildren_children p h l :
  h !! p = Some l →
  ∃ l', removeAllChildren p h !! p = Some l' ∧ m_children l' = [].
Proof.
  intros Hp. unfold removeAllChildren. rewrite Hp, lookup_alter_eq.
  destruct (foldr (λ c, alter (setParent None) c) h (m_children l) !! p) as [l'|] eqn:Hl.
  - eexists. split; [done|]. done.
  - apply foldr_alter_lookup in Hl. congruence.
Qed.

Lemma foldr_setParent_elem cs (h : gmap nat GraphicsLayer) c lc :
  c ∈ cs → foldr (λ c, alter (setParent None) c) h cs !! c = Some lc → m_parent lc = None.
Proof.
  induction cs as [|c' cs IH]; simpl; [by intros ?%elem_of_nil|].
  intros Hin. rewrite lookup_alter. case_decide; subst.
  - intros (l0 & _ & ->)%fmap_Some. done.
  - apply elem_of_cons in Hin as [?|Hin]; [congruence|]. by apply IH.
Qed.

Lemma removeAllChildren_parent p h l c lc :
  h !! p = Some l → c ∈ m_children l →
  removeAllChildren p h !! c = Some lc → m_parent lc = None.
Proof.
  intros Hp Hc. unfold removeAllChildren. rewrite Hp, lookup_alter.
  case_decide; subst.
  - intros (l0 & Hl0 & ->)%fmap_Some. simpl. by eapply foldr_setParent_elem.
  - by apply foldr_setParent_elem.
Qed.

(** A layer without children that receives a child has exactly that child,
    and the child has it as parent. *)
Lemma removeFromParent_nil c h p l :
  h !! p = Some l → m_children l = [] →
  ∃ l', removeFromParent c h !! p = Some l' ∧ m_children l' = [].
Proof.
  intros Hp Hc. unfold removeFromParent. destruct (h !! c ≫= m_parent) as [q|]; [|eauto].
  rewrite !lookup_alter.
  repeat case_decide; subst; rewrite ?lookup_alter_eq, ?Hp; simpl; rewrite ?Hc;
    eexists; (split; [done|]); simpl; by rewrite ?Hc.
Qed.

Lemma addChild_sole p c h l :
  h !! p = Some l → m_children l = [] →
  ∃ l', addChild p c h !! p = Some l' ∧ m_children l' = [c].
Proof.
  intros Hp Hc. destruct (removeFromParent_nil c h p l Hp Hc) as (l1 & H1 & Hc1).
  unfold addChild. rewrite lookup_alter_eq, lookup_alter.
  case_decide; subst; rewrite H1; simpl; eexists; (split; [done|]); simpl; by rewrite Hc1.
Qed.

Lemma addChild_parent p c h lc :
  addChild p c h !! c = Some lc → m_parent lc = Some p.
Proof.
  unfold addChild. rewrite lookup_alter, lookup_alter_eq.
  case_decide; subst.
  - rewrite lookup_alter_eq. intros (l1 & (l0 & _ & ->)%fmap_Some & ->)%fmap_Some. done.
  - intros (l0 & _ & ->)%fmap_Some. done.
Qed.

Lemma addChild_parent_other p c h q :
  q ≠ c → m_parent <$> addChild p c h !! q = m_parent <$> h !! q.
Proof.
  intros Hq. unfold addChild.
  rewrite (alter_π m_parent) by done. rewrite lookup_alter_ne by done.
  unfold removeFromParent. destruct (h !! c ≫= m_parent); [|done].
  rewrite lookup_alter_ne by done. by rewrite (alter_π m_parent).
Qed.

(** ** Root reassignment *)

(** The effect of [setRootLayerID] on a proxy whose root container is
    allocated. *)
Lemma setRootLayerID_effect st A B root lr :
  m_rootLayerID st = A → B ≠ A →
  m_rootLayer st = Some root → m_heap st !! root = Some lr →
  setRootLayerID A st = Some st ∧
  ∃ st',
    setRootLayerID B st = Some st' ∧
    m_rootLayerID st' = B ∧
    m_layers st' = m_layers st ∧
    (∀ q, m_heap st' !! q = None ↔ m_heap st !! q = None) ∧
    (∃ lr', m_heap st' !! root = Some lr' ∧
            m_children lr' = match layerByID B st with Some b => [b] | None => [] end) ∧
    (∀ b lb, layerByID B st = Some b → m_heap st' !! b = Some lb → m_parent lb = Some root) ∧
    (∀ x lx, x ∈ m_children lr → layerByID B st ≠ Some x →
             m_heap st' !! x = Some lx → m_parent lx = None).
Proof.
  intros HA HB Hroot Hlr.
  split.
  { unfold setRootLayerID. by rewrite decide_True. }
  unfold setRootLayerID. rewrite decide_False by congruence. simpl. rewrite Hroot. simpl.
  destruct (removeAllChildren_children root (m_heap st) lr Hlr) as (l1 & Hl1 & Hc1).
  assert (layerByID B (with_heap (removeAllChildren root (m_heap st)) (with_rootLayerID B st))
          = layerByID B st) as Hby by done.
  destruct (decide (B = 0%N)) as [HB0|HB0].
  - assert (layerByID B st = None) as Hnone.
    { unfold layerByID. by rewrite decide_True. }
    eexists. split; [done|]. simpl. rewrite Hnone.
    split_and!; try done.
    + intros q. apply removeAllChildren_None.
    + eauto.
    + intros x lx Hx _ Hlx. exact (removeAllChildren_parent root _ lr x lx Hlr Hx Hlx).
  - rewrite Hby. destruct (layerByID B st) as [b|] eqn:Hb.
    + eexists. split; [done|]. simpl.
      destruct (addChild_sole root b _ l1 Hl1 Hc1) as (l2 & Hl2 & Hc2).
      split_and!; try done.
      * intros q. rewrite addChild_None. apply removeAllChildren_None.
      * eauto.
      * intros b' lb [= <-] Hlb. by eapply addChild_parent.
      * intros x lx Hx Hne Hlx.
        assert (x ≠ b) as Hxb by congruence.
        pose proof (addChild_parent_other root b (removeAllChildren root (m_heap st)) x Hxb)
          as Hp.
        rewrite Hlx in Hp. simpl in Hp.
        destruct (removeAllChildren root (m_heap st) !! x) as [lx0|] eqn:Hx0; [|done].
        simpl in Hp. injection Hp as ->.
        exact (removeAllChildren_parent root _ lr x lx0 Hlr Hx Hx0).
    + eexists. split; [done|]. simpl.
      split_and!; try done.
      * intros q. apply removeAllChildren_None.
      * eauto.
      * intros x lx Hx _ Hlx. exact (removeAllChildren_parent root _ lr x lx Hlr Hx Hlx).
Qed.

(** ** Deletion *)

Lemma removeFromParent_detaches p h l q lq :
  h !! p = Some l → m_parent l = Some q → q ≠ p → h !! q = Some lq →
  ∃ lq', removeFromParent p h !! q = Some lq' ∧
         m_children lq' = removeFirst p (m_children lq).
Proof.
  intros Hp Hpar Hne Hq. unfold removeFromParent. rewrite Hp. simpl. rewrite Hpar.
  rewrite lookup_alter_ne by done. rewrite lookup_alter_eq, Hq. simpl. eauto.
Qed.

Lemma removeAllChildren_children_other p h q :
  q ≠ p → m_children <$> removeAllChildren p h !! q = m_children <$> h !! q.
Proof.
  intros Hq. unfold removeAllChildren. destruct (h !! p) as [l|]; [|done].
  rewrite lookup_alter_ne by done.
  induction (m_children l) as [|c cs IH]; simpl; [done|].
  by rewrite (alter_π m_children).
Qed.

(** C8.  [deleteLayer] for an ID that resolves to no node returns the state
    it was given, in particular for an ID absent from the layer map.  For
    an ID that resolves to a node, the node is taken out of the child list
    of its parent, the ID leaves the layer map and the node leaves the
    heap; nothing else of the proxy is touched. *)
Theorem deleteLayer_spec st id :
  (layerByID id st = None → deleteLayer id st = st) ∧
  (m_layers st !! id = None → deleteLayer id st = st) ∧
  (∀ p, layerByID id st = Some p →
     m_layers (deleteLayer id st) = delete id (m_layers st) ∧
     m_heap (deleteLayer id st) !! p = None ∧
     (∀ l q lq, m_heap st !! p = Some l → m_parent l = Some q → q ≠ p →
                m_heap st !! q = Some lq →
                ∃ lq', m_heap (deleteLayer id st) !! q = Some lq' ∧
                       m_children lq' = removeFirst p (m_children lq)) ∧
     treeFrame st (deleteLayer id st) ∧
     m_rootLayerID (deleteLayer id st) = m_rootLayerID st).
Proof.
  split; [|split].
  - intros H. unfold deleteLayer. by rewrite H.
  - intros H. unfold deleteLayer, layerByID. case_decide; [done|]. by rewrite H.
  - intros p Hp. pose proof (deleteLayer_frame id st) as Hf.
    unfold deleteLayer in *. rewrite Hp in *. simpl. split_and!; try done.
    + unfold destroyLayer. apply lookup_delete_eq.
    + intros l q lq Hl Hpar Hne Hq.
      destruct (removeFromParent_detaches p _ l q lq Hl Hpar Hne Hq) as (lq1 & Hq1 & Hc1).
      unfold destroyLayer. rewrite lookup_delete_ne by done.
      pose proof (removeAllChildren_children_other p (removeFromParent p (m_heap st)) q Hne)
        as Hc.
      rewrite Hq1 in Hc. simpl in Hc.
      destruct (removeAllChildren p (removeFromParent p (m_heap st)) !! q) as [lq'|];
        [|done].
      simpl in Hc. injection Hc as Hc. exists lq'. split; [done|]. congruence.
Qed.

(** ** Flush *)

Lemma swapBuffers_lookup st sp :
  m_stores (swapBuffers st) !! sp =
  if decide (sp ∈ m_backingStoresWithPendingBuffers st)
  then LayerBackingStore_swapBuffers <$> m_stores st !! sp
  else m_stores st !! sp.
Proof.
  unfold swapBuffers. simpl.
  pose (P := λ (r : gmap nat (gmap Z LayerBackingStoreTile)) (X : gset nat),
               ∀ sp, r !! sp = if decide (sp ∈ X)
                               then LayerBackingStore_swapBuffers <$> m_stores st !! sp
                               else m_stores st !! sp).
  assert (∀ X, P (set_fold (λ backingStore stores,
                              alter LayerBackingStore_swapBuffers backingStore stores)
                           (m_stores st) X) X) as HP; [|apply HP].
  apply set_fold_ind_L; unfold P.
  - intros sp'. by rewrite decide_False by set_solver.
  - intros x X r Hx IH sp'. rewrite lookup_alter. case_decide as Hd; subst.
    + rewrite decide_True by set_solver. rewrite IH. by rewrite decide_False.
    + rewrite IH. repeat case_decide; try done; set_solver.
Qed.


Lemma swapTile_texture t u : tile_backBuffer t = Some u → tile_texture (swapTile t) = Some u.
Proof. unfold swapTile. by intros ->. Qed.

Lemma getBackingStore_spec id st sp st' :
  getBackingStore id st = Some (sp, st') →
  ∃ p l, layerByID id st' = Some p ∧ m_heap st' !! p = Some l ∧ m_backingStore l = Some sp.
Proof.
  unfold getBackingStore. intros H.
  set (st0 := ensureLayer id st) in *. clearbody st0.
  destruct (layerByID id st0) as [p|] eqn:Hp; simpl in H; [|done].
  destruct (m_heap st0 !! p) as [l|] eqn:Hl; simpl in H; [|done].
  destruct (m_backingStore l) as [sp0|] eqn:Hb; simplify_eq.
  - eauto.
  - exists p, (setBackingStore (Some (m_nextStore st0)) l). split; [done|].
    simpl. by rewrite lookup_alter_eq, Hl.
Qed.

Section FlushFacts.

Variable currentTime : nat → Q.

Lemma replay_app msgs1 msgs2 st :
  replay currentTime (msgs1 ++ msgs2) st =
  replay currentTime msgs1 st ≫= replay currentTime msgs2.
Proof.
  revert st. induction msgs1 as [|m msgs1 IH]; intros st; simpl; [done|].
  destruct (applyMessage currentTime m st); simpl; [apply IH|done].
Qed.

(** Only a flush sends a message or takes a store out of the pending set. *)
Lemma applyMessage_no_flush m st st' :
  m ≠ FlushLayerChanges → applyMessage currentTime m st = Some st' →
  m_sent st' = m_sent st ∧
  m_backingStoresWithPendingBuffers st ⊆ m_backingStoresWithPendingBuffers st'.
Proof.
  intros Hm H. destruct m; simpl in H; try done.
  - simplify_eq. pose proof (deleteLayer_frame layerID st) as Hf.
    unfold treeFrame in Hf. destruct_and!. split; [done|]. set_solver.
  - unfold createTile in H.
    destruct (getBackingStore layerID st) as [[sp s1]|] eqn:Hg; simplify_eq/=.
    apply getBackingStore_frame in Hg. destruct_and!. split; [done|]. set_solver.
  - unfold removeTile in H.
    destruct (getBackingStore layerID st) as [[sp s1]|] eqn:Hg; simplify_eq/=.
    apply getBackingStore_frame in Hg. destruct_and!. split; [done|]. set_solver.
  - unfold updateTile in H.
    destruct (getBackingStore layerID st) as [[sp s1]|] eqn:Hg; simplify_eq/=.
    apply getBackingStore_frame in Hg. destruct_and!. split; [done|]. set_solver.
  - by simplify_eq.
  - by simplify_eq.
  - apply syncLayerParameters_frame in H. unfold treeFrame in H. destruct_and!.
    split; [done|]. set_solver.
  - apply setRootLayerID_frame in H. unfold treeFrame in H. destruct_and!.
    split; [done|]. set_solver.
Qed.

Lemma replay_no_flush msgs st st' :
  FlushLayerChanges ∉ msgs → replay currentTime msgs st = Some st' →
  m_sent st' = m_sent st ∧
  m_backingStoresWithPendingBuffers st ⊆ m_backingStoresWithPendingBuffers st'.
Proof.
  revert st. induction msgs as [|m msgs IH]; intros st Hn H; simpl in H.
  - by simplify_eq.
  - destruct (applyMessage currentTime m st) as [s1|] eqn:Ha; simpl in H; [|done].
    apply not_elem_of_cons in Hn as [Hm Hn].
    apply applyMessage_no_flush in Ha as [Hs Hp]; [|done].
    destruct (IH _ Hn H) as [Hs' Hp']. split; [congruence|set_solver].
Qed.


Lemma performs_app events1 events2 st st1 st' :
  performs currentTime st events1 st1 → performs currentTime st1 events2 st' →
  performs currentTime st (events1 ++ events2) st'.
Proof.
  intros H1 H2. induction H1; simpl; [done|..].
  - apply performs_enqueue. by apply IHperforms.
  - apply performs_start. by apply IHperforms.
  - eapply performs_apply; [done|done|]. by apply IHperforms.
  - eapply performs_purge; [done|]. by apply IHperforms.
Qed.


(** A run of the loop is a history of applied messages. *)
Lemma drainMessages_performs fuel st st' :
  drainMessages currentTime fuel st = Some st' →
  ∃ msgs, performs currentTime st (Applied <$> msgs) st'.
Proof.
  revert st. induction fuel as [|fuel IH]; intros st H; simpl in H; [done|].
  destruct (tryGetMessage (m_messagesToRenderer st)) as [[m rest]|] eqn:Hq.
  - destruct (applyMessage currentTime m (with_messagesToRenderer rest st)) as [s1|] eqn:Ha;
      simpl in H; [|done].
    destruct (IH _ H) as (msgs & Hp). exists (m :: msgs). simpl.
    by eapply performs_apply.
  - injection H as <-. exists []. constructor.
Qed.

(** Every state the proxy reaches is the end of a history. *)
Lemma reachable_performs st :
  reachable currentTime st → ∃ events, performs currentTime newProxy events st.
Proof.
  induction 1 as [|st m _ [events IH]|st fuel st' _ [events IH] Hs
                  |st fuel st' _ [events IH] Hp].
  - exists []. constructor.
  - exists (events ++ [Enqueued m]). eapply performs_app; [done|].
    apply performs_enqueue. constructor.
  - unfold syncRemoteContent in Hs. apply drainMessages_performs in Hs as (msgs & Hd).
    exists (events ++ SyncStarted :: (Applied <$> msgs)). eapply performs_app; [done|].
    by apply performs_start.
  - exists (events ++ [Purged fuel]). eapply performs_app; [done|].
    eapply performs_purge; [done|constructor].
Qed.



End FlushFacts.

(** ** The layer map and the heap stay in agreement *)

Lemma sameShape_refl st : sameShape st st.
Proof. by repeat split. Qed.

Lemma sameShape_trans st1 st2 st3 : sameShape st1 st2 → sameShape st2 st3 → sameShape st1 st3.
Proof.
  intros (Hl1 & Hh1 & Hn1 & Hr1) (Hl2 & Hh2 & Hn2 & Hr2).
  split_and!; try congruence. intros q. by rewrite Hh2.
Qed.

Lemma wellFormed_sameShape st st' : wellFormed st → sameShape st st' → wellFormed st'.
Proof.
  intros [Hlive Hinj Hfresh Hroot] (Hl & Hh & Hn & Hr).
  assert (∀ q, is_Some (m_heap st' !! q) ↔ is_Some (m_heap st !! q)) as Hs.
  { intros q. rewrite <- !not_eq_None_Some. by rewrite Hh. }
  split.
  - intros id p. rewrite Hl, Hs. apply Hlive.
  - intros id1 id2 p. rewrite Hl. apply Hinj.
  - intros p. rewrite Hs, Hn. apply Hfresh.
  - intros r. rewrite Hr, Hl, Hs. apply Hroot.
Qed.

Lemma updateLayer_shape p f st : sameShape st (updateLayer p f st).
Proof.
  split_and!; try done. intros q. simpl. rewrite lookup_alter.
  case_decide; subst; [|done]. by rewrite fmap_None.
Qed.

Lemma with_heap_shape st h :
  (∀ q, h !! q = None ↔ m_heap st !! q = None) → sameShape st (with_heap h st).
Proof. intros H. by split_and!. Qed.

Lemma grows_refl st : grows st st.
Proof. split_and!; try done; eauto. Qed.

Lemma grows_trans st1 st2 st3 : grows st1 st2 → grows st2 st3 → grows st1 st3.
Proof.
  intros (Ha1 & Hb1 & Hc1 & Hd1 & He1 & Hf1 & Hg1) (Ha2 & Hb2 & Hc2 & Hd2 & He2 & Hf2 & Hg2).
  split_and!; try congruence; try lia.
  - eauto.
  - intros id p H3. destruct (Hb2 _ _ H3) as [H2|(H2 & Hp & Hh)].
    + destruct (Hb1 _ _ H2) as [H1|(H1 & Hp & Hh)]; [by left|].
      right. split_and!; try done; try lia. rewrite Hc2 by lia. done.
    + right. split_and!; try done; try lia.
      destruct (m_layers st1 !! id) as [p1|] eqn:H1; [|done].
      apply Ha1 in H1. congruence.
  - intros q Hq. rewrite Hc2 by lia. by apply Hc1.
Qed.

Lemma sameShape_grows st st' :
  sameShape st st' → (∀ q, m_heap st' !! q = m_heap st !! q) →
  m_rootLayerID st' = m_rootLayerID st → m_clockReads st' = m_clockReads st → grows st st'.
Proof.
  intros (Hl & Hh & Hn & Hr) Hheap Hid Hck. split_and!; try done; try lia.
  - intros id p. by rewrite Hl.
  - intros id p. rewrite Hl. by left.
Qed.

Lemma materialized_wf id st :
  wellFormed st → wellFormed (materialized id st) ∧ grows st (materialized id st).
Proof.
  intros [Hlive Hinj Hfresh Hroot].
  assert (m_heap st !! m_nextLayer st = None) as Hnone.
  { destruct (m_heap st !! m_nextLayer st) eqn:H; [|done].
    assert (m_nextLayer st < m_nextLayer st) by (apply Hfresh; eauto). lia. }
  assert (∀ i, m_layers st !! i ≠ Some (m_nextLayer st)) as Hnot.
  { intros i Hi. apply (Hlive i) in Hi as [? Hi]. congruence. }
  unfold materialized, HashMap_add. simpl.
  destruct (m_layers st !! id) as [p0|] eqn:Hid; simpl.
  - split.
    + split; simpl.
      * intros i p Hi. rewrite lookup_insert. case_decide; [eauto|]. by eapply Hlive.
      * apply Hinj.
      * intros p. rewrite lookup_insert. case_decide; subst; [lia|].
        intros Hp. apply Hfresh in Hp. lia.
      * intros r Hr. destruct (Hroot r Hr) as [Hl Hn]. split; [|done].
        rewrite lookup_insert. case_decide; [eauto|done].
    + split_and!; simpl; try done; try lia.
      * intros i p Hi. by left.
      * intros q Hq. rewrite lookup_insert_ne by lia. done.
  - split.
    + split; simpl.
      * intros i p. rewrite lookup_insert. case_decide; subst.
        -- intros [= <-]. rewrite lookup_insert_eq. eauto.
        -- intros Hi. rewrite lookup_insert. case_decide; [eauto|]. by eapply Hlive.
      * intros i1 i2 p. rewrite !lookup_insert.
        repeat case_decide; subst; try done.
        -- intros [= <-] Hi. by destruct (Hnot i2).
        -- intros Hi [= <-]. by destruct (Hnot i1).
        -- apply Hinj.
      * intros p. rewrite lookup_insert. case_decide; subst; [lia|].
        intros Hp. apply Hfresh in Hp. lia.
      * intros r Hr. destruct (Hroot r Hr) as [Hl Hn]. split.
        -- rewrite lookup_insert. case_decide; [eauto|done].
        -- intros i. rewrite lookup_insert. case_decide; subst; [|apply Hn].
           intros [= <-]. rewrite Hnone in Hl. by destruct Hl.
    + split_and!; simpl; try done; try lia.
      * intros i p Hi. rewrite lookup_insert_ne; [done|]. congruence.
      * intros i p. rewrite lookup_insert. case_decide; subst.
        -- intros [= <-]. right. split_and!; try done; try lia.
           by rewrite lookup_insert_eq.
        -- by left.
      * intros q Hq. rewrite lookup_insert_ne by lia. done.
Qed.

Lemma ensureLayer_wf id st :
  wellFormed st →
  wellFormed (ensureLayer id st) ∧ grows st (ensureLayer id st) ∧
  is_Some (m_layers (ensureLayer id st) !! id).
Proof.
  intros Hwf. unfold ensureLayer.
  destruct (m_layers st !! id) as [p|] eqn:Hid.
  - split_and!; [done|apply grows_refl|]. rewrite Hid. eauto.
  - change (wellFormed (materialized id st) ∧ grows st (materialized id st) ∧
            is_Some (m_layers (materialized id st) !! id)).
    destruct (materialized_wf id st Hwf) as [H1 H2]. split_and!; try done.
    unfold materialized, HashMap_add. simpl. rewrite Hid. simpl.
    rewrite lookup_insert_eq. eauto.
Qed.

Lemma resolveChildren_wf ids st :
  wellFormed st →
  wellFormed (resolveChildren ids st).2 ∧ grows st (resolveChildren ids st).2 ∧
  (∀ c, c ∈ ids → is_Some (m_layers (resolveChildren ids st).2 !! c)) ∧
  (∀ p, p ∈ (resolveChildren ids st).1 →
        is_Some (m_heap (resolveChildren ids st).2 !! p)).
Proof.
  revert st. induction ids as [|c ids IH]; intros st Hwf; simpl.
  - split_and!; [done|apply grows_refl| |]; by intros ? ?%elem_of_nil.
  - destruct (layerByID c st) as [child|] eqn:Hc.
    + destruct (IH st Hwf) as (Hw & Hg & Hin & Hlive).
      destruct (resolveChildren ids st) as [cs s2]. simpl in *.
      assert (m_layers st !! c = Some child) as Hc'.
      { unfold layerByID in Hc. by case_decide. }
      split_and!; try done.
      * intros c' [->|H]%elem_of_cons; [|by apply Hin].
        destruct Hg as (Ha & _). rewrite (Ha _ _ Hc'). eauto.
      * intros p [->|H]%elem_of_cons; [|by apply Hlive].
        destruct Hg as (Ha & _). apply (wf_live _ Hw c). by apply Ha.
    + change (with_layers (HashMap_add c (m_nextLayer st) (m_layers st))
                (with_nextLayer (S (m_nextLayer st)) (with_heap _ st)))
        with (materialized c st).
      destruct (materialized_wf c st Hwf) as [Hw1 Hg1].
      destruct (IH _ Hw1) as (Hw & Hg & Hin & Hlive).
      assert (is_Some (m_layers (materialized c st) !! c)) as [pc Hpc].
      { unfold materialized, HashMap_add. simpl.
        destruct (m_layers st !! c) eqn:H; simpl; [rewrite H; eauto|].
        rewrite lookup_insert_eq. eauto. }
      assert (m_heap (materialized c st) !! m_nextLayer st = Some createdLayer) as Hnew.
      { unfold materialized, HashMap_add. simpl.
        destruct (m_layers st !! c); simpl; by rewrite lookup_insert_eq. }
      assert (m_nextLayer (materialized c st) = S (m_nextLayer st)) as Hnext.
      { unfold materialized, HashMap_add. simpl. by destruct (m_layers st !! c). }
      destruct (resolveChildren ids (materialized c st)) as [cs s2].
      change (wellFormed s2 ∧ grows st s2 ∧ (∀ c0, c0 ∈ c :: ids → is_Some (m_layers s2 !! c0)) ∧
              (∀ p, p ∈ m_nextLayer st :: cs → is_Some (m_heap s2 !! p))).
      change (wellFormed s2) in Hw. change (grows (materialized c st) s2) in Hg.
      change (∀ c, c ∈ ids → is_Some (m_layers s2 !! c)) in Hin.
      change (∀ p, p ∈ cs → is_Some (m_heap s2 !! p)) in Hlive.
      split_and!; try done.
      * by eapply grows_trans.
      * intros c' [->|H]%elem_of_cons; [|by apply Hin].
        destruct Hg as (Ha & _). rewrite (Ha _ _ Hpc). eauto.
      * intros p [->|H]%elem_of_cons; [|by apply Hlive].
        destruct Hg as (_ & _ & Hold & _). rewrite Hold by (rewrite Hnext; lia).
        rewrite Hnew. eauto.
Qed.

(** ** What [syncLayerParameters] does to the layer map and the attributes *)

Lemma attributeFrame_refl st : attributeFrame st st.
Proof. split; [apply sameShape_refl|done]. Qed.

Lemma attributeFrame_trans st1 st2 st3 :
  attributeFrame st1 st2 → attributeFrame st2 st3 → attributeFrame st1 st3.
Proof.
  intros [H1 A1] [H2 A2]. split; [by eapply sameShape_trans|].
  intros q. by rewrite A2.
Qed.

Lemma updateLayer_heap_eq p f st : m_heap (updateLayer p f st) !! p = f <$> m_heap st !! p.
Proof. apply lookup_alter_eq. Qed.

Lemma updateLayer_heap_ne p q f st :
  p ≠ q → m_heap (updateLayer p f st) !! q = m_heap st !! q.
Proof. intros. by apply lookup_alter_ne. Qed.

Lemma updateLayer_attributeFrame p f st :
  (∀ l, attributesOf (f l) = attributesOf l) → attributeFrame st (updateLayer p f st).
Proof.
  intros Hf. split; [apply updateLayer_shape|].
  intros q. simpl. by apply alter_π.
Qed.

Lemma setChildren_attributeFrame p cs st :
  attributeFrame st (with_heap (setChildren p cs (m_heap st)) st).
Proof.
  split.
  - apply with_heap_shape. intros q. apply setChildren_None.
  - intros q. simpl. by apply setChildren_π.
Qed.

Lemma setRootLayerID_attributeFrame id st st' :
  setRootLayerID id st = Some st' →
  attributeFrame st st' ∧ m_rootLayerID st' = id ∧ m_clockReads st' = m_clockReads st.
Proof.
  unfold setRootLayerID. intros H.
  destruct (decide (id = m_rootLayerID st)); simplify_eq; [by split; [apply attributeFrame_refl|]|].
  simpl in H. destruct (m_rootLayer st) as [root|] eqn:Hr; simpl in H; [|done].
  assert (attributeFrame st
            (with_heap (removeAllChildren root (m_heap st)) (with_rootLayerID id st))) as H1.
  { split.
    - split_and!; try done. intros q. apply removeAllChildren_None.
    - intros q. simpl. by apply removeAllChildren_π. }
  destruct (decide (id = 0%N)); simplify_eq; [done|].
  destruct (layerByID _ _) as [b|]; simplify_eq; [|done].
  split; [|done]. eapply attributeFrame_trans; [exact H1|]. split.
  - split_and!; try done. intros q. apply addChild_None.
  - intros q. simpl. by apply addChild_π.
Qed.

Lemma assignImageToLayer_Some p i st st' :
  assignImageToLayer p i st = Some st' →
  ∃ img, m_directlyCompositedImages st !! i = Some img ∧
         st' = updateLayer p (setContentsToMedia (Some img)) st.
Proof.
  unfold assignImageToLayer. intros H.
  destruct (m_directlyCompositedImages st !! i) as [img|]; simplify_eq/=. eauto.
Qed.

Lemma assignImageToLayer_None p i st :
  m_directlyCompositedImages st !! i = None → assignImageToLayer p i st = None.
Proof. intros H. unfold assignImageToLayer. by rewrite H. Qed.

Lemma assignImageToLayer_progress p i st :
  is_Some (m_directlyCompositedImages st !! i) → is_Some (assignImageToLayer p i st).
Proof. intros [img H]. unfold assignImageToLayer. rewrite H. simpl. eauto. Qed.

Section SyncFacts.

Variable currentTime : nat → Q.

Lemma applyAnimations_attributeFrame p anims st :
  attributeFrame st (foldl (λ st' a, applyAnimation currentTime p a st') st anims) ∧
  m_rootLayerID (foldl (λ st' a, applyAnimation currentTime p a st') st anims)
  = m_rootLayerID st.
Proof.
  revert st. induction anims as [|a anims IH]; intros st; simpl.
  - split; [apply attributeFrame_refl|done].
  - destruct (IH (applyAnimation currentTime p a st)) as [H1 H2]. split.
    + eapply attributeFrame_trans; [|exact H1].
      unfold applyAnimation. destruct (wa_operation a).
      * by apply updateLayer_attributeFrame.
      * by apply updateLayer_attributeFrame.
      * split.
        -- split_and!; try done. intros q. simpl. rewrite lookup_alter.
           case_decide; subst; [|done]. by rewrite fmap_None.
        -- intros q. simpl. by apply alter_π.
    + rewrite H2. unfold applyAnimation. by destruct (wa_operation a).
Qed.

Lemma materialized_other id st i :
  i ≠ id → m_layers (materialized id st) !! i = m_layers st !! i.
Proof.
  intros Hi. unfold materialized, HashMap_add. simpl.
  destruct (m_layers st !! id); simpl; [done|]. by rewrite lookup_insert_ne.
Qed.

Lemma ensureLayer_other id st i :
  i ≠ id → m_layers (ensureLayer id st) !! i = m_layers st !! i.
Proof.
  intros Hi. unfold ensureLayer. destruct (m_layers st !! id) eqn:H; [done|].
  by apply (materialized_other id st i).
Qed.

Lemma resolveChildren_other ids st i :
  i ∉ ids → m_layers (resolveChildren ids st).2 !! i = m_layers st !! i.
Proof.
  revert st. induction ids as [|c ids IH]; intros st Hi; simpl; [done|].
  apply not_elem_of_cons in Hi as [Hc Hi].
  destruct (layerByID c st) as [child|].
  - specialize (IH st Hi). by destruct (resolveChildren ids st).
  - change (with_layers (HashMap_add c (m_nextLayer st) (m_layers st))
              (with_nextLayer (S (m_nextLayer st)) (with_heap _ st)))
      with (materialized c st).
    specialize (IH (materialized c st) Hi).
    destruct (resolveChildren ids (materialized c st)). simpl in *.
    rewrite IH. by apply materialized_other.
Qed.

(** The effect of one [syncLayerParameters] on a well-formed proxy: the
    descriptor's ID names a node that carries the descriptor's attributes,
    the node it named before if any and a new one otherwise; each child ID
    names a node; an ID new to the map is the descriptor's or one of its
    children and names a node just created; a node of another ID keeps its
    attributes; and the result is well-formed. *)
Lemma syncLayerParameters_spec info st st' :
  wellFormed st →
  syncLayerParameters currentTime info st = Some st' →
  wellFormed st' ∧
  (∃ p l', m_layers st' !! li_id info = Some p ∧ m_heap st' !! p = Some l' ∧
           attributesOf l' = attributesOfInfo info ∧
           (∀ p0, m_layers st !! li_id info = Some p0 → p = p0) ∧
           (m_layers st !! li_id info = None → m_heap st !! p = None)) ∧
  (∀ i p, m_layers st !! i = Some p → m_layers st' !! i = Some p) ∧
  (∀ i p, m_layers st' !! i = Some p → m_layers st !! i = None →
          (i = li_id info ∨ i ∈ li_children info) ∧ m_heap st !! p = None ∧
          (i ≠ li_id info →
           attributesOf <$> m_heap st' !! p = Some (attributesOf createdLayer))) ∧
  (∀ c, c ∈ li_children info → is_Some (m_layers st' !! c)) ∧
  (∀ i p, i ≠ li_id info → m_layers st !! i = Some p →
          attributesOf <$> m_heap st' !! p = attributesOf <$> m_heap st !! p) ∧
  m_rootLayerID st' = (if li_isRootLayer info then li_id info else m_rootLayerID st) ∧
  m_rootLayer st' = m_rootLayer st.
Proof.
  intros Hwf H. unfold syncLayerParameters in H.
  destruct (ensureLayer_wf (li_id info) st Hwf) as (Hw0 & Hg0 & [p Hp]).
  pose proof (ensureLayer_other (li_id info) st) as Ho0.
  set (s0 := ensureLayer (li_id info) st) in *. clearbody s0.
  rewrite Hp in H. simpl in H.
  destruct (m_heap s0 !! p) as [l|] eqn:Hl; simpl in H; [|done].
  match type of H with (?o ≫= _) = _ => destruct o as [sA|] eqn:HA end; simpl in H; [|done].
  (* the state after the scalar setters and the image assignment *)
  assert (m_layers sA = m_layers s0 ∧ m_nextLayer sA = m_nextLayer s0 ∧
          m_rootLayer sA = m_rootLayer s0 ∧ m_rootLayerID sA = m_rootLayerID s0 ∧
          m_clockReads sA = m_clockReads s0 ∧
          (∀ q, q ≠ p → m_heap sA !! q = m_heap s0 !! q) ∧
          ∃ lA, m_heap sA !! p = Some lA ∧
                m_name lA = li_name info ∧ m_position lA = li_pos info ∧
                m_size lA = li_size info ∧ m_transform lA = li_transform info ∧
                m_anchorPoint lA = li_anchorPoint info ∧
                m_childrenTransform lA = li_childrenTransform info ∧
                m_backfaceVisibility lA = li_backfaceVisible info ∧
                m_contentsOpaque lA = li_contentsOpaque info ∧
                m_contentsRect lA = li_contentsRect info ∧
                m_drawsContent lA = li_drawsContent info)
    as (HlA & HnA & HrA & HiA & HcA & HoA & lA & HpA & HattrA).
  { destruct (needsToUpdateImageTiles info l).
    - apply assignImageToLayer_Some in HA as (img & _ & ->).
      split_and!; try done.
      + intros q Hq. unfold updateLayer. simpl. by rewrite !lookup_alter_ne.
      + unfold updateLayer. simpl. rewrite !lookup_alter_eq, Hl. simpl.
        eexists. split; [done|]. by split_and!.
    - injection HA as <-. split_and!; try done.
      + intros q Hq. unfold updateLayer. simpl. by rewrite !lookup_alter_ne.
      + unfold updateLayer. simpl. rewrite !lookup_alter_eq, Hl. simpl.
        eexists. split; [done|]. by split_and!. }
  clear HA.
  match type of H with context [resolveChildren ?ids ?s] => set (sA' := s) in * end.
  assert (sameShape s0 sA') as HshA.
  { split_and!; try done. intros q. unfold sA', updateLayer. simpl.
    destruct (decide (q = p)) as [->|Hq].
    - rewrite !lookup_alter_eq, HpA, Hl. done.
    - rewrite !lookup_alter_ne by done. by rewrite HoA. }
  assert (m_heap sA' !! p
          = Some (setPreserves3D (li_preserves3D info)
                    (setOpacity (li_opacity info)
                       (setMasksToBounds (if li_isRootLayer info then false
                                          else li_masksToBounds info) lA)))) as HpA'.
  { unfold sA', updateLayer. simpl. by rewrite !lookup_alter_eq, HpA. }
  assert (∀ q, q ≠ p → m_heap sA' !! q = m_heap s0 !! q) as HoA'.
  { intros q Hq. unfold sA', updateLayer. simpl. rewrite !lookup_alter_ne by done.
    by apply HoA. }
  assert (m_layers sA' = m_layers s0 ∧ m_nextLayer sA' = m_nextLayer s0 ∧
          m_rootLayer sA' = m_rootLayer s0 ∧ m_rootLayerID sA' = m_rootLayerID s0)
    as (HlA' & HnA' & HrA' & HiA') by done.
  pose proof (wellFormed_sameShape _ _ Hw0 HshA) as HwA'.
  destruct (resolveChildren_wf (li_children info) sA' HwA') as (HwB & HgB & HinB & _).
  pose proof (resolveChildren_other (li_children info) sA') as HoB.
  clearbody sA'.
  destruct (resolveChildren (li_children info) sA') as [cs sB]. simpl in HwB, HgB, HinB, HoB.
  destruct (applyAnimations_attributeFrame p (li_animations info)
              (with_heap (setChildren p cs (m_heap sB)) sB)) as [HfD HiD].
  pose proof (setChildren_attributeFrame p cs sB) as HfC.
  set (sD := foldl _ _ _) in *. clearbody sD.
  assert (attributeFrame sB sD) as HfBD by (by eapply attributeFrame_trans).
  assert (attributeFrame sB st' ∧
          m_rootLayerID st' = if li_isRootLayer info then li_id info else m_rootLayerID st)
    as [[HshF HatF] HidF].
  { destruct Hg0 as (_ & _ & _ & _ & _ & Hid0 & _).
    destruct HgB as (_ & _ & _ & _ & _ & HidB & _).
    simpl in HiD.
    destruct (li_isRootLayer info) eqn:Hroot; simpl in H.
    - case_bool_decide as Hne.
      + apply setRootLayerID_attributeFrame in H as (Hf & Hi & _).
        split; [by eapply attributeFrame_trans|done].
      + injection H as <-. split; [done|]. exact Hne.
    - injection H as <-. split; [done|]. congruence. }
  clear H HfC HfD HiD.
  destruct HshF as (HlF & HhF & HnF & HrF).
  pose proof (wellFormed_sameShape _ _ HwB (conj HlF (conj HhF (conj HnF HrF)))) as HwF.
  destruct Hg0 as (Ha0 & Hb0 & Hc0 & Hd0 & He0 & Hf0 & _).
  destruct HgB as (HaB & HbB & HcB & HdB & HeB & HfB & _).
  assert (p < m_nextLayer s0) as Hplt by (apply (wf_fresh _ Hw0); eauto).
  assert (attributesOf <$> m_heap st' !! p = Some (attributesOfInfo info)) as Hpattr.
  { rewrite HatF, HcB by lia. rewrite HpA'. simpl. f_equal.
    destruct HattrA as (? & ? & ? & ? & ? & ? & ? & ? & ? & ?).
    unfold attributesOf, attributesOfInfo. simpl. by f_equal. }
  split_and!.
  - done.
  - destruct (m_heap st' !! p) as [l'|] eqn:Hl'; [|done].
    exists p, l'. split_and!.
    + rewrite HlF. apply HaB. by rewrite HlA'.
    + done.
    + apply (inj Some). exact Hpattr.
    + intros p0 Hp0. apply Ha0 in Hp0. congruence.
    + intros Hnone. destruct (Hb0 _ _ Hp) as [?|(_ & Hge & _)]; [congruence|].
      destruct (m_heap st !! p) eqn:Hsp; [|done].
      assert (p < m_nextLayer st) by (apply (wf_fresh _ Hwf); eauto). lia.
  - intros i q Hi. rewrite HlF. apply HaB. rewrite HlA'. by apply Ha0.
  - intros i q Hi Hnone. rewrite HlF in Hi.
    destruct (decide (i = li_id info)) as [->|Hne].
    + assert (q = p) as ->.
      { assert (m_layers sB !! li_id info = Some p) as Hp' by (apply HaB; by rewrite HlA').
        congruence. }
      split_and!; [by left| |done].
      destruct (Hb0 _ _ Hp) as [?|(_ & Hge & _)]; [congruence|].
      destruct (m_heap st !! p) eqn:Hsp; [|done].
      assert (p < m_nextLayer st) by (apply (wf_fresh _ Hwf); eauto). lia.
    + destruct (decide (i ∈ li_children info)) as [Hin|Hnin].
      2:{ rewrite HoB, HlA', Ho0 in Hi by done. congruence. }
      destruct (HbB _ _ Hi) as [Hold|(_ & Hge & Hnew)].
      { rewrite HlA', Ho0 in Hold by done. congruence. }
      split_and!; [by right| |].
      * destruct (m_heap st !! q) eqn:Hsq; [|done].
        assert (q < m_nextLayer st) by (apply (wf_fresh _ Hwf); eauto). lia.
      * intros _. rewrite HatF, Hnew. done.
  - intros c Hc. rewrite HlF. by apply HinB.
  - intros i q Hne Hi.
    assert (q < m_nextLayer st) as Hq by (apply (wf_fresh _ Hwf), (wf_live _ Hwf i); done).
    assert (q ≠ p) as Hqp.
    { intros ->. apply Hne. apply (wf_inj _ Hw0 _ _ p); [by apply Ha0|done]. }
    rewrite HatF, HcB by lia. rewrite HoA' by done. by rewrite Hc0.
  - done.
  - rewrite HrF, HeB, HrA'. done.
Qed.

End SyncFacts.

(** ** Every message keeps the proxy well-formed *)

Lemma newProxy_wf : wellFormed newProxy.
Proof.
  split; simpl.
  - intros id p H. by rewrite lookup_empty in H.
  - intros id1 id2 p H. by rewrite lookup_empty in H.
  - intros p [? H]. by rewrite lookup_empty in H.
  - done.
Qed.

Lemma deleteLayer_wf id st : wellFormed st → wellFormed (deleteLayer id st).
Proof.
  intros Hwf. unfold deleteLayer. destruct (layerByID id st) as [p|] eqn:Hp; [|done].
  assert (id ≠ 0%N ∧ m_layers st !! id = Some p) as [Hid Hl].
  { unfold layerByID in Hp. by case_decide. }
  destruct Hwf as [Hlive Hinj Hfresh Hroot].
  assert (∀ q, q ≠ p →
            is_Some (destroyLayer p (removeFromParent p (m_heap st)) !! q)
            ↔ is_Some (m_heap st !! q)) as Hs.
  { intros q Hq. unfold destroyLayer. rewrite lookup_delete_ne by done.
    rewrite <- !not_eq_None_Some. by rewrite removeAllChildren_None, removeFromParent_None. }
  split; simpl.
  - intros i q. rewrite lookup_delete. case_decide; [done|]. intros Hi.
    apply Hs; [|by eapply Hlive]. intros ->. eauto.
  - intros i1 i2 q. rewrite !lookup_delete. repeat case_decide; try done. apply Hinj.
  - intros q [lq Hq]. unfold destroyLayer in Hq.
    apply lookup_delete_Some in Hq as [Hne Hq]. apply Hfresh.
    rewrite <- not_eq_None_Some. intros Hn.
    rewrite <- (removeFromParent_None p), <- (removeAllChildren_None p) in Hn. congruence.
  - intros r Hr. destruct (Hroot r Hr) as [Hrl Hrn]. split.
    + apply Hs; [|done]. intros ->. by apply (Hrn id).
    + intros i. rewrite lookup_delete. case_decide; [done|]. apply Hrn.
Qed.

Lemma getBackingStore_wf id st :
  wellFormed st → id ≠ InvalidWebLayerID →
  ∃ sp st', getBackingStore id st = Some (sp, st') ∧ wellFormed st' ∧
            m_rootLayer st' = m_rootLayer st ∧ is_Some (m_layers st' !! id).
Proof.
  intros Hwf Hid. unfold getBackingStore.
  destruct (ensureLayer_wf id st Hwf) as (Hw0 & Hg0 & [p Hp]).
  destruct Hg0 as (_ & _ & _ & _ & Hr0 & _).
  set (s0 := ensureLayer id st) in *. clearbody s0.
  unfold layerByID. rewrite decide_False by done. rewrite Hp. simpl.
  destruct (wf_live _ Hw0 _ _ Hp) as [l Hl]. rewrite Hl. simpl.
  destruct (m_backingStore l).
  - eexists _, _. split; [done|]. split_and!; eauto.
  - eexists _, _. split; [done|]. split_and!; simpl; eauto.
    eapply wellFormed_sameShape; [exact Hw0|].
    split_and!; try done. intros q. simpl. rewrite lookup_alter.
    case_decide; subst; [|done]. by rewrite fmap_None.
Qed.

Lemma getBackingStore_wf_inv id st sp st' :
  wellFormed st → getBackingStore id st = Some (sp, st') → wellFormed st'.
Proof.
  intros Hwf H. destruct (decide (id = InvalidWebLayerID)) as [->|Hid].
  - unfold getBackingStore, layerByID in H. by rewrite decide_True in H.
  - destruct (getBackingStore_wf id st Hwf Hid) as (sp' & s' & H' & Hw & _). congruence.
Qed.

Lemma with_stores_wf st stores : wellFormed st → wellFormed (with_stores stores st).
Proof. intros Hwf. eapply wellFormed_sameShape; [exact Hwf|]. by split_and!. Qed.

Lemma ensureRootLayer_wf st :
  wellFormed st → wellFormed (ensureRootLayer st) ∧ is_Some (m_rootLayer (ensureRootLayer st)).
Proof.
  intros Hwf. unfold ensureRootLayer. destruct (m_rootLayer st) as [r|] eqn:Hr.
  - split; [done|]. rewrite Hr. eauto.
  - assert (m_heap st !! m_nextLayer st = None) as Hnone.
    { destruct (m_heap st !! m_nextLayer st) eqn:H; [|done].
      assert (m_nextLayer st < m_nextLayer st) by (apply (wf_fresh _ Hwf); eauto). lia. }
    destruct Hwf as [Hlive Hinj Hfresh Hroot]. simpl.
    assert (∀ q, is_Some (alter (setSize (1, 1)%Q) (m_nextLayer st)
                   (alter (setAnchorPoint (0, 0, 0)%Q) (m_nextLayer st)
                      (alter (setDrawsContent false) (m_nextLayer st)
                         (alter (setMasksToBounds false) (m_nextLayer st)
                            (<[m_nextLayer st :=
                                 setShouldUpdateBackingStoreFromLayer false newGraphicsLayer]>
                               (m_heap st))))) !! q)
                 ↔ q = m_nextLayer st ∨ is_Some (m_heap st !! q)) as Hs.
    { intros q. destruct (decide (q = m_nextLayer st)) as [->|Hq].
      - rewrite !lookup_alter_eq, lookup_insert_eq. simpl. split; eauto.
      - rewrite !lookup_alter_ne, lookup_insert_ne by done. split; [eauto|].
        by intros [?|?]. }
    assert (wellFormed
              (updateLayer (m_nextLayer st) (setSize (1, 1)%Q)
                 (updateLayer (m_nextLayer st) (setAnchorPoint (0, 0, 0)%Q)
                    (updateLayer (m_nextLayer st) (setDrawsContent false)
                       (updateLayer (m_nextLayer st) (setMasksToBounds false)
                          (with_rootLayer (Some (m_nextLayer st))
                             (createLayer InvalidWebLayerID st).2)))))) as Hw.
    { split; simpl.
      - intros i p Hi. apply Hs. right. by eapply Hlive.
      - apply Hinj.
      - intros p [->|Hp]%Hs; [lia|]. apply Hfresh in Hp. lia.
      - intros r [= <-]. split; [apply Hs; by left|].
        intros i Hi. apply (Hlive i) in Hi as [? Hi]. congruence. }
    destruct (m_textureMapper st); simpl; (split; [|eauto]); [exact Hw|].
    eapply wellFormed_sameShape; [exact Hw|]. by split_and!.
Qed.

Section MessageFacts.

Variable currentTime : nat → Q.

Lemma applyMessage_wf m st st' :
  wellFormed st → applyMessage currentTime m st = Some st' → wellFormed st'.
Proof.
  intros Hwf H. destruct m; simpl in H.
  - injection H as <-. by apply deleteLayer_wf.
  - unfold createTile in H.
    destruct (getBackingStore layerID st) as [[sp s1]|] eqn:Hg; simplify_eq/=.
    apply with_stores_wf. by eapply getBackingStore_wf_inv.
  - unfold removeTile in H.
    destruct (getBackingStore layerID st) as [[sp s1]|] eqn:Hg; simplify_eq/=.
    apply with_stores_wf. by eapply getBackingStore_wf_inv.
  - unfold updateTile in H.
    destruct (getBackingStore layerID st) as [[sp s1]|] eqn:Hg; simplify_eq/=.
    eapply wellFormed_sameShape; [by eapply getBackingStore_wf_inv|]. by split_and!.
  - injection H as <-. eapply wellFormed_sameShape; [exact Hwf|]. by split_and!.
  - injection H as <-. eapply wellFormed_sameShape; [exact Hwf|]. by split_and!.
  - by eapply syncLayerParameters_spec.
  - unfold flushLayerChanges in H. destruct (m_rootLayer st); simplify_eq/=.
    eapply wellFormed_sameShape; [exact Hwf|]. by split_and!.
  - apply setRootLayerID_attributeFrame in H as [[Hs _] _].
    by eapply wellFormed_sameShape.
Qed.

Lemma replay_wf msgs st st' :
  wellFormed st → replay currentTime msgs st = Some st' → wellFormed st'.
Proof.
  revert st. induction msgs as [|m msgs IH]; intros st Hwf H; simpl in H.
  - by simplify_eq.
  - destruct (applyMessage currentTime m st) as [s1|] eqn:Ha; simpl in H; [|done].
    eapply IH; [|exact H]. by eapply applyMessage_wf.
Qed.

Lemma ensureLayer_layer info st p l :
  wellFormed st →
  m_layers (ensureLayer (li_id info) st) !! li_id info = Some p →
  m_heap (ensureLayer (li_id info) st) !! p = Some l →
  l = layerBeforeSync info st.
Proof.
  intros Hwf. unfold ensureLayer, layerBeforeSync.
  destruct (m_layers st !! li_id info) as [p0|] eqn:Hid; simpl.
  - rewrite Hid. intros [= <-] Hl. by rewrite Hl.
  - unfold HashMap_add. rewrite Hid. simpl. rewrite lookup_insert_eq. intros [= <-].
    rewrite lookup_insert_eq. by intros [= <-].
Qed.

Lemma setRootLayerID_progress id st :
  is_Some (m_rootLayer st) → is_Some (setRootLayerID id st).
Proof.
  intros [r Hr]. unfold setRootLayerID. case_decide; [eauto|]. simpl. rewrite Hr. simpl.
  case_decide; [eauto|]. destruct (layerByID _ _); eauto.
Qed.

Lemma syncLayerParameters_progress info st :
  wellFormed st → is_Some (m_rootLayer st) →
  referencesResolve (SyncLayerParameters info) st →
  is_Some (syncLayerParameters currentTime info st).
Proof.
  intros Hwf Hroot Href. simpl in Href. unfold syncLayerParameters.
  destruct (ensureLayer_wf (li_id info) st Hwf) as (Hw0 & Hg0 & [p Hp]).
  pose proof (ensureLayer_layer info st p) as Hlay.
  pose proof (ensureLayer_frame (li_id info) st) as Hf0.
  set (s0 := ensureLayer (li_id info) st) in *. clearbody s0.
  rewrite Hp. simpl. destruct (wf_live _ Hw0 _ _ Hp) as [l Hl]. rewrite Hl. simpl.
  specialize (Hlay l Hwf Hp Hl). subst l.
  match goal with |- is_Some (?o ≫= _) => assert (is_Some o) as [sA HA] end.
  { destruct (needsToUpdateImageTiles info (layerBeforeSync info st)) eqn:Hn; [|eauto].
    apply assignImageToLayer_progress.
    destruct Hf0 as (_ & _ & _ & Him & _).
    change (is_Some (m_directlyCompositedImages s0 !! li_imageBackingStoreID info)).
    rewrite Him. by apply Href. }
  assert (m_rootLayer sA = m_rootLayer st) as HrA.
  { destruct (needsToUpdateImageTiles info (layerBeforeSync info st)) eqn:Hn.
    - apply assignImageToLayer_frame in HA. destruct HA as (_ & _ & -> & _).
      simpl. by destruct Hf0 as (_ & _ & -> & _).
    - injection HA as <-. simpl. by destruct Hf0 as (_ & _ & -> & _). }
  rewrite HA. simpl.
  match goal with |- context [resolveChildren ?ids ?s] =>
    pose proof (resolveChildren_frame ids s) as Hrc;
    destruct (resolveChildren ids s) as [cs sB] end.
  simpl in Hrc. destruct Hrc as (_ & _ & HrB & _). simpl in HrB.
  match goal with |- context [foldl ?f ?s ?l] =>
    pose proof (applyAnimations_frame currentTime p l s) as Han;
    set (sD := foldl f s l) in * end.
  destruct Han as (_ & _ & HrD & _). simpl in HrD.
  destruct (_ && _); [|eauto].
  apply setRootLayerID_progress. rewrite HrD, HrB, HrA. done.
Qed.

Lemma syncLayerParameters_aborts info st :
  wellFormed st →
  needsToUpdateImageTiles info (layerBeforeSync info st) = true →
  m_directlyCompositedImages st !! li_imageBackingStoreID info = None →
  syncLayerParameters currentTime info st = None.
Proof.
  intros Hwf Hdue Hnone. unfold syncLayerParameters.
  destruct (ensureLayer_wf (li_id info) st Hwf) as (Hw0 & Hg0 & [p Hp]).
  pose proof (ensureLayer_layer info st p) as Hlay.
  pose proof (ensureLayer_frame (li_id info) st) as Hf0.
  set (s0 := ensureLayer (li_id info) st) in *. clearbody s0.
  rewrite Hp. simpl. destruct (wf_live _ Hw0 _ _ Hp) as [l Hl]. rewrite Hl. simpl.
  specialize (Hlay l Hwf Hp Hl). subst l. rewrite Hdue.
  rewrite assignImageToLayer_None; [done|].
  destruct Hf0 as (_ & _ & _ & Him & _).
  change (m_directlyCompositedImages s0 !! li_imageBackingStoreID info = None).
  by rewrite Him.
Qed.

Lemma getBackingStore_invalid st : getBackingStore InvalidWebLayerID st = None.
Proof. unfold getBackingStore, layerByID. by rewrite decide_True. Qed.

(** C7, as amended.  On a well-formed proxy with its root container, a
    message whose references resolve is applied to the end, the proxy stays
    well-formed and keeps its root container, so the rest of the batch is
    applied to a sound state; the layer named by a tile message or by a
    descriptor has a node afterwards, and so has each child named by the
    descriptor; deleting an ID that resolves to no node and destroying an
    image that is not registered change nothing.  A message whose
    references do not resolve (a tile message for the reserved layer ID 0,
    a descriptor whose image assignment is due for an image that is not
    registered) is not applied: the command processing fails there. *)
Theorem applyMessage_total m st :
  wellFormed st → is_Some (m_rootLayer st) →
  (referencesResolve m st →
   ∃ st', applyMessage currentTime m st = Some st' ∧
          wellFormed st' ∧ m_rootLayer st' = m_rootLayer st ∧
          match m with
          | CreateTile layerID _ _ | RemoveTile layerID _ | UpdateTile layerID _ _ _ _ =>
              is_Some (m_layers st' !! layerID)
          | SyncLayerParameters info =>
              ∀ i, i = li_id info ∨ i ∈ li_children info → is_Some (m_layers st' !! i)
          | DeleteLayer layerID => layerByID layerID st = None → st' = st
          | DestroyImage imageID =>
              m_directlyCompositedImages st !! imageID = None →
              m_directlyCompositedImages st' = m_directlyCompositedImages st
          | _ => True
          end) ∧
  (¬ referencesResolve m st → applyMessage currentTime m st = None).
Proof.
  intros Hwf Hroot. split.
  - intros Href.
    assert (∀ st', applyMessage currentTime m st = Some st' →
                   wellFormed st' ∧ m_rootLayer st' = m_rootLayer st) as Hpost.
    { intros st' H. split; [by eapply applyMessage_wf|].
      by apply applyMessage_frame in H as (_ & ? & _). }
    destruct m; simpl in *.
    + eexists. split; [done|]. destruct (Hpost _ eq_refl) as [Hw' Hr']. split_and!; try done.
      intros Hx. unfold deleteLayer. by rewrite Hx.
    + destruct (getBackingStore_wf layerID st Hwf Href) as (sp & s1 & Hg & _ & _ & Hin).
      unfold createTile in *. rewrite Hg in *. simpl in *.
      eexists. split; [done|]. destruct (Hpost _ eq_refl) as [Hw' Hr']. by split_and!.
    + destruct (getBackingStore_wf layerID st Hwf Href) as (sp & s1 & Hg & _ & _ & Hin).
      unfold removeTile in *. rewrite Hg in *. simpl in *.
      eexists. split; [done|]. destruct (Hpost _ eq_refl) as [Hw' Hr']. by split_and!.
    + destruct (getBackingStore_wf layerID st Hwf Href) as (sp & s1 & Hg & _ & _ & Hin).
      unfold updateTile in *. rewrite Hg in *. simpl in *.
      eexists. split; [done|]. destruct (Hpost _ eq_refl) as [Hw' Hr']. by split_and!.
    + eexists. split; [done|]. destruct (Hpost _ eq_refl) as [Hw' Hr']. by split_and!.
    + eexists. split; [done|]. destruct (Hpost _ eq_refl) as [Hw' Hr']. split_and!; try done.
      intros Hx. simpl. by apply delete_id.
    + destruct (syncLayerParameters_progress layerInfo st Hwf Hroot Href) as [st' H].
      exists st'. split; [done|]. destruct (Hpost _ H) as [Hw' Hr']. split_and!; try done.
      destruct (syncLayerParameters_spec currentTime _ _ _ Hwf H)
        as (_ & (p & l' & Hp & _) & _ & _ & Hch & _).
      intros i [->|Hi]; [eauto|by apply Hch].
    + destruct Hroot as [r Hr]. unfold flushLayerChanges in *. rewrite Hr in *. simpl in *.
      eexists. split; [done|]. destruct (Hpost _ eq_refl) as [Hw' Hr']. by split_and!.
    + destruct (setRootLayerID_progress layerID st Hroot) as [st' H].
      exists st'. split; [done|]. destruct (Hpost _ H) as [Hw' Hr']. by split_and!.
  - intros Href. destruct m; simpl in *; try done.
    + apply dec_stable in Href. subst. unfold createTile.
      by rewrite getBackingStore_invalid.
    + apply dec_stable in Href. subst. unfold removeTile.
      by rewrite getBackingStore_invalid.
    + apply dec_stable in Href. subst. unfold updateTile.
      by rewrite getBackingStore_invalid.
    + destruct (needsToUpdateImageTiles layerInfo (layerBeforeSync layerInfo st)) eqn:Hdue.
      2:{ exfalso. apply Href. intros ?. done. }
      apply syncLayerParameters_aborts; [done|done|].
      destruct (m_directlyCompositedImages st !! li_imageBackingStoreID layerInfo) eqn:Him;
        [|done].
      exfalso. apply Href. intros _. eauto.
Qed.

End MessageFacts.

(** ** Nodes are created on reference and keep their identity *)

Section IdentityFacts.

Variable currentTime : nat → Q.

Lemma getBackingStore_layers id st sp st' i p :
  wellFormed st → getBackingStore id st = Some (sp, st') →
  m_layers st !! i = Some p → m_layers st' !! i = Some p.
Proof.
  intros Hwf H Hi. unfold getBackingStore in H.
  destruct (ensureLayer_wf id st Hwf) as (_ & (Ha & _) & _).
  apply Ha in Hi. set (s0 := ensureLayer id st) in *. clearbody s0.
  destruct (layerByID id s0) as [q|]; simpl in H; [|done].
  destruct (m_heap s0 !! q) as [l|]; simpl in H; [|done].
  destruct (m_backingStore l); by simplify_eq.
Qed.

(** Only [DeleteLayer] for an ID takes that ID's node away from it. *)
Lemma applyMessage_layers_stable m st st' i p :
  wellFormed st → m_layers st !! i = Some p → m ≠ DeleteLayer i →
  applyMessage currentTime m st = Some st' → m_layers st' !! i = Some p.
Proof.
  intros Hwf Hi Hm H. destruct m; simpl in H.
  - injection H as <-. unfold deleteLayer. destruct (layerByID layerID st); [|done].
    simpl. rewrite lookup_delete_ne; [done|]. congruence.
  - unfold createTile in H.
    destruct (getBackingStore layerID st) as [[sp s1]|] eqn:Hg; simplify_eq/=.
    by eapply getBackingStore_layers.
  - unfold removeTile in H.
    destruct (getBackingStore layerID st) as [[sp s1]|] eqn:Hg; simplify_eq/=.
    by eapply getBackingStore_layers.
  - unfold updateTile in H.
    destruct (getBackingStore layerID st) as [[sp s1]|] eqn:Hg; simplify_eq/=.
    by eapply getBackingStore_layers.
  - by simplify_eq.
  - by simplify_eq.
  - destruct (syncLayerParameters_spec currentTime _ _ _ Hwf H) as (_ & _ & Hmono & _).
    by apply Hmono.
  - unfold flushLayerChanges in H. destruct (m_rootLayer st); by simplify_eq/=.
  - apply setRootLayerID_attributeFrame in H as [[(Hl & _) _] _]. by rewrite Hl.
Qed.

Lemma replay_layers_stable msgs st st' i p :
  wellFormed st → m_layers st !! i = Some p → DeleteLayer i ∉ msgs →
  replay currentTime msgs st = Some st' → m_layers st' !! i = Some p.
Proof.
  revert st. induction msgs as [|m msgs IH]; intros st Hwf Hi Hn H; simpl in H.
  - by simplify_eq.
  - destruct (applyMessage currentTime m st) as [s1|] eqn:Ha; simpl in H; [|done].
    apply not_elem_of_cons in Hn as [Hm Hn].
    eapply IH; [by eapply applyMessage_wf| |exact Hn|exact H].
    eapply applyMessage_layers_stable; [exact Hwf|exact Hi| |exact Ha]. congruence.
Qed.

(** C3.  On a well-formed proxy, [syncLayerParameters] for an ID without
    node gives the ID a node that did not exist before, and that node
    carries the descriptor's attributes; an ID with a node keeps it and
    that node carries the descriptor's attributes.  Each child ID of the
    descriptor that had no node has afterwards a node that did not exist
    before, with the attributes of a layer just created (unless the child
    ID is the descriptor's own).  And whatever ID names a node afterwards
    keeps naming that node through every later sequence of messages that
    holds no [DeleteLayer] for it; a later [syncLayerParameters] for the ID
    writes the new descriptor's attributes to that same node. *)
Theorem syncLayerParameters_materializes info st st' :
  wellFormed st →
  syncLayerParameters currentTime info st = Some st' →
  (∃ p l', m_layers st' !! li_id info = Some p ∧ m_heap st' !! p = Some l' ∧
           attributesOf l' = attributesOfInfo info ∧
           (m_layers st !! li_id info = None → m_heap st !! p = None) ∧
           (∀ p0, m_layers st !! li_id info = Some p0 → p = p0)) ∧
  (∀ c, c ∈ li_children info → m_layers st !! c = None →
        ∃ pc lc, m_layers st' !! c = Some pc ∧ m_heap st !! pc = None ∧
                 m_heap st' !! pc = Some lc ∧
                 (c ≠ li_id info → attributesOf lc = attributesOf createdLayer)) ∧
  (∀ i p msgs s2, m_layers st' !! i = Some p → DeleteLayer i ∉ msgs →
        replay currentTime msgs st' = Some s2 →
        m_layers s2 !! i = Some p ∧
        ∀ info2 s3, li_id info2 = i →
          syncLayerParameters currentTime info2 s2 = Some s3 →
          m_layers s3 !! i = Some p ∧
          ∃ l3, m_heap s3 !! p = Some l3 ∧ attributesOf l3 = attributesOfInfo info2).
Proof.
  intros Hwf H.
  destruct (syncLayerParameters_spec currentTime _ _ _ Hwf H)
    as (Hwf' & (p & l' & Hp & Hl' & Hat & Hsame & Hnew) & Hmono & Hfresh & Hch & _).
  split_and!.
  - exists p, l'. by split_and!.
  - intros c Hc Hnone. destruct (Hch c Hc) as [pc Hpc].
    destruct (Hfresh c pc Hpc Hnone) as (_ & Hpcn & Hpca).
    destruct (wf_live _ Hwf' _ _ Hpc) as [lc Hlc].
    exists pc, lc. split_and!; try done.
    intros Hne. specialize (Hpca Hne). rewrite Hlc in Hpca. by apply (inj Some).
  - intros i q msgs s2 Hi Hn Hr.
    pose proof (replay_layers_stable msgs st' s2 i q Hwf' Hi Hn Hr) as Hi2.
    split; [done|]. intros info2 s3 <- H3.
    pose proof (replay_wf currentTime msgs st' s2 Hwf' Hr) as Hwf2.
    destruct (syncLayerParameters_spec currentTime _ _ _ Hwf2 H3)
      as (_ & (p3 & l3 & Hp3 & Hl3 & Hat3 & Hsame3 & _) & _).
    specialize (Hsame3 _ Hi2). subst p3. split; [done|]. eauto.
Qed.

(** C5, as amended.  After [syncLayerParameters] on a well-formed proxy
    the node of the descriptor's ID does not clip when the descriptor is
    flagged as root, whatever its [masksToBounds] says, and that ID is then
    the root ID; for a descriptor not flagged as root the node carries the
    descriptor's [masksToBounds], and this covers every ID that is not the
    root ID afterwards. *)
Theorem syncLayerParameters_masksToBounds info st st' :
  wellFormed st →
  syncLayerParameters currentTime info st = Some st' →
  ∃ p l', m_layers st' !! li_id info = Some p ∧ m_heap st' !! p = Some l' ∧
    (li_isRootLayer info = true →
       m_masksToBounds l' = false ∧ m_rootLayerID st' = li_id info) ∧
    (li_isRootLayer info = false → m_masksToBounds l' = li_masksToBounds info) ∧
    (m_rootLayerID st' ≠ li_id info → m_masksToBounds l' = li_masksToBounds info).
Proof.
  intros Hwf H.
  destruct (syncLayerParameters_spec currentTime _ _ _ Hwf H)
    as (_ & (p & l' & Hp & Hl' & Hat & _) & _ & _ & _ & _ & Hid & _).
  exists p, l'. split; [done|]. split; [done|].
  assert (m_masksToBounds l' = if li_isRootLayer info then false else li_masksToBounds info)
    as Hm.
  { change (la_masksToBounds (attributesOf l') = la_masksToBounds (attributesOfInfo info)).
    by rewrite Hat. }
  split_and!.
  - intros Hr. rewrite Hr in Hm, Hid. done.
  - intros Hr. by rewrite Hr in Hm.
  - intros Hne. destruct (li_isRootLayer info); [congruence|done].
Qed.

(** C6.  With root ID [A] and an allocated root container, the message
    [SetRootLayer B] for [B] other than [A] records [B] as root ID, leaves
    the container with [B]'s node as only child when [B] resolves to a node
    (that node then has the container as parent) and with no child
    otherwise, leaves every former child other than [B]'s node without
    parent, and deletes nothing: the layer map is unchanged and no object
    leaves the heap, so [A] keeps its node, and on a well-formed proxy keeps
    it through every later sequence of messages without [DeleteLayer A].
    [SetRootLayer A] changes nothing. *)
Theorem setRootLayer_reassigns st A B root lr :
  m_rootLayerID st = A → B ≠ A →
  m_rootLayer st = Some root → m_heap st !! root = Some lr →
  applyMessage currentTime (SetRootLayer A) st = Some st ∧
  ∃ st',
    applyMessage currentTime (SetRootLayer B) st = Some st' ∧
    m_rootLayerID st' = B ∧
    m_layers st' = m_layers st ∧
    (∀ q, m_heap st' !! q = None ↔ m_heap st !! q = None) ∧
    (∃ lr', m_heap st' !! root = Some lr' ∧
            m_children lr' = match layerByID B st with Some b => [b] | None => [] end) ∧
    (∀ b lb, layerByID B st = Some b → m_heap st' !! b = Some lb → m_parent lb = Some root) ∧
    (∀ x lx, x ∈ m_children lr → layerByID B st ≠ Some x →
             m_heap st' !! x = Some lx → m_parent lx = None) ∧
    (wellFormed st → ∀ a msgs s2, m_layers st !! A = Some a → DeleteLayer A ∉ msgs →
       replay currentTime msgs st' = Some s2 → m_layers s2 !! A = Some a).
Proof.
  intros HA HB Hroot Hlr.
  destruct (setRootLayerID_effect st A B root lr HA HB Hroot Hlr)
    as (Hsame & st' & H & Hid & Hl & Hh & Hc & Hp & Hx).
  split; [exact Hsame|]. exists st'. split_and!; try done.
  intros Hwf a msgs s2 Ha Hn Hr.
  eapply replay_layers_stable; [|by rewrite Hl|exact Hn|exact Hr].
  eapply (applyMessage_wf currentTime (SetRootLayer B)); [exact Hwf|exact H].
Qed.

End IdentityFacts.

(** ** Purge *)

Lemma foldl_clear_None fuel cs :
  foldl (λ oh c, oh ≫= clearBackingStoresRecursive fuel c) None cs = None.
Proof. induction cs as [|c cs IH]; simpl; done. Qed.

Lemma reaches_structure h h' p q :
  (∀ x, m_children <$> h' !! x = m_children <$> h !! x) →
  reaches h p q → reaches h' p q.
Proof.
  intros Hs. induction 1 as [p l Hp|p l c q Hp Hc _ IH].
  - specialize (Hs p). rewrite Hp in Hs. destruct (h' !! p) as [l'|] eqn:Hp'; [|done].
    by eapply reaches_self.
  - specialize (Hs p). rewrite Hp in Hs. destruct (h' !! p) as [l'|] eqn:Hp'; [|done].
    simpl in Hs. injection Hs as Hs. eapply reaches_child; [exact Hp'| |exact IH].
    by rewrite Hs.
Qed.

Lemma depthWithin_structure h h' p n :
  (∀ x, m_children <$> h' !! x = m_children <$> h !! x) →
  depthWithin h p n → depthWithin h' p n.
Proof.
  intros Hs. induction 1 as [p l n Hp _ IH].
  pose proof (Hs p) as Hsp. rewrite Hp in Hsp.
  destruct (h' !! p) as [l'|] eqn:Hp'; [|done].
  simpl in Hsp. injection Hsp as Hsp. econstructor; [exact Hp'|].
  intros c Hc. apply IH. by rewrite <- Hsp.
Qed.

Lemma same_but_store_children (h h' : gmap nat GraphicsLayer) :
  (∀ q, setBackingStore None <$> h' !! q = setBackingStore None <$> h !! q) →
  ∀ x, m_children <$> h' !! x = m_children <$> h !! x.
Proof.
  intros H x. specialize (H x).
  destruct (h' !! x) as [l'|], (h !! x) as [l|]; try done.
  apply (inj Some) in H. simpl. f_equal.
  change (m_children (setBackingStore None l') = m_children (setBackingStore None l)).
  by rewrite H.
Qed.

(** One run of [clearBackingStoresRecursive]: nothing but backing-store
    members changes, a layer without backing store stays without, and
    every layer reached from the start has none afterwards. *)
Lemma clearBackingStoresRecursive_spec fuel p h h' :
  clearBackingStoresRecursive fuel p h = Some h' →
  (∀ q, setBackingStore None <$> h' !! q = setBackingStore None <$> h !! q) ∧
  (∀ q, hasNoBackingStore h q → hasNoBackingStore h' q) ∧
  (∀ q, reaches h p q → hasNoBackingStore h' q) ∧
  (∀ q, ¬ reaches h p q → h' !! q = h !! q).
Proof.
  revert p h h'. induction fuel as [|fuel IH]; intros p h h' H; simpl in H; [done|].
  destruct (h !! p) as [l|] eqn:Hp; simpl in H; [|done].
  set (h1 := <[p := setBackingStore None l]> h) in *.
  assert (∀ q, setBackingStore None <$> h1 !! q = setBackingStore None <$> h !! q) as HA1.
  { intros q. unfold h1. rewrite lookup_insert. case_decide; subst; [|done].
    by rewrite Hp. }
  assert (∀ q, hasNoBackingStore h q → hasNoBackingStore h1 q) as HB1.
  { intros q (lq & Hq & Hb). unfold h1, hasNoBackingStore. rewrite lookup_insert.
    case_decide; subst; eauto. }
  assert (hasNoBackingStore h1 p) as Hp1.
  { unfold h1, hasNoBackingStore. rewrite lookup_insert_eq. eauto. }
  assert (∀ cs hs hf,
            (∀ c, c ∈ cs → c ∈ m_children l) →
            (∀ q, setBackingStore None <$> hs !! q = setBackingStore None <$> h !! q) →
            foldl (λ oh c, oh ≫= clearBackingStoresRecursive fuel c) (Some hs) cs = Some hf →
            (∀ q, setBackingStore None <$> hf !! q = setBackingStore None <$> hs !! q) ∧
            (∀ q, hasNoBackingStore hs q → hasNoBackingStore hf q) ∧
            (∀ c q, c ∈ cs → reaches h c q → hasNoBackingStore hf q) ∧
            (∀ q, (∀ c, c ∈ cs → ¬ reaches h c q) → hf !! q = hs !! q)) as Hfold.
  { induction cs as [|c cs IHcs]; intros hs hf Hsub Hs Hf; simpl in Hf.
    - injection Hf as <-. split_and!; try done. by intros c q ?%elem_of_nil.
    - destruct (clearBackingStoresRecursive fuel c hs) as [h2|] eqn:Hc; simpl in Hf.
      2:{ by rewrite foldl_clear_None in Hf. }
      destruct (IH _ _ _ Hc) as (HA2 & HB2 & HC2 & HD2).
      assert (∀ q, setBackingStore None <$> h2 !! q = setBackingStore None <$> h !! q) as Hs2.
      { intros q. by rewrite HA2. }
      destruct (IHcs h2 hf) as (HA3 & HB3 & HC3 & HD3); [|done|done|].
      { intros c' Hc'. apply Hsub. by apply elem_of_cons; right. }
      split_and!.
      + intros q. by rewrite HA3.
      + eauto.
      + intros c' q [->|Hc']%elem_of_cons Hr; [|by eapply HC3].
        apply HB3, HC2. eapply reaches_structure; [|exact Hr].
        by apply same_but_store_children.
      + intros q Hq. rewrite HD3.
        * apply HD2. intros Hr. apply (Hq c); [by apply elem_of_cons; left|].
          eapply reaches_structure; [|exact Hr].
          apply same_but_store_children. intros x. by rewrite Hs.
        * intros c' Hc'. apply Hq. by apply elem_of_cons; right. }
  destruct (Hfold (m_children l) h1 h' (λ _ H, H) HA1 H) as (HA & HB & HC & HD).
  split_and!.
  - intros q. by rewrite HA.
  - eauto.
  - intros q Hr. inversion Hr as [p' l' Hp'|p' l' c q' Hp' Hc Hcq]; subst.
    + by apply HB.
    + rewrite Hp in Hp'. injection Hp' as <-. by eapply HC.
  - intros q Hq. rewrite HD.
    + unfold h1. rewrite lookup_insert_ne; [done|]. intros <-. apply Hq.
      by eapply reaches_self.
    + intros c Hc Hr. apply Hq. by eapply reaches_child.
Qed.

(** Fuel above the depth of the tree is enough. *)
Lemma clearBackingStoresRecursive_total h p n :
  depthWithin h p n → is_Some (clearBackingStoresRecursive n p h).
Proof.
  revert p h. induction n as [|n IH]; intros p h Hd; inversion Hd as [p' l n' Hp Hch]; subst.
  simpl. rewrite Hp. simpl.
  set (h1 := <[p := setBackingStore None l]> h).
  assert (∀ x, m_children <$> h1 !! x = m_children <$> h !! x) as Hs1.
  { intros x. unfold h1. rewrite lookup_insert. case_decide; subst; [|done]. by rewrite Hp. }
  assert (∀ cs hs, (∀ c, c ∈ cs → depthWithin h c n) →
            (∀ x, m_children <$> hs !! x = m_children <$> h !! x) →
            is_Some (foldl (λ oh c, oh ≫= clearBackingStoresRecursive n c) (Some hs) cs))
    as Hfold.
  { induction cs as [|c cs IHcs]; intros hs Hcs Hs; simpl; [eauto|].
    destruct (IH c hs) as [h2 Hc].
    { eapply depthWithin_structure; [|apply Hcs; by apply elem_of_cons; left]. done. }
    rewrite Hc. apply IHcs.
    - intros c' Hc'. apply Hcs. by apply elem_of_cons; right.
    - intros x. rewrite <- Hs. apply same_but_store_children.
      by apply clearBackingStoresRecursive_spec in Hc as (HA & _). }
  apply Hfold; done.
Qed.

(** C10, as amended.  When [purgeGLResources] returns, every layer reached
    from the root container through child lists has no backing store, the
    layers not reached are as they were, the image registry and the pending
    set are empty, the texture mapper is released and one
    [PurgeBackingStores] was sent; no layer was deleted: the layer map, the
    root ID, the root container and, at every address, all members of the
    layer other than its backing store (parent and children among them)
    are unchanged.  It does return, given fuel above the depth of the tree
    under the root container, and at once when there is no root
    container. *)
Theorem purgeGLResources_spec fuel st :
  (∀ st', purgeGLResources fuel st = Some st' →
     (∀ r q, m_rootLayer st = Some r → reaches (m_heap st) r q →
             hasNoBackingStore (m_heap st') q) ∧
     (∀ q, (∀ r, m_rootLayer st = Some r → ¬ reaches (m_heap st) r q) →
           m_heap st' !! q = m_heap st !! q) ∧
     m_directlyCompositedImages st' = ∅ ∧
     m_textureMapper st' = None ∧
     m_backingStoresWithPendingBuffers st' = ∅ ∧
     m_sent st' = m_sent st ++ [PurgeBackingStores] ∧
     m_layers st' = m_layers st ∧
     m_rootLayerID st' = m_rootLayerID st ∧
     m_rootLayer st' = m_rootLayer st ∧
     (∀ q, setBackingStore None <$> m_heap st' !! q
           = setBackingStore None <$> m_heap st !! q)) ∧
  (∀ r, m_rootLayer st = Some r → depthWithin (m_heap st) r fuel →
        is_Some (purgeGLResources fuel st)) ∧
  (m_rootLayer st = None → is_Some (purgeGLResources fuel st)).
Proof.
  unfold purgeGLResources, rootLayer. split_and!.
  - intros st' H. destruct (m_rootLayer st) as [r|] eqn:Hr; simpl in H.
    + destruct (clearBackingStoresRecursive fuel r (m_heap st)) as [h'|] eqn:Hc;
        simpl in H; [|done].
      injection H as <-. simpl.
      apply clearBackingStoresRecursive_spec in Hc as (HA & HB & HC & HD).
      split_and!; try done.
      * intros r' q [= <-]. apply HC.
      * intros q Hq. apply HD. by apply Hq.
    + injection H as <-. simpl. split_and!; try done.
  - intros r Hr Hd. rewrite Hr.
    destruct (clearBackingStoresRecursive_total _ _ _ Hd) as [h' ->]. simpl. eauto.
  - intros ->. simpl. eauto.
Qed.

(** ** Wheel events *)

(** C9.  A wheel event whose origin lies inside the non-fast-scrollable
    region is sent to the main thread, whatever scrollable nodes the tree
    holds, and no node scrolls. *)
Theorem tryToHandleWheelEvent_nonFastScrollable
    (tree : ScrollingTree.ScrollingTree) (wheelEvent : ScrollingTree.PlatformWheelEvent) :
  ScrollingTree.regionContains (ScrollingTree.m_nonFastScrollableRegion tree)
                               (ScrollingTree.we_position wheelEvent) = true →
  ScrollingTree.tryToHandleWheelEvent tree wheelEvent = (ScrollingTree.SendToMainThread, tree).
Proof. intros H. unfold ScrollingTree.tryToHandleWheelEvent. by rewrite H. Qed.

(** ** Replaying a batch on its own result *)

Lemma runAction_idempotent a v : runAction a (runAction a v) = runAction a v.
Proof. by destruct a. Qed.

Lemma runAction_andThen a b v : runAction (andThen a b) v = runAction b (runAction a v).
Proof. by destruct b, a. Qed.

Lemma layerView_None st i :
  wellFormed st → layerView st i = None ↔ m_layers st !! i = None.
Proof.
  intros Hwf. unfold layerView. destruct (m_layers st !! i) as [p|] eqn:Hi; simpl; [|done].
  destruct (wf_live _ Hwf _ _ Hi) as [l Hl]. rewrite Hl. done.
Qed.

Lemma layerView_frame st st' :
  m_layers st' = m_layers st →
  (∀ q, attributesOf <$> m_heap st' !! q = attributesOf <$> m_heap st !! q) →
  ∀ i, layerView st' i = layerView st i.
Proof.
  intros Hl Hh i. unfold layerView. rewrite Hl.
  destruct (m_layers st !! i); simpl; [apply Hh|done].
Qed.

Lemma ensureLayer_view j st i :
  wellFormed st →
  layerView (ensureLayer j st) i
  = runAction (if decide (j = i) then Ensure else Keep) (layerView st i).
Proof.
  intros Hwf. unfold ensureLayer.
  destruct (m_layers st !! j) as [p|] eqn:Hj.
  - case_decide; subst; [|done]. simpl.
    destruct (layerView st i) eqn:Hv; [done|].
    apply layerView_None in Hv; [congruence|done].
  - assert (m_heap st !! m_nextLayer st = None) as Hnone.
    { destruct (m_heap st !! m_nextLayer st) eqn:H; [|done].
      assert (m_nextLayer st < m_nextLayer st) by (apply (wf_fresh _ Hwf); eauto). lia. }
    unfold layerView, HashMap_add. simpl. rewrite Hj. simpl.
    rewrite lookup_insert. case_decide; subst; simpl.
    + rewrite lookup_insert_eq, Hj. done.
    + destruct (m_layers st !! i) as [q|] eqn:Hi; simpl; [|done].
      rewrite lookup_insert_ne; [done|]. intros <-.
      destruct (wf_live _ Hwf _ _ Hi) as [? ?]. congruence.
Qed.

Lemma getBackingStore_view j st sp st' i :
  wellFormed st → getBackingStore j st = Some (sp, st') →
  layerView st' i = runAction (if decide (j = i) then Ensure else Keep) (layerView st i).
Proof.
  intros Hwf H. rewrite <- ensureLayer_view by done.
  unfold getBackingStore in H. set (s0 := ensureLayer j st) in *. clearbody s0.
  destruct (layerByID j s0) as [p|]; simpl in H; [|done].
  destruct (m_heap s0 !! p) as [l|]; simpl in H; [|done].
  destruct (m_backingStore l); simplify_eq; [done|].
  apply layerView_frame; [done|]. intros q. simpl. by apply alter_π.
Qed.

Lemma deleteLayer_view j st i :
  wellFormed st →
  layerView (deleteLayer j st) i = runAction (actionOf (DeleteLayer j) i) (layerView st i).
Proof.
  intros Hwf. unfold deleteLayer, actionOf, layerByID.
  destruct (decide (j = InvalidWebLayerID)) as [->|Hj].
  { rewrite decide_False; [done|]. by intros [_ ?]. }
  destruct (m_layers st !! j) as [p|] eqn:Hp.
  - unfold layerView. simpl. rewrite lookup_delete.
    destruct (decide (j = i)) as [->|Hne].
    + rewrite decide_True by done. done.
    + rewrite decide_False by (by intros [? _]). simpl.
      destruct (m_layers st !! i) as [q|] eqn:Hi; simpl; [|done].
      assert (q ≠ p) as Hq.
      { intros ->. apply Hne. by apply (wf_inj _ Hwf _ _ p). }
      unfold destroyLayer. rewrite lookup_delete_ne by done.
      rewrite (removeAllChildren_π attributesOf) by done.
      by rewrite (removeFromParent_π attributesOf).
  - case_decide as Hd; [|done]. destruct Hd as [<- _]. simpl.
    unfold layerView. by rewrite Hp.
Qed.

Section IdempotenceFacts.

Variable currentTime : nat → Q.

Lemma syncLayerParameters_view info st st' i :
  wellFormed st → syncLayerParameters currentTime info st = Some st' →
  layerView st' i = runAction (actionOf (SyncLayerParameters info) i) (layerView st i).
Proof.
  intros Hwf H.
  destruct (syncLayerParameters_spec currentTime _ _ _ Hwf H)
    as (Hwf' & (p & l' & Hp & Hl' & Hat & _) & Hmono & Hfresh & Hch & Hkeep & _).
  unfold actionOf. destruct (decide (i = li_id info)) as [->|Hne].
  { simpl. unfold layerView. rewrite Hp. simpl. rewrite Hl'. simpl. by rewrite Hat. }
  destruct (m_layers st !! i) as [q|] eqn:Hi.
  - assert (layerView st' i = layerView st i) as ->.
    { unfold layerView. rewrite Hi, (Hmono _ _ Hi). simpl. by apply (Hkeep i). }
    destruct (layerView st i) eqn:Hv; [by case_decide|].
    apply layerView_None in Hv; [congruence|done].
  - assert (layerView st i = None) as -> by (by apply layerView_None).
    case_decide as Hc; simpl.
    + destruct (Hch _ Hc) as [pc Hpc].
      destruct (Hfresh _ _ Hpc Hi) as (_ & _ & Hnew).
      unfold layerView. rewrite Hpc. simpl. by apply Hnew.
    + apply layerView_None; [done|].
      destruct (m_layers st' !! i) as [pc|] eqn:Hpc; [|done].
      destruct (Hfresh _ _ Hpc Hi) as ([?|?] & _); done.
Qed.

Lemma applyMessage_view m st st' i :
  wellFormed st → applyMessage currentTime m st = Some st' →
  layerView st' i = runAction (actionOf m i) (layerView st i).
Proof.
  intros Hwf H. destruct m; simpl in H.
  - injection H as <-. by apply deleteLayer_view.
  - unfold createTile in H.
    destruct (getBackingStore layerID st) as [[sp s1]|] eqn:Hg; simplify_eq/=.
    by apply (getBackingStore_view _ _ _ _ i Hwf) in Hg.
  - unfold removeTile in H.
    destruct (getBackingStore layerID st) as [[sp s1]|] eqn:Hg; simplify_eq/=.
    by apply (getBackingStore_view _ _ _ _ i Hwf) in Hg.
  - unfold updateTile in H.
    destruct (getBackingStore layerID st) as [[sp s1]|] eqn:Hg; simplify_eq/=.
    by apply (getBackingStore_view _ _ _ _ i Hwf) in Hg.
  - by simplify_eq.
  - by simplify_eq.
  - by apply syncLayerParameters_view.
  - unfold flushLayerChanges in H. destruct (m_rootLayer st); by simplify_eq/=.
  - apply setRootLayerID_attributeFrame in H as [[(Hl & _) Ha] _].
    simpl. by apply layerView_frame.
Qed.

Lemma replay_view msgs st st' i a0 v :
  wellFormed st → replay currentTime msgs st = Some st' →
  layerView st i = runAction a0 v →
  layerView st' i = runAction (foldl (λ a m, andThen a (actionOf m i)) a0 msgs) v.
Proof.
  revert st a0. induction msgs as [|m msgs IH]; intros st a0 Hwf H Hv; simpl in *.
  - by simplify_eq.
  - destruct (applyMessage currentTime m st) as [s1|] eqn:Ha; simpl in H; [|done].
    eapply IH; [by eapply applyMessage_wf|exact H|].
    rewrite runAction_andThen, <- Hv. by apply applyMessage_view.
Qed.

Lemma applyMessage_rootLayerID m st st' :
  wellFormed st → applyMessage currentTime m st = Some st' →
  m_rootLayerID st' = default (m_rootLayerID st) (rootActionOf m).
Proof.
  intros Hwf H. destruct m; simpl in H.
  - injection H as <-. simpl. unfold deleteLayer. by destruct (layerByID layerID st).
  - unfold createTile in H.
    destruct (getBackingStore layerID st) as [[sp s1]|] eqn:Hg; simplify_eq/=.
    apply getBackingStore_frame in Hg. by destruct_and!.
  - unfold removeTile in H.
    destruct (getBackingStore layerID st) as [[sp s1]|] eqn:Hg; simplify_eq/=.
    apply getBackingStore_frame in Hg. by destruct_and!.
  - unfold updateTile in H.
    destruct (getBackingStore layerID st) as [[sp s1]|] eqn:Hg; simplify_eq/=.
    apply getBackingStore_frame in Hg. by destruct_and!.
  - by simplify_eq.
  - by simplify_eq.
  - destruct (syncLayerParameters_spec currentTime _ _ _ Hwf H)
      as (_ & _ & _ & _ & _ & _ & Hid & _).
    simpl. rewrite Hid. by destruct (li_isRootLayer layerInfo).
  - unfold flushLayerChanges in H. destruct (m_rootLayer st); by simplify_eq/=.
  - by apply setRootLayerID_attributeFrame in H as (_ & ? & _).
Qed.

Lemma replay_rootLayerID msgs st st' a0 r0 :
  wellFormed st → replay currentTime msgs st = Some st' →
  m_rootLayerID st = default r0 a0 →
  m_rootLayerID st'
  = default r0 (foldl (λ a m, match rootActionOf m with Some r => Some r | None => a end)
                      a0 msgs).
Proof.
  revert st a0. induction msgs as [|m msgs IH]; intros st a0 Hwf H Hr; simpl in *.
  - by simplify_eq.
  - destruct (applyMessage currentTime m st) as [s1|] eqn:Ha; simpl in H; [|done].
    eapply IH; [by eapply applyMessage_wf|exact H|].
    rewrite (applyMessage_rootLayerID _ _ _ Hwf Ha), Hr.
    by destruct (rootActionOf m).
Qed.

(** C4, as amended.  When a batch applied to a well-formed proxy is
    applied once more to its own result, the set of layer IDs, the root
    layer ID and the attributes of the node of every ID come out as after
    the first application. *)
Theorem replay_twice_attributes batch s0 s1 s2 :
  wellFormed s0 →
  replay currentTime batch s0 = Some s1 →
  replay currentTime batch s1 = Some s2 →
  (∀ i, layerView s2 i = layerView s1 i) ∧
  dom (m_layers s2) = dom (m_layers s1) ∧
  m_rootLayerID s2 = m_rootLayerID s1.
Proof.
  intros Hwf0 H1 H2.
  pose proof (replay_wf currentTime _ _ _ Hwf0 H1) as Hwf1.
  pose proof (replay_wf currentTime _ _ _ Hwf1 H2) as Hwf2.
  assert (∀ i, layerView s2 i = layerView s1 i) as Hview.
  { intros i.
    pose proof (replay_view batch s0 s1 i Keep (layerView s0 i) Hwf0 H1 eq_refl) as E1.
    pose proof (replay_view batch s1 s2 i Keep (layerView s1 i) Hwf1 H2 eq_refl) as E2.
    rewrite E2. rewrite E1 at 1. rewrite runAction_idempotent. by rewrite E1. }
  split_and!.
  - exact Hview.
  - apply set_eq. intros i. rewrite !elem_of_dom, <- !not_eq_None_Some.
    rewrite <- (layerView_None s2), <- (layerView_None s1) by done. by rewrite Hview.
  - pose proof (replay_rootLayerID batch s0 s1 None (m_rootLayerID s0) Hwf0 H1 eq_refl) as E1.
    pose proof (replay_rootLayerID batch s1 s2 None (m_rootLayerID s1) Hwf1 H2 eq_refl) as E2.
    rewrite E2. destruct (foldl _ None batch); simpl in *; [done|done].
Qed.

End IdempotenceFacts.

(** ** Every state the proxy goes through is well-formed *)

Section ReachableFacts.

Variable currentTime : nat → Q.

Lemma drainMessages_wf fuel st st' :
  wellFormed st → drainMessages currentTime fuel st = Some st' → wellFormed st'.
Proof.
  revert st. induction fuel as [|fuel IH]; intros st Hwf H; simpl in H; [done|].
  destruct (m_messagesToRenderer st) as [|m rest]; simpl in H; [by simplify_eq|].
  destruct (applyMessage currentTime m (with_messagesToRenderer rest st)) as [s1|] eqn:Ha;
    simpl in H; [|done].
  eapply IH; [|exact H]. eapply applyMessage_wf; [|exact Ha].
  eapply wellFormed_sameShape; [exact Hwf|]. by split_and!.
Qed.

Lemma purgeGLResources_wf fuel st st' :
  wellFormed st → purgeGLResources fuel st = Some st' → wellFormed st'.
Proof.
  intros Hwf H. unfold purgeGLResources, rootLayer in H.
  destruct (m_rootLayer st) as [r|]; simpl in H.
  - destruct (clearBackingStoresRecursive fuel r (m_heap st)) as [h'|] eqn:Hc;
      simpl in H; [|done].
    injection H as <-. eapply wellFormed_sameShape; [exact Hwf|].
    split_and!; try done. intros q. simpl.
    apply clearBackingStoresRecursive_spec in Hc as (HA & _). specialize (HA q).
    destruct (h' !! q), (m_heap st !! q); simpl in HA; done.
  - injection H as <-. eapply wellFormed_sameShape; [exact Hwf|]. by split_and!.
Qed.

Lemma reachable_wf st : reachable currentTime st → wellFormed st.
Proof.
  induction 1 as [|st m _ IH|st fuel st' _ IH H|st fuel st' _ IH H].
  - apply newProxy_wf.
  - eapply wellFormed_sameShape; [exact IH|]. by split_and!.
  - unfold syncRemoteContent in H. eapply drainMessages_wf; [|exact H].
    by apply ensureRootLayer_wf.
  - by eapply purgeGLResources_wf.
Qed.

End ReachableFacts.

(** ** The statements at concrete inputs *)

Lemma startProxy_wf : wellFormed startProxy.
Proof. apply ensureRootLayer_wf, newProxy_wf. Qed.

Lemma startProxy_root : m_rootLayer startProxy = Some 0.
Proof. reflexivity. Qed.

(** The frame [exampleFrame], enqueued on a new proxy, is drained in order. *)
Lemma syncRemoteContent_fifo_witness :
  ∃ st', syncRemoteContent exampleClock 4 (enqueueAll exampleFrame newProxy) = Some st' ∧
         drains exampleClock (ensureRootLayer (enqueueAll exampleFrame newProxy))
                exampleFrame st' ∧
         m_messagesToRenderer st' = [].
Proof.
  eexists. split; [vm_compute; reflexivity|].
  destruct (syncRemoteContent_fifo exampleClock newProxy exampleFrame) as (H & _).
  apply (H 4). vm_compute. reflexivity.
Defined.



(** A descriptor for the unknown layer 1 with the unknown child 2. *)
Lemma syncLayerParameters_materializes_witness :
  ∃ st',
    syncLayerParameters exampleClock (exampleInfo 1 true false [2%N] 0 false) startProxy
    = Some st' ∧
    (∃ p l', m_layers st' !! 1%N = Some p ∧ m_heap st' !! p = Some l' ∧
             attributesOf l' = attributesOfInfo (exampleInfo 1 true false [2%N] 0 false) ∧
             m_heap startProxy !! p = None) ∧
    (∃ pc lc, m_layers st' !! 2%N = Some pc ∧ m_heap startProxy !! pc = None ∧
              m_heap st' !! pc = Some lc ∧ attributesOf lc = attributesOf createdLayer).
Proof.
  eexists. split; [vm_compute; reflexivity|].
  edestruct (syncLayerParameters_materializes exampleClock
               (exampleInfo 1 true false [2%N] 0 false) startProxy)
    as ((p & l' & Hp & Hl & Ha & Hn & _) & Hc & _).
  - exact startProxy_wf.
  - vm_compute. reflexivity.
  - split.
    + exists p, l'. split_and!; try done. apply Hn. reflexivity.
    + destruct (Hc 2%N) as (pc & lc & H1 & H2 & H3 & H4).
      * apply elem_of_cons. by left.
      * reflexivity.
      * exists pc, lc. split_and!; try done. apply H4. discriminate.
Defined.

(** The batch [deleteThenSyncRoot] applied twice. *)
Lemma replay_twice_attributes_witness :
  ∃ s1 s2,
    replay exampleClock deleteThenSyncRoot startProxy = Some s1 ∧
    replay exampleClock deleteThenSyncRoot s1 = Some s2 ∧
    (∀ i, layerView s2 i = layerView s1 i) ∧
    dom (m_layers s2) = dom (m_layers s1) ∧
    m_rootLayerID s2 = m_rootLayerID s1.
Proof.
  eexists _, _. split; [vm_compute; reflexivity|]. split; [vm_compute; reflexivity|].
  eapply (replay_twice_attributes exampleClock deleteThenSyncRoot startProxy).
  - exact startProxy_wf.
  - vm_compute. reflexivity.
  - vm_compute. reflexivity.
Defined.

(** C4, as stated, fails.  The batch [deleteThenSyncRoot] ends in a flush.
    Applied once to the proxy at its first paint it leaves layer 1 under
    the root container; applied once more to that result it leaves the
    root container without child: the first command deletes layer 1 while
    the root ID stays 1, so the sync of the new layer 1 does not attach
    it. *)
Lemma replay_twice_counterexample :
  ∃ s1 s2 container layer,
    last deleteThenSyncRoot = Some FlushLayerChanges ∧
    replay exampleClock deleteThenSyncRoot startProxy = Some s1 ∧
    replay exampleClock deleteThenSyncRoot s1 = Some s2 ∧
    sceneGraph 3 s1 = Some (SceneNode container [SceneNode layer []]) ∧
    sceneGraph 3 s2 = Some (SceneNode container []) ∧
    sceneGraph 3 s1 ≠ sceneGraph 3 s2.
Proof.
  eexists _, _, _, _. split; [reflexivity|].
  split; [vm_compute; reflexivity|]. split; [vm_compute; reflexivity|].
  split; [vm_compute; reflexivity|]. split; [vm_compute; reflexivity|].
  vm_compute. discriminate.
Qed.

(** A descriptor flagged as root that asks for clipping. *)
Lemma syncLayerParameters_masksToBounds_witness :
  ∃ st' p l',
    syncLayerParameters exampleClock (exampleInfo 1 true true [] 0 false) startProxy
    = Some st' ∧
    m_layers st' !! 1%N = Some p ∧ m_heap st' !! p = Some l' ∧
    m_masksToBounds l' = false ∧ m_rootLayerID st' = 1%N.
Proof.
  assert (∃ st', syncLayerParameters exampleClock (exampleInfo 1 true true [] 0 false)
                   startProxy = Some st') as [st' H]
    by (eexists; vm_compute; reflexivity).
  destruct (syncLayerParameters_masksToBounds exampleClock _ _ _ startProxy_wf H)
    as (p & l' & Hp & Hl & Hr & _).
  exists st', p, l'. destruct (Hr eq_refl) as [Hm Hi]. by split_and!.
Defined.

(** C5, as stated, fails.  Layer 1 is synced as root and is the current
    root; a later descriptor for layer 1 that is not flagged as root and
    asks for clipping makes the node clip, while layer 1 is still the
    root. *)
Lemma root_layer_clips_counterexample :
  ∃ st st' p l,
    replay exampleClock [SyncLayerParameters (exampleInfo 1 true false [] 0 false)]
           startProxy = Some st ∧
    m_rootLayerID st = li_id clippingInfo ∧
    syncLayerParameters exampleClock clippingInfo st = Some st' ∧
    m_rootLayerID st' = li_id clippingInfo ∧
    m_layers st' !! li_id clippingInfo = Some p ∧ m_heap st' !! p = Some l ∧
    m_masksToBounds l = true.
Proof.
  eexists _, _, _, _. split; [vm_compute; reflexivity|]. split; [reflexivity|].
  split; [vm_compute; reflexivity|]. split; [reflexivity|].
  split; [vm_compute; reflexivity|]. split; [vm_compute; reflexivity|]. reflexivity.
Qed.

Lemma rootedProxy_wf : wellFormed rootedProxy.
Proof.
  destruct (replay exampleClock
              [SyncLayerParameters (exampleInfo 1 true false [2%N] 0 false);
               SyncLayerParameters (exampleInfo 3 false false [] 0 false)]
              startProxy) as [st|] eqn:H.
  - unfold rootedProxy. rewrite H. simpl. eapply replay_wf; [exact startProxy_wf|exact H].
  - vm_compute in H. discriminate.
Qed.

Lemma framedProxy_wf : wellFormed framedProxy.
Proof.
  destruct (replay exampleClock exampleFrame startProxy) as [st|] eqn:H.
  - unfold framedProxy. rewrite H. simpl. eapply replay_wf; [exact startProxy_wf|exact H].
  - vm_compute in H. discriminate.
Qed.

Lemma imageProxy_wf : wellFormed imageProxy.
Proof.
  apply (applyMessage_wf exampleClock (CreateImage 7 99) startProxy); [|done].
  exact startProxy_wf.
Qed.

(** Root 1 is replaced by the existing layer 3. *)
Lemma setRootLayer_reassigns_witness :
  applyMessage exampleClock (SetRootLayer 1) rootedProxy = Some rootedProxy ∧
  ∃ st' lr',
    applyMessage exampleClock (SetRootLayer 3) rootedProxy = Some st' ∧
    m_rootLayerID st' = 3%N ∧
    m_layers st' = m_layers rootedProxy ∧
    m_heap st' !! 0 = Some lr' ∧ m_children lr' = [3].
Proof.
  edestruct (setRootLayer_reassigns exampleClock rootedProxy 1 3 0)
    as (Hsame & st' & H & Hid & Hl & _ & (lr' & Hlr & Hc) & _).
  - vm_compute. reflexivity.
  - discriminate.
  - vm_compute. reflexivity.
  - vm_compute. reflexivity.
  - split; [exact Hsame|]. exists st', lr'.
    split_and!; [exact H|exact Hid|exact Hl|exact Hlr|].
    rewrite Hc. vm_compute. reflexivity.
Defined.

(** The descriptor [imageInfo] once image 7 is registered. *)
Lemma applyMessage_total_witness :
  (∃ st', applyMessage exampleClock (SyncLayerParameters imageInfo) imageProxy = Some st' ∧
          wellFormed st' ∧ m_rootLayer st' = m_rootLayer imageProxy ∧
          is_Some (m_layers st' !! 1%N)) ∧
  applyMessage exampleClock (SyncLayerParameters imageInfo) startProxy = None.
Proof.
  split.
  - destruct (applyMessage_total exampleClock (SyncLayerParameters imageInfo) imageProxy)
      as [Hyes _].
    + exact imageProxy_wf.
    + vm_compute. eauto.
    + destruct Hyes as (st' & H & Hwf & Hr & Hin).
      * intros _. vm_compute. eauto.
      * exists st'. split_and!; try done. apply Hin. by left.
  - destruct (applyMessage_total exampleClock (SyncLayerParameters imageInfo) startProxy)
      as [_ Hno].
    + exact startProxy_wf.
    + vm_compute. eauto.
    + apply Hno. intros Href.
      assert (is_Some (m_directlyCompositedImages startProxy !! 7%Z)) as [x Hx]
        by (apply Href; vm_compute; reflexivity).
      vm_compute in Hx. discriminate.
Defined.

(** C7, as stated, fails.  No image 7 is registered in the proxy at its
    first paint.  The descriptor [imageInfo] has its image-updated flag set
    and names image 7, so its image assignment is due; applying it fails at
    the assertion of [assignImageToLayer], and a batch that holds it is not
    applied to its end.  A tile message for the reserved layer ID 0 fails
    too: [layerByID] resolves 0 to no node. *)
Lemma unregistered_image_counterexample :
  m_directlyCompositedImages startProxy !! li_imageBackingStoreID imageInfo = None ∧
  needsToUpdateImageTiles imageInfo (layerBeforeSync imageInfo startProxy) = true ∧
  applyMessage exampleClock (SyncLayerParameters imageInfo) startProxy = None ∧
  replay exampleClock [SyncLayerParameters imageInfo; FlushLayerChanges] startProxy = None ∧
  applyMessage exampleClock (CreateTile 0 0 1) startProxy = None.
Proof. split_and!; vm_compute; reflexivity. Qed.

(** Deleting the unknown layer 9 and the child 2 of layer 1. *)
Lemma deleteLayer_spec_witness :
  deleteLayer 9 rootedProxy = rootedProxy ∧
  m_layers (deleteLayer 2 rootedProxy) = delete 2%N (m_layers rootedProxy) ∧
  m_heap (deleteLayer 2 rootedProxy) !! 2 = None ∧
  ∃ lq', m_heap (deleteLayer 2 rootedProxy) !! 1 = Some lq' ∧ m_children lq' = [].
Proof.
  destruct (deleteLayer_spec rootedProxy 9) as (_ & H9 & _).
  destruct (deleteLayer_spec rootedProxy 2) as (_ & _ & H2).
  destruct (H2 2) as (Hl & Hh & Hpar & _); [vm_compute; reflexivity|].
  split; [apply H9; vm_compute; reflexivity|]. split; [exact Hl|]. split; [exact Hh|].
  edestruct Hpar as (lq' & Hq & Hc).
  - vm_compute. reflexivity.
  - vm_compute. reflexivity.
  - discriminate.
  - vm_compute. reflexivity.
  - exists lq'. split; [exact Hq|]. rewrite Hc. vm_compute. reflexivity.
Defined.

(** A wheel event at (5, 5), inside the rectangle and over a scrollable node. *)
Lemma tryToHandleWheelEvent_nonFastScrollable_witness :
  ScrollingTree.tryToHandleWheelEvent exampleScrollingTree exampleWheelEvent
  = (ScrollingTree.SendToMainThread, exampleScrollingTree).
Proof. apply tryToHandleWheelEvent_nonFastScrollable. reflexivity. Defined.

(** A purge after one frame: layer 1, under the root container, loses its
    backing store. *)
Lemma purgeGLResources_spec_witness :
  ∃ st', purgeGLResources 3 framedProxy = Some st' ∧
         hasNoBackingStore (m_heap st') 1 ∧
         m_layers st' = m_layers framedProxy ∧
         m_rootLayerID st' = m_rootLayerID framedProxy ∧
         m_sent st' = m_sent framedProxy ++ [PurgeBackingStores].
Proof.
  destruct (purgeGLResources_spec 3 framedProxy) as (H & Htotal & _).
  destruct (Htotal 0) as [st' Hp].
  - vm_compute. reflexivity.
  - eapply depthWithin_node; [vm_compute; reflexivity|].
    intros c Hc. vm_compute in Hc. apply list_elem_of_singleton in Hc as ->.
    eapply depthWithin_node; [vm_compute; reflexivity|].
    intros c Hc. vm_compute in Hc. apply list_elem_of_singleton in Hc as ->.
    eapply depthWithin_node; [vm_compute; reflexivity|].
    intros c Hc. vm_compute in Hc. by apply elem_of_nil in Hc.
  - destruct (H st' Hp) as (Hclear & _ & _ & _ & _ & Hsent & Hl & Hid & _).
    exists st'. split_and!; try done.
    apply (Hclear 0 1); [vm_compute; reflexivity|].
    eapply reaches_child; [vm_compute; reflexivity| |].
    + apply elem_of_cons. left. reflexivity.
    + eapply reaches_self. vm_compute. reflexivity.
Defined.

(** C10, as stated, fails.  Layer 5 has a backing store and hangs under no
    other layer; after [purgeGLResources] its node still has that backing
    store. *)
Lemma detached_layer_counterexample :
  ∃ st' l,
    m_layers tiledProxy !! 5%N = Some 1 ∧
    purgeGLResources 2 tiledProxy = Some st' ∧
    m_layers st' !! 5%N = Some 1 ∧
    m_heap st' !! 1 = Some l ∧ m_backingStore l = Some 0.
Proof.
  eexists _, _. split; [vm_compute; reflexivity|]. split; [vm_compute; reflexivity|].
  split; [vm_compute; reflexivity|]. split; [vm_compute; reflexivity|]. reflexivity.
Qed.

(** ** What a run of the drain loop sends and leaves behind *)

Lemma ensureRootLayer_frame st :
  m_messagesToRenderer (ensureRootLayer st) = m_messagesToRenderer st ∧
  m_sent (ensureRootLayer st) = m_sent st ∧
  m_viewportUpdates (ensureRootLayer st) = m_viewportUpdates st ∧
  m_layers (ensureRootLayer st) = m_layers st ∧
  m_stores (ensureRootLayer st) = m_stores st ∧
  m_nextStore (ensureRootLayer st) = m_nextStore st ∧
  m_rootLayerID (ensureRootLayer st) = m_rootLayerID st ∧
  m_directlyCompositedImages (ensureRootLayer st) = m_directlyCompositedImages st ∧
  m_backingStoresWithPendingBuffers (ensureRootLayer st)
  = m_backingStoresWithPendingBuffers st.
Proof.
  unfold ensureRootLayer. destruct (m_rootLayer st); [done|]. simpl.
  by destruct (m_textureMapper st).
Qed.

Lemma ensureRootLayer_present st r :
  m_rootLayer st = Some r → ensureRootLayer st = st.
Proof. intros H. unfold ensureRootLayer. by rewrite H. Qed.

Lemma ensureRootLayer_root st :
  is_Some (m_rootLayer (ensureRootLayer st)) ∧
  ∀ r, m_rootLayer st = Some r → m_rootLayer (ensureRootLayer st) = Some r.
Proof.
  unfold ensureRootLayer. destruct (m_rootLayer st) as [r|] eqn:Hr.
  - rewrite Hr. split; [eauto|done].
  - split; [|done]. simpl. destruct (m_textureMapper st); simpl; eauto.
Qed.

Section RunFacts.

Variable currentTime : nat → Q.

Lemma applyMessage_sent m st st' :
  applyMessage currentTime m st = Some st' →
  m_sent st' = m_sent st ++ (if isFlushLayerChanges m then [RenderNextFrame] else []).
Proof.
  intros H. destruct (isFlushLayerChanges m) eqn:Hm.
  - destruct m; try discriminate. simpl in H. unfold flushLayerChanges in H.
    destruct (m_rootLayer st); by simplify_eq/=.
  - rewrite app_nil_r. eapply applyMessage_no_flush; [|exact H]. by intros ->.
Qed.

(** A run of the loop: what it sends, and the members it leaves alone. *)
Lemma drains_run st msgs st' :
  drains currentTime st msgs st' →
  m_sent st' = m_sent st
               ++ replicate (length (List.filter isFlushLayerChanges msgs)) RenderNextFrame ∧
  m_viewportUpdates st' = m_viewportUpdates st ∧
  m_rootLayer st' = m_rootLayer st ∧
  m_textureMapper st' = m_textureMapper st.
Proof.
  induction 1 as [s Hs|s m rest s1 msgs s2 Hs Ha _ IH].
  - simpl. by rewrite app_nil_r.
  - destruct IH as (IH1 & IH2 & IH3 & IH4).
    pose proof (applyMessage_sent _ _ _ Ha) as Hsent.
    apply applyMessage_frame in Ha as (_ & Hr & Ht & Hv). simpl in *.
    split_and!; try congruence.
    rewrite IH1, Hsent, <- app_assoc. f_equal.
    by destruct (isFlushLayerChanges m).
Qed.

(** X1.  A run of [syncRemoteContent] sends one [RenderNextFrame] for each
    [FlushLayerChanges] that was in the queue, in addition to what was sent
    before, and nothing else; and it asks the drawing area for no viewport
    update. *)
Theorem syncRemoteContent_sent fuel st st' :
  syncRemoteContent currentTime fuel st = Some st' →
  m_sent st' = m_sent st
               ++ replicate (length (List.filter isFlushLayerChanges (m_messagesToRenderer st)))
                            RenderNextFrame ∧
  m_viewportUpdates st' = m_viewportUpdates st.
Proof.
  unfold syncRemoteContent. intros H.
  apply drainMessages_drains in H as [Hd _].
  destruct (drains_run _ _ _ Hd) as (Hs & Hv & _).
  destruct (ensureRootLayer_frame st) as (Hq & Hs0 & Hv0 & _).
  rewrite Hq, Hs0 in Hs. rewrite Hv0 in Hv. done.
Qed.

(** X2.  Once [syncRemoteContent] has returned, running it again changes
    nothing: the queue is empty and the root container is there, so the
    second run returns the state it was given, with any fuel. *)
Theorem syncRemoteContent_settles fuel st st' n :
  syncRemoteContent currentTime fuel st = Some st' →
  syncRemoteContent currentTime (S n) st' = Some st'.
Proof.
  unfold syncRemoteContent. intros H.
  apply drainMessages_drains in H as [Hd Hq].
  destruct (drains_run _ _ _ Hd) as (_ & _ & Hr & _).
  destruct (ensureRootLayer_root st) as [[r Hr0] _].
  rewrite Hr0 in Hr. rewrite (ensureRootLayer_present _ _ Hr).
  simpl. by rewrite Hq.
Qed.

(** X3.  The root container is created once: in every state the proxy
    reaches by enqueueing messages, by [syncRemoteContent] and by
    [purgeGLResources], a root container that exists is a live layer that
    no ID names (so that no [DeleteLayer] or [SyncLayerParameters] can
    address it), and it is still the root container, and live, after the
    producer enqueues, after [syncRemoteContent] and after
    [purgeGLResources]. *)
Theorem rootLayer_permanent st r :
  reachable currentTime st → m_rootLayer st = Some r →
  is_Some (m_heap st !! r) ∧
  (∀ id, layerByID id st ≠ Some r) ∧
  (∀ m, m_rootLayer (pushUpdateToQueue m st) = Some r) ∧
  (∀ fuel st', syncRemoteContent currentTime fuel st = Some st' →
     m_rootLayer st' = Some r ∧ is_Some (m_heap st' !! r)) ∧
  (∀ fuel st', purgeGLResources fuel st = Some st' →
     m_rootLayer st' = Some r ∧ is_Some (m_heap st' !! r)).
Proof.
  intros Hreach Hr. pose proof (reachable_wf _ _ Hreach) as Hwf.
  destruct (wf_root _ Hwf r Hr) as [Hlive Hno].
  split_and!; try done.
  - intros id. unfold layerByID. case_decide; [done|]. apply Hno.
  - intros fuel st' H.
    assert (m_rootLayer st' = Some r) as Hr'.
    { unfold syncRemoteContent in H. apply drainMessages_drains in H as [Hd _].
      destruct (drains_run _ _ _ Hd) as (_ & _ & Hr1 & _).
      rewrite Hr1. by apply ensureRootLayer_root. }
    split; [done|].
    assert (reachable currentTime st') as Hreach' by (by eapply reachable_sync).
    by apply (wf_root _ (reachable_wf _ _ Hreach') r).
  - intros fuel st' H.
    assert (m_rootLayer st' = Some r) as Hr'.
    { unfold purgeGLResources, rootLayer in H. rewrite Hr in H.
      destruct (clearBackingStoresRecursive fuel r (m_heap st)); by simplify_eq/=. }
    split; [done|].
    assert (reachable currentTime st') as Hreach' by (by eapply reachable_purge).
    by apply (wf_root _ (reachable_wf _ _ Hreach') r).
Qed.

End RunFacts.

(** ** Backing stores on first use *)

Lemma ensureLayer_present id st p :
  m_layers st !! id = Some p → ensureLayer id st = st.
Proof. intros H. unfold ensureLayer. by rewrite H. Qed.

Lemma ensureLayer_absent id st :
  m_layers st !! id = None → ensureLayer id st = materialized id st.
Proof. intros H. unfold ensureLayer. by rewrite H. Qed.

(** X4.  A layer's backing store is created on first use and is the same
    store from then on: a second [getBackingStore] for the ID returns the
    store of the first and changes nothing. *)
Theorem getBackingStore_reuses id st sp st' :
  getBackingStore id st = Some (sp, st') →
  getBackingStore id st' = Some (sp, st').
Proof.
  intros H. apply getBackingStore_spec in H as (p & l & Hp & Hl & Hb).
  assert (m_layers st' !! id = Some p) as Hm.
  { unfold layerByID in Hp. by case_decide. }
  unfold getBackingStore. rewrite (ensureLayer_present _ _ _ Hm), Hp. simpl.
  rewrite Hl. simpl. by rewrite Hb.
Qed.

(** X5.  A tile message materializes its layer, [RemoveTile] included:
    removing a tile of a layer ID that the proxy has never seen creates the
    layer, registers it under the ID, and gives it a backing store of its
    own, which is empty. *)
Theorem removeTile_materializes layerID tileID st :
  layerID ≠ InvalidWebLayerID → m_layers st !! layerID = None →
  ∃ st', removeTile layerID tileID st = Some st' ∧
         m_layers st' = <[layerID := m_nextLayer st]> (m_layers st) ∧
         m_heap st' !! m_nextLayer st
         = Some (setBackingStore (Some (m_nextStore st)) createdLayer) ∧
         m_stores st' !! m_nextStore st = Some ∅ ∧
         m_nextLayer st' = S (m_nextLayer st) ∧
         m_nextStore st' = S (m_nextStore st).
Proof.
  intros Hid Hnone. unfold removeTile, getBackingStore.
  rewrite (ensureLayer_absent _ _ Hnone).
  assert (layerByID layerID (materialized layerID st) = Some (m_nextLayer st)) as Hp.
  { unfold layerByID. rewrite decide_False by done.
    unfold materialized, HashMap_add. simpl. rewrite Hnone. apply lookup_insert_eq. }
  rewrite Hp. simpl. rewrite lookup_insert_eq. simpl.
  eexists. split; [done|]. simpl. split_and!; try done.
  - unfold HashMap_add. by rewrite Hnone.
  - by rewrite lookup_alter_eq, lookup_insert_eq.
  - rewrite lookup_alter_eq, lookup_insert_eq. simpl.
    unfold LayerBackingStore_removeTile. by rewrite delete_empty.
Qed.

(** ** [syncLayerParameters], step by step *)

Lemma updateLayer_updateLayer p f g st :
  updateLayer p f (updateLayer p g st) = updateLayer p (f ∘ g) st.
Proof. unfold updateLayer, with_heap. simpl. by rewrite alter_alter_eq. Qed.

Lemma layerByID_updateLayer id p f st : layerByID id (updateLayer p f st) = layerByID id st.
Proof. reflexivity. Qed.

Lemma assignImageToLayer_unfold p i st :
  assignImageToLayer p i st
  = (λ image, updateLayer p (setContentsToMedia (Some image)) st)
      <$> m_directlyCompositedImages st !! i.
Proof. unfold assignImageToLayer. by destruct (m_directlyCompositedImages st !! i). Qed.

Section SyncSteps.

Variable currentTime : nat → Q.

Lemma syncLayerParameters_steps info st :
  syncLayerParameters currentTime info st =
  (let s0 := ensureLayer (li_id info) st in
   p ← m_layers s0 !! li_id info;
   l ← m_heap s0 !! p;
   image ← (if needsToUpdateImageTiles info l
            then Some <$> m_directlyCompositedImages s0 !! li_imageBackingStoreID info
            else Some None);
   let s1 := updateLayer p (syncedLayer info (layerByID (li_replica info) s0)
                                        (layerByID (li_mask info) s0) image) s0 in
   let sB := (resolveChildren (li_children info) s1).2 in
   let sC := with_heap (setChildren p (resolveChildren (li_children info) s1).1 (m_heap sB))
                       sB in
   let sD := foldl (λ st' anim, applyAnimation currentTime p anim st') sC
                   (li_animations info) in
   if li_isRootLayer info && bool_decide (m_rootLayerID sD ≠ li_id info)
   then setRootLayerID (li_id info) sD
   else Some sD).
Proof.
  unfold syncLayerParameters.
  generalize (ensureLayer (li_id info) st). intros s0.
  cbv zeta.
  destruct (m_layers s0 !! li_id info) as [p|]; [|done].
  cbn -[updateLayer layerByID resolveChildren assignImageToLayer setRootLayerID
        applyAnimation setChildren with_heap needsToUpdateImageTiles m_heap m_rootLayerID
        syncedLayer].
  destruct (m_heap s0 !! p) as [l|]; [|done].
  cbn -[updateLayer layerByID resolveChildren assignImageToLayer setRootLayerID
        applyAnimation setChildren with_heap needsToUpdateImageTiles m_heap m_rootLayerID
        syncedLayer].
  rewrite !layerByID_updateLayer, !updateLayer_updateLayer, assignImageToLayer_unfold.
  change (m_directlyCompositedImages (updateLayer p _ s0))
    with (m_directlyCompositedImages s0).
  destruct (needsToUpdateImageTiles info l).
  - destruct (m_directlyCompositedImages s0 !! li_imageBackingStoreID info) as [image|];
      [|done].
    cbn -[updateLayer layerByID resolveChildren assignImageToLayer setRootLayerID
          applyAnimation setChildren with_heap needsToUpdateImageTiles m_heap m_rootLayerID
          syncedLayer].
    rewrite !updateLayer_updateLayer.
    match goal with
    | |- context [resolveChildren _ (updateLayer p ?F s0)] =>
        change F with (syncedLayer info (layerByID (li_replica info) s0)
                                   (layerByID (li_mask info) s0) (Some image))
    end.
    by destruct (resolveChildren _ _).
  - cbn -[updateLayer layerByID resolveChildren assignImageToLayer setRootLayerID
          applyAnimation setChildren with_heap needsToUpdateImageTiles m_heap m_rootLayerID
          syncedLayer].
    rewrite !updateLayer_updateLayer.
    match goal with
    | |- context [resolveChildren _ (updateLayer p ?F s0)] =>
        change F with (syncedLayer info (layerByID (li_replica info) s0)
                                   (layerByID (li_mask info) s0) None)
    end.
    by destruct (resolveChildren _ _).
Qed.

End SyncSteps.

(** ** Parent links and child lists *)

Lemma removeFirst_subseteq p l c : c ∈ removeFirst p l → c ∈ l.
Proof.
  induction l as [|q l IH]; simpl; [done|].
  case_decide as Hpq; subst.
  - intros Hc. by apply elem_of_cons; right.
  - intros [->|Hc]%elem_of_cons; apply elem_of_cons; [by left|right; by apply IH].
Qed.

Lemma removeFirst_other p l c : c ≠ p → c ∈ l → c ∈ removeFirst p l.
Proof.
  intros Hne. induction l as [|q l IH]; simpl; [done|].
  intros [->|Hc]%elem_of_cons.
  - rewrite decide_False by done. by apply elem_of_cons; left.
  - case_decide as Hpq; [done|]. apply elem_of_cons; right. by apply IH.
Qed.

Lemma removeFirst_NoDup p l : NoDup l → NoDup (removeFirst p l) ∧ p ∉ removeFirst p l.
Proof.
  induction 1 as [|q l Hq Hl IH]; simpl.
  - split; [constructor|]. by intros ?%elem_of_nil.
  - case_decide as Hpq; subst; [done|]. destruct IH as [IH1 IH2]. split.
    + constructor; [|done]. intros Hin. apply Hq. by eapply removeFirst_subseteq.
    + intros [?|?]%elem_of_cons; [congruence|done].
Qed.

Lemma removeFirst_absent p l : p ∉ l → removeFirst p l = l.
Proof.
  induction l as [|q l IH]; simpl; [done|].
  intros [Hne Hl]%not_elem_of_cons. rewrite decide_False by done. by rewrite IH.
Qed.

(** Heaps that agree on the links of every layer. *)
Lemma linked_sameLinks h h' :
  (∀ q, linksOf <$> h' !! q = linksOf <$> h !! q) → linked h → linked h'.
Proof.
  intros Hs (ND & CH & PA).
  assert (∀ x l', h' !! x = Some l' →
            ∃ l, h !! x = Some l ∧ m_parent l = m_parent l' ∧ m_children l = m_children l')
    as Hto.
  { intros x l' Hx. specialize (Hs x). rewrite Hx in Hs.
    destruct (h !! x) as [l|]; [|done]. injection Hs as H1 H2. eauto. }
  assert (∀ x l, h !! x = Some l →
            ∃ l', h' !! x = Some l' ∧ m_parent l' = m_parent l ∧ m_children l' = m_children l)
    as Hfrom.
  { intros x l Hx. specialize (Hs x). rewrite Hx in Hs.
    destruct (h' !! x) as [l'|]; [|done]. injection Hs as H1 H2. eauto. }
  split_and!.
  - intros p l' Hp. destruct (Hto _ _ Hp) as (l & Hl & _ & <-). by eapply ND.
  - intros p l' c Hp Hc. destruct (Hto _ _ Hp) as (l & Hl & _ & Hcs).
    rewrite <- Hcs in Hc. destruct (CH _ _ _ Hl Hc) as (lc & Hlc & Hpar).
    destruct (Hfrom _ _ Hlc) as (lc' & Hlc' & Hpar' & _). exists lc'. split; [done|]. congruence.
  - intros c lc' p Hc Hpar. destruct (Hto _ _ Hc) as (lc & Hlc & Hp & _).
    rewrite <- Hp in Hpar. destruct (PA _ _ _ Hlc Hpar) as (l & Hl & Hin).
    destruct (Hfrom _ _ Hl) as (l' & Hl' & _ & Hcs'). exists l'. split; [done|]. congruence.
Qed.

Lemma linked_alter f p h :
  (∀ l, linksOf (f l) = linksOf l) → linked h → linked (alter f p h).
Proof. intros Hf. apply linked_sameLinks. intros q. by apply alter_π. Qed.

Lemma linked_insert_fresh n h :
  h !! n = None → linked h → linked (<[n := createdLayer]> h).
Proof.
  intros Hn (ND & CH & PA). split_and!.
  - intros p l. rewrite lookup_insert. case_decide; subst.
    + intros [= <-]. constructor.
    + apply ND.
  - intros p l c. rewrite lookup_insert. case_decide; subst.
    + intros [= <-]. by intros ?%elem_of_nil.
    + intros Hp Hc. destruct (CH _ _ _ Hp Hc) as (lc & Hlc & Hpar).
      exists lc. split; [|done]. rewrite lookup_insert_ne; [done|]. congruence.
  - intros c lc p. rewrite lookup_insert. case_decide; subst.
    + by intros [= <-].
    + intros Hc Hpar. destruct (PA _ _ _ Hc Hpar) as (l & Hl & Hin).
      exists l. split; [|done]. rewrite lookup_insert_ne; [done|]. congruence.
Qed.

(** [removeFromParent], layer by layer. *)
Lemma removeFromParent_lookup p h q x :
  h !! p ≫= m_parent = Some q →
  removeFromParent p h !! x
  = (λ l, (if decide (x = p) then setParent None else id)
            ((if decide (x = q)
              then λ l, setChildList (removeFirst p (m_children l)) l
              else id) l)) <$> h !! x.
Proof.
  intros Hq. unfold removeFromParent. rewrite Hq. rewrite !lookup_alter.
  repeat case_decide; subst; try done;
    match goal with |- context [_ <$> ?m !! ?y] => by destruct (m !! y) end.
Qed.

Lemma removeFromParent_orphan p h :
  h !! p ≫= m_parent = None → removeFromParent p h = h.
Proof. intros H. unfold removeFromParent. by rewrite H. Qed.

Lemma linked_removeFromParent p h :
  linked h →
  linked (removeFromParent p h) ∧
  (∀ l', removeFromParent p h !! p = Some l' → m_parent l' = None).
Proof.
  intros (ND & CH & PA).
  destruct (h !! p ≫= m_parent) as [q|] eqn:Hq.
  2:{ rewrite (removeFromParent_orphan _ _ Hq). split; [done|].
      intros l' Hl'. rewrite Hl' in Hq. simpl in Hq. done. }
  assert (∃ lp, h !! p = Some lp ∧ m_parent lp = Some q) as (lp & Hp & Hpar).
  { destruct (h !! p) as [lp|]; [|done]. simpl in Hq. eauto. }
  destruct (PA _ _ _ Hp Hpar) as (lq & Hlq & Hin).
  assert (∀ x l', removeFromParent p h !! x = Some l' →
            ∃ l, h !! x = Some l ∧
                 m_parent l' = (if decide (x = p) then None else m_parent l) ∧
                 m_children l' = (if decide (x = q) then removeFirst p (m_children l)
                                  else m_children l)) as Hto.
  { intros x l'. rewrite (removeFromParent_lookup p h q x Hq).
    intros (l & Hl & ->)%fmap_Some. exists l. split; [done|].
    repeat case_decide; done. }
  assert (∀ x l, h !! x = Some l →
            ∃ l', removeFromParent p h !! x = Some l' ∧
                  m_parent l' = (if decide (x = p) then None else m_parent l) ∧
                  m_children l' = (if decide (x = q) then removeFirst p (m_children l)
                                   else m_children l)) as Hfrom.
  { intros x l Hl. rewrite (removeFromParent_lookup p h q x Hq), Hl. simpl.
    eexists. split; [done|]. repeat case_decide; done. }
  split; [split_and!|].
  - intros x l' Hx. destruct (Hto _ _ Hx) as (l & Hl & _ & ->).
    case_decide; [by apply removeFirst_NoDup, (ND x)|by apply (ND x)].
  - intros x l' c Hx Hc. destruct (Hto _ _ Hx) as (l & Hl & _ & Hcs).
    rewrite Hcs in Hc.
    assert (c ∈ m_children l ∧ (x = q → c ≠ p)) as [Hc0 Hcp].
    { case_decide; subst.
      - split; [by eapply removeFirst_subseteq|]. intros _ ->.
        by apply (removeFirst_NoDup p (m_children l) (ND _ _ Hl)).
      - split; [done|]. done. }
    destruct (CH _ _ _ Hl Hc0) as (lc & Hlc & Hparc).
    destruct (Hfrom _ _ Hlc) as (lc' & Hlc' & Hpc' & _).
    exists lc'. split; [done|]. rewrite Hpc'. case_decide; [|done]. subst c.
    assert (x = q) by congruence. by destruct (Hcp H).
  - intros c lc' x Hc Hparc. destruct (Hto _ _ Hc) as (lc & Hlc & Hpc & _).
    rewrite Hpc in Hparc. case_decide as Hcp; [done|].
    destruct (PA _ _ _ Hlc Hparc) as (l & Hl & Hinx).
    destruct (Hfrom _ _ Hl) as (l' & Hl' & _ & Hcs').
    exists l'. split; [done|]. rewrite Hcs'. case_decide; [|done].
    by apply removeFirst_other.
  - intros l' Hl'. destruct (Hto _ _ Hl') as (l & _ & Hpl & _).
    by rewrite decide_True in Hpl.
Qed.

(** [removeAllChildren], layer by layer. *)
Lemma foldr_setParent_lookup cs (h : gmap nat GraphicsLayer) x :
  foldr (λ c, alter (setParent None) c) h cs !! x
  = (if decide (x ∈ cs) then setParent None else id) <$> h !! x.
Proof.
  induction cs as [|c cs IH].
  - simpl foldr. destruct (decide (x ∈ [])) as [Hin|Hin]; [by apply elem_of_nil in Hin|].
    by destruct (h !! x).
  - simpl foldr. rewrite lookup_alter.
    destruct (decide (c = x)) as [->|Hcx]; rewrite IH.
    + rewrite (decide_True (P := x ∈ x :: cs)) by (by apply elem_of_cons; left).
      destruct (decide (x ∈ cs)); by destruct (h !! x).
    + destruct (decide (x ∈ cs)) as [Hin|Hin].
      * by rewrite (decide_True (P := x ∈ c :: cs)) by (by apply elem_of_cons; right).
      * rewrite (decide_False (P := x ∈ c :: cs)); [done|].
        intros [?|?]%elem_of_cons; [congruence|done].
Qed.

Lemma removeAllChildren_lookup p h l x :
  h !! p = Some l →
  removeAllChildren p h !! x
  = (λ lx, (if decide (x = p) then setChildList [] else id)
             ((if decide (x ∈ m_children l) then setParent None else id) lx)) <$> h !! x.
Proof.
  intros Hp. unfold removeAllChildren. rewrite Hp, lookup_alter.
  destruct (decide (p = x)) as [->|Hpx].
  - rewrite foldr_setParent_lookup, (decide_True (P := x = x)) by done.
    rewrite Hp. simpl. by destruct (decide (x ∈ m_children l)).
  - rewrite foldr_setParent_lookup, (decide_False (P := x = p)) by done.
    destruct (decide (x ∈ m_children l)); by destruct (h !! x).
Qed.

Lemma removeAllChildren_absent p h : h !! p = None → removeAllChildren p h = h.
Proof. intros H. unfold removeAllChildren. by rewrite H. Qed.

Lemma linked_removeAllChildren p h :
  linked h →
  linked (removeAllChildren p h) ∧
  (∀ l', removeAllChildren p h !! p = Some l' → m_children l' = []) ∧
  (∀ x l l', h !! x = Some l → removeAllChildren p h !! x = Some l' →
             m_parent l = None → m_parent l' = None).
Proof.
  intros (ND & CH & PA).
  destruct (h !! p) as [lp|] eqn:Hp.
  2:{ rewrite (removeAllChildren_absent _ _ Hp). split_and!; [done| |].
      - intros l' Hl'. congruence.
      - intros x l l' Hl Hl' Hn. congruence. }
  assert (∀ x l', removeAllChildren p h !! x = Some l' →
            ∃ l, h !! x = Some l ∧
                 m_parent l' = (if decide (x ∈ m_children lp) then None else m_parent l) ∧
                 m_children l' = (if decide (x = p) then [] else m_children l)) as Hto.
  { intros x l'. rewrite (removeAllChildren_lookup p h lp x Hp).
    intros (l & Hl & ->)%fmap_Some. exists l. split; [done|].
    repeat case_decide; done. }
  assert (∀ x l, h !! x = Some l →
            ∃ l', removeAllChildren p h !! x = Some l' ∧
                  m_parent l' = (if decide (x ∈ m_children lp) then None else m_parent l) ∧
                  m_children l' = (if decide (x = p) then [] else m_children l)) as Hfrom.
  { intros x l Hl. rewrite (removeAllChildren_lookup p h lp x Hp), Hl. simpl.
    eexists. split; [done|]. repeat case_decide; done. }
  split_and!; [split_and!| |].
  - intros x l' Hx. destruct (Hto _ _ Hx) as (l & Hl & _ & ->).
    case_decide; [constructor|by apply (ND x)].
  - intros x l' c Hx Hc. destruct (Hto _ _ Hx) as (l & Hl & _ & Hcs).
    rewrite Hcs in Hc. case_decide as Hxp; [by apply elem_of_nil in Hc|].
    destruct (CH _ _ _ Hl Hc) as (lc & Hlc & Hparc).
    destruct (Hfrom _ _ Hlc) as (lc' & Hlc' & Hpc' & _).
    exists lc'. split; [done|]. rewrite Hpc'. case_decide as Hin; [|done].
    destruct (CH _ _ _ Hp Hin) as (lc2 & Hlc2 & Hpar2). congruence.
  - intros c lc' x Hc Hparc. destruct (Hto _ _ Hc) as (lc & Hlc & Hpc & _).
    rewrite Hpc in Hparc. case_decide as Hin; [done|].
    destruct (PA _ _ _ Hlc Hparc) as (l & Hl & Hinx).
    destruct (Hfrom _ _ Hl) as (l' & Hl' & _ & Hcs').
    exists l'. split; [done|]. rewrite Hcs'. case_decide as Hxp; [|done].
    subst x. congruence.
  - intros l' Hl'. destruct (Hto _ _ Hl') as (l & _ & _ & Hcs).
    by rewrite decide_True in Hcs.
  - intros x l l' Hl Hl' Hn. destruct (Hto _ _ Hl') as (l0 & Hl0 & Hpl & _).
    rewrite Hpl. case_decide; [done|]. congruence.
Qed.

(** [addChild], layer by layer. *)
Lemma addChild_lookup p c h x :
  addChild p c h !! x
  = (λ lx, (if decide (x = p) then λ l, setChildList (m_children l ++ [c]) l else id)
             ((if decide (x = c) then setParent (Some p) else id) lx))
      <$> removeFromParent c h !! x.
Proof.
  unfold addChild. rewrite !lookup_alter.
  repeat case_decide; subst; try done;
    match goal with |- context [_ <$> ?m !! ?y] => by destruct (m !! y) end.
Qed.

Lemma linked_addChild p c h :
  linked h → is_Some (h !! p) → is_Some (h !! c) → linked (addChild p c h).
Proof.
  intros Hl [lp0 Hp0] [lc0 Hc0].
  destruct (linked_removeFromParent c h Hl) as [(ND & CH & PA) Horphan].
  set (h1 := removeFromParent c h) in *.
  assert (∀ x, is_Some (h1 !! x) ↔ is_Some (h !! x)) as Hlive.
  { intros x. rewrite <- !not_eq_None_Some. unfold h1. by rewrite removeFromParent_None. }
  assert (∃ lc, h1 !! c = Some lc ∧ m_parent lc = None) as (lc & Hc & Hcpar).
  { destruct (proj2 (Hlive c) (ltac:(eauto))) as [lc Hlc]. exists lc. split; [done|].
    by apply Horphan. }
  assert (∃ lp, h1 !! p = Some lp) as (lp & Hp) by (by apply Hlive; eauto).
  assert (∀ x l, h1 !! x = Some l → c ∉ m_children l) as Hnochild.
  { intros x l Hx Hin. destruct (CH _ _ _ Hx Hin) as (lc2 & Hlc2 & Hpar2). congruence. }
  assert (∀ x l', addChild p c h !! x = Some l' →
            ∃ l, h1 !! x = Some l ∧
                 m_parent l' = (if decide (x = c) then Some p else m_parent l) ∧
                 m_children l' = (if decide (x = p) then m_children l ++ [c]
                                  else m_children l)) as Hto.
  { intros x l'. rewrite (addChild_lookup p c h x).
    intros (l & Hlx & ->)%fmap_Some. exists l. split; [done|].
    repeat case_decide; done. }
  assert (∀ x l, h1 !! x = Some l →
            ∃ l', addChild p c h !! x = Some l' ∧
                  m_parent l' = (if decide (x = c) then Some p else m_parent l) ∧
                  m_children l' = (if decide (x = p) then m_children l ++ [c]
                                   else m_children l)) as Hfrom.
  { intros x l Hlx. rewrite (addChild_lookup p c h x). fold h1. rewrite Hlx. simpl.
    eexists. split; [done|]. repeat case_decide; done. }
  split_and!.
  - intros x l' Hx. destruct (Hto _ _ Hx) as (l & Hlx & _ & ->).
    case_decide; [|by apply (ND x)].
    apply NoDup_app. split_and!; [by apply (ND x)| |apply NoDup_singleton].
    intros d Hd ->%list_elem_of_singleton. by apply (Hnochild x l).
  - intros x l' d Hx Hd. destruct (Hto _ _ Hx) as (l & Hlx & _ & Hcs).
    rewrite Hcs in Hd.
    assert (d ∈ m_children l ∨ (x = p ∧ d = c)) as [Hd0|[-> ->]].
    { case_decide; [|by left]. apply elem_of_app in Hd as [?|?%list_elem_of_singleton].
      - by left.
      - by right. }
    + destruct (CH _ _ _ Hlx Hd0) as (ld & Hld & Hpard).
      destruct (Hfrom _ _ Hld) as (ld' & Hld' & Hpd' & _).
      exists ld'. split; [done|]. rewrite Hpd'. case_decide; [|done].
      subst d. by destruct (Hnochild x l Hlx).
    + destruct (Hfrom _ _ Hc) as (lc' & Hlc' & Hpc' & _).
      exists lc'. split; [done|]. by rewrite Hpc', decide_True.
  - intros d ld' x Hd Hpard. destruct (Hto _ _ Hd) as (ld & Hld & Hpd & _).
    rewrite Hpd in Hpard. case_decide as Hdc.
    + injection Hpard as <-. subst d.
      destruct (Hfrom _ _ Hp) as (lp' & Hlp' & _ & Hcs').
      exists lp'. split; [done|]. rewrite Hcs', decide_True by done.
      apply elem_of_app. right. by apply list_elem_of_singleton.
    + destruct (PA _ _ _ Hld Hpard) as (l & Hlx & Hinx).
      destruct (Hfrom _ _ Hlx) as (l' & Hl' & _ & Hcs').
      exists l'. split; [done|]. rewrite Hcs'. case_decide; [|done].
      apply elem_of_app. by left.
Qed.

Lemma linked_setChildren p cs h :
  linked h → is_Some (h !! p) → (∀ c, c ∈ cs → is_Some (h !! c)) →
  linked (setChildren p cs h).
Proof.
  intros Hl Hp Hcs. unfold setChildren.
  destruct (linked_removeAllChildren p h Hl) as (Hl1 & _).
  assert (∀ x, is_Some (removeAllChildren p h !! x) ↔ is_Some (h !! x)) as Hlive.
  { intros x. rewrite <- !not_eq_None_Some. by rewrite removeAllChildren_None. }
  apply Hlive in Hp.
  assert (∀ c, c ∈ cs → is_Some (removeAllChildren p h !! c)) as Hcs1.
  { intros c Hc. by apply Hlive, Hcs. }
  clear Hcs Hlive Hl. revert Hl1 Hp Hcs1. generalize (removeAllChildren p h).
  induction cs as [|c cs IH]; intros h1 Hl1 Hp Hcs; simpl; [done|].
  assert (∀ x, is_Some (addChild p c h1 !! x) ↔ is_Some (h1 !! x)) as Hlive.
  { intros x. rewrite <- !not_eq_None_Some. by rewrite addChild_None. }
  apply IH.
  - apply linked_addChild; [done|done|]. apply Hcs. by apply elem_of_cons; left.
  - by apply Hlive.
  - intros d Hd. apply Hlive, Hcs. by apply elem_of_cons; right.
Qed.

Lemma linked_delete_isolated p h l :
  linked h → h !! p = Some l → m_parent l = None → m_children l = [] →
  linked (delete p h).
Proof.
  intros (ND & CH & PA) Hp Hpar Hcs. split_and!.
  - intros x lx. rewrite lookup_delete. case_decide; [done|]. apply ND.
  - intros x lx c. rewrite lookup_delete. case_decide; [done|]. intros Hx Hc.
    destruct (CH _ _ _ Hx Hc) as (lc & Hlc & Hparc). exists lc. split; [|done].
    rewrite lookup_delete_ne; [done|]. intros <-. congruence.
  - intros c lc x. rewrite lookup_delete. case_decide; [done|]. intros Hc Hparc.
    destruct (PA _ _ _ Hc Hparc) as (lx & Hx & Hin). exists lx. split; [|done].
    rewrite lookup_delete_ne; [done|]. intros <-.
    rewrite Hp in Hx. injection Hx as <-. rewrite Hcs in Hin. by apply elem_of_nil in Hin.
Qed.

(** Deleting a layer as [deleteLayer] does, after taking it out of its
    parent, leaves no pointer to it behind. *)
Lemma linked_destroyLayer p h :
  linked h → linked (destroyLayer p (removeFromParent p h)).
Proof.
  intros Hl. unfold destroyLayer.
  destruct (h !! p) as [l|] eqn:Hp.
  2:{ rewrite removeFromParent_orphan by (by rewrite Hp).
      rewrite removeAllChildren_absent by done. by rewrite delete_id. }
  destruct (linked_removeFromParent p h Hl) as [Hl1 Horphan].
  destruct (linked_removeAllChildren p _ Hl1) as (Hl2 & Hnone & Hkeep).
  assert (is_Some (removeFromParent p h !! p)) as [l1 Hp1].
  { rewrite <- not_eq_None_Some, removeFromParent_None. congruence. }
  assert (is_Some (removeAllChildren p (removeFromParent p h) !! p)) as [l2 Hp2].
  { rewrite <- not_eq_None_Some, removeAllChildren_None. congruence. }
  eapply linked_delete_isolated; [exact Hl2|exact Hp2| |by apply Hnone].
  eapply Hkeep; [exact Hp1|exact Hp2|]. by apply Horphan.
Qed.

(** ** The links stay consistent through every message *)

Lemma wellFormed_unallocated st : wellFormed st → m_heap st !! m_nextLayer st = None.
Proof.
  intros Hwf. destruct (m_heap st !! m_nextLayer st) eqn:H; [|done].
  assert (m_nextLayer st < m_nextLayer st) by (apply (wf_fresh _ Hwf); eauto). lia.
Qed.

Lemma materialized_heap id st :
  m_heap (materialized id st) = <[m_nextLayer st := createdLayer]> (m_heap st).
Proof. reflexivity. Qed.

Lemma materialized_linked id st :
  wellFormed st → linked (m_heap st) → linked (m_heap (materialized id st)).
Proof.
  intros Hwf Hl. rewrite materialized_heap.
  by apply linked_insert_fresh; [apply wellFormed_unallocated|].
Qed.

Lemma ensureLayer_linked id st :
  wellFormed st → linked (m_heap st) → linked (m_heap (ensureLayer id st)).
Proof.
  intros Hwf Hl. destruct (m_layers st !! id) as [p|] eqn:Hid.
  - by rewrite (ensureLayer_present _ _ _ Hid).
  - rewrite (ensureLayer_absent _ _ Hid). by apply materialized_linked.
Qed.

Lemma resolveChildren_linked ids st :
  wellFormed st → linked (m_heap st) → linked (m_heap (resolveChildren ids st).2).
Proof.
  revert st. induction ids as [|c ids IH]; intros st Hwf Hl; [done|].
  rewrite resolveChildren_cons. destruct (layerByID c st) as [child|]; simpl.
  - by apply IH.
  - apply IH; [by apply materialized_wf|by apply materialized_linked].
Qed.

Lemma setRootLayerID_linked id st st' :
  wellFormed st → linked (m_heap st) → setRootLayerID id st = Some st' →
  linked (m_heap st').
Proof.
  intros Hwf Hl H. unfold setRootLayerID in H.
  destruct (decide (id = m_rootLayerID st)); [by simplify_eq|].
  simpl in H. destruct (m_rootLayer st) as [root|] eqn:Hr; simpl in H; [|done].
  destruct (linked_removeAllChildren root _ Hl) as (Hl1 & _).
  destruct (decide (id = 0%N)); [by simplify_eq|].
  destruct (layerByID id _) as [layer|] eqn:Hb; simplify_eq; [|done].
  simpl. apply linked_addChild; [done| |].
  - rewrite <- not_eq_None_Some, removeAllChildren_None, not_eq_None_Some.
    by apply (wf_root _ Hwf).
  - rewrite <- not_eq_None_Some, removeAllChildren_None, not_eq_None_Some.
    unfold layerByID in Hb. case_decide; [done|]. by apply (wf_live _ Hwf id).
Qed.

Lemma deleteLayer_linked id st :
  linked (m_heap st) → linked (m_heap (deleteLayer id st)).
Proof.
  intros Hl. unfold deleteLayer. destruct (layerByID id st) as [layer|]; [|done].
  simpl. by apply linked_destroyLayer.
Qed.

Lemma linksOf_syncedLayer info replica mask image l :
  linksOf (syncedLayer info replica mask image l) = linksOf l.
Proof. by destruct image. Qed.

(** A projection of a layer that ignores its animations is unchanged by
    the loop over the animations of a descriptor. *)
Section AnimationFrame.

Context {A : Type} (π : GraphicsLayer → A).
Hypothesis π_animations : ∀ x l, π (setAnimations x l) = π l.
Variable currentTime : nat → Q.

Lemma applyAnimation_π p a st q :
  π <$> m_heap (applyAnimation currentTime p a st) !! q = π <$> m_heap st !! q.
Proof.
  unfold applyAnimation. destruct (wa_operation a); simpl; by apply alter_π.
Qed.

Lemma applyAnimations_π p anims st q :
  π <$> m_heap (foldl (λ st' a, applyAnimation currentTime p a st') st anims) !! q
  = π <$> m_heap st !! q.
Proof.
  revert st. induction anims as [|a anims IH]; intros st; simpl; [done|].
  rewrite IH. apply applyAnimation_π.
Qed.

End AnimationFrame.

Section LinkedFacts.

Variable currentTime : nat → Q.

Lemma applyAnimations_wf p anims st :
  wellFormed st →
  wellFormed (foldl (λ st' a, applyAnimation currentTime p a st') st anims).
Proof.
  intros Hwf. eapply wellFormed_sameShape; [exact Hwf|].
  by destruct (applyAnimations_attributeFrame currentTime p anims st) as [[Hs _] _].
Qed.

Lemma syncLayerParameters_linked info st st' :
  wellFormed st → linked (m_heap st) →
  syncLayerParameters currentTime info st = Some st' → linked (m_heap st').
Proof.
  intros Hwf Hl. rewrite syncLayerParameters_steps. cbv zeta.
  destruct (ensureLayer_wf (li_id info) st Hwf) as (Hw0 & _ & _).
  pose proof (ensureLayer_linked (li_id info) st Hwf Hl) as Hl0.
  generalize dependent (ensureLayer (li_id info) st). intros s0 Hw0 Hl0.
  destruct (m_layers s0 !! li_id info) as [p|] eqn:Hp; [|done]. simpl.
  destruct (m_heap s0 !! p) as [l|] eqn:Hlp; [|done]. simpl.
  match goal with |- (?o ≫= _) = _ → _ => destruct o as [image|]; [|done] end. simpl.
  set (s1 := updateLayer p _ s0).
  assert (wellFormed s1) as Hw1.
  { eapply wellFormed_sameShape; [exact Hw0|]. apply updateLayer_shape. }
  assert (linked (m_heap s1)) as Hl1.
  { apply linked_alter; [|done]. intros l0. apply linksOf_syncedLayer. }
  assert (is_Some (m_heap s1 !! p)) as Hp1.
  { unfold s1. rewrite updateLayer_heap_eq, Hlp. simpl. eauto. }
  clearbody s1.
  destruct (resolveChildren_wf (li_children info) s1 Hw1) as (HwB & HgB & _ & HcsB).
  pose proof (resolveChildren_linked (li_children info) s1 Hw1 Hl1) as HlB.
  assert (is_Some (m_heap (resolveChildren (li_children info) s1).2 !! p)) as HpB.
  { destruct HgB as (_ & _ & Hold & _). rewrite Hold; [done|].
    by apply (wf_fresh _ Hw1). }
  generalize dependent (resolveChildren (li_children info) s1). intros [cs sB].
  simpl. intros HwB HgB HcsB HlB HpB.
  set (sC := with_heap (setChildren p cs (m_heap sB)) sB).
  assert (wellFormed sC) as HwC.
  { eapply wellFormed_sameShape; [exact HwB|].
    by destruct (setChildren_attributeFrame p cs sB) as [Hs _]. }
  assert (linked (m_heap sC)) as HlC by (by apply linked_setChildren).
  clearbody sC.
  pose proof (applyAnimations_wf p (li_animations info) sC HwC) as HwD.
  assert (linked (m_heap (foldl (λ st' a, applyAnimation currentTime p a st') sC
                                (li_animations info)))) as HlD.
  { eapply linked_sameLinks; [|exact HlC]. intros q.
    by apply (applyAnimations_π linksOf). }
  generalize dependent (foldl (λ st' a, applyAnimation currentTime p a st') sC
                              (li_animations info)).
  intros sD HwD HlD.
  destruct (_ && _); [|by intros [= <-]].
  intros H. by eapply setRootLayerID_linked.
Qed.

Lemma getBackingStore_linked id st sp st' :
  wellFormed st → linked (m_heap st) → getBackingStore id st = Some (sp, st') →
  linked (m_heap st').
Proof.
  intros Hwf Hl H. unfold getBackingStore in H.
  pose proof (ensureLayer_linked id st Hwf Hl) as Hl0.
  set (s0 := ensureLayer id st) in *. clearbody s0.
  destruct (layerByID id s0) as [p|]; simpl in H; [|done].
  destruct (m_heap s0 !! p) as [l|]; simpl in H; [|done].
  destruct (m_backingStore l); simplify_eq; [done|].
  simpl. by apply linked_alter.
Qed.

Lemma applyMessage_linked m st st' :
  wellFormed st → linked (m_heap st) →
  applyMessage currentTime m st = Some st' → linked (m_heap st').
Proof.
  intros Hwf Hl H. destruct m; simpl in H.
  - injection H as <-. by apply deleteLayer_linked.
  - unfold createTile in H.
    destruct (getBackingStore layerID st) as [[sp s1]|] eqn:Hg; simplify_eq/=.
    by eapply getBackingStore_linked.
  - unfold removeTile in H.
    destruct (getBackingStore layerID st) as [[sp s1]|] eqn:Hg; simplify_eq/=.
    by eapply getBackingStore_linked.
  - unfold updateTile in H.
    destruct (getBackingStore layerID st) as [[sp s1]|] eqn:Hg; simplify_eq/=.
    by eapply getBackingStore_linked.
  - by injection H as <-.
  - by injection H as <-.
  - by eapply syncLayerParameters_linked.
  - unfold flushLayerChanges in H. destruct (m_rootLayer st); by simplify_eq/=.
  - by eapply setRootLayerID_linked.
Qed.

Lemma replay_linked msgs st st' :
  wellFormed st → linked (m_heap st) →
  replay currentTime msgs st = Some st' → linked (m_heap st').
Proof.
  revert st. induction msgs as [|m msgs IH]; intros st Hwf Hl H; simpl in H.
  - by simplify_eq.
  - destruct (applyMessage currentTime m st) as [s1|] eqn:Ha; simpl in H; [|done].
    eapply IH; [| |exact H].
    + by eapply applyMessage_wf.
    + by eapply applyMessage_linked.
Qed.

Lemma drainMessages_linked fuel st st' :
  wellFormed st → linked (m_heap st) →
  drainMessages currentTime fuel st = Some st' → linked (m_heap st').
Proof.
  revert st. induction fuel as [|fuel IH]; intros st Hwf Hl H; simpl in H; [done|].
  destruct (m_messagesToRenderer st) as [|m rest]; simpl in H; [by simplify_eq|].
  destruct (applyMessage currentTime m (with_messagesToRenderer rest st)) as [s1|] eqn:Ha;
    simpl in H; [|done].
  assert (wellFormed (with_messagesToRenderer rest st)) as Hwf'.
  { eapply wellFormed_sameShape; [exact Hwf|]. by split_and!. }
  eapply IH; [| |exact H].
  - by eapply applyMessage_wf.
  - by eapply applyMessage_linked.
Qed.

Lemma ensureRootLayer_linked st :
  wellFormed st → linked (m_heap st) → linked (m_heap (ensureRootLayer st)).
Proof.
  intros Hwf Hl. unfold ensureRootLayer. destruct (m_rootLayer st); [done|].
  assert (linked (alter (setSize (1, 1)%Q) (m_nextLayer st)
                    (alter (setAnchorPoint (0, 0, 0)%Q) (m_nextLayer st)
                       (alter (setDrawsContent false) (m_nextLayer st)
                          (alter (setMasksToBounds false) (m_nextLayer st)
                             (<[m_nextLayer st := createdLayer]> (m_heap st))))))) as H.
  { do 4 (apply linked_alter; [done|]).
    by apply linked_insert_fresh; [apply wellFormed_unallocated|]. }
  simpl. by destruct (m_textureMapper st).
Qed.

Lemma purgeGLResources_linked fuel st st' :
  linked (m_heap st) → purgeGLResources fuel st = Some st' → linked (m_heap st').
Proof.
  intros Hl H. unfold purgeGLResources, rootLayer in H.
  destruct (m_rootLayer st) as [r|]; simpl in H; [|by simplify_eq].
  destruct (clearBackingStoresRecursive fuel r (m_heap st)) as [h'|] eqn:Hc;
    simpl in H; [|done].
  injection H as <-. simpl. eapply linked_sameLinks; [|exact Hl].
  intros q. apply clearBackingStoresRecursive_spec in Hc as (HA & _). specialize (HA q).
  destruct (h' !! q) as [l'|], (m_heap st !! q) as [l|]; try done.
  apply (inj Some) in HA. simpl. f_equal.
  change (linksOf (setBackingStore None l') = linksOf (setBackingStore None l)).
  by rewrite HA.
Qed.

(** X6.  In every state the proxy reaches by enqueueing messages, by
    [syncRemoteContent] and by [purgeGLResources], whatever messages were
    applied on the way, the tree has no dangling link: no child list names a layer
    twice, every child named is a live layer whose parent link points
    back, and every parent link points to a live layer whose child list
    names the layer.  [deleteLayer] takes the layer out of its parent
    before it deletes it, and the children of a descriptor are resolved to
    live layers before they are attached. *)
Theorem reachable_linked st : reachable currentTime st → linked (m_heap st).
Proof.
  induction 1 as [|st m Hr IH|st fuel st' Hr IH H|st fuel st' Hr IH H].
  - split_and!; intros ? ?; simpl; by rewrite lookup_empty.
  - exact IH.
  - pose proof (reachable_wf _ _ Hr) as Hwf. unfold syncRemoteContent in H.
    eapply drainMessages_linked; [| |exact H].
    + by apply ensureRootLayer_wf.
    + by apply ensureRootLayer_linked.
  - by eapply purgeGLResources_linked.
Qed.

End LinkedFacts.

(** ** What hangs under the root container *)

Lemma rootShape_weaken r b b' h :
  (∀ c, b = Some c → b' = Some c) → rootShape r b h → rootShape r b' h.
Proof.
  intros Hb (lr & Hr & Hpar & Hcs). exists lr. split_and!; try done.
  destruct Hcs as [?|(c & Hc & ?)]; [by left|right]. exists c. split; [by apply Hb|done].
Qed.

Lemma rootShape_same r b h h' :
  h' !! r = h !! r → rootShape r b h → rootShape r b h'.
Proof. intros Heq (lr & Hr & H). exists lr. split; [congruence|done]. Qed.

Lemma rootShape_removeFromParent r b c h :
  r ≠ c → rootShape r b h → rootShape r b (removeFromParent c h).
Proof.
  intros Hne (lr & Hr & Hpar & Hcs).
  destruct (h !! c ≫= m_parent) as [q|] eqn:Hq.
  2:{ rewrite (removeFromParent_orphan _ _ Hq). by exists lr. }
  unfold rootShape. rewrite (removeFromParent_lookup c h q r Hq), Hr. simpl.
  eexists. split; [done|]. rewrite decide_False; [|done].
  destruct (decide (r = q)) as [->|Hrq]; simpl; [|by split].
  split; [done|].
  destruct Hcs as [->|(x & Hx & ->)]; [by left|]. simpl.
  case_decide; [by left|right; eauto].
Qed.

Lemma rootShape_removeAllChildren r b p h :
  r ≠ p → linked h → rootShape r b h → rootShape r b (removeAllChildren p h).
Proof.
  intros Hne (_ & CH & _) (lr & Hr & Hpar & Hcs).
  destruct (h !! p) as [lp|] eqn:Hp.
  2:{ rewrite (removeAllChildren_absent _ _ Hp). by exists lr. }
  unfold rootShape. rewrite (removeAllChildren_lookup p h lp r Hp), Hr. simpl.
  eexists. split; [done|]. rewrite (decide_False (P := r = p)); [|done].
  by destruct (decide (r ∈ m_children lp)).
Qed.

Lemma rootShape_addChild r b p c h :
  r ≠ p → r ≠ c → rootShape r b h → rootShape r b (addChild p c h).
Proof.
  intros Hp Hc H. apply (rootShape_removeFromParent r b c h Hc) in H.
  destruct H as (lr & Hr & Hpar & Hcs).
  unfold rootShape. rewrite addChild_lookup, Hr. simpl.
  eexists. split; [done|].
  rewrite (decide_False (P := r = p)); [|done].
  rewrite (decide_False (P := r = c)); [|done]. done.
Qed.

Lemma rootShape_setChildren r b p cs h :
  r ≠ p → r ∉ cs → linked h → rootShape r b h → rootShape r b (setChildren p cs h).
Proof.
  intros Hp Hcs Hl H. unfold setChildren.
  apply (rootShape_removeAllChildren r b p h Hp Hl) in H.
  revert H. generalize (removeAllChildren p h). clear Hl.
  induction cs as [|c cs IH]; intros h1 H; simpl; [done|].
  apply not_elem_of_cons in Hcs as [Hc Hcs].
  apply IH; [done|]. by apply rootShape_addChild.
Qed.

(** The nodes that the loop over the children hands to [setChildren]: the
    node an ID named already, or one allocated by the loop. *)
Lemma resolveChildren_nodes ids st c :
  c ∈ (resolveChildren ids st).1 →
  (∃ id, m_layers st !! id = Some c) ∨ m_nextLayer st ≤ c.
Proof.
  revert st. induction ids as [|i ids IH]; intros st; [by intros ?%elem_of_nil|].
  rewrite resolveChildren_cons. destruct (layerByID i st) as [child|] eqn:Hi; simpl.
  - intros [->|Hc]%elem_of_cons; [|by apply IH].
    left. exists i. unfold layerByID in Hi. by case_decide.
  - intros [->|Hc]%elem_of_cons; [by right|].
    destruct (IH _ Hc) as [[id Hid]|Hge].
    + unfold materialized, HashMap_add in Hid. simpl in Hid.
      destruct (m_layers st !! i) eqn:Hmi; simpl in Hid; [by left; exists id|].
      rewrite lookup_insert in Hid. case_decide; [|by left; exists id].
      injection Hid as <-. by right.
    + right. simpl in Hge. lia.
Qed.

Lemma wellFormed_root_other st r id p :
  wellFormed st → m_rootLayer st = Some r → m_layers st !! id = Some p → r ≠ p.
Proof. intros Hwf Hr Hp ->. by apply (proj2 (wf_root _ Hwf p Hr) id). Qed.

Lemma grows_layerByID st st' id c :
  grows st st' → layerByID id st = Some c → layerByID id st' = Some c.
Proof.
  intros (Ha & _) H. unfold layerByID in *. case_decide; [done|]. by apply Ha.
Qed.

Lemma grows_rootHolds st st' :
  wellFormed st → grows st st' → rootHoldsRootLayer st → rootHoldsRootLayer st'.
Proof.
  intros Hwf Hg Hinv r Hr.
  pose proof Hg as (_ & _ & Hold & _ & Hroot & Hid & _).
  rewrite Hroot in Hr. rewrite Hid.
  eapply rootShape_weaken; [intros c; by apply grows_layerByID|].
  eapply rootShape_same; [|by apply Hinv].
  apply Hold. apply (wf_fresh _ Hwf). by apply (wf_root _ Hwf).
Qed.

Lemma updateLayer_rootHolds p f st :
  (∀ r, m_rootLayer st = Some r → r ≠ p) →
  rootHoldsRootLayer st → rootHoldsRootLayer (updateLayer p f st).
Proof.
  intros Hne Hinv r Hr. eapply rootShape_same; [|by apply Hinv].
  simpl. apply lookup_alter_ne. intros <-. by apply (Hne p).
Qed.

Lemma setRootLayerID_rootHolds id st st' :
  wellFormed st → linked (m_heap st) → rootHoldsRootLayer st →
  setRootLayerID id st = Some st' → rootHoldsRootLayer st'.
Proof.
  intros Hwf Hl Hinv H. unfold setRootLayerID in H.
  destruct (decide (id = m_rootLayerID st)); [by simplify_eq|].
  simpl in H. destruct (m_rootLayer st) as [root|] eqn:Hr; simpl in H; [|done].
  destruct (Hinv root Hr) as (lr & Hlr & Hpar & _).
  assert (rootShape root None (removeAllChildren root (m_heap st))) as H1.
  { destruct Hl as (_ & CH & _).
    unfold rootShape. rewrite (removeAllChildren_lookup root _ lr root Hlr), Hlr. simpl.
    eexists. split; [done|]. rewrite (decide_True (P := root = root)); [|done].
    simpl. destruct (decide (root ∈ m_children lr)); (split; [done|by left]). }
  destruct (decide (id = 0%N)).
  { simplify_eq. intros r' Hr'. simpl in Hr'. rewrite Hr in Hr'. injection Hr' as <-.
    eapply rootShape_weaken; [|exact H1]. done. }
  destruct (layerByID id _) as [layer|] eqn:Hb; simplify_eq.
  2:{ intros r' Hr'. simpl in Hr'. rewrite Hr in Hr'. injection Hr' as <-.
      eapply rootShape_weaken; [|exact H1]. done. }
  intros r' Hr'. simpl in Hr'. rewrite Hr in Hr'. injection Hr' as <-.
  change (layerByID id (with_heap (removeAllChildren root (m_heap st))
                          (with_rootLayerID id st)))
    with (layerByID id st) in Hb.
  change (rootShape root (layerByID id st)
            (addChild root layer (removeAllChildren root (m_heap st)))).
  rewrite Hb.
  assert (root ≠ layer) as Hne.
  { unfold layerByID in Hb. case_decide; [done|]. by eapply wellFormed_root_other. }
  apply (rootShape_removeFromParent root None layer _ Hne) in H1.
  destruct H1 as (l1 & Hl1 & Hpar1 & Hcs1).
  unfold rootShape. rewrite addChild_lookup, Hl1. simpl.
  eexists. split; [done|].
  rewrite (decide_True (P := root = root)); [|done].
  rewrite (decide_False (P := root = layer)); [|done]. simpl.
  split; [done|]. right. exists layer. split; [done|].
  destruct Hcs1 as [->|(c & ? & _)]; done.
Qed.

Lemma deleteLayer_rootHolds id st :
  wellFormed st → linked (m_heap st) → rootHoldsRootLayer st →
  rootHoldsRootLayer (deleteLayer id st).
Proof.
  intros Hwf Hl Hinv. unfold deleteLayer.
  destruct (layerByID id st) as [x|] eqn:Hx; [|done].
  assert (id ≠ 0%N ∧ m_layers st !! id = Some x) as [Hid Hmx].
  { unfold layerByID in Hx. by case_decide. }
  intros r Hr. simpl in Hr.
  assert (r ≠ x) as Hne by (by eapply wellFormed_root_other).
  destruct (Hinv r Hr) as (lr & Hlr & Hpar & Hcs).
  destruct (linked_removeFromParent x _ Hl) as [Hl1 _].
  (* the layer leaves the child list of the root container *)
  assert (rootShape r (if decide (id = m_rootLayerID st) then None
                       else layerByID (m_rootLayerID st) st)
                    (removeFromParent x (m_heap st))) as H1.
  { destruct (decide (id = m_rootLayerID st)) as [Heq|Hneq].
    2:{ apply rootShape_removeFromParent; [done|]. by apply Hinv. }
    subst id. rewrite Hx in Hcs.
    destruct Hcs as [Hnil|(c & [= <-] & Hone)].
    { apply rootShape_removeFromParent; [done|]. exists lr. split_and!; try done. by left. }
    destruct Hl as (_ & CH & _).
    destruct (CH r lr x Hlr) as (lx & Hlx & Hparx).
    { rewrite Hone. by apply elem_of_cons; left. }
    assert (m_heap st !! x ≫= m_parent = Some r) as Hq by (by rewrite Hlx).
    unfold rootShape. rewrite (removeFromParent_lookup x _ r r Hq), Hlr. simpl.
    eexists. split; [done|].
    rewrite (decide_False (P := r = x)); [|done].
    rewrite (decide_True (P := r = r)); [|done]. simpl. split; [done|]. left.
    rewrite Hone. simpl. by rewrite decide_True. }
  apply (rootShape_removeAllChildren r _ x _ Hne Hl1) in H1.
  simpl. unfold destroyLayer.
  assert (layerByID (m_rootLayerID st)
            (with_heap (delete x (removeAllChildren x (removeFromParent x (m_heap st))))
               (with_layers (delete id (m_layers st))
                  (with_heap (removeFromParent x (m_heap st)) st)))
          = if decide (id = m_rootLayerID st) then None
            else layerByID (m_rootLayerID st) st) as ->.
  { unfold layerByID. simpl. destruct (decide (m_rootLayerID st = InvalidWebLayerID)) as [H0|H0].
    - by destruct (decide (id = m_rootLayerID st)).
    - rewrite lookup_delete. by destruct (decide (id = m_rootLayerID st)). }
  eapply rootShape_same; [|exact H1]. by apply lookup_delete_ne.
Qed.

Lemma getBackingStore_rootHolds id st sp st' :
  wellFormed st → rootHoldsRootLayer st → getBackingStore id st = Some (sp, st') →
  rootHoldsRootLayer st'.
Proof.
  intros Hwf Hinv H. unfold getBackingStore in H.
  destruct (ensureLayer_wf id st Hwf) as (Hw0 & Hg0 & _).
  pose proof (grows_rootHolds _ _ Hwf Hg0 Hinv) as Hinv0.
  set (s0 := ensureLayer id st) in *. clearbody s0.
  destruct (layerByID id s0) as [p|] eqn:Hp; simpl in H; [|done].
  destruct (m_heap s0 !! p) as [l|]; simpl in H; [|done].
  destruct (m_backingStore l); simplify_eq; [done|].
  apply updateLayer_rootHolds.
  - intros r Hr. simpl in Hr. unfold layerByID in Hp. case_decide; [done|].
    by eapply wellFormed_root_other.
  - intros r Hr. by apply Hinv0.
Qed.

Section RootFacts.

Variable currentTime : nat → Q.

Lemma applyAnimations_other p anims st q :
  q ≠ p →
  m_heap (foldl (λ st' a, applyAnimation currentTime p a st') st anims) !! q
  = m_heap st !! q.
Proof.
  intros Hq. revert st. induction anims as [|a anims IH]; intros st; simpl; [done|].
  rewrite IH. unfold applyAnimation.
  destruct (wa_operation a); simpl; by rewrite lookup_alter_ne.
Qed.

Lemma syncLayerParameters_rootHolds info st st' :
  wellFormed st → linked (m_heap st) → rootHoldsRootLayer st →
  syncLayerParameters currentTime info st = Some st' → rootHoldsRootLayer st'.
Proof.
  intros Hwf Hl Hinv. rewrite syncLayerParameters_steps. cbv zeta.
  destruct (ensureLayer_wf (li_id info) st Hwf) as (Hw0 & Hg0 & _).
  pose proof (ensureLayer_linked (li_id info) st Hwf Hl) as Hl0.
  pose proof (grows_rootHolds _ _ Hwf Hg0 Hinv) as Hinv0. clear Hg0.
  generalize dependent (ensureLayer (li_id info) st). intros s0 Hw0 Hl0 Hinv0.
  destruct (m_layers s0 !! li_id info) as [p|] eqn:Hp; [|done]. simpl.
  destruct (m_heap s0 !! p) as [l|] eqn:Hlp; [|done]. simpl.
  match goal with |- (?o ≫= _) = _ → _ => destruct o as [image|]; [|done] end. simpl.
  assert (∀ r, m_rootLayer s0 = Some r → r ≠ p) as Hrp.
  { intros r Hr. by eapply wellFormed_root_other. }
  set (s1 := updateLayer p _ s0).
  assert (wellFormed s1) as Hw1.
  { eapply wellFormed_sameShape; [exact Hw0|]. apply updateLayer_shape. }
  assert (linked (m_heap s1)) as Hl1.
  { apply linked_alter; [|done]. intros l0. apply linksOf_syncedLayer. }
  assert (rootHoldsRootLayer s1) as Hinv1 by (by apply updateLayer_rootHolds).
  assert (is_Some (m_heap s1 !! p)) as Hp1.
  { unfold s1. rewrite updateLayer_heap_eq, Hlp. simpl. eauto. }
  assert (m_layers s1 !! li_id info = Some p) as Hid1 by done.
  clearbody s1.
  destruct (resolveChildren_wf (li_children info) s1 Hw1) as (HwB & HgB & _ & HcsB).
  pose proof (resolveChildren_linked (li_children info) s1 Hw1 Hl1) as HlB.
  pose proof (grows_rootHolds _ _ Hw1 HgB Hinv1) as HinvB.
  pose proof (resolveChildren_nodes (li_children info) s1) as Hnodes.
  assert (is_Some (m_heap (resolveChildren (li_children info) s1).2 !! p)) as HpB.
  { destruct HgB as (_ & _ & Hold & _). rewrite Hold; [done|].
    by apply (wf_fresh _ Hw1). }
  assert (m_rootLayer (resolveChildren (li_children info) s1).2 = m_rootLayer s1) as HrB.
  { by destruct HgB as (_ & _ & _ & _ & ? & _). }
  assert (m_layers (resolveChildren (li_children info) s1).2 !! li_id info = Some p) as HidB.
  { destruct HgB as (Ha & _). by apply Ha. }
  generalize dependent (resolveChildren (li_children info) s1). intros [cs sB].
  simpl. intros HwB HgB HcsB HlB HinvB Hnodes HpB HrB HidB.
  set (sC := with_heap (setChildren p cs (m_heap sB)) sB).
  assert (wellFormed sC) as HwC.
  { eapply wellFormed_sameShape; [exact HwB|].
    by destruct (setChildren_attributeFrame p cs sB) as [Hs _]. }
  assert (linked (m_heap sC)) as HlC by (by apply linked_setChildren).
  assert (rootHoldsRootLayer sC) as HinvC.
  { intros r Hr. simpl in Hr.
    change (rootShape r (layerByID (m_rootLayerID sB) sB) (setChildren p cs (m_heap sB))).
    apply rootShape_setChildren; [| |done|by apply HinvB].
    - by eapply (wellFormed_root_other sB).
    - intros Hin. destruct (Hnodes r Hin) as [[i Hi]|Hge].
      + rewrite HrB in Hr. by apply (wellFormed_root_other s1 r i r Hw1 Hr Hi).
      + rewrite HrB in Hr.
        assert (r < m_nextLayer s1); [|lia].
        by apply (wf_fresh _ Hw1), (wf_root _ Hw1). }
  assert (m_layers sC !! li_id info = Some p) as HidC by done.
  clearbody sC.
  pose proof (applyAnimations_wf currentTime p (li_animations info) sC HwC) as HwD.
  assert (linked (m_heap (foldl (λ st' a, applyAnimation currentTime p a st') sC
                                (li_animations info)))) as HlD.
  { eapply linked_sameLinks; [|exact HlC]. intros q.
    by apply (applyAnimations_π linksOf). }
  assert (rootHoldsRootLayer (foldl (λ st' a, applyAnimation currentTime p a st') sC
                                    (li_animations info))) as HinvD.
  { destruct (applyAnimations_attributeFrame currentTime p (li_animations info) sC)
      as [[(Hlay & _ & _ & Hroot) _] Hid].
    intros r Hr. rewrite Hroot in Hr.
    unfold layerByID. rewrite Hid, Hlay.
    eapply rootShape_same; [|by apply HinvC].
    apply applyAnimations_other. by eapply (wellFormed_root_other sC). }
  generalize dependent (foldl (λ st' a, applyAnimation currentTime p a st') sC
                              (li_animations info)).
  intros sD HwD HlD HinvD.
  destruct (_ && _); [|by intros [= <-]].
  intros H. by eapply setRootLayerID_rootHolds.
Qed.

Lemma applyMessage_rootHolds m st st' :
  wellFormed st → linked (m_heap st) → rootHoldsRootLayer st →
  applyMessage currentTime m st = Some st' → rootHoldsRootLayer st'.
Proof.
  intros Hwf Hl Hinv H. destruct m; simpl in H.
  - injection H as <-. by apply deleteLayer_rootHolds.
  - unfold createTile in H.
    destruct (getBackingStore layerID st) as [[sp s1]|] eqn:Hg; simplify_eq/=.
    intros r Hr. by apply (getBackingStore_rootHolds _ _ _ _ Hwf Hinv Hg r).
  - unfold removeTile in H.
    destruct (getBackingStore layerID st) as [[sp s1]|] eqn:Hg; simplify_eq/=.
    intros r Hr. by apply (getBackingStore_rootHolds _ _ _ _ Hwf Hinv Hg r).
  - unfold updateTile in H.
    destruct (getBackingStore layerID st) as [[sp s1]|] eqn:Hg; simplify_eq/=.
    intros r Hr. by apply (getBackingStore_rootHolds _ _ _ _ Hwf Hinv Hg r).
  - injection H as <-. exact Hinv.
  - injection H as <-. exact Hinv.
  - by eapply syncLayerParameters_rootHolds.
  - unfold flushLayerChanges in H. destruct (m_rootLayer st) eqn:Hr; simplify_eq/=.
    intros r Hr'. by apply (Hinv r).
  - by eapply setRootLayerID_rootHolds.
Qed.

Lemma drainMessages_rootHolds fuel st st' :
  wellFormed st → linked (m_heap st) → rootHoldsRootLayer st →
  drainMessages currentTime fuel st = Some st' → rootHoldsRootLayer st'.
Proof.
  revert st. induction fuel as [|fuel IH]; intros st Hwf Hl Hinv H; simpl in H; [done|].
  destruct (m_messagesToRenderer st) as [|m rest]; simpl in H; [by simplify_eq|].
  destruct (applyMessage currentTime m (with_messagesToRenderer rest st)) as [s1|] eqn:Ha;
    simpl in H; [|done].
  assert (wellFormed (with_messagesToRenderer rest st)) as Hwf'.
  { eapply wellFormed_sameShape; [exact Hwf|]. by split_and!. }
  eapply IH; [| | |exact H].
  - by eapply applyMessage_wf.
  - by eapply applyMessage_linked.
  - eapply applyMessage_rootHolds; [exact Hwf'|exact Hl| |exact Ha].
    intros r Hr. by apply (Hinv r).
Qed.

Lemma ensureRootLayer_rootHolds st :
  wellFormed st → rootHoldsRootLayer st → rootHoldsRootLayer (ensureRootLayer st).
Proof.
  intros Hwf Hinv. unfold ensureRootLayer. destruct (m_rootLayer st) eqn:Hr; [done|].
  assert (∀ tm, rootHoldsRootLayer
            (with_textureMapper tm
               (updateLayer (m_nextLayer st) (setSize (1, 1)%Q)
                  (updateLayer (m_nextLayer st) (setAnchorPoint (0, 0, 0)%Q)
                     (updateLayer (m_nextLayer st) (setDrawsContent false)
                        (updateLayer (m_nextLayer st) (setMasksToBounds false)
                           (with_rootLayer (Some (m_nextLayer st))
                              (createLayer InvalidWebLayerID st).2))))))) as H.
  { intros tm r [= <-]. unfold rootShape. simpl.
    rewrite !lookup_alter_eq, lookup_insert_eq. simpl.
    eexists. split; [done|]. split; [done|by left]. }
  simpl. destruct (m_textureMapper st) as [tm|].
  - intros r Hr'. by apply (H (Some tm) r).
  - exact (H (Some OpenGLMode)).
Qed.

Lemma purgeGLResources_rootHolds fuel st st' :
  rootHoldsRootLayer st → purgeGLResources fuel st = Some st' → rootHoldsRootLayer st'.
Proof.
  intros Hinv H. unfold purgeGLResources, rootLayer in H.
  destruct (m_rootLayer st) as [r|] eqn:Hr; simpl in H; [|by simplify_eq].
  destruct (clearBackingStoresRecursive fuel r (m_heap st)) as [h'|] eqn:Hc;
    simpl in H; [|done].
  injection H as <-. intros r' Hr'. simpl in Hr'. rewrite Hr in Hr'. injection Hr' as <-.
  destruct (Hinv r Hr) as (lr & Hlr & Hpar & Hcs).
  apply clearBackingStoresRecursive_spec in Hc as (HA & _). specialize (HA r).
  rewrite Hlr in HA. unfold rootShape. simpl.
  destruct (h' !! r) as [lr'|]; [|done]. apply (inj Some) in HA.
  exists lr'. split; [done|].
  change (m_parent lr') with (m_parent (setBackingStore None lr')).
  change (m_children lr') with (m_children (setBackingStore None lr')).
  rewrite HA. done.
Qed.

(** X7.  In every state the proxy reaches by enqueueing messages, by
    [syncRemoteContent] and by [purgeGLResources], the root container has
    no parent and holds at most one child, and that child is the node that
    the current root ID names: what the compositor walks from the root
    container is the tree of the root layer or nothing.  In particular the
    container is empty when the root ID is 0 or names no layer, as after
    [DeleteLayer] of the root layer. *)
Theorem reachable_rootHoldsRootLayer st :
  reachable currentTime st → rootHoldsRootLayer st.
Proof.
  intros Hreach.
  assert (linked (m_heap st) ∧ rootHoldsRootLayer st) as [_ Hinv]; [|exact Hinv].
  induction Hreach as [|st m Hr [IHl IH]|st fuel st' Hr [IHl IH] H|st fuel st' Hr [IHl IH] H].
  - split; [|done]. split_and!; intros ? ?; simpl; by rewrite lookup_empty.
  - split; [exact IHl|]. intros r Hr'. by apply (IH r).
  - pose proof (reachable_wf _ _ Hr) as Hwf.
    unfold syncRemoteContent in H.
    destruct (ensureRootLayer_wf st Hwf) as [Hwf0 _].
    pose proof (ensureRootLayer_linked st Hwf IHl) as Hl0.
    split.
    + by eapply drainMessages_linked.
    + eapply drainMessages_rootHolds; [exact Hwf0|exact Hl0| |exact H].
      by apply ensureRootLayer_rootHolds.
  - split; [by eapply purgeGLResources_linked|by eapply purgeGLResources_rootHolds].
Qed.

End RootFacts.

(** ** Members that a descriptor does not reach *)

Lemma allocates_refl h : allocates h h.
Proof. intros q. by left. Qed.

Lemma allocates_trans h1 h2 h3 : allocates h1 h2 → allocates h2 h3 → allocates h1 h3.
Proof.
  intros H12 H23 q. destruct (H23 q) as [->|[Hn ->]]; [apply H12|].
  right. split; [|done]. destruct (H12 q) as [<-|[? _]]; done.
Qed.

Lemma materialized_allocates id st :
  wellFormed st → allocates (m_heap st) (m_heap (materialized id st)).
Proof.
  intros Hwf q. rewrite materialized_heap, lookup_insert.
  case_decide; subst; [right|by left]. split; [|done]. by apply wellFormed_unallocated.
Qed.

Lemma ensureLayer_allocates id st :
  wellFormed st → allocates (m_heap st) (m_heap (ensureLayer id st)).
Proof.
  intros Hwf. destruct (m_layers st !! id) as [p|] eqn:Hid.
  - rewrite (ensureLayer_present _ _ _ Hid). apply allocates_refl.
  - rewrite (ensureLayer_absent _ _ Hid). by apply materialized_allocates.
Qed.

Lemma resolveChildren_allocates ids st :
  wellFormed st → allocates (m_heap st) (m_heap (resolveChildren ids st).2).
Proof.
  revert st. induction ids as [|c ids IH]; intros st Hwf; [apply allocates_refl|].
  rewrite resolveChildren_cons. destruct (layerByID c st) as [child|]; simpl.
  - by apply IH.
  - eapply allocates_trans; [by apply (materialized_allocates c)|].
    apply IH. by apply materialized_wf.
Qed.

(** A projection of a layer that ignores its links and its animations,
    followed through [setRootLayerID] and [syncLayerParameters]. *)
Section SyncProjection.

Context {A : Type} (π : GraphicsLayer → A).
Hypothesis π_parent : ∀ x l, π (setParent x l) = π l.
Hypothesis π_children : ∀ x l, π (setChildList x l) = π l.
Hypothesis π_animations : ∀ x l, π (setAnimations x l) = π l.
Variable currentTime : nat → Q.

Lemma setRootLayerID_π id st st' q :
  setRootLayerID id st = Some st' → π <$> m_heap st' !! q = π <$> m_heap st !! q.
Proof.
  unfold setRootLayerID. intros H.
  destruct (decide (id = m_rootLayerID st)); [by simplify_eq|].
  simpl in H. destruct (m_rootLayer st) as [root|]; simpl in H; [|done].
  destruct (decide (id = 0%N)).
  { simplify_eq. simpl. by apply removeAllChildren_π. }
  destruct (layerByID id _) as [layer|]; simplify_eq; simpl.
  - rewrite (addChild_π π) by done. by apply removeAllChildren_π.
  - by apply removeAllChildren_π.
Qed.

Lemma deleteLayer_π id st q :
  m_heap (deleteLayer id st) !! q = None ∨
  π <$> m_heap (deleteLayer id st) !! q = π <$> m_heap st !! q.
Proof.
  unfold deleteLayer. destruct (layerByID id st) as [layer|]; [|by right].
  simpl. unfold destroyLayer. rewrite lookup_delete. case_decide; [by left|right].
  rewrite (removeAllChildren_π π) by done. by apply removeFromParent_π.
Qed.

Lemma syncLayerParameters_π info st st' :
  wellFormed st →
  syncLayerParameters currentTime info st = Some st' →
  ∃ p l image,
    m_layers (ensureLayer (li_id info) st) !! li_id info = Some p ∧
    m_heap (ensureLayer (li_id info) st) !! p = Some l ∧
    m_layers st' !! li_id info = Some p ∧
    (if needsToUpdateImageTiles info l
     then is_Some image ∧
          image = m_directlyCompositedImages st !! li_imageBackingStoreID info
     else image = None) ∧
    π <$> m_heap st' !! p
    = Some (π (syncedLayer info (layerByID (li_replica info) (ensureLayer (li_id info) st))
                                (layerByID (li_mask info) (ensureLayer (li_id info) st))
                                image l)) ∧
    ∀ q, q ≠ p →
         π <$> m_heap st' !! q = π <$> m_heap st !! q ∨
         (m_heap st !! q = None ∧ π <$> m_heap st' !! q = Some (π createdLayer)).
Proof.
  intros Hwf. rewrite syncLayerParameters_steps. cbv zeta.
  destruct (ensureLayer_wf (li_id info) st Hwf) as (Hw0 & _ & _).
  pose proof (ensureLayer_allocates (li_id info) st Hwf) as Ha0.
  pose proof (ensureLayer_frame (li_id info) st) as (_ & _ & _ & Him & _).
  generalize dependent (ensureLayer (li_id info) st). intros s0 Hw0 Ha0 Him.
  destruct (m_layers s0 !! li_id info) as [p|] eqn:Hp; [|done]. simpl.
  destruct (m_heap s0 !! p) as [l|] eqn:Hlp; [|done]. simpl.
  match goal with |- (?o ≫= _) = _ → _ => destruct o as [image|] eqn:Himage; [|done] end.
  simpl. intros H.
  assert (if needsToUpdateImageTiles info l
          then is_Some image ∧
               image = m_directlyCompositedImages st !! li_imageBackingStoreID info
          else image = None) as Hdue.
  { destruct (needsToUpdateImageTiles info l); [|by simplify_eq].
    rewrite Him in Himage.
    destruct (m_directlyCompositedImages st !! li_imageBackingStoreID info);
      simplify_eq/=. split; [eauto|done]. }
  clear Himage Him.
  set (F := syncedLayer info (layerByID (li_replica info) s0)
                        (layerByID (li_mask info) s0) image) in *.
  set (s1 := updateLayer p F s0) in *.
  assert (wellFormed s1) as Hw1.
  { eapply wellFormed_sameShape; [exact Hw0|]. apply updateLayer_shape. }
  assert (m_heap s1 !! p = Some (F l)) as Hp1.
  { unfold s1. by rewrite updateLayer_heap_eq, Hlp. }
  assert (∀ q, q ≠ p → m_heap s1 !! q = m_heap s0 !! q) as Ho1.
  { intros q Hq. unfold s1. by rewrite updateLayer_heap_ne. }
  assert (m_layers s1 !! li_id info = Some p) as Hid1 by done.
  clearbody s1.
  pose proof (resolveChildren_allocates (li_children info) s1 Hw1) as HaB.
  assert (m_layers (resolveChildren (li_children info) s1).2 !! li_id info = Some p) as HidB.
  { destruct (resolveChildren_wf (li_children info) s1 Hw1) as (_ & (Hmono & _) & _).
    by apply Hmono. }
  generalize dependent (resolveChildren (li_children info) s1). intros [cs sB].
  simpl. intros H HaB HidB.
  assert (m_layers st' = m_layers sB) as Hlay.
  { set (sC := with_heap (setChildren p cs (m_heap sB)) sB) in *.
    assert (m_layers sC = m_layers sB) as HC by done.
    destruct (applyAnimations_attributeFrame currentTime p (li_animations info) sC)
      as [[(HD & _) _] _].
    generalize dependent (foldl (λ st' a, applyAnimation currentTime p a st') sC
                                (li_animations info)).
    intros sD H HD.
    destruct (_ && _).
    - apply setRootLayerID_attributeFrame in H as [[(Hl & _) _] _]. congruence.
    - injection H as <-. congruence. }
  (* from the children on, the projection is left alone *)
  assert (∀ q, π <$> m_heap st' !! q = π <$> m_heap sB !! q) as Hrest.
  { intros q.
    set (sC := with_heap (setChildren p cs (m_heap sB)) sB) in *.
    assert (π <$> m_heap sC !! q = π <$> m_heap sB !! q) as HC.
    { unfold sC. simpl. by apply setChildren_π. }
    pose proof (applyAnimations_π π π_animations currentTime p (li_animations info) sC q)
      as HD.
    generalize dependent (foldl (λ st' a, applyAnimation currentTime p a st') sC
                                (li_animations info)).
    intros sD H HD.
    destruct (_ && _).
    - rewrite (setRootLayerID_π _ _ _ q H). congruence.
    - injection H as <-. congruence. }
  exists p, l, image. split; [done|]. split; [done|]. split; [by rewrite Hlay|].
  split; [exact Hdue|]. split.
  - rewrite Hrest. destruct (HaB p) as [->|[Hn _]]; [by rewrite Hp1|congruence].
  - intros q Hq. rewrite Hrest.
    destruct (HaB q) as [->|[Hn ->]].
    + rewrite Ho1 by done. destruct (Ha0 q) as [->|[Hn ->]]; [by left|by right].
    + right. split; [|done]. rewrite Ho1 in Hn by done.
      destruct (Ha0 q) as [<-|[? _]]; done.
Qed.

End SyncProjection.

(** ** Each layer has a backing store of its own *)

Lemma keepsStores_refl h : keepsStores h h.
Proof. intros p l' Hp. right. eauto. Qed.

Lemma keepsStores_trans h1 h2 h3 : keepsStores h1 h2 → keepsStores h2 h3 → keepsStores h1 h3.
Proof.
  intros H12 H23 p l3 Hp. destruct (H23 p l3 Hp) as [?|(l2 & Hl2 & Heq)]; [by left|].
  destruct (H12 p l2 Hl2) as [Hn|(l1 & Hl1 & Heq1)].
  - left. congruence.
  - right. exists l1. split; [done|]. congruence.
Qed.

Lemma keepsStores_projection h h' :
  (∀ q, h' !! q = None ∨
        m_backingStore <$> h' !! q = m_backingStore <$> h !! q ∨
        m_backingStore <$> h' !! q = Some None) →
  keepsStores h h'.
Proof.
  intros H p l' Hp. destruct (H p) as [Hn|[Heq|Hnew]].
  - congruence.
  - rewrite Hp in Heq. destruct (h !! p) as [l|]; [|done]. right. exists l.
    split; [done|]. by injection Heq.
  - rewrite Hp in Hnew. left. by injection Hnew.
Qed.

(** The invariant survives any change of the heap that hands no store to a
    layer, and any change of the stores that frees none. *)
Lemma storesWellFormed_keeps st st' :
  storesWellFormed st →
  keepsStores (m_heap st) (m_heap st') →
  (∀ sp, is_Some (m_stores st !! sp) ↔ is_Some (m_stores st' !! sp)) →
  m_nextStore st' = m_nextStore st →
  m_backingStoresWithPendingBuffers st' ⊆ m_backingStoresWithPendingBuffers st →
  storesWellFormed st'.
Proof.
  intros [Hlive Hun Hfresh Hpend] Hk Hdom Hnext Hsub. split.
  - intros p l' sp Hp Hb. destruct (Hk p l' Hp) as [?|(l & Hl & Heq)]; [congruence|].
    apply Hdom. eapply Hlive; [exact Hl|]. congruence.
  - intros p q l1 l2 sp Hp Hq Hb1 Hb2.
    destruct (Hk p l1 Hp) as [?|(l1' & Hl1 & Heq1)]; [congruence|].
    destruct (Hk q l2 Hq) as [?|(l2' & Hl2 & Heq2)]; [congruence|].
    eapply (Hun p q l1' l2' sp); [done|done|congruence|congruence].
  - intros sp Hsp. rewrite Hnext. by apply Hfresh, Hdom.
  - intros sp Hsp. apply Hdom, Hpend. set_solver.
Qed.

Lemma getBackingStore_stores id st sp st' :
  wellFormed st → storesWellFormed st → getBackingStore id st = Some (sp, st') →
  storesWellFormed st' ∧ is_Some (m_stores st' !! sp).
Proof.
  intros Hwf Hsw H. unfold getBackingStore in H.
  pose proof (ensureLayer_allocates id st Hwf) as Ha.
  pose proof (ensureLayer_frame id st) as (Hst & Hnx & _ & _ & Hpe & _).
  assert (storesWellFormed (ensureLayer id st)) as Hsw0.
  { eapply storesWellFormed_keeps; [exact Hsw| | | |].
    - intros p l' Hp. destruct (Ha p) as [Heq|[_ Hnew]].
      + right. exists l'. split; [congruence|done].
      + left. rewrite Hp in Hnew. by injection Hnew as ->.
    - intros sp'. by rewrite Hst.
    - done.
    - by rewrite Hpe. }
  clear Ha Hst Hnx Hpe Hsw.
  set (s0 := ensureLayer id st) in *. clearbody s0.
  destruct (layerByID id s0) as [p|] eqn:Hp; simpl in H; [|done].
  destruct (m_heap s0 !! p) as [l|] eqn:Hl; simpl in H; [|done].
  destruct (m_backingStore l) as [sp0|] eqn:Hb; simplify_eq.
  - split; [done|]. by eapply (sw_live _ Hsw0).
  - destruct Hsw0 as [Hlive Hun Hfresh Hpend].
    assert (m_stores s0 !! m_nextStore s0 = None) as Hfree.
    { destruct (m_stores s0 !! m_nextStore s0) eqn:Hs; [|done].
      assert (m_nextStore s0 < m_nextStore s0) by (apply Hfresh; eauto). lia. }
    assert (∀ q lq, m_heap s0 !! q = Some lq → m_backingStore lq ≠ Some (m_nextStore s0))
      as Hnew.
    { intros q lq Hq Hbq. destruct (Hlive q lq _ Hq Hbq) as [? Hs]. congruence. }
    split; [|simpl; rewrite lookup_insert_eq; eauto].
    split; simpl.
    + intros q lq sp. rewrite lookup_alter. case_decide; subst.
      * rewrite Hl. intros [= <-]. simpl. intros [= <-]. rewrite lookup_insert_eq. eauto.
      * intros Hq Hbq. rewrite lookup_insert_ne; [by eapply Hlive|].
        intros <-. by apply (Hnew q lq).
    + intros q1 q2 l1 l2 sp. rewrite !lookup_alter.
      repeat case_decide; subst; try done.
      * rewrite Hl. intros [= <-] Hq2. simpl. intros [= <-] Hb2.
        by destruct (Hnew q2 l2).
      * rewrite Hl. intros Hq1 [= <-] Hb1. simpl. intros [= <-].
        by destruct (Hnew q1 l1).
      * apply Hun.
    + intros sp. rewrite lookup_insert. case_decide; subst; [lia|].
      intros Hs. apply Hfresh in Hs. lia.
    + intros sp Hsp. rewrite lookup_insert. case_decide; [eauto|]. by apply Hpend.
Qed.

Lemma with_stores_alter_stores f sp st :
  storesWellFormed st → storesWellFormed (with_stores (alter f sp (m_stores st)) st).
Proof.
  intros Hsw. eapply storesWellFormed_keeps; [exact Hsw|apply keepsStores_refl| |done|done].
  intros sp'. simpl. rewrite lookup_alter. case_decide; subst; [|done].
  by rewrite fmap_is_Some.
Qed.

Lemma swapBuffers_stores st : storesWellFormed st → storesWellFormed (swapBuffers st).
Proof.
  intros Hsw. eapply storesWellFormed_keeps; [exact Hsw|apply keepsStores_refl| |done|].
  - intros sp. rewrite swapBuffers_lookup. case_decide; [|done]. by rewrite fmap_is_Some.
  - simpl. set_solver.
Qed.

Lemma clearBackingStoresRecursive_keeps fuel p h h' :
  clearBackingStoresRecursive fuel p h = Some h' → keepsStores h h'.
Proof.
  revert p h h'. induction fuel as [|fuel IH]; intros p h h' H; simpl in H; [done|].
  destruct (h !! p) as [l|] eqn:Hp; simpl in H; [|done].
  assert (keepsStores h (<[p := setBackingStore None l]> h)) as H1.
  { intros q l'. rewrite lookup_insert. case_decide; subst.
    - intros [= <-]. by left.
    - intros Hq. right. eauto. }
  revert H1 H. generalize (<[p := setBackingStore None l]> h).
  induction (m_children l) as [|c cs IHcs]; intros h1 H1 H; simpl in H.
  - by injection H as <-.
  - destruct (clearBackingStoresRecursive fuel c h1) as [h2|] eqn:Hc; simpl in H.
    2:{ by rewrite foldl_clear_None in H. }
    apply (IHcs h2); [|done]. eapply keepsStores_trans; [exact H1|]. by eapply IH.
Qed.

Section StoreFacts.

Variable currentTime : nat → Q.

Lemma syncLayerParameters_keeps info st st' :
  wellFormed st → syncLayerParameters currentTime info st = Some st' →
  keepsStores (m_heap st) (m_heap st').
Proof.
  intros Hwf H.
  destruct (syncLayerParameters_π m_backingStore ltac:(done) ltac:(done) ltac:(done)
              currentTime info st st' Hwf H) as (p & l & image & Hp & Hl & _ & _ & Hat & Hother).
  pose proof (ensureLayer_allocates (li_id info) st Hwf p) as Ha.
  apply keepsStores_projection. intros q. right.
  destruct (decide (q = p)) as [->|Hq].
  - rewrite Hat.
    assert (m_backingStore (syncedLayer info
              (layerByID (li_replica info) (ensureLayer (li_id info) st))
              (layerByID (li_mask info) (ensureLayer (li_id info) st)) image l)
            = m_backingStore l) as -> by (by destruct image).
    destruct Ha as [Heq|[_ Hnew]].
    + left. by rewrite <- Heq, Hl.
    + right. rewrite Hl in Hnew. by injection Hnew as ->.
  - destruct (Hother q Hq) as [?|[_ ?]]; [by left|by right].
Qed.

Lemma applyMessage_stores m st st' :
  wellFormed st → storesWellFormed st →
  applyMessage currentTime m st = Some st' → storesWellFormed st'.
Proof.
  intros Hwf Hsw H. destruct m; simpl in H.
  - injection H as <-.
    pose proof (deleteLayer_frame layerID st) as (Hst & Hnx & _ & _ & Hpe & _).
    eapply storesWellFormed_keeps; [exact Hsw| | |done|by rewrite Hpe].
    + apply keepsStores_projection. intros q.
      destruct (deleteLayer_π m_backingStore ltac:(done) ltac:(done) layerID st q)
        as [?|?]; [by left|right; by left].
    + intros sp. by rewrite Hst.
  - unfold createTile in H.
    destruct (getBackingStore layerID st) as [[sp s1]|] eqn:Hg; simplify_eq/=.
    apply with_stores_alter_stores. by eapply getBackingStore_stores.
  - unfold removeTile in H.
    destruct (getBackingStore layerID st) as [[sp s1]|] eqn:Hg; simplify_eq/=.
    apply with_stores_alter_stores. by eapply getBackingStore_stores.
  - unfold updateTile in H.
    destruct (getBackingStore layerID st) as [[sp s1]|] eqn:Hg; simplify_eq/=.
    destruct (getBackingStore_stores _ _ _ _ Hwf Hsw Hg) as [Hsw1 Hsp].
    pose proof (with_stores_alter_stores
                  (LayerBackingStore_updateTile remoteTileID sourceRect targetRect bitmap)
                  sp s1 Hsw1) as [Hlive Hun Hfresh Hpend].
    split; simpl; try done.
    intros sp' [->%elem_of_singleton|Hin]%elem_of_union.
    + rewrite lookup_alter_eq. by rewrite fmap_is_Some.
    + by apply Hpend.
  - injection H as <-. eapply storesWellFormed_keeps;
      [exact Hsw|apply keepsStores_refl|done|done|done].
  - injection H as <-. eapply storesWellFormed_keeps;
      [exact Hsw|apply keepsStores_refl|done|done|done].
  - pose proof (syncLayerParameters_frame _ _ _ _ H) as (Hst & Hnx & _ & _ & Hpe & _).
    eapply storesWellFormed_keeps; [exact Hsw| | |done|by rewrite Hpe].
    + by eapply syncLayerParameters_keeps.
    + intros sp. by rewrite Hst.
  - unfold flushLayerChanges in H. destruct (m_rootLayer st); simplify_eq/=.
    pose proof (swapBuffers_stores st Hsw) as Hsw1.
    eapply storesWellFormed_keeps; [exact Hsw1|apply keepsStores_refl|done|done|done].
  - pose proof (setRootLayerID_frame _ _ _ H) as (Hst & Hnx & _ & _ & Hpe & _).
    eapply storesWellFormed_keeps; [exact Hsw| | |done|by rewrite Hpe].
    + apply keepsStores_projection. intros q. right. left.
      by apply (setRootLayerID_π m_backingStore ltac:(done) ltac:(done) layerID st st' q).
    + intros sp. by rewrite Hst.
Qed.

Lemma replay_stores msgs st st' :
  wellFormed st → storesWellFormed st →
  replay currentTime msgs st = Some st' → storesWellFormed st'.
Proof.
  revert st. induction msgs as [|m msgs IH]; intros st Hwf Hsw H; simpl in H.
  - by simplify_eq.
  - destruct (applyMessage currentTime m st) as [s1|] eqn:Ha; simpl in H; [|done].
    eapply IH; [| |exact H].
    + by eapply applyMessage_wf.
    + by eapply applyMessage_stores.
Qed.

Lemma drainMessages_stores fuel st st' :
  wellFormed st → storesWellFormed st →
  drainMessages currentTime fuel st = Some st' → storesWellFormed st'.
Proof.
  revert st. induction fuel as [|fuel IH]; intros st Hwf Hsw H; simpl in H; [done|].
  destruct (m_messagesToRenderer st) as [|m rest]; simpl in H; [by simplify_eq|].
  destruct (applyMessage currentTime m (with_messagesToRenderer rest st)) as [s1|] eqn:Ha;
    simpl in H; [|done].
  assert (wellFormed (with_messagesToRenderer rest st)) as Hwf'.
  { eapply wellFormed_sameShape; [exact Hwf|]. by split_and!. }
  eapply IH; [| |exact H].
  - by eapply applyMessage_wf.
  - eapply applyMessage_stores; [exact Hwf'| |exact Ha].
    eapply storesWellFormed_keeps; [exact Hsw|apply keepsStores_refl|done|done|done].
Qed.

Lemma ensureRootLayer_stores st :
  wellFormed st → storesWellFormed st → storesWellFormed (ensureRootLayer st).
Proof.
  intros Hwf Hsw.
  destruct (ensureRootLayer_frame st) as (_ & _ & _ & _ & Hst & Hnx & _ & _ & Hpe).
  eapply storesWellFormed_keeps; [exact Hsw| | |done|by rewrite Hpe].
  - unfold ensureRootLayer. destruct (m_rootLayer st); [apply keepsStores_refl|].
    assert (keepsStores (m_heap st)
              (alter (setSize (1, 1)%Q) (m_nextLayer st)
                 (alter (setAnchorPoint (0, 0, 0)%Q) (m_nextLayer st)
                    (alter (setDrawsContent false) (m_nextLayer st)
                       (alter (setMasksToBounds false) (m_nextLayer st)
                          (<[m_nextLayer st := createdLayer]> (m_heap st))))))) as H.
    { apply keepsStores_projection. intros q. right.
      rewrite !(alter_π m_backingStore) by done. rewrite lookup_insert.
      case_decide; [by right|by left]. }
    simpl. by destruct (m_textureMapper st).
  - intros sp. by rewrite Hst.
Qed.

Lemma purgeGLResources_stores fuel st st' :
  storesWellFormed st → purgeGLResources fuel st = Some st' → storesWellFormed st'.
Proof.
  intros Hsw H. unfold purgeGLResources, rootLayer in H.
  destruct (m_rootLayer st) as [r|]; simpl in H.
  - destruct (clearBackingStoresRecursive fuel r (m_heap st)) as [h'|] eqn:Hc;
      simpl in H; [|done].
    injection H as <-.
    eapply storesWellFormed_keeps; [exact Hsw| |done|done|simpl; set_solver].
    simpl. by eapply clearBackingStoresRecursive_keeps.
  - injection H as <-.
    eapply storesWellFormed_keeps;
      [exact Hsw|apply keepsStores_refl|done|done|simpl; set_solver].
Qed.

(** X8.  In every state the proxy reaches by enqueueing messages, by
    [syncRemoteContent] and by [purgeGLResources], no two layers share a
    backing store: [getBackingStore] is the only place that hands a layer a store,
    and the store it hands out is new.  Every store that a layer points to
    or that waits in the pending set for the next flush is allocated. *)
Theorem reachable_storesWellFormed st :
  reachable currentTime st → storesWellFormed st.
Proof.
  induction 1 as [|st m Hr IH|st fuel st' Hr IH H|st fuel st' Hr IH H].
  - split; simpl.
    + intros p l sp Hp. by rewrite lookup_empty in Hp.
    + intros p q l l' sp Hp. by rewrite lookup_empty in Hp.
    + intros sp [? Hsp]. by rewrite lookup_empty in Hsp.
    + intros sp Hsp. set_solver.
  - eapply storesWellFormed_keeps; [exact IH|apply keepsStores_refl|done|done|done].
  - pose proof (reachable_wf _ _ Hr) as Hwf. unfold syncRemoteContent in H.
    eapply drainMessages_stores; [| |exact H].
    + by apply ensureRootLayer_wf.
    + by apply ensureRootLayer_stores.
  - by eapply purgeGLResources_stores.
Qed.

End StoreFacts.

(** ** Contents, mask and replica of a synced layer *)

Lemma m_contentsLayer_syncedLayer info replica mask image l :
  m_contentsLayer (syncedLayer info replica mask image l)
  = match image with
    | Some backing => Some backing
    | None => m_contentsLayer l
    end.
Proof. by destruct image. Qed.

(** A projection that ignores the backing store, followed through
    [getBackingStore]. *)
Lemma getBackingStore_π {A} (π : GraphicsLayer → A) id st sp st' q :
  (∀ x l, π (setBackingStore x l) = π l) →
  wellFormed st → getBackingStore id st = Some (sp, st') →
  π <$> m_heap st' !! q = π <$> m_heap st !! q ∨
  (m_heap st !! q = None ∧ π <$> m_heap st' !! q = Some (π createdLayer)).
Proof.
  intros Hπ Hwf H. unfold getBackingStore in H.
  pose proof (ensureLayer_allocates id st Hwf q) as Ha.
  set (s0 := ensureLayer id st) in *. clearbody s0.
  destruct (layerByID id s0) as [p|]; simpl in H; [|done].
  destruct (m_heap s0 !! p) as [l|]; simpl in H; [|done].
  assert (π <$> m_heap st' !! q = π <$> m_heap s0 !! q) as ->.
  { destruct (m_backingStore l); simplify_eq; [done|]. simpl. by apply alter_π. }
  destruct Ha as [->|[Hn ->]]; [by left|by right].
Qed.

Section ContentsFacts.

Variable currentTime : nat → Q.

(** X9.  What [syncLayerParameters] does to the contents of the layer:
    when the image assignment is due (the descriptor says the image was
    updated, or the contents rectangle changes and the descriptor names an
    image) the layer shows the image registered under the descriptor's
    image ID; otherwise its contents are what they were, whatever the
    registry holds by now (none, for a layer the call created).  The
    contents of every other layer are left alone. *)
Theorem syncLayerParameters_contents info st st' :
  wellFormed st →
  syncLayerParameters currentTime info st = Some st' →
  ∃ p l', m_layers st' !! li_id info = Some p ∧ m_heap st' !! p = Some l' ∧
    m_contentsLayer l'
    = (if needsToUpdateImageTiles info (layerBeforeSync info st)
       then m_directlyCompositedImages st !! li_imageBackingStoreID info
       else m_contentsLayer (layerBeforeSync info st)) ∧
    (needsToUpdateImageTiles info (layerBeforeSync info st) = true →
     is_Some (m_contentsLayer l')) ∧
    ∀ q lq, q ≠ p → m_heap st !! q = Some lq →
            ∃ lq', m_heap st' !! q = Some lq' ∧ m_contentsLayer lq' = m_contentsLayer lq.
Proof.
  intros Hwf H.
  destruct (syncLayerParameters_π m_contentsLayer ltac:(done) ltac:(done) ltac:(done)
              currentTime info st st' Hwf H)
    as (p & l & image & Hp & Hl & Hp' & Hdue & Hat & Hother).
  pose proof (ensureLayer_layer info st p l Hwf Hp Hl) as ->.
  rewrite m_contentsLayer_syncedLayer in Hat.
  destruct (m_heap st' !! p) as [l'|] eqn:Hl'; [|done]. apply (inj Some) in Hat.
  exists p, l'. split; [done|]. split; [done|]. split_and!.
  - rewrite Hat. destruct (needsToUpdateImageTiles info (layerBeforeSync info st)).
    + destruct Hdue as [[backing ->] Heq]. done.
    + by subst image.
  - intros Htrue. rewrite Htrue in Hdue. destruct Hdue as [[backing ->] _].
    rewrite Hat. eauto.
  - intros q lq Hq Hlq. destruct (Hother q Hq) as [Heq|[Hn _]]; [|congruence].
    rewrite Hlq in Heq. destruct (m_heap st' !! q) as [lq'|]; [|done].
    exists lq'. split; [done|]. by injection Heq.
Qed.

(** No message takes the contents off a layer that stays. *)
Lemma applyMessage_contents m st st' q l l' :
  wellFormed st → applyMessage currentTime m st = Some st' →
  m_heap st !! q = Some l → m_heap st' !! q = Some l' →
  is_Some (m_contentsLayer l) → is_Some (m_contentsLayer l').
Proof.
  intros Hwf H Hl Hl' Hc.
  assert (m_contentsLayer <$> m_heap st' !! q = m_contentsLayer <$> m_heap st !! q →
          is_Some (m_contentsLayer l')) as Hsame.
  { rewrite Hl, Hl'. intros [= ->]. done. }
  assert (∀ layerID sp s1, getBackingStore layerID st = Some (sp, s1) →
            m_heap st' = m_heap s1 → is_Some (m_contentsLayer l')) as Htile.
  { intros layerID sp s1 Hg Heq. apply Hsame. rewrite Heq.
    destruct (getBackingStore_π m_contentsLayer layerID st sp s1 q ltac:(done) Hwf Hg)
      as [?|[? _]]; [done|congruence]. }
  destruct m; simpl in H.
  - injection H as <-.
    destruct (deleteLayer_π m_contentsLayer ltac:(done) ltac:(done) layerID st q)
      as [?|?]; [congruence|by apply Hsame].
  - unfold createTile in H.
    destruct (getBackingStore layerID st) as [[sp s1]|] eqn:Hg; simplify_eq/=.
    by eapply Htile.
  - unfold removeTile in H.
    destruct (getBackingStore layerID st) as [[sp s1]|] eqn:Hg; simplify_eq/=.
    by eapply Htile.
  - unfold updateTile in H.
    destruct (getBackingStore layerID st) as [[sp s1]|] eqn:Hg; simplify_eq/=.
    by eapply Htile.
  - injection H as <-. by apply Hsame.
  - injection H as <-. by apply Hsame.
  - destruct (syncLayerParameters_π m_contentsLayer ltac:(done) ltac:(done) ltac:(done)
                currentTime layerInfo st st' Hwf H)
      as (p & l0 & image & Hp & Hl0 & _ & _ & Hat & Hother).
    destruct (decide (q = p)) as [->|Hq].
    + rewrite Hl', m_contentsLayer_syncedLayer in Hat. injection Hat as ->.
      destruct image; [eauto|].
      destruct (ensureLayer_allocates (li_id layerInfo) st Hwf p) as [Heq|[? _]];
        [|congruence].
      rewrite Hl0, Hl in Heq. by injection Heq as ->.
    + destruct (Hother q Hq) as [?|[? _]]; [by apply Hsame|congruence].
  - unfold flushLayerChanges in H. destruct (m_rootLayer st); simplify_eq/=.
    by apply Hsame.
  - apply Hsame.
    by apply (setRootLayerID_π m_contentsLayer ltac:(done) ltac:(done) layerID st st' q).
Qed.

(** X10.  There is no message that takes an image off a layer: a layer
    that has contents keeps having contents (those of the latest image
    assignment) through every sequence of messages that does not delete
    it. *)
Theorem replay_keeps_contents msgs st st' i p l :
  wellFormed st → replay currentTime msgs st = Some st' →
  DeleteLayer i ∉ msgs →
  m_layers st !! i = Some p → m_heap st !! p = Some l → is_Some (m_contentsLayer l) →
  ∃ l', m_layers st' !! i = Some p ∧ m_heap st' !! p = Some l' ∧
        is_Some (m_contentsLayer l').
Proof.
  revert st l. induction msgs as [|m msgs IH]; intros st l Hwf H Hn Hi Hl Hc; simpl in H.
  - injection H as <-. eauto.
  - destruct (applyMessage currentTime m st) as [s1|] eqn:Ha; simpl in H; [|done].
    apply not_elem_of_cons in Hn as [Hm Hn].
    pose proof (applyMessage_wf _ _ _ _ Hwf Ha) as Hwf1.
    assert (m_layers s1 !! i = Some p) as Hi1.
    { eapply applyMessage_layers_stable; [exact Hwf|exact Hi| |exact Ha]. congruence. }
    destruct (wf_live _ Hwf1 _ _ Hi1) as [l1 Hl1].
    apply (IH s1 l1 Hwf1 H Hn Hi1 Hl1).
    exact (applyMessage_contents m st s1 p l l1 Hwf Ha Hl Hl1 Hc).
Qed.

Lemma m_maskLayer_syncedLayer info replica mask image l :
  m_maskLayer (syncedLayer info replica mask image l) = mask.
Proof. by destruct image. Qed.

Lemma m_replicaLayer_syncedLayer info replica mask image l :
  m_replicaLayer (syncedLayer info replica mask image l) = replica.
Proof. by destruct image. Qed.

(** X11.  The mask and the replica of a descriptor are resolved against
    the layer map as it is once the descriptor's own layer exists and
    before its children are created: an ID that names a layer gives that
    layer; an ID that names none gives a null reference, also when the ID
    is among the descriptor's children, and (unlike a child ID) no layer is
    created for it. *)
Theorem syncLayerParameters_mask info st st' :
  wellFormed st →
  syncLayerParameters currentTime info st = Some st' →
  ∃ p l', m_layers st' !! li_id info = Some p ∧ m_heap st' !! p = Some l' ∧
    m_maskLayer l' = layerByID (li_mask info) (ensureLayer (li_id info) st) ∧
    m_replicaLayer l' = layerByID (li_replica info) (ensureLayer (li_id info) st) ∧
    (∀ c, layerByID (li_mask info) st = Some c → m_maskLayer l' = Some c) ∧
    (∀ c, layerByID (li_replica info) st = Some c → m_replicaLayer l' = Some c) ∧
    (li_mask info ≠ li_id info → m_layers st !! li_mask info = None →
     m_maskLayer l' = None ∧
     (li_mask info ∉ li_children info → m_layers st' !! li_mask info = None)) ∧
    (li_replica info ≠ li_id info → m_layers st !! li_replica info = None →
     m_replicaLayer l' = None ∧
     (li_replica info ∉ li_children info → m_layers st' !! li_replica info = None)).
Proof.
  intros Hwf H.
  destruct (syncLayerParameters_π m_maskLayer ltac:(done) ltac:(done) ltac:(done)
              currentTime info st st' Hwf H)
    as (p & l & image & Hp & Hl & Hp' & _ & Hmask & _).
  destruct (syncLayerParameters_π m_replicaLayer ltac:(done) ltac:(done) ltac:(done)
              currentTime info st st' Hwf H)
    as (p2 & l2 & image2 & Hp2 & Hl2 & _ & _ & Hrep & _).
  assert (p2 = p) as -> by congruence.
  rewrite m_maskLayer_syncedLayer in Hmask. rewrite m_replicaLayer_syncedLayer in Hrep.
  destruct (m_heap st' !! p) as [l'|] eqn:Hl'; [|done].
  apply (inj Some) in Hmask. apply (inj Some) in Hrep.
  destruct (ensureLayer_wf (li_id info) st Hwf) as (_ & Hg & _).
  destruct (syncLayerParameters_spec currentTime _ _ _ Hwf H)
    as (_ & _ & _ & Hfresh & _).
  assert (∀ i, i ≠ li_id info → m_layers st !! i = None →
            layerByID i (ensureLayer (li_id info) st) = None ∧
            (i ∉ li_children info → m_layers st' !! i = None)) as Hunknown.
  { intros i Hi Hnone. split.
    - unfold layerByID. case_decide; [done|]. by rewrite ensureLayer_other.
    - intros Hnin. destruct (m_layers st' !! i) as [c|] eqn:Hc; [|done].
      destruct (Hfresh i c Hc Hnone) as ([?|?] & _); done. }
  exists p, l'. split; [done|]. split; [done|]. split_and!; try done.
  - intros c Hc. rewrite Hmask. by eapply grows_layerByID.
  - intros c Hc. rewrite Hrep. by eapply grows_layerByID.
  - intros Hne Hnone. destruct (Hunknown _ Hne Hnone) as [H1 H2]. split; [congruence|done].
  - intros Hne Hnone. destruct (Hunknown _ Hne Hnone) as [H1 H2]. split; [congruence|done].
Qed.

End ContentsFacts.

(** ** The child list of a synced layer *)

Lemma resolveChildren_registered ids st :
  wellFormed st → InvalidWebLayerID ∉ ids →
  Forall2 (λ c pc, m_layers (resolveChildren ids st).2 !! c = Some pc)
          ids (resolveChildren ids st).1.
Proof.
  revert st. induction ids as [|c ids IH]; intros st Hwf Hn0; [constructor|].
  apply not_elem_of_cons in Hn0 as [Hc0 Hn0].
  rewrite resolveChildren_cons. destruct (layerByID c st) as [child|] eqn:Hc; simpl.
  - constructor; [|by apply IH].
    destruct (resolveChildren_wf ids st Hwf) as (_ & (Hmono & _) & _).
    apply Hmono. unfold layerByID in Hc. by case_decide.
  - destruct (materialized_wf c st Hwf) as [Hw1 _].
    constructor; [|by apply IH].
    destruct (resolveChildren_wf ids _ Hw1) as (_ & (Hmono & _) & _).
    apply Hmono. unfold layerByID in Hc. rewrite decide_False in Hc by done.
    unfold materialized, HashMap_add. simpl. rewrite Hc. apply lookup_insert_eq.
Qed.

Lemma registered_NoDup (m : gmap N nat) ids cs :
  (∀ i j p, m !! i = Some p → m !! j = Some p → i = j) →
  Forall2 (λ c pc, m !! c = Some pc) ids cs → NoDup ids →
  NoDup cs ∧ ∀ pc, pc ∈ cs → ∃ c, c ∈ ids ∧ m !! c = Some pc.
Proof.
  intros Hinj. induction 1 as [|c pc ids cs Hc _ IH]; intros Hnd.
  - split; [constructor|]. by intros ? ?%elem_of_nil.
  - apply NoDup_cons in Hnd as [Hnin Hnd]. destruct (IH Hnd) as [IH1 IH2]. split.
    + constructor; [|done]. intros Hin. destruct (IH2 _ Hin) as (c' & Hc' & Hm).
      assert (c' = c) as -> by (by eapply Hinj). done.
    + intros q [->|Hq]%elem_of_cons.
      * exists c. split; [by apply elem_of_cons; left|done].
      * destruct (IH2 _ Hq) as (c' & Hc' & Hm). exists c'.
        split; [by apply elem_of_cons; right|done].
Qed.

(** Attaching a child that the layer does not have yet appends it. *)
Lemma addChild_children p c h l :
  h !! p = Some l → p ≠ c → c ∉ m_children l →
  ∃ l', addChild p c h !! p = Some l' ∧ m_children l' = m_children l ++ [c].
Proof.
  intros Hp Hne Hnin.
  assert (∃ l1, removeFromParent c h !! p = Some l1 ∧ m_children l1 = m_children l)
    as (l1 & Hl1 & Hc1).
  { destruct (h !! c ≫= m_parent) as [q|] eqn:Hq.
    - rewrite (removeFromParent_lookup c h q p Hq), Hp. simpl. eexists. split; [done|].
      rewrite (decide_False (P := p = c)) by done.
      destruct (decide (p = q)); simpl; [by apply removeFirst_absent|done].
    - rewrite (removeFromParent_orphan _ _ Hq). eauto. }
  rewrite addChild_lookup, Hl1. simpl. eexists. split; [done|].
  rewrite (decide_True (P := p = p)) by done.
  rewrite (decide_False (P := p = c)) by done. simpl. by rewrite Hc1.
Qed.

Lemma setChildren_children p cs h l :
  h !! p = Some l → NoDup cs → p ∉ cs →
  ∃ l', setChildren p cs h !! p = Some l' ∧ m_children l' = cs.
Proof.
  intros Hp Hnd Hnin. unfold setChildren.
  destruct (removeAllChildren_children p h l Hp) as (l1 & Hl1 & Hc1).
  assert (∀ acc h1 l1, h1 !! p = Some l1 → m_children l1 = acc → NoDup (acc ++ cs) →
            ∃ l', foldl (λ h' c, addChild p c h') h1 cs !! p = Some l' ∧
                  m_children l' = acc ++ cs) as Hfold.
  { clear Hnd h l Hp l1 Hl1 Hc1. induction cs as [|c cs IH]; intros acc h1 l1 Hl1 Hacc Hnd.
    - simpl. rewrite app_nil_r. eauto.
    - apply not_elem_of_cons in Hnin as [Hpc Hnin].
      assert (c ∉ acc) as Hcacc.
      { apply NoDup_app in Hnd as (_ & Hdis & _). intros Hin. apply (Hdis c Hin).
        by apply elem_of_cons; left. }
      destruct (addChild_children p c h1 l1 Hl1 Hpc) as (l2 & Hl2 & Hc2);
        [by rewrite Hacc|].
      simpl. destruct (IH Hnin (acc ++ [c]) _ l2 Hl2) as (l' & Hl' & Hc').
      + by rewrite Hc2, Hacc.
      + by rewrite <- app_assoc.
      + exists l'. split; [done|]. by rewrite Hc', <- app_assoc. }
  destruct (Hfold [] _ l1 Hl1 Hc1 Hnd) as (l' & Hl' & Hc'). eauto.
Qed.

(** [setRootLayerID] for the ID of a layer leaves the child list of that
    layer alone. *)
Lemma setRootLayerID_children id st st' p l :
  setRootLayerID id st = Some st' →
  (∀ r, m_rootLayer st = Some r → r ≠ p) →
  (∀ c, layerByID id st = Some c → c = p) →
  m_heap st !! p = Some l → p ∉ m_children l →
  ∃ l', m_heap st' !! p = Some l' ∧ m_children l' = m_children l.
Proof.
  unfold setRootLayerID. intros H Hroot Hid Hp Hnin.
  destruct (decide (id = m_rootLayerID st)); [simplify_eq; eauto|].
  simpl in H. destruct (m_rootLayer st) as [root|] eqn:Hr; simpl in H; [|done].
  assert (root ≠ p) as Hne by (by apply Hroot).
  assert (∃ l1, removeAllChildren root (m_heap st) !! p = Some l1 ∧
                m_children l1 = m_children l) as (l1 & Hl1 & Hc1).
  { pose proof (removeAllChildren_children_other root (m_heap st) p ltac:(done)) as Hc.
    rewrite Hp in Hc. destruct (removeAllChildren root (m_heap st) !! p) as [l1|]; [|done].
    exists l1. split; [done|]. by injection Hc. }
  destruct (decide (id = 0%N)); [simplify_eq; simpl; eauto|].
  destruct (layerByID id _) as [layer|] eqn:Hb; simplify_eq; [|simpl; eauto].
  assert (layer = p) as -> by (by apply Hid).
  simpl.
  assert (∃ l2, removeFromParent p (removeAllChildren root (m_heap st)) !! p = Some l2 ∧
                m_children l2 = m_children l) as (l2 & Hl2 & Hc2).
  { destruct (removeAllChildren root (m_heap st) !! p ≫= m_parent) as [q|] eqn:Hq.
    - rewrite (removeFromParent_lookup p _ q p Hq), Hl1. simpl. eexists. split; [done|].
      rewrite (decide_True (P := p = p)) by done.
      destruct (decide (p = q)); simpl; [|done].
      rewrite Hc1. by apply removeFirst_absent.
    - rewrite (removeFromParent_orphan _ _ Hq). eauto. }
  rewrite addChild_lookup, Hl2. simpl. eexists. split; [done|].
  rewrite (decide_False (P := p = root)) by done.
  by rewrite (decide_True (P := p = p)).
Qed.

Section ChildrenFacts.

Variable currentTime : nat → Q.

(** X12.  The child list of a layer is replaced by each descriptor, not
    merged: on a reachable kind of state (well-formed, links consistent),
    after [syncLayerParameters] with a descriptor whose child IDs are
    distinct, are not 0 and do not include the layer's own ID, the child
    list of the layer is the list of the nodes that the child IDs name, in
    the order of the descriptor, whatever it was before, and each of these
    nodes has the layer as parent. *)
Theorem syncLayerParameters_children info st st' :
  wellFormed st → linked (m_heap st) →
  NoDup (li_children info) →
  InvalidWebLayerID ∉ li_children info →
  li_id info ∉ li_children info →
  syncLayerParameters currentTime info st = Some st' →
  ∃ p l', m_layers st' !! li_id info = Some p ∧ m_heap st' !! p = Some l' ∧
    Forall2 (λ c pc, m_layers st' !! c = Some pc) (li_children info) (m_children l') ∧
    ∀ pc, pc ∈ m_children l' →
          ∃ lc, m_heap st' !! pc = Some lc ∧ m_parent lc = Some p.
Proof.
  intros Hwf Hl Hnd Hn0 Hnid H.
  pose proof (syncLayerParameters_linked currentTime info st st' Hwf Hl H) as Hl'.
  assert (∃ p l', m_layers st' !! li_id info = Some p ∧ m_heap st' !! p = Some l' ∧
            Forall2 (λ c pc, m_layers st' !! c = Some pc) (li_children info)
                    (m_children l')) as (p & l' & Hp' & Hlp' & Hcs').
  2:{ exists p, l'. split_and!; try done. intros pc Hpc.
      destruct Hl' as (_ & CH & _). by eapply CH. }
  clear Hl Hl'. revert H. rewrite syncLayerParameters_steps. cbv zeta.
  destruct (ensureLayer_wf (li_id info) st Hwf) as (Hw0 & _ & _).
  generalize dependent (ensureLayer (li_id info) st). intros s0 Hw0.
  destruct (m_layers s0 !! li_id info) as [p|] eqn:Hp; [|done]. simpl.
  destruct (m_heap s0 !! p) as [l|] eqn:Hlp; [|done]. simpl.
  match goal with |- (?o ≫= _) = _ → _ => destruct o as [image|]; [|done] end. simpl.
  set (s1 := updateLayer p _ s0).
  assert (wellFormed s1) as Hw1.
  { eapply wellFormed_sameShape; [exact Hw0|]. apply updateLayer_shape. }
  assert (is_Some (m_heap s1 !! p)) as Hp1.
  { unfold s1. rewrite updateLayer_heap_eq, Hlp. simpl. eauto. }
  assert (m_layers s1 !! li_id info = Some p) as Hid1 by done.
  clearbody s1.
  destruct (resolveChildren_wf (li_children info) s1 Hw1) as (HwB & HgB & _ & _).
  pose proof (resolveChildren_registered (li_children info) s1 Hw1 Hn0) as HregB.
  assert (is_Some (m_heap (resolveChildren (li_children info) s1).2 !! p)) as HpB.
  { destruct HgB as (_ & _ & Hold & _). rewrite Hold; [done|]. by apply (wf_fresh _ Hw1). }
  assert (m_layers (resolveChildren (li_children info) s1).2 !! li_id info = Some p) as HidB.
  { destruct HgB as (Hmono & _). by apply Hmono. }
  clear HgB.
  generalize dependent (resolveChildren (li_children info) s1). intros [cs sB].
  simpl. intros HwB HregB [lB HlB] HidB.
  destruct (registered_NoDup (m_layers sB) _ _ (wf_inj _ HwB) HregB Hnd) as [Hndcs Hback].
  assert (p ∉ cs) as Hpcs.
  { intros Hin. destruct (Hback p Hin) as (c & Hc & Hm).
    assert (c = li_id info) as -> by (by eapply (wf_inj _ HwB)). done. }
  destruct (setChildren_children p cs (m_heap sB) lB HlB Hndcs Hpcs) as (lC & HlC & HcsC).
  set (sC := with_heap (setChildren p cs (m_heap sB)) sB).
  assert (m_heap sC !! p = Some lC) as HpC by done.
  assert (wellFormed sC) as HwC.
  { eapply wellFormed_sameShape; [exact HwB|].
    by destruct (setChildren_attributeFrame p cs sB) as [Hs _]. }
  assert (m_layers sC = m_layers sB) as HlayC by done.
  clearbody sC.
  pose proof (applyAnimations_wf currentTime p (li_animations info) sC HwC) as HwD.
  pose proof (applyAnimations_π linksOf ltac:(done) currentTime p (li_animations info) sC p)
    as HlinkD.
  destruct (applyAnimations_attributeFrame currentTime p (li_animations info) sC)
    as [[(HlayD & _) _] _].
  generalize dependent (foldl (λ st' a, applyAnimation currentTime p a st') sC
                              (li_animations info)).
  intros sD HwD HlinkD HlayD.
  rewrite HpC in HlinkD. destruct (m_heap sD !! p) as [lD|] eqn:HpD; [|done].
  injection HlinkD as _ HcsD.
  assert (m_layers sD !! li_id info = Some p) as HidD by congruence.
  destruct (_ && _).
  - intros H.
    destruct (setRootLayerID_children _ _ _ p lD H) as (l' & Hl' & Hcs'); try done.
    + intros r Hr. by eapply (wellFormed_root_other sD).
    + intros c Hc. unfold layerByID in Hc. case_decide; [done|]. congruence.
    + by rewrite HcsD, HcsC.
    + apply setRootLayerID_attributeFrame in H as [[(Hlay' & _) _] _].
      exists p, l'. split_and!; [congruence|done|].
      rewrite Hcs', HcsD, HcsC, Hlay', HlayD, HlayC. done.
  - intros [= <-]. exists p, lD. split_and!; [done|done|].
    rewrite HcsD, HcsC, HlayD, HlayC. done.
Qed.

End ChildrenFacts.

(** ** The paint cycle *)

Section PaintFacts.

Variable currentTime : nat → Q.
Variable syncAnimationsRecursively : nat → gmap nat GraphicsLayer → gmap nat GraphicsLayer.
Variable descendantsOrSelfHaveRunningAnimations : nat → gmap nat GraphicsLayer → bool.

Lemma syncRemoteContent_textureMapper fuel st st' mode :
  m_textureMapper st = Some mode →
  syncRemoteContent currentTime fuel st = Some st' →
  m_textureMapper st' = Some mode ∧ is_Some (m_rootLayer st') ∧
  m_messagesToRenderer st' = [].
Proof.
  unfold syncRemoteContent. intros Hm H.
  apply drainMessages_drains in H as [Hd Hq].
  destruct (drains_run _ _ _ _ Hd) as (_ & _ & Hr & Ht).
  split_and!; [|rewrite Hr; apply ensureRootLayer_root|done].
  rewrite Ht. unfold ensureRootLayer. destruct (m_rootLayer st); [done|].
  simpl. by rewrite Hm.
Qed.

Lemma syncAnimations_textureMapper st st' :
  syncAnimations syncAnimationsRecursively descendantsOrSelfHaveRunningAnimations st
  = Some st' →
  m_textureMapper st' = m_textureMapper st ∧
  m_messagesToRenderer st' = m_messagesToRenderer st ∧
  m_layers st' = m_layers st ∧ m_rootLayer st' = m_rootLayer st ∧
  ∃ r, m_rootLayer st = Some r ∧
       m_heap st' = syncAnimationsRecursively r (m_heap st).
Proof.
  unfold syncAnimations, rootLayer. intros H.
  destruct (m_rootLayer st) as [r|] eqn:Hr; simpl in H; [|done].
  injection H as <-.
  destruct (descendantsOrSelfHaveRunningAnimations r _); simpl;
    (split_and!; try done; exists r; by split).
Qed.

(** X13.  The first paint fixes the mode of the texture mapper, and the
    mapper stays: after a paint into the GL context the mapper is an
    OpenGL one and a paint into a [QPainter] fails its assertion, after a
    paint into a [QPainter] the mapper is a software one and a paint into
    the GL context fails its assertion.  (Only [purgeGLResources] releases
    the mapper.) *)
Theorem paint_keeps_mode st :
  (∀ fuel matrix opacity clipRect painted st',
     paintToCurrentGLContext currentTime syncAnimationsRecursively
       descendantsOrSelfHaveRunningAnimations fuel matrix opacity clipRect st
     = Some (painted, st') →
     m_textureMapper st ≠ Some SoftwareMode ∧
     m_textureMapper st' = Some OpenGLMode ∧
     ∀ fuel', paintToGraphicsContext currentTime fuel' st' = None) ∧
  (∀ fuel painted st',
     paintToGraphicsContext currentTime fuel st = Some (painted, st') →
     m_textureMapper st ≠ Some OpenGLMode ∧
     m_textureMapper st' = Some SoftwareMode ∧
     ∀ fuel' matrix opacity clipRect,
       paintToCurrentGLContext currentTime syncAnimationsRecursively
         descendantsOrSelfHaveRunningAnimations fuel' matrix opacity clipRect st' = None).
Proof.
  split.
  - intros fuel matrix opacity clipRect painted st' H.
    unfold paintToCurrentGLContext in H.
    assert (m_textureMapper st ≠ Some SoftwareMode ∧
            ∃ s0, m_textureMapper s0 = Some OpenGLMode ∧
                  (s1 ← syncRemoteContent currentTime fuel s0;
                   match rootLayer s1 with
                   | None => Some (None, s1)
                   | Some currentRootLayer =>
                       l ← m_heap s1 !! currentRootLayer;
                       let s2 :=
                         if bool_decide (m_opacity l ≠ opacity ∨ m_transform l ≠ matrix)
                         then updateLayer currentRootLayer (setTransform matrix)
                                (updateLayer currentRootLayer (setOpacity opacity) s1)
                         else s1 in
                       st' ← syncAnimations syncAnimationsRecursively
                               descendantsOrSelfHaveRunningAnimations s2;
                       Some (Some s2, st')
                   end) = Some (painted, st')) as (Hst & s0 & Hm & H0).
    { destruct (m_textureMapper st) as [[]|] eqn:Ht.
      - rewrite Ht in H. done.
      - rewrite Ht in H. split; [done|]. by exists st.
      - split; [done|]. by exists (with_textureMapper (Some OpenGLMode) st). }
    clear H. split; [exact Hst|].
    destruct (syncRemoteContent currentTime fuel s0) as [s1|] eqn:Hs; simpl in H0; [|done].
    destruct (syncRemoteContent_textureMapper _ _ _ _ Hm Hs) as (Ht1 & _ & _).
    assert (m_textureMapper st' = Some OpenGLMode) as Ht'.
    { unfold rootLayer in H0. destruct (m_rootLayer s1) as [r|].
      2:{ injection H0 as _ <-. exact Ht1. }
      destruct (m_heap s1 !! r) as [l|]; simpl in H0; [|done].
      match type of H0 with (?o ≫= _) = _ => destruct o as [s2|] eqn:Ha end;
        simpl in H0; [|done].
      injection H0 as _ <-.
      apply syncAnimations_textureMapper in Ha as (-> & _).
      by destruct (bool_decide _). }
    split; [done|]. intros fuel'. unfold paintToGraphicsContext.
    rewrite Ht'. simpl. by rewrite Ht'.
  - intros fuel painted st' H. unfold paintToGraphicsContext in H.
    assert (m_textureMapper st ≠ Some OpenGLMode ∧
            ∃ s0, m_textureMapper s0 = Some SoftwareMode ∧
                  (s1 ← syncRemoteContent currentTime fuel s0;
                   match rootLayer s1 with
                   | None => Some (None, s1)
                   | Some _ => Some (Some s1, s1)
                   end) = Some (painted, st')) as (Hst & s0 & Hm & H0).
    { destruct (m_textureMapper st) as [[]|] eqn:Ht.
      - rewrite Ht in H. split; [done|]. by exists st.
      - rewrite Ht in H. done.
      - split; [done|]. by exists (with_textureMapper (Some SoftwareMode) st). }
    clear H. split; [exact Hst|].
    destruct (syncRemoteContent currentTime fuel s0) as [s1|] eqn:Hs; simpl in H0; [|done].
    destruct (syncRemoteContent_textureMapper _ _ _ _ Hm Hs) as (Ht1 & _ & _).
    assert (st' = s1) as ->.
    { unfold rootLayer in H0. destruct (m_rootLayer s1); by injection H0 as _ <-. }
    split; [done|]. intros fuel' matrix opacity clipRect.
    unfold paintToCurrentGLContext. rewrite Ht1. simpl. by rewrite Ht1.
Qed.

(** X14.  A paint into the GL context that returns has painted: the
    messages that were waiting have been applied, in the state after
    [syncRemoteContent]; the root container, which exists, carries the
    opacity and the transform that the caller passed, whatever it carried
    before; every other layer, the layer map and the backing stores are
    those that [syncRemoteContent] left; and [paint] ran before the
    animations were advanced. *)
Theorem paintToCurrentGLContext_paints fuel matrix opacity clipRect st painted st' :
  paintToCurrentGLContext currentTime syncAnimationsRecursively
    descendantsOrSelfHaveRunningAnimations fuel matrix opacity clipRect st
  = Some (painted, st') →
  ∃ frame synced r l,
    painted = Some frame ∧
    syncRemoteContent currentTime fuel
      (match m_textureMapper st with
       | None => with_textureMapper (Some OpenGLMode) st
       | Some _ => st
       end) = Some synced ∧
    m_messagesToRenderer frame = [] ∧
    m_rootLayer frame = Some r ∧ m_heap frame !! r = Some l ∧
    m_opacity l = opacity ∧ m_transform l = matrix ∧
    (∀ q, q ≠ r → m_heap frame !! q = m_heap synced !! q) ∧
    m_layers frame = m_layers synced ∧ m_stores frame = m_stores synced ∧
    m_heap st' = syncAnimationsRecursively r (m_heap frame).
Proof.
  unfold paintToCurrentGLContext. intros H.
  set (s0 := match m_textureMapper st with
             | None => with_textureMapper (Some OpenGLMode) st
             | Some _ => st
             end) in *.
  clearbody s0.
  destruct (m_textureMapper s0) as [[]|] eqn:Hm; try done.
  destruct (syncRemoteContent currentTime fuel s0) as [s1|] eqn:Hs; simpl in H; [|done].
  destruct (syncRemoteContent_textureMapper _ _ _ _ Hm Hs) as (_ & [r Hr] & Hq).
  unfold rootLayer in H. rewrite Hr in H.
  destruct (m_heap s1 !! r) as [l|] eqn:Hl; simpl in H; [|done].
  match type of H with (?o ≫= _) = _ => destruct o as [s2|] eqn:Ha end;
    simpl in H; [|done].
  injection H as <- <-.
  apply syncAnimations_textureMapper in Ha as (_ & _ & _ & _ & r' & Hr' & Hheap).
  case_bool_decide as Hne.
  - exists (updateLayer r (setTransform matrix) (updateLayer r (setOpacity opacity) s1)),
           s1, r, (setTransform matrix (setOpacity opacity l)).
    simpl in Hr'. rewrite Hr in Hr'. injection Hr' as <-.
    split_and!; try done.
    + simpl. by rewrite !lookup_alter_eq, Hl.
    + intros q Hq'. simpl. by rewrite !lookup_alter_ne.
  - exists s1, s1, r, l. rewrite Hr in Hr'. injection Hr' as <-.
    split_and!; try done.
    + destruct (decide (m_opacity l = opacity)) as [?|Ho]; [done|].
      destruct Hne. by left.
    + destruct (decide (m_transform l = matrix)) as [?|Ht]; [done|].
      destruct Hne. by right.
Qed.

End PaintFacts.

(** ** A tile from the producer to the screen *)

Lemma getBackingStore_progress id st :
  wellFormed st → id ≠ InvalidWebLayerID → is_Some (getBackingStore id st).
Proof.
  intros Hwf Hid. unfold getBackingStore.
  destruct (ensureLayer_wf id st Hwf) as (Hw0 & _ & [p Hp]).
  set (s0 := ensureLayer id st) in *. clearbody s0.
  unfold layerByID. rewrite decide_False by done. rewrite Hp. simpl.
  destruct (wf_live _ Hw0 _ _ Hp) as [l Hl]. rewrite Hl. simpl.
  destruct (m_backingStore l); eauto.
Qed.

Lemma getBackingStore_known id st p l sp :
  layerByID id st = Some p → m_heap st !! p = Some l → m_backingStore l = Some sp →
  getBackingStore id st = Some (sp, st).
Proof.
  intros Hp Hl Hb. unfold getBackingStore.
  assert (m_layers st !! id = Some p) as Hm.
  { unfold layerByID in Hp. by case_decide. }
  rewrite (ensureLayer_present _ _ _ Hm), Hp. simpl. rewrite Hl. simpl. by rewrite Hb.
Qed.

Lemma LayerBackingStore_createTile_lookup id scale bs :
  ∃ t, LayerBackingStore_createTile id scale bs !! id = Some t ∧
       (bs !! id = None → t = mkTile scale None None).
Proof.
  unfold LayerBackingStore_createTile. destruct (bs !! id) as [t|] eqn:Ht.
  - exists t. by rewrite Ht.
  - eexists. rewrite lookup_insert_eq. done.
Qed.

Section TileFacts.

Variable currentTime : nat → Q.

(** One tile through the three messages of a frame. *)
Lemma replay_tile_frame layerID tileID scale sourceRect targetRect bitmap st :
  wellFormed st → storesWellFormed st → is_Some (m_rootLayer st) →
  layerID ≠ InvalidWebLayerID →
  ∃ st' p l sp bs t,
    replay currentTime
      [CreateTile layerID tileID scale;
       UpdateTile layerID tileID sourceRect targetRect bitmap;
       FlushLayerChanges] st = Some st' ∧
    m_layers st' !! layerID = Some p ∧ m_heap st' !! p = Some l ∧
    m_backingStore l = Some sp ∧
    m_stores st' !! sp = Some bs ∧ bs !! tileID = Some t ∧
    tile_texture t = Some (mkTileBuffer sourceRect targetRect bitmap) ∧
    tile_backBuffer t = None ∧
    m_backingStoresWithPendingBuffers st' = ∅ ∧
    m_sent st' = m_sent st ++ [RenderNextFrame] ∧
    m_viewportUpdates st' = m_viewportUpdates st ∧
    m_messagesToRenderer st' = m_messagesToRenderer st.
Proof.
  intros Hwf Hsw [r Hr] Hid.
  destruct (getBackingStore_progress layerID st Hwf Hid) as [[sp sa] Hg].
  destruct (getBackingStore_spec _ _ _ _ Hg) as (p & l & Hp & Hl & Hb).
  destruct (getBackingStore_stores _ _ _ _ Hwf Hsw Hg) as [_ [bs0 Hbs0]].
  destruct (getBackingStore_frame _ _ _ _ Hg)
    as ((Hq & Hroot & _ & Hv) & Hsent & _ & _ & _ & Hpend).
  destruct (LayerBackingStore_createTile_lookup tileID scale bs0) as (t0 & Ht0 & _).
  set (sb := with_stores (alter (LayerBackingStore_createTile tileID scale) sp (m_stores sa))
                         sa).
  assert (getBackingStore layerID sb = Some (sp, sb)) as Hgb.
  { by apply (getBackingStore_known layerID sb p l sp). }
  set (sc := with_backingStoresWithPendingBuffers
               ({[sp]} ∪ m_backingStoresWithPendingBuffers sb)
               (with_stores
                  (alter (LayerBackingStore_updateTile tileID sourceRect targetRect bitmap)
                         sp (m_stores sb)) sb)).
  set (buffer := mkTileBuffer sourceRect targetRect bitmap).
  set (t1 := mkTile (tile_scale t0) (Some buffer) (tile_texture t0)).
  set (bs1 := LayerBackingStore_updateTile tileID sourceRect targetRect bitmap
                (LayerBackingStore_createTile tileID scale bs0)).
  assert (m_stores sc !! sp = Some bs1) as Hsc.
  { unfold sc, sb. simpl. by rewrite !lookup_alter_eq, Hbs0. }
  assert (bs1 !! tileID = Some t1) as Ht1.
  { unfold bs1, LayerBackingStore_updateTile. by rewrite lookup_alter_eq, Ht0. }
  set (sd := with_sent (m_sent (swapBuffers sc) ++ [RenderNextFrame]) (swapBuffers sc)).
  exists sd, p, l, sp, (LayerBackingStore_swapBuffers bs1), (swapTile t1).
  split_and!; try done.
  - assert (createTile layerID tileID scale st = Some sb) as H1.
    { unfold createTile. by rewrite Hg. }
    assert (updateTile layerID tileID sourceRect targetRect bitmap sb = Some sc) as H2.
    { unfold updateTile. by rewrite Hgb. }
    assert (flushLayerChanges sc = Some sd) as H3.
    { unfold flushLayerChanges.
      assert (m_rootLayer sc = Some r) as -> by (unfold sc, sb; simpl; congruence).
      done. }
    simpl. rewrite H1. simpl. rewrite H2. simpl. by rewrite H3.
  - unfold layerByID in Hp. by case_decide.
  - change (m_stores (swapBuffers sc) !! sp = Some (LayerBackingStore_swapBuffers bs1)).
    rewrite swapBuffers_lookup, decide_True; [by rewrite Hsc|].
    unfold sc. simpl. set_solver.
  - unfold LayerBackingStore_swapBuffers. by rewrite lookup_fmap, Ht1.
  - simpl. by rewrite Hsent.
Qed.

(** X15.  A tile from the producer to the screen.  On a proxy that is
    well-formed, with well-formed stores and an empty queue,
    [createTileForLayer] with an update of one rectangle, then
    [didRenderFrame], then one run of [syncRemoteContent] with fuel for the
    three messages: the run returns; the layer has a backing store with the
    tile; the tile shows the rectangle and bitmap of the update and has
    nothing pending; no store waits for a swap; one [RenderNextFrame] went
    to the web process; and the drawing area was asked four times to
    update the viewport. *)
Theorem createTileForLayer_shows layerID tileID updateInfo sourceRect st :
  wellFormed st → storesWellFormed st → m_messagesToRenderer st = [] →
  layerID ≠ InvalidWebLayerID → ui_updateRects updateInfo = [sourceRect] →
  ∃ st1 st2 p l sp bs t,
    createTileForLayer layerID tileID updateInfo st = Some st1 ∧
    syncRemoteContent currentTime 4 (didRenderFrame st1) = Some st2 ∧
    m_layers st2 !! layerID = Some p ∧ m_heap st2 !! p = Some l ∧
    m_backingStore l = Some sp ∧
    m_stores st2 !! sp = Some bs ∧ bs !! tileID = Some t ∧
    tile_texture t = Some (mkTileBuffer sourceRect (ui_updateRectBounds updateInfo)
                                        (ui_bitmapHandle updateInfo)) ∧
    tile_backBuffer t = None ∧
    m_backingStoresWithPendingBuffers st2 = ∅ ∧
    m_messagesToRenderer st2 = [] ∧
    m_sent st2 = m_sent st ++ [RenderNextFrame] ∧
    m_viewportUpdates st2 = 4 + m_viewportUpdates st.
Proof.
  intros Hwf Hsw Hq Hid Hrects.
  set (create := CreateTile layerID tileID (ui_updateScaleFactor updateInfo)).
  set (update := UpdateTile layerID tileID sourceRect (ui_updateRectBounds updateInfo)
                            (ui_bitmapHandle updateInfo)).
  set (st1 := pushUpdateToQueue update (pushUpdateToQueue create st)).
  assert (createTileForLayer layerID tileID updateInfo st = Some st1) as H1.
  { unfold createTileForLayer, updateTileForLayer. by rewrite Hrects. }
  assert (m_messagesToRenderer (didRenderFrame st1) = [create; update; FlushLayerChanges])
    as Hqueue.
  { unfold didRenderFrame, st1, pushUpdateToQueue, MessageQueue_append. simpl.
    by rewrite Hq. }
  assert (wellFormed (didRenderFrame st1)) as Hwf1.
  { eapply wellFormed_sameShape; [exact Hwf|]. by split_and!. }
  assert (storesWellFormed (didRenderFrame st1)) as Hsw1.
  { eapply storesWellFormed_keeps; [exact Hsw|apply keepsStores_refl|done|done|done]. }
  destruct (ensureRootLayer_wf _ Hwf1) as [Hwf0 Hroot0].
  pose proof (ensureRootLayer_stores _ Hwf1 Hsw1) as Hsw0.
  destruct (ensureRootLayer_frame (didRenderFrame st1)) as (Hq0 & Hs0 & Hv0 & _).
  set (s0 := ensureRootLayer (didRenderFrame st1)) in *.
  destruct (replay_tile_frame layerID tileID (ui_updateScaleFactor updateInfo) sourceRect
              (ui_updateRectBounds updateInfo) (ui_bitmapHandle updateInfo) s0
              Hwf0 Hsw0 Hroot0 Hid)
    as (s3 & p & l & sp & bs & t & Hr & Hp & Hl & Hb & Hbs & Ht & Htex & Hback & Hpend
        & Hsent & Hv & _).
  exists st1, (with_messagesToRenderer [] s3), p, l, sp, bs, t.
  split_and!; try done.
  - unfold syncRemoteContent. fold s0.
    rewrite drainMessages_replay by (rewrite Hq0, Hqueue; simpl; lia).
    rewrite Hq0, Hqueue. fold create update in Hr. by rewrite Hr.
  - simpl. by rewrite Hsent, Hs0.
  - simpl. rewrite Hv, Hv0. done.
Qed.

(** X16.  [purgeGLResources] forgets the tiles: for a layer that hangs
    under the root container, the next tile message after the purge finds
    the layer without backing store and gives it a new one, which holds the
    tile of that message and nothing of what the layer had before. *)
Theorem purgeGLResources_forgets_tiles fuel st st1 r layerID p tileID scale :
  purgeGLResources fuel st = Some st1 →
  m_rootLayer st = Some r → layerByID layerID st = Some p → reaches (m_heap st) r p →
  ∃ st2 l,
    createTile layerID tileID scale st1 = Some st2 ∧
    m_heap st2 !! p = Some l ∧ m_backingStore l = Some (m_nextStore st) ∧
    m_stores st2 !! m_nextStore st = Some {[tileID := mkTile scale None None]}.
Proof.
  intros H Hr Hp Hreach. unfold purgeGLResources, rootLayer in H. rewrite Hr in H.
  destruct (clearBackingStoresRecursive fuel r (m_heap st)) as [h'|] eqn:Hc;
    simpl in H; [|done].
  injection H as <-.
  apply clearBackingStoresRecursive_spec in Hc as (_ & _ & HC & _).
  destruct (HC p Hreach) as (l0 & Hl0 & Hb0).
  assert (m_layers st !! layerID = Some p) as Hm.
  { unfold layerByID in Hp. by case_decide. }
  unfold createTile, getBackingStore.
  match goal with |- context [ensureLayer layerID ?s] =>
    rewrite (ensureLayer_present layerID s p Hm);
    change (layerByID layerID s) with (layerByID layerID st);
    change (m_heap s) with h';
    change (m_nextStore s) with (m_nextStore st);
    change (m_stores s) with (m_stores st)
  end.
  rewrite Hp. simpl. rewrite Hl0. simpl. rewrite Hb0. simpl.
  eexists _, _. split; [done|]. simpl. split_and!.
  - by rewrite lookup_alter_eq, Hl0.
  - done.
  - rewrite lookup_alter_eq, lookup_insert_eq. simpl.
    unfold LayerBackingStore_createTile. rewrite lookup_empty.
    by rewrite insert_empty.
Qed.

End TileFacts.

(** ** A root ID that is announced before its layer *)

Lemma grows_rootShape st st' r b :
  wellFormed st → grows st st' → m_rootLayer st = Some r →
  rootShape r b (m_heap st) → rootShape r b (m_heap st').
Proof.
  intros Hwf (_ & _ & Hold & _) Hr H. eapply rootShape_same; [|exact H].
  apply Hold. apply (wf_fresh _ Hwf). by apply (wf_root _ Hwf).
Qed.

Section StaleRootFacts.

Variable currentTime : nat → Q.

(** A descriptor that does not set the root adds nothing to the root
    container. *)
Lemma syncLayerParameters_rootShape info st st' r b :
  wellFormed st → linked (m_heap st) → m_rootLayer st = Some r →
  rootShape r b (m_heap st) →
  li_isRootLayer info && bool_decide (m_rootLayerID st ≠ li_id info) = false →
  syncLayerParameters currentTime info st = Some st' →
  rootShape r b (m_heap st').
Proof.
  intros Hwf Hl Hr Hshape Hcond. rewrite syncLayerParameters_steps. cbv zeta.
  destruct (ensureLayer_wf (li_id info) st Hwf) as (Hw0 & Hg0 & _).
  pose proof (ensureLayer_linked (li_id info) st Hwf Hl) as Hl0.
  pose proof (grows_rootShape _ _ r b Hwf Hg0 Hr Hshape) as Hs0.
  assert (m_rootLayer (ensureLayer (li_id info) st) = Some r ∧
          m_rootLayerID (ensureLayer (li_id info) st) = m_rootLayerID st) as [Hr0 Hi0].
  { destruct Hg0 as (_ & _ & _ & _ & -> & -> & _). done. }
  clear Hg0.
  generalize dependent (ensureLayer (li_id info) st). intros s0 Hw0 Hl0 Hs0 Hr0 Hi0.
  destruct (m_layers s0 !! li_id info) as [p|] eqn:Hp; [|done]. simpl.
  destruct (m_heap s0 !! p) as [l|] eqn:Hlp; [|done]. simpl.
  match goal with |- (?o ≫= _) = _ → _ => destruct o as [image|]; [|done] end. simpl.
  assert (r ≠ p) as Hrp by (by eapply wellFormed_root_other).
  set (s1 := updateLayer p _ s0).
  assert (wellFormed s1) as Hw1.
  { eapply wellFormed_sameShape; [exact Hw0|]. apply updateLayer_shape. }
  assert (linked (m_heap s1)) as Hl1.
  { apply linked_alter; [|done]. intros l0. apply linksOf_syncedLayer. }
  assert (rootShape r b (m_heap s1)) as Hs1.
  { eapply rootShape_same; [|exact Hs0]. unfold s1. by apply updateLayer_heap_ne. }
  assert (is_Some (m_heap s1 !! p)) as Hp1.
  { unfold s1. rewrite updateLayer_heap_eq, Hlp. simpl. eauto. }
  assert (m_rootLayer s1 = Some r ∧ m_rootLayerID s1 = m_rootLayerID st) as [Hr1 Hi1]
    by done.
  clearbody s1.
  destruct (resolveChildren_wf (li_children info) s1 Hw1) as (HwB & HgB & _ & HcsB).
  pose proof (resolveChildren_linked (li_children info) s1 Hw1 Hl1) as HlB.
  pose proof (grows_rootShape _ _ r b Hw1 HgB Hr1 Hs1) as HsB.
  pose proof (resolveChildren_nodes (li_children info) s1) as Hnodes.
  assert (is_Some (m_heap (resolveChildren (li_children info) s1).2 !! p)) as HpB.
  { destruct HgB as (_ & _ & Hold & _). rewrite Hold; [done|]. by apply (wf_fresh _ Hw1). }
  assert (m_rootLayerID (resolveChildren (li_children info) s1).2 = m_rootLayerID st) as HiB.
  { destruct HgB as (_ & _ & _ & _ & _ & -> & _). done. }
  clear HgB.
  generalize dependent (resolveChildren (li_children info) s1). intros [cs sB].
  simpl. intros HwB HcsB HlB HsB Hnodes HpB HiB.
  assert (rootShape r b (setChildren p cs (m_heap sB))) as HsC.
  { apply rootShape_setChildren; try done.
    intros Hin. destruct (Hnodes r Hin) as [[i Hi]|Hge].
    - by apply (wellFormed_root_other s1 r i r Hw1 Hr1 Hi).
    - assert (r < m_nextLayer s1); [|lia]. by apply (wf_fresh _ Hw1), (wf_root _ Hw1). }
  set (sC := with_heap (setChildren p cs (m_heap sB)) sB).
  assert (m_rootLayerID sC = m_rootLayerID st) as HiC by done.
  change (rootShape r b (m_heap sC)) in HsC.
  clearbody sC.
  destruct (applyAnimations_attributeFrame currentTime p (li_animations info) sC)
    as [_ HiD].
  pose proof (applyAnimations_other currentTime p (li_animations info) sC r Hrp) as HrD.
  generalize dependent (foldl (λ st' a, applyAnimation currentTime p a st') sC
                              (li_animations info)).
  intros sD HiD HrD. rewrite HiD, HiC, Hcond. intros [= <-].
  eapply rootShape_same; [exact HrD|exact HsC].
Qed.

(** X17.  The order of [SetRootLayer] and the first descriptor of the
    layer matters.  When the root ID is set to an ID that names no layer
    yet, the root container is left empty; a descriptor for that ID that
    arrives afterwards creates the layer and may flag it as root, but the
    root ID is that ID already, so the layer is not put under the root
    container: the container stays empty although the root ID names a
    layer. *)
Theorem setRootLayerID_before_layer info st s1 s2 r :
  wellFormed st → linked (m_heap st) → rootHoldsRootLayer st →
  m_rootLayer st = Some r →
  m_layers st !! li_id info = None → li_id info ≠ m_rootLayerID st →
  setRootLayerID (li_id info) st = Some s1 →
  syncLayerParameters currentTime info s1 = Some s2 →
  m_rootLayerID s2 = li_id info ∧
  is_Some (m_layers s2 !! li_id info) ∧
  ∃ lr, m_heap s2 !! r = Some lr ∧ m_children lr = [].
Proof.
  intros Hwf Hl Hinv Hr Hnone Hne H1 H2.
  pose proof (applyMessage_wf currentTime (SetRootLayer (li_id info)) st s1 Hwf H1) as Hwf1.
  pose proof (setRootLayerID_linked _ _ _ Hwf Hl H1) as Hl1.
  destruct (setRootLayerID_attributeFrame _ _ _ H1) as ([(_ & _ & _ & Hr1) _] & Hid1 & _).
  rewrite Hr in Hr1.
  assert (rootShape r None (m_heap s1)) as Hs1.
  { pose proof (setRootLayerID_rootHolds _ _ _ Hwf Hl Hinv H1 r Hr1) as Hs.
    eapply rootShape_weaken; [|exact Hs]. intros c. rewrite Hid1.
    apply setRootLayerID_attributeFrame in H1 as ([(Hlay & _) _] & _).
    unfold layerByID. case_decide; [done|]. rewrite Hlay, Hnone. done. }
  assert (rootShape r None (m_heap s2)) as (lr & Hlr & _ & Hcs).
  { eapply (syncLayerParameters_rootShape info s1 s2 r None); try done.
    rewrite Hid1. apply andb_false_iff. right. by apply bool_decide_eq_false_2; intros ?. }
  destruct (syncLayerParameters_spec currentTime _ _ _ Hwf1 H2)
    as (_ & (p & l' & Hp & _) & _ & _ & _ & _ & Hid2 & _).
  split_and!.
  - rewrite Hid2. by destruct (li_isRootLayer info).
  - eauto.
  - exists lr. split; [done|]. destruct Hcs as [?|(c & ? & _)]; done.
Qed.

End StaleRootFacts.

(** ** Images that come and go *)

Section ImageFacts.

Variable currentTime : nat → Q.

(** X18.  An image is assignable exactly while it is registered: a
    descriptor that says its image was updated shows the bitmap of the
    latest [CreateImage] for its image ID when it arrives after one, and
    fails the assertion of [assignImageToLayer] when it arrives after
    [DestroyImage] for that ID. *)
Theorem createImage_then_sync info bitmap st :
  wellFormed st → is_Some (m_rootLayer st) →
  li_imageIsUpdated info = true →
  (∃ st' p l',
     syncLayerParameters currentTime info
       (createImage (li_imageBackingStoreID info) bitmap st) = Some st' ∧
     m_layers st' !! li_id info = Some p ∧ m_heap st' !! p = Some l' ∧
     m_contentsLayer l' = Some (mkImageBacking bitmap)) ∧
  syncLayerParameters currentTime info (destroyImage (li_imageBackingStoreID info) st)
  = None.
Proof.
  intros Hwf Hroot Hup.
  assert (∀ s, needsToUpdateImageTiles info (layerBeforeSync info s) = true) as Hdue.
  { intros s. unfold needsToUpdateImageTiles. by rewrite Hup. }
  split.
  - set (s0 := createImage (li_imageBackingStoreID info) bitmap st).
    assert (wellFormed s0) as Hwf0.
    { eapply wellFormed_sameShape; [exact Hwf|]. by split_and!. }
    assert (m_directlyCompositedImages s0 !! li_imageBackingStoreID info
            = Some (mkImageBacking bitmap)) as Himg.
    { unfold s0, createImage. simpl. apply lookup_insert_eq. }
    destruct (syncLayerParameters_progress currentTime info s0 Hwf0 Hroot) as [st' H].
    { intros _. exists (mkImageBacking bitmap). exact Himg. }
    destruct (syncLayerParameters_π m_contentsLayer ltac:(done) ltac:(done) ltac:(done)
                currentTime info s0 st' Hwf0 H)
      as (p & l & image & Hp & Hl & Hp' & Hd & Hat & _).
    pose proof (ensureLayer_layer info s0 p l Hwf0 Hp Hl) as ->.
    rewrite Hdue in Hd. destruct Hd as [_ ->]. rewrite Himg in Hat.
    rewrite m_contentsLayer_syncedLayer in Hat.
    destruct (m_heap st' !! p) as [l'|] eqn:Hl'; [|done].
    exists st', p, l'. split_and!; try done. by injection Hat.
  - apply syncLayerParameters_aborts.
    + eapply wellFormed_sameShape; [exact Hwf|]. by split_and!.
    + apply Hdue.
    + unfold destroyImage. simpl. apply lookup_delete_eq.
Qed.

End ImageFacts.

(** ** The root container is out of reach of the messages *)

Lemma getBackingStore_other id st sp st' q p :
  wellFormed st → getBackingStore id st = Some (sp, st') →
  is_Some (m_heap st !! q) → layerByID id st' = Some p → q ≠ p →
  m_heap st' !! q = m_heap st !! q.
Proof.
  intros Hwf H Hq Hp Hne. unfold getBackingStore in H.
  pose proof (ensureLayer_allocates id st Hwf q) as Ha.
  set (s0 := ensureLayer id st) in *. clearbody s0.
  destruct (layerByID id s0) as [p0|] eqn:Hp0; simpl in H; [|done].
  destruct (m_heap s0 !! p0) as [l|]; simpl in H; [|done].
  assert (m_heap s0 !! q = m_heap st !! q) as <-.
  { destruct Ha as [?|[Hn _]]; [done|]. destruct Hq as [? Hq]. congruence. }
  destruct (m_backingStore l); simplify_eq; [done|].
  simpl. apply lookup_alter_ne.
  change (layerByID id (updateLayer p0 _ _)) with (layerByID id s0) in Hp. congruence.
Qed.

Section ContainerFacts.

Variable currentTime : nat → Q.

Lemma applyMessage_container m st st' r :
  wellFormed st → m_rootLayer st = Some r →
  applyMessage currentTime m st = Some st' →
  ownMembers <$> m_heap st' !! r = ownMembers <$> m_heap st !! r.
Proof.
  intros Hwf Hr H.
  destruct (wf_root _ Hwf r Hr) as [Hlive Hno].
  pose proof (applyMessage_wf _ _ _ _ Hwf H) as Hwf'.
  assert (m_rootLayer st' = Some r) as Hr'.
  { apply applyMessage_frame in H as (_ & -> & _). done. }
  destruct (wf_root _ Hwf' r Hr') as [Hlive' Hno'].
  assert (∀ layerID sp s1, getBackingStore layerID st = Some (sp, s1) →
            m_heap st' = m_heap s1 → m_layers st' = m_layers s1 →
            ownMembers <$> m_heap st' !! r = ownMembers <$> m_heap st !! r) as Htile.
  { intros layerID sp s1 Hg Hheap Hlay. rewrite Hheap.
    destruct (getBackingStore_spec _ _ _ _ Hg) as (p & l & Hp & _).
    rewrite (getBackingStore_other _ _ _ _ r p Hwf Hg Hlive Hp); [done|].
    intros ->. unfold layerByID in Hp. case_decide; [done|].
    apply (Hno' layerID). by rewrite Hlay. }
  destruct m; simpl in H.
  - injection H as <-.
    destruct (deleteLayer_π ownMembers ltac:(done) ltac:(done) layerID st r) as [Hn|?];
      [|done].
    destruct Hlive' as [? ?]. congruence.
  - unfold createTile in H.
    destruct (getBackingStore layerID st) as [[sp s1]|] eqn:Hg; simplify_eq/=.
    by eapply Htile.
  - unfold removeTile in H.
    destruct (getBackingStore layerID st) as [[sp s1]|] eqn:Hg; simplify_eq/=.
    by eapply Htile.
  - unfold updateTile in H.
    destruct (getBackingStore layerID st) as [[sp s1]|] eqn:Hg; simplify_eq/=.
    by eapply Htile.
  - by injection H as <-.
  - by injection H as <-.
  - destruct (syncLayerParameters_π ownMembers ltac:(done) ltac:(done) ltac:(done)
                currentTime layerInfo st st' Hwf H)
      as (p & l0 & image & _ & _ & Hp' & _ & _ & Hother).
    assert (r ≠ p) as Hrp.
    { intros ->. by apply (Hno' (li_id layerInfo)). }
    destruct (Hother r Hrp) as [?|[Hn _]]; [done|].
    destruct Hlive as [? ?]. congruence.
  - unfold flushLayerChanges in H. destruct (m_rootLayer st); by simplify_eq/=.
  - by apply (setRootLayerID_π ownMembers ltac:(done) ltac:(done) layerID st st' r).
Qed.

Lemma drainMessages_container fuel st st' r :
  wellFormed st → m_rootLayer st = Some r →
  drainMessages currentTime fuel st = Some st' →
  ownMembers <$> m_heap st' !! r = ownMembers <$> m_heap st !! r.
Proof.
  revert st. induction fuel as [|fuel IH]; intros st Hwf Hr H; simpl in H; [done|].
  destruct (m_messagesToRenderer st) as [|m rest]; simpl in H; [by simplify_eq|].
  destruct (applyMessage currentTime m (with_messagesToRenderer rest st)) as [s1|] eqn:Ha;
    simpl in H; [|done].
  assert (wellFormed (with_messagesToRenderer rest st)) as Hwf'.
  { eapply wellFormed_sameShape; [exact Hwf|]. by split_and!. }
  assert (m_rootLayer s1 = Some r) as Hr1.
  { pose proof (applyMessage_frame _ _ _ _ Ha) as (_ & -> & _). done. }
  rewrite (IH s1 (applyMessage_wf _ _ _ _ Hwf' Ha) Hr1 H).
  by apply (applyMessage_container m (with_messagesToRenderer rest st) s1 r).
Qed.

(** X19.  No message reaches the root container.  In every state the proxy
    reaches by enqueueing messages, by [syncRemoteContent] and by
    [purgeGLResources] (the paint into the GL context, which sets the
    opacity and the transform of the container, is not among these steps),
    the root container is as [ensureRootLayer] set it up: of size
    1 by 1 (so that it is not optimized out), anchored at the origin, not
    clipping, not drawing content, with the other attributes of a layer
    just created, without backing store and without contents. *)
Theorem reachable_rootContainer st r :
  reachable currentTime st → m_rootLayer st = Some r →
  ∃ lr, m_heap st !! r = Some lr ∧
        attributesOf lr = attributesOf rootContainer ∧
        m_size lr = (1, 1)%Q ∧ m_anchorPoint lr = (0, 0, 0)%Q ∧
        m_masksToBounds lr = false ∧ m_drawsContent lr = false ∧
        m_backingStore lr = None ∧ m_contentsLayer lr = None.
Proof.
  intros Hreach Hr.
  assert (ownMembers <$> m_heap st !! r = Some (ownMembers rootContainer)) as H.
  { revert r Hr.
    induction Hreach as [|st m Hreach IH|st fuel st' Hreach IH H|st fuel st' Hreach IH H];
      intros r Hr.
    - done.
    - by apply IH.
    - pose proof (reachable_wf _ _ Hreach) as Hwf.
      unfold syncRemoteContent in H.
      destruct (ensureRootLayer_wf st Hwf) as [Hwf0 _].
      assert (m_rootLayer (ensureRootLayer st) = Some r) as Hr0.
      { apply drainMessages_drains in H as [Hd _].
        destruct (drains_run _ _ _ _ Hd) as (_ & _ & <- & _). done. }
      rewrite (drainMessages_container _ _ _ r Hwf0 Hr0 H).
      destruct (m_rootLayer st) as [r0|] eqn:Hrst.
      + rewrite (ensureRootLayer_present _ _ Hrst) in Hr0 |- *.
        apply IH. congruence.
      + revert Hr0. unfold ensureRootLayer. rewrite Hrst. simpl.
        destruct (m_textureMapper st); simpl; intros [= <-];
          by rewrite !lookup_alter_eq, lookup_insert_eq.
    - unfold purgeGLResources, rootLayer in H.
      destruct (m_rootLayer st) as [r0|] eqn:Hrst; simpl in H.
      2:{ injection H as <-. simpl in Hr. congruence. }
      destruct (clearBackingStoresRecursive fuel r0 (m_heap st)) as [h'|] eqn:Hc;
        simpl in H; [|done].
      injection H as <-. simpl in Hr. rewrite Hrst in Hr. injection Hr as <-.
      specialize (IH r0 eq_refl). simpl.
      apply clearBackingStoresRecursive_spec in Hc as (HA & HB & _).
      destruct (m_heap st !! r0) as [lr|] eqn:Hlr; [|done].
      apply (inj Some) in IH.
      destruct (HB r0) as (lr' & Hlr' & Hb').
      { exists lr. split; [done|]. exact (f_equal (λ x, x.1.2) IH). }
      specialize (HA r0). rewrite Hlr, Hlr' in HA. apply (inj Some) in HA.
      rewrite Hlr'. simpl. f_equal. rewrite <- IH. unfold ownMembers.
      change (attributesOf lr') with (attributesOf (setBackingStore None lr')).
      change (m_contentsLayer lr') with (m_contentsLayer (setBackingStore None lr')).
      change (attributesOf lr) with (attributesOf (setBackingStore None lr)).
      change (m_contentsLayer lr) with (m_contentsLayer (setBackingStore None lr)).
      rewrite HA, Hb'. f_equal. f_equal. symmetry. exact (f_equal (λ x, x.1.2) IH). }
  destruct (m_heap st !! r) as [lr|]; [|done]. apply (inj Some) in H.
  assert (attributesOf lr = attributesOf rootContainer) as Ha
    by exact (f_equal (λ x, x.1.1) H).
  assert (m_backingStore lr = None) as Hb by exact (f_equal (λ x, x.1.2) H).
  assert (m_contentsLayer lr = None) as Hc by exact (f_equal (λ x, x.2) H).
  exists lr. split; [done|]. split; [exact Ha|].
  split_and!; try done.
  - change (la_size (attributesOf lr) = (1, 1)%Q). by rewrite Ha.
  - change (la_anchorPoint (attributesOf lr) = (0, 0, 0)%Q). by rewrite Ha.
  - change (la_masksToBounds (attributesOf lr) = false). by rewrite Ha.
  - change (la_drawsContent (attributesOf lr) = false). by rewrite Ha.
Qed.

End ContainerFacts.

(** ** The further statements at concrete inputs *)

Lemma newProxy_linked : linked (m_heap newProxy).
Proof. split_and!; intros ? ?; simpl; by rewrite lookup_empty. Qed.

Lemma newProxy_stores : storesWellFormed newProxy.
Proof.
  split; simpl.
  - intros p l sp Hp. by rewrite lookup_empty in Hp.
  - intros p q l l' sp Hp. by rewrite lookup_empty in Hp.
  - intros sp [? Hsp]. by rewrite lookup_empty in Hsp.
  - intros sp Hsp. set_solver.
Qed.

Lemma startProxy_linked : linked (m_heap startProxy).
Proof. apply ensureRootLayer_linked; [apply newProxy_wf|apply newProxy_linked]. Qed.

Lemma startProxy_stores : storesWellFormed startProxy.
Proof. apply ensureRootLayer_stores; [apply newProxy_wf|apply newProxy_stores]. Qed.

Lemma startProxy_rootHolds : rootHoldsRootLayer startProxy.
Proof. apply ensureRootLayer_rootHolds; [apply newProxy_wf|]. by intros r Hr. Qed.

Lemma startProxy_reachable : reachable exampleClock startProxy.
Proof. apply (reachable_sync exampleClock newProxy 1); [constructor|vm_compute; reflexivity]. Qed.

Lemma syncedProxy_reachable : reachable exampleClock syncedProxy.
Proof.
  apply (reachable_sync exampleClock (enqueueAll exampleFrame newProxy) 4).
  - unfold enqueueAll, exampleFrame. simpl. repeat apply reachable_enqueue. constructor.
  - vm_compute. reflexivity.
Qed.

Lemma shownProxy_wf : wellFormed shownProxy.
Proof.
  apply (applyMessage_wf exampleClock (SyncLayerParameters imageInfo) imageProxy);
    [exact imageProxy_wf|vm_compute; reflexivity].
Qed.

(** The frame [exampleFrame] holds one flush. *)
Lemma syncRemoteContent_sent_witness :
  ∃ st', syncRemoteContent exampleClock 4 (enqueueAll exampleFrame newProxy) = Some st' ∧
         m_sent st' = [RenderNextFrame] ∧ m_viewportUpdates st' = 3.
Proof.
  assert (∃ st', syncRemoteContent exampleClock 4 (enqueueAll exampleFrame newProxy)
                 = Some st') as [st' H] by (eexists; vm_compute; reflexivity).
  exists st'. split; [exact H|].
  destruct (syncRemoteContent_sent exampleClock 4 _ st' H) as [Hs Hv].
  split; [rewrite Hs|rewrite Hv]; vm_compute; reflexivity.
Defined.

Lemma syncRemoteContent_settles_witness :
  ∃ st', syncRemoteContent exampleClock 4 (enqueueAll exampleFrame newProxy) = Some st' ∧
         syncRemoteContent exampleClock 1 st' = Some st'.
Proof.
  assert (∃ st', syncRemoteContent exampleClock 4 (enqueueAll exampleFrame newProxy)
                 = Some st') as [st' H] by (eexists; vm_compute; reflexivity).
  exists st'. split; [exact H|].
  exact (syncRemoteContent_settles exampleClock 4 _ st' 0 H).
Defined.

(** The root container of [syncedProxy] is layer 0; it stays through a
    purge. *)
Lemma rootLayer_permanent_witness :
  is_Some (m_heap syncedProxy !! 0) ∧
  ∃ st', purgeGLResources 3 syncedProxy = Some st' ∧ m_rootLayer st' = Some 0.
Proof.
  destruct (rootLayer_permanent exampleClock syncedProxy 0 syncedProxy_reachable)
    as (Hlive & _ & _ & _ & Hpurge).
  { vm_compute. reflexivity. }
  split; [exact Hlive|].
  assert (∃ st', purgeGLResources 3 syncedProxy = Some st') as [st' H]
    by (eexists; vm_compute; reflexivity).
  exists st'. split; [exact H|]. exact (proj1 (Hpurge 3 st' H)).
Defined.

Lemma getBackingStore_reuses_witness :
  ∃ sp st', getBackingStore 5 startProxy = Some (sp, st') ∧
            getBackingStore 5 st' = Some (sp, st').
Proof.
  assert (∃ r, getBackingStore 5 startProxy = Some r) as [[sp st'] H]
    by (eexists; vm_compute; reflexivity).
  exists sp, st'. split; [exact H|]. exact (getBackingStore_reuses 5 startProxy sp st' H).
Defined.

(** Removing tile 0 of the unknown layer 5 creates layer 5 at address 1
    with the empty store 0. *)
Lemma removeTile_materializes_witness :
  ∃ st', removeTile 5 0 startProxy = Some st' ∧
         m_layers st' !! 5%N = Some 1 ∧ m_stores st' !! 0 = Some ∅.
Proof.
  destruct (removeTile_materializes 5 0 startProxy) as (st' & H & Hl & _ & Hs & _).
  - done.
  - vm_compute. reflexivity.
  - exists st'. split; [exact H|]. split.
    + rewrite Hl. vm_compute. reflexivity.
    + exact Hs.
Defined.

Lemma reachable_linked_witness : linked (m_heap syncedProxy).
Proof. exact (reachable_linked exampleClock syncedProxy syncedProxy_reachable). Defined.

Lemma reachable_rootHoldsRootLayer_witness : rootHoldsRootLayer syncedProxy.
Proof.
  exact (reachable_rootHoldsRootLayer exampleClock syncedProxy syncedProxy_reachable).
Defined.

Lemma reachable_storesWellFormed_witness : storesWellFormed syncedProxy.
Proof.
  exact (reachable_storesWellFormed exampleClock syncedProxy syncedProxy_reachable).
Defined.

(** Layer 1 shows the bitmap registered as image 7. *)
Lemma syncLayerParameters_contents_witness :
  ∃ st' p l', syncLayerParameters exampleClock imageInfo imageProxy = Some st' ∧
              m_layers st' !! 1%N = Some p ∧ m_heap st' !! p = Some l' ∧
              m_contentsLayer l' = Some (mkImageBacking 99).
Proof.
  assert (∃ st', syncLayerParameters exampleClock imageInfo imageProxy = Some st')
    as [st' H] by (eexists; vm_compute; reflexivity).
  destruct (syncLayerParameters_contents exampleClock imageInfo imageProxy st' imageProxy_wf H)
    as (p & l' & Hp & Hl & Hc & _).
  exists st', p, l'. split_and!; try done.
Defined.

(** Layer 1 of [shownProxy] keeps its contents through [afterImage]. *)
Lemma replay_keeps_contents_witness :
  ∃ st' l', replay exampleClock afterImage shownProxy = Some st' ∧
            m_layers st' !! 1%N = Some 1 ∧ m_heap st' !! 1 = Some l' ∧
            is_Some (m_contentsLayer l').
Proof.
  assert (∃ st', replay exampleClock afterImage shownProxy = Some st') as [st' H]
    by (eexists; vm_compute; reflexivity).
  assert (∃ l, m_heap shownProxy !! 1 = Some l ∧ is_Some (m_contentsLayer l))
    as (l & Hl & Hc) by (eexists; split; [vm_compute; reflexivity|vm_compute; eauto]).
  assert (DeleteLayer 1 ∉ afterImage) as Hn.
  { intros Hin. repeat (apply elem_of_cons in Hin as [Hin|Hin]; [discriminate|]).
    by apply elem_of_nil in Hin. }
  assert (m_layers shownProxy !! 1%N = Some 1) as Hi by (vm_compute; reflexivity).
  destruct (replay_keeps_contents exampleClock afterImage shownProxy st' 1%N 1 l
              shownProxy_wf H Hn Hi Hl Hc) as (l' & Hp' & Hl' & Hc').
  exists st', l'. by split_and!.
Defined.

(** The mask 2 of [maskedInfo] is among its children and is created by the
    call, yet the mask reference is null; the replica 3 is not created. *)
Lemma syncLayerParameters_mask_witness :
  ∃ st' p l', syncLayerParameters exampleClock maskedInfo startProxy = Some st' ∧
              m_layers st' !! 1%N = Some p ∧ m_heap st' !! p = Some l' ∧
              m_maskLayer l' = None ∧ is_Some (m_layers st' !! 2%N) ∧
              m_replicaLayer l' = None ∧ m_layers st' !! 3%N = None.
Proof.
  assert (∃ st', syncLayerParameters exampleClock maskedInfo startProxy = Some st' ∧
                 is_Some (m_layers st' !! 2%N)) as (st' & H & H2).
  { eexists. split; [vm_compute; reflexivity|vm_compute; eauto]. }
  destruct (syncLayerParameters_mask exampleClock maskedInfo startProxy st' startProxy_wf H)
    as (p & l' & Hp & Hl & _ & _ & _ & _ & Hm & Hr).
  destruct Hm as [Hm _]; [done|vm_compute; reflexivity|].
  destruct Hr as [Hr Hr3]; [done|vm_compute; reflexivity|].
  exists st', p, l'. split_and!; try done.
  apply Hr3. intros Hin. apply elem_of_cons in Hin as [Hin|Hin]; [discriminate|].
  by apply elem_of_nil in Hin.
Defined.

Lemma NoDup_single_child : NoDup [2%N].
Proof. apply NoDup_singleton. Qed.

(** Layer 1 gets the node of child 2 as its only child. *)
Lemma syncLayerParameters_children_witness :
  ∃ st' p l' pc,
    syncLayerParameters exampleClock (exampleInfo 1 true false [2%N] 0 false) startProxy
    = Some st' ∧
    m_layers st' !! 1%N = Some p ∧ m_heap st' !! p = Some l' ∧
    m_children l' = [pc] ∧ m_layers st' !! 2%N = Some pc.
Proof.
  assert (∃ st', syncLayerParameters exampleClock (exampleInfo 1 true false [2%N] 0 false)
                   startProxy = Some st') as [st' H] by (eexists; vm_compute; reflexivity).
  destruct (syncLayerParameters_children exampleClock (exampleInfo 1 true false [2%N] 0 false)
              startProxy st' startProxy_wf startProxy_linked NoDup_single_child)
    as (p & l' & Hp & Hl & Hcs & _); try done.
  - intros Hin. apply elem_of_cons in Hin as [Hin|Hin]; [discriminate|].
    by apply elem_of_nil in Hin.
  - intros Hin. apply elem_of_cons in Hin as [Hin|Hin]; [discriminate|].
    by apply elem_of_nil in Hin.
  - simpl in Hcs. inversion Hcs as [|c pc cs pcs Hpc Hrest Heq1 Heq2]. subst.
    inversion Hrest. subst.
    exists st', p, l', pc. by split_and!.
Defined.

(** A proxy painted into the GL context refuses to paint into a
    [QPainter]. *)
Lemma paint_keeps_mode_witness :
  ∃ painted st',
    paintToCurrentGLContext exampleClock noAnimations noneRunning 1 [] 1
      (mkFloatRect 0 0 100 100) newProxy = Some (painted, st') ∧
    m_textureMapper st' = Some OpenGLMode ∧
    paintToGraphicsContext exampleClock 1 st' = None.
Proof.
  assert (∃ r, paintToCurrentGLContext exampleClock noAnimations noneRunning 1 [] 1
                 (mkFloatRect 0 0 100 100) newProxy = Some r) as [[painted st'] H]
    by (eexists; vm_compute; reflexivity).
  destruct (paint_keeps_mode exampleClock noAnimations noneRunning newProxy) as [Hgl _].
  destruct (Hgl 1 [] 1%Q (mkFloatRect 0 0 100 100) painted st' H) as (_ & Hm & Hsw).
  exists painted, st'. split_and!; [exact H|exact Hm|exact (Hsw 1)].
Defined.

(** The first paint of a new proxy paints the root container with the
    opacity 1/2 passed to it. *)
Lemma paintToCurrentGLContext_paints_witness :
  ∃ frame st' l,
    paintToCurrentGLContext exampleClock noAnimations noneRunning 1 [] (1 # 2)
      (mkFloatRect 0 0 100 100) newProxy = Some (Some frame, st') ∧
    m_heap frame !! 0 = Some l ∧ m_opacity l = (1 # 2)%Q.
Proof.
  assert (∃ r, paintToCurrentGLContext exampleClock noAnimations noneRunning 1 [] (1 # 2)
                 (mkFloatRect 0 0 100 100) newProxy = Some r) as [[painted st'] H]
    by (eexists; vm_compute; reflexivity).
  destruct (paintToCurrentGLContext_paints exampleClock noAnimations noneRunning 1 []
              (1 # 2)%Q (mkFloatRect 0 0 100 100) newProxy painted st' H)
    as (frame & synced & r & l & -> & Hs & _ & Hr & Hl & Ho & _).
  assert (r = 0) as ->.
  { injection H as Hf _. rewrite <- Hf in Hr. vm_compute in Hr. by injection Hr. }
  exists frame, st', l. by split_and!.
Defined.

(** Tile 0 of layer 1, from [createTileForLayer] to the screen. *)
Lemma createTileForLayer_shows_witness :
  ∃ st1 st2 p l sp bs t,
    createTileForLayer 1 0 exampleUpdate startProxy = Some st1 ∧
    syncRemoteContent exampleClock 4 (didRenderFrame st1) = Some st2 ∧
    m_layers st2 !! 1%N = Some p ∧ m_heap st2 !! p = Some l ∧
    m_backingStore l = Some sp ∧ m_stores st2 !! sp = Some bs ∧ bs !! 0%Z = Some t ∧
    tile_texture t = Some (mkTileBuffer (mkIntRect 0 0 8 8) (mkIntRect 0 0 8 8) 42) ∧
    m_sent st2 = [RenderNextFrame].
Proof.
  destruct (createTileForLayer_shows exampleClock 1 0 exampleUpdate (mkIntRect 0 0 8 8)
              startProxy startProxy_wf startProxy_stores)
    as (st1 & st2 & p & l & sp & bs & t & H1 & H2 & Hp & Hl & Hb & Hbs & Ht & Htex & _ & _
        & _ & Hsent & _); try done.
  exists st1, st2, p, l, sp, bs, t. split_and!; try done.
Defined.

(** After a purge, a new tile of layer 1 sits alone in a new store. *)
Lemma purgeGLResources_forgets_tiles_witness :
  ∃ st1 st2 l,
    purgeGLResources 3 framedProxy = Some st1 ∧
    createTile 1 5 1 st1 = Some st2 ∧
    m_heap st2 !! 1 = Some l ∧ m_backingStore l = Some 1 ∧
    m_stores st2 !! 1 = Some {[5%Z := mkTile 1 None None]}.
Proof.
  assert (∃ st1, purgeGLResources 3 framedProxy = Some st1) as [st1 H]
    by (eexists; vm_compute; reflexivity).
  destruct (purgeGLResources_forgets_tiles 3 framedProxy st1 0 1%N 1 5 1%Q H)
    as (st2 & l & H2 & Hl & Hb & Hs).
  - vm_compute. reflexivity.
  - vm_compute. reflexivity.
  - eapply (reaches_child _ 0 _ 1 1); [vm_compute; reflexivity| |].
    + vm_compute. apply elem_of_cons. by left.
    + eapply reaches_self. vm_compute. reflexivity.
  - exists st1, st2, l. by split_and!.
Defined.

(** Root ID 1 announced on a proxy without layer 1, then the descriptor of
    layer 1, flagged as root: the root container has no child. *)
Lemma setRootLayerID_before_layer_witness :
  ∃ s1 s2 lr,
    setRootLayerID 1 startProxy = Some s1 ∧
    syncLayerParameters exampleClock (exampleInfo 1 true false [] 0 false) s1 = Some s2 ∧
    m_rootLayerID s2 = 1%N ∧ is_Some (m_layers s2 !! 1%N) ∧
    m_heap s2 !! 0 = Some lr ∧ m_children lr = [].
Proof.
  assert (∃ s1, setRootLayerID 1 startProxy = Some s1) as [s1 H1]
    by (eexists; vm_compute; reflexivity).
  assert (∃ s2, syncLayerParameters exampleClock (exampleInfo 1 true false [] 0 false) s1
                = Some s2) as [s2 H2].
  { injection H1 as <-. eexists. vm_compute. reflexivity. }
  destruct (setRootLayerID_before_layer exampleClock (exampleInfo 1 true false [] 0 false)
              startProxy s1 s2 0 startProxy_wf startProxy_linked startProxy_rootHolds)
    as (Hid & Hl & lr & Hlr & Hcs); try done.
  exists s1, s2, lr. by split_and!.
Defined.

(** Image 7 registered with bitmap 99, then the descriptor [imageInfo];
    and the same descriptor after image 7 was destroyed. *)
Lemma createImage_then_sync_witness :
  (∃ st' p l',
     syncLayerParameters exampleClock imageInfo (createImage 7 99 startProxy) = Some st' ∧
     m_layers st' !! 1%N = Some p ∧ m_heap st' !! p = Some l' ∧
     m_contentsLayer l' = Some (mkImageBacking 99)) ∧
  syncLayerParameters exampleClock imageInfo (destroyImage 7 startProxy) = None.
Proof.
  apply (createImage_then_sync exampleClock imageInfo 99 startProxy startProxy_wf).
  - vm_compute. eauto.
  - reflexivity.
Defined.

(** The root container of [syncedProxy] is of size 1 by 1 and does not
    clip. *)
Lemma reachable_rootContainer_witness :
  ∃ lr, m_heap syncedProxy !! 0 = Some lr ∧ m_size lr = (1, 1)%Q ∧
        m_masksToBounds lr = false.
Proof.
  destruct (reachable_rootContainer exampleClock syncedProxy 0 syncedProxy_reachable)
    as (lr & Hlr & _ & Hsize & _ & Hm & _).
  { vm_compute. reflexivity. }
  exists lr. by split_and!.
Defined.
